(** * compose: duration codec, scalar presentation and config denormalizer

    A shallow embedding of [compose/timeparse.py] and
    [compose/config/serialize.py], with the properties of the codec and of
    the denormalizer stated and proved over it.

    Conventions of the embedding.
    - A Python [str] is a [string]: a sequence of code points, here those
      below 256 (Latin-1), which contains every character the sources
      mention (the micro sign is code point 181).
    - A Python [int] is a [Z]; a Python [float] is an IEEE-754 binary64
      value, a [spec_float] at precision 53 and maximal exponent 1024.
    - A call either returns or raises: [result A].
    - Dictionaries are objects in a store and are shared by reference. *)

From Stdlib Require Import ZArith String Ascii List Bool Lia SpecFloat.
From Stdlib Require Import Sorting.Sorted Sorting.Permutation.
From stdpp Require Import base option list.

Import ListNotations.
Set Warnings "-register-all".
Local Open Scope string_scope.
Local Open Scope Z_scope.

(** ** Results and exceptions *)

Inductive exn : Type :=
| OverflowError
| ValueError
| TypeError
| KeyError
| AttributeError
| NotModelled.   (* a non-string key would enter a dictionary *)

Inductive result (A : Type) : Type :=
| Ok (a : A)
| Raise (e : exn).

Arguments Ok {A} a.
Arguments Raise {A} e.

Definition rbind {A B : Type} (r : result A) (f : A -> result B) : result B :=
  match r with
  | Ok a => f a
  | Raise e => Raise e
  end.

(** ** Characters and strings *)

Definition code (c : ascii) : Z := Z.of_N (N_of_ascii c).

Definition chr (n : Z) : ascii := ascii_of_N (Z.to_N n).

(** [str.isspace] on one code point, which is also what [\s] matches:
    tab to carriage return, the four separators 28 to 31, space, NEL and
    the no-break space. *)
Definition is_space (c : ascii) : bool :=
  let n := code c in
  ((9 <=? n) && (n <=? 13)) || ((28 <=? n) && (n <=? 32))
  || (n =? 133) || (n =? 160).

(** What [\d] matches below 256: the ten ASCII digits. *)
Definition is_decimal (c : ascii) : bool :=
  let n := code c in (48 <=? n) && (n <=? 57).

(** [str.isdigit] on one code point: the decimal digits and the three
    superscript digits of Latin-1. *)
Definition is_digit_char (c : ascii) : bool :=
  let n := code c in
  is_decimal c || (n =? 178) || (n =? 179) || (n =? 185).

(** [str.lower] on one code point. *)
Definition lower_char (c : ascii) : ascii :=
  let n := code c in
  if ((65 <=? n) && (n <=? 90))
     || ((192 <=? n) && (n <=? 222) && negb (n =? 215))
  then chr (n + 32) else c.

Fixpoint lower (s : string) : string :=
  match s with
  | EmptyString => EmptyString
  | String c s' => String (lower_char c) (lower s')
  end.

Fixpoint str_all (p : ascii -> bool) (s : string) : bool :=
  match s with
  | EmptyString => true
  | String c s' => p c && str_all p s'
  end.

(** [str.isdigit]: non-empty and every character a digit. *)
Definition isdigit (s : string) : bool :=
  match s with
  | EmptyString => false
  | _ => str_all is_digit_char s
  end.

Fixpoint lstrip (s : string) : string :=
  match s with
  | String c s' => if is_space c then lstrip s' else s
  | EmptyString => EmptyString
  end.

Fixpoint rstrip (s : string) : string :=
  match s with
  | EmptyString => EmptyString
  | String c s' =>
      match rstrip s' with
      | EmptyString => if is_space c then EmptyString else String c EmptyString
      | t => String c t
      end
  end.

(** [str.strip()] with no argument. *)
Definition strip (s : string) : string := rstrip (lstrip s).

Definition str_eqb (a b : string) : bool := String.eqb a b.

(** The whitespace that [int] skips around a number: what the C function
    [isspace] accepts (tab to carriage return, and the space), and the two
    spaces above 127, which the conversion of the text to ASCII turns into
    a space first.  The separators 28 to 31, which [str.isspace] accepts,
    are not skipped. *)
Definition is_int_space (c : ascii) : bool :=
  let n := code c in
  ((9 <=? n) && (n <=? 13)) || (n =? 32) || (n =? 133) || (n =? 160).

Fixpoint lskip (p : ascii -> bool) (s : string) : string :=
  match s with
  | String c s' => if p c then lskip p s' else s
  | EmptyString => EmptyString
  end.

Fixpoint rskip (p : ascii -> bool) (s : string) : string :=
  match s with
  | EmptyString => EmptyString
  | String c s' =>
      match rskip p s' with
      | EmptyString => if p c then EmptyString else String c EmptyString
      | t => String c t
      end
  end.

(** ** Integers as text *)

Definition digit_char (d : Z) : ascii := chr (48 + d).

Fixpoint str_digits (fuel : nat) (n : Z) (acc : string) : string :=
  match fuel with
  | O => acc
  | S fuel' =>
      let acc' := String (digit_char (n mod 10)) acc in
      if n <? 10 then acc' else str_digits fuel' (n / 10) acc'
  end.

Definition str_nat (n : Z) : string :=
  str_digits (S (Z.to_nat (Z.log2 n))) n EmptyString.

(** The decimal text of an integer. *)
Definition str_int (n : Z) : string :=
  if n <? 0 then String "-" (str_nat (- n)) else str_nat n.

(** The most digits that [str] writes for an [int] and that [int] reads
    from a text: [sys.int_info.default_max_str_digits] of CPython 3.11. *)
Definition int_max_str_digits : nat := 4300.

(** [str(n)] for an [int], which is also ['{}'.format(n)]: the decimal
    text, and [ValueError] when it has more digits than the limit. *)
Definition py_str_int (n : Z) : result string :=
  if (String.length (str_nat (Z.abs n)) <=? int_max_str_digits)%nat
  then Ok (str_int n) else Raise ValueError.

Fixpoint digits_value (acc : Z) (s : string) : Z :=
  match s with
  | EmptyString => acc
  | String c s' => digits_value (acc * 10 + (code c - 48)) s'
  end.

(** Digits with single underscores allowed between them, as [int] reads
    them. *)
Fixpoint digits_underscore (s : string) (after_digit : bool) (acc : Z)
  : option Z :=
  match s with
  | EmptyString => if after_digit then Some acc else None
  | String c s' =>
      if is_decimal c then digits_underscore s' true (acc * 10 + (code c - 48))
      else if Ascii.eqb c "_"%char && after_digit
           then digits_underscore s' false acc
           else None
  end.

(** The number of decimal digits of a text. *)
Fixpoint count_decimal (s : string) : nat :=
  match s with
  | EmptyString => O
  | String c s' => if is_decimal c then S (count_decimal s') else count_decimal s'
  end.

(** ** Numbers *)

Definition prec : Z := 53.
Definition emax : Z := 1024.

Definition float_of_Z (z : Z) : spec_float := binary_normalize prec emax z 0 false.

Inductive pynum : Type :=
| PyInt (z : Z)
| PyFloat (f : spec_float).

(** Conversion of an operand to [float] for mixed arithmetic; a Python
    [int] too large for a double raises. *)
Definition as_float (x : pynum) : result spec_float :=
  match x with
  | PyFloat f => Ok f
  | PyInt z =>
      match float_of_Z z with
      | S754_infinity _ => Raise OverflowError
      | f => Ok f
      end
  end.

Definition py_mul (x y : pynum) : result pynum :=
  match x, y with
  | PyInt a, PyInt b => Ok (PyInt (a * b))
  | _, _ =>
      rbind (as_float x) (fun fx =>
      rbind (as_float y) (fun fy => Ok (PyFloat (SFmul prec emax fx fy))))
  end.

Definition py_add (x y : pynum) : result pynum :=
  match x, y with
  | PyInt a, PyInt b => Ok (PyInt (a + b))
  | _, _ =>
      rbind (as_float x) (fun fx =>
      rbind (as_float y) (fun fy => Ok (PyFloat (SFadd prec emax fx fy))))
  end.



(** [int(x)] on a number: truncation towards zero. *)
Definition py_int (x : pynum) : result Z :=
  match x with
  | PyInt z => Ok z
  | PyFloat (S754_zero _) => Ok 0
  | PyFloat (S754_finite s m e) =>
      let a := if 0 <=? e then Z.pos m * 2 ^ e else Z.pos m / 2 ^ (- e) in
      Ok (if s then - a else a)
  | PyFloat (S754_infinity _) => Raise OverflowError
  | PyFloat S754_nan => Raise ValueError
  end.


(** [int(s)] on a string: surrounding whitespace, an optional sign, then
    decimal digits, no more of them than the limit. *)
Definition py_int_of_str (s : string) : result Z :=
  let t := rskip is_int_space (lskip is_int_space s) in
  let '(neg, body) :=
    match t with
    | String c t' =>
        if Ascii.eqb c "-"%char then (true, t')
        else if Ascii.eqb c "+"%char then (false, t')
        else (false, t)
    | EmptyString => (false, t)
    end in
  match digits_underscore body false 0 with
  | Some z =>
      if (count_decimal body <=? int_max_str_digits)%nat
      then Ok (if neg then - z else z) else Raise ValueError
  | None => Raise ValueError
  end.

(** ** Regular expressions, as [re] matches them

    The patterns of [timeparse.py] repeat single characters only ([\s*],
    [\d+], [\d*]), so repetition is over a character class.  The matcher
    is the backtracking one of [re]: repetitions and options are greedy,
    alternatives are tried from the left, and the first way to succeed is
    the match. *)

Inductive cclass : Type :=
| CDigit
| CSpace
| CLit (c : ascii).

Inductive regex : Type :=
| Chr (c : cclass)
| StarC (c : cclass)
| PlusC (c : cclass)
| Opt (r : regex)
| Seq (r1 r2 : regex)
| Alt (r1 r2 : regex)
| Group (name : string) (r : regex)
| Eol.

Definition groups : Type := list (string * string).

Section Matcher.

(** [re.I] *)
Variable ignorecase : bool.

Definition cmatch (cl : cclass) (a : ascii) : bool :=
  match cl with
  | CDigit => is_decimal a
  | CSpace => is_space a
  | CLit c =>
      if ignorecase then Ascii.eqb (lower_char a) (lower_char c)
      else Ascii.eqb a c
  end.

Context {R : Type}.

Definition orelse (x : option R) (y : unit -> option R) : option R :=
  match x with
  | Some r => Some r
  | None => y tt
  end.

(** Greedy repetition of a class: as many characters as possible first,
    then one fewer, and so on. *)
Fixpoint star (cl : cclass) (s : string) (k : string -> option R) : option R :=
  match s with
  | String a s' =>
      if cmatch cl a then orelse (star cl s' k) (fun _ => k s) else k s
  | EmptyString => k s
  end.

(** The text matched between two positions of the same string. *)
Definition consumed (s s' : string) : string :=
  substring 0 (String.length s - String.length s') s.

Fixpoint rmatch (r : regex) (s : string) (g : groups)
         (k : string -> groups -> option R) : option R :=
  match r with
  | Chr cl =>
      match s with
      | String a s' => if cmatch cl a then k s' g else None
      | EmptyString => None
      end
  | StarC cl => star cl s (fun s' => k s' g)
  | PlusC cl =>
      match s with
      | String a s' =>
          if cmatch cl a then star cl s' (fun s'' => k s'' g) else None
      | EmptyString => None
      end
  | Opt r1 => orelse (rmatch r1 s g k) (fun _ => k s g)
  | Seq r1 r2 => rmatch r1 s g (fun s' g' => rmatch r2 s' g' k)
  | Alt r1 r2 => orelse (rmatch r1 s g k) (fun _ => rmatch r2 s g k)
  | Group name r1 =>
      rmatch r1 s g (fun s' g' => k s' ((name, consumed s s') :: g'))
  | Eol =>
      (* the end of the string, or just before a final newline *)
      match s with
      | EmptyString => k s g
      | String a EmptyString => if Ascii.eqb a (chr 10) then k s g else None
      | _ => None
      end
  end.

End Matcher.

Record match_object : Type := {
  group0 : string;          (* [match.group(0)] *)
  named : groups            (* the named groups that took part *)
}.

(** [re.match(pattern, s, flags)]: anchored at the start of [s]. *)
Definition re_match (r : regex) (s : string) (ignorecase : bool)
  : option match_object :=
  rmatch ignorecase r s []
    (fun s' g => Some {| group0 := consumed s s'; named := g |}).

Fixpoint lookup_group (name : string) (g : groups) : option string :=
  match g with
  | [] => None
  | (n, v) :: g' => if String.eqb n name then Some v else lookup_group name g'
  end.

Fixpoint group_names (r : regex) : list string :=
  match r with
  | Group name r1 => name :: group_names r1
  | Opt r1 => group_names r1
  | Seq r1 r2 | Alt r1 r2 => (group_names r1 ++ group_names r2)%list
  | _ => []
  end.

(** [match.groupdict()]: every named group of the pattern, in the
    pattern's order, with [None] for those that did not take part. *)
Definition groupdict (r : regex) (m : match_object)
  : list (string * option string) :=
  map (fun n => (n, lookup_group n (named m))) (group_names r).

(** ** timeparse.py *)

Module Timeparse.

Definition lit (s : string) : regex :=
  match s with
  | EmptyString => StarC (CLit "000"%char)   (* not used: literals are non-empty *)
  | String a s' =>
      (fix go (a : ascii) (s : string) : regex :=
         match s with
         | EmptyString => Chr (CLit a)
         | String b s' => Seq (Chr (CLit a)) (go b s')
         end) a s'
  end.

Definition micro_sign : ascii := chr 181.

(** [(?:\d+\.?\d*|\.\d+)] *)
Definition FLOAT_NUMBER : regex :=
  Alt (Seq (PlusC CDigit) (Seq (Opt (Chr (CLit "."%char))) (StarC CDigit)))
      (Seq (Chr (CLit "."%char)) (PlusC CDigit)).

Definition HOURS : regex := Seq (Group "hours" FLOAT_NUMBER) (lit "h").
Definition MINS : regex := Seq (Group "mins" FLOAT_NUMBER) (lit "m").
Definition SECS : regex := Seq (Group "secs" FLOAT_NUMBER) (lit "s").
Definition MILLI : regex := Seq (Group "milli" FLOAT_NUMBER) (lit "ms").
Definition MICRO : regex :=
  Seq (Group "micro" FLOAT_NUMBER)
      (Alt (lit "us") (lit (String micro_sign "s"))).
Definition NANO : regex := Seq (Group "nano" FLOAT_NUMBER) (lit "ns").

Definition opt (x : regex) : regex := Opt x.

Definition TIMEFORMAT : regex :=
  Seq (opt HOURS) (Seq (opt MINS) (Seq (opt SECS)
    (Seq (opt MILLI) (Seq (opt MICRO) (opt NANO))))).

Definition f1 : spec_float := float_of_Z 1.
Definition fdiv (x y : spec_float) : spec_float := SFdiv prec emax x y.
Definition fmul (x y : spec_float) : spec_float := SFmul prec emax x y.

Definition MULTIPLIERS : list (string * spec_float) :=
  [ ("hours", fmul (float_of_Z 60) (float_of_Z 60));
    ("mins", float_of_Z 60);
    ("secs", f1);
    ("milli", fdiv f1 (float_of_Z 1000));
    ("micro", fdiv f1 (float_of_Z (1000 ^ 2)));
    ("nano", fdiv f1 (float_of_Z (1000 ^ 3))) ].

Fixpoint getitem {A : Type} (d : list (string * A)) (k : string) : result A :=
  match d with
  | [] => Raise KeyError
  | (k', v) :: d' => if String.eqb k' k then Ok v else getitem d' k
  end.

(** The text before and after the first ["."], when there is one. *)
Fixpoint split_dot (s : string) : option (string * string) :=
  match s with
  | EmptyString => None
  | String a s' =>
      if Ascii.eqb a "."%char then Some (EmptyString, s')
      else match split_dot s' with
           | Some (i, f) => Some (String a i, f)
           | None => None
           end
  end.

(** The double nearest to [m / 10 ^ k], ties to even. *)
Definition float_of_ratio10 (m : Z) (k : nat) : spec_float :=
  if m =? 0 then S754_zero false
  else
    let '(q, e, l) := SFdiv_core_binary prec emax m 0 (10 ^ Z.of_nat k) 0 in
    binary_round_aux prec emax false q e l.

(** [float(s)] on the decimal literals the duration pattern can capture:
    digits with an optional point and fraction, or a point and a fraction.
    Other spellings that [float] reads (signs, exponents, [inf]) never
    reach [cast] and raise here. *)
Definition py_float_of_str (s : string) : result spec_float :=
  match split_dot s with
  | None =>
      if str_all is_decimal s && negb (String.eqb s "")
      then Ok (float_of_Z (digits_value 0 s)) else Raise ValueError
  | Some (i, f) =>
      if str_all is_decimal i && str_all is_decimal f
         && negb (String.eqb (i ++ f) "")
      then Ok (float_of_ratio10 (digits_value 0 (i ++ f)) (String.length f))
      else Raise ValueError
  end.

Definition cast (value : string) : result pynum :=
  if isdigit value
  then rbind (py_int_of_str value) (fun z => Ok (PyInt z))
  else rbind (py_float_of_str value) (fun f => Ok (PyFloat f)).

Definition pattern : regex :=
  Seq (StarC CSpace) (Seq TIMEFORMAT (Seq (StarC CSpace) Eol)).

(** [sum(MULTIPLIERS[k] * cast(v) for (k, v) in items if v is not None)],
    starting from the [int] zero and adding from the left. *)
Fixpoint sum_items (items : list (string * option string)) (acc : pynum)
  : result pynum :=
  match items with
  | [] => Ok acc
  | (k, None) :: items' => sum_items items' acc
  | (k, Some v) :: items' =>
      rbind (getitem MULTIPLIERS k) (fun mult =>
      rbind (cast v) (fun c =>
      rbind (py_mul (PyFloat mult) c) (fun term =>
      rbind (py_add acc term) (fun acc' => sum_items items' acc'))))
  end.

(** [timeparse(sval)]: [Ok None] is the bare [return]. *)
Definition timeparse (sval : string) : result (option pynum) :=
  match re_match pattern sval true with
  | None => Ok None
  | Some m =>
      if String.eqb (strip (group0 m)) "" then Ok None
      else rbind (sum_items (groupdict pattern m) (PyInt 0))
                 (fun x => Ok (Some x))
  end.

End Timeparse.


(** ** Values and the store

    The denormalizer works on dictionaries that it copies shallowly and
    then updates in place, so dictionaries are objects of a store and a
    value refers to one by its location.  Lists are only ever rebuilt,
    never updated, and are values.  Keys are strings, kept in insertion
    order. *)

Abbreviation loc := nat.

Inductive value : Type :=
| VNone
| VBool (b : bool)
| VNum (n : pynum)
| VStr (s : string)
| VList (l : list value)
| VDict (l : loc)
| VObj (cls : string) (fields : list (string * value)).

Definition dict : Type := list (string * value).
Abbreviation heap := (list dict).

Fixpoint dict_get (d : dict) (k : string) : option value :=
  match d with
  | [] => None
  | (k', v) :: d' => if String.eqb k' k then Some v else dict_get d' k
  end.

(** [d[k] = v]: an existing key keeps its place, a new one goes last. *)
Fixpoint dict_set (d : dict) (k : string) (v : value) : dict :=
  match d with
  | [] => [(k, v)]
  | (k', v') :: d' =>
      if String.eqb k' k then (k, v) :: d' else (k', v') :: dict_set d' k v
  end.

(** [del d[k]]: no binding of [k] is left (a dictionary has at most
    one). *)
Fixpoint dict_del (d : dict) (k : string) : dict :=
  match d with
  | [] => []
  | (k', v') :: d' =>
      if String.eqb k' k then dict_del d' k else (k', v') :: dict_del d' k
  end.

Definition dict_has (d : dict) (k : string) : bool :=
  match dict_get d k with
  | Some _ => true
  | None => false
  end.

Definition dict_keys (d : dict) : list string := map fst d.

(** A computation on the store that returns or raises. *)
Definition M (A : Type) : Type := heap -> result (A * heap).

Definition ret {A : Type} (a : A) : M A := fun h => Ok (a, h).

Definition raise {A : Type} (e : exn) : M A := fun _ => Raise e.

Definition bind {A B : Type} (m : M A) (f : A -> M B) : M B :=
  fun h =>
    match m h with
    | Ok (a, h') => f a h'
    | Raise e => Raise e
    end.

Definition lift {A : Type} (r : result A) : M A :=
  fun h =>
    match r with
    | Ok a => Ok (a, h)
    | Raise e => Raise e
    end.

Notation "x <- m ;; k" := (bind m (fun x => k))
  (at level 100, m at next level, right associativity).
Notation "m ;;; k" := (bind m (fun _ => k))
  (at level 100, right associativity).

Definition when (b : bool) (m : M unit) : M unit :=
  if b then m else ret tt.

Fixpoint for_each {A : Type} (l : list A) (body : A -> M unit) : M unit :=
  match l with
  | [] => ret tt
  | x :: l' => body x ;;; for_each l' body
  end.

Fixpoint map_m {A B : Type} (f : A -> M B) (l : list A) : M (list B) :=
  match l with
  | [] => ret []
  | x :: l' => y <- f x ;; ys <- map_m f l' ;; ret (y :: ys)
  end.

(** The object at a location.  A reference in a value always has one;
    [AttributeError] stands for the impossible case. *)
Definition deref (l : loc) : M dict :=
  fun h =>
    match h !! l with
    | Some d => Ok (d, h)
    | None => Raise AttributeError
    end.

Definition store (l : loc) (d : dict) : M unit :=
  fun h => Ok (tt, <[l := d]> h).

Definition alloc (d : dict) : M loc :=
  fun h => Ok (length h, (h ++ [d])%list).

Fixpoint substringb (k s : string) : bool :=
  String.prefix k s
  || match s with
     | EmptyString => false
     | String _ s' => substringb k s'
     end.

Definition value_is_str (k : string) (v : value) : bool :=
  match v with
  | VStr s => String.eqb s k
  | _ => false
  end.

(** [k in v] for a string [k]. *)
Definition py_in (k : string) (v : value) : M bool :=
  match v with
  | VDict l => d <- deref l ;; ret (dict_has d k)
  | VStr s => ret (substringb k s)
  | VList l => ret (existsb (value_is_str k) l)
  | _ => raise TypeError
  end.

(** [v[k]] for a string [k]. *)
Definition py_getitem (v : value) (k : string) : M value :=
  match v with
  | VDict l =>
      d <- deref l ;;
      match dict_get d k with
      | Some x => ret x
      | None => raise KeyError
      end
  | _ => raise TypeError
  end.

(** [v[k] = x] *)
Definition py_setitem (v : value) (k : string) (x : value) : M unit :=
  match v with
  | VDict l => d <- deref l ;; store l (dict_set d k x)
  | _ => raise TypeError
  end.

(** [del v[k]] *)
Definition py_delitem (v : value) (k : string) : M unit :=
  match v with
  | VDict l =>
      d <- deref l ;;
      if dict_has d k then store l (dict_del d k) else raise KeyError
  | _ => raise TypeError
  end.

(** [v.pop(k)] *)
Definition py_pop (v : value) (k : string) : M value :=
  match v with
  | VDict l =>
      d <- deref l ;;
      match dict_get d k with
      | Some x => store l (dict_del d k) ;;; ret x
      | None => raise KeyError
      end
  | VList _ => raise TypeError
  | _ => raise AttributeError
  end.

(** [v.copy()]: a new object with the same items, the values shared. *)
Definition py_copy (v : value) : M value :=
  match v with
  | VDict l => d <- deref l ;; l' <- alloc d ;; ret (VDict l')
  | VList l => ret (VList l)
  | _ => raise AttributeError
  end.

(** [v.keys()] then iteration, as [sorted] and the comprehensions do. *)
Definition py_keys (v : value) : M (list string) :=
  match v with
  | VDict l => d <- deref l ;; ret (dict_keys d)
  | _ => raise AttributeError
  end.

(** [v.items()] *)
Definition py_items (v : value) : M (list (string * value)) :=
  match v with
  | VDict l => d <- deref l ;; ret d
  | _ => raise AttributeError
  end.

Fixpoint chars (s : string) : list value :=
  match s with
  | EmptyString => []
  | String c s' => VStr (String c EmptyString) :: chars s'
  end.

(** The elements a [for] sees. *)
Definition py_iter (v : value) : M (list value) :=
  match v with
  | VList l => ret l
  | VStr s => ret (chars s)
  | VDict l => d <- deref l ;; ret (map VStr (dict_keys d))
  | VObj _ fields => ret (map snd fields)
  | _ => raise TypeError
  end.

Definition float_is_zero (f : spec_float) : bool :=
  match f with
  | S754_zero _ => true
  | _ => false
  end.

(** Truth value of [v], as [if v], [not v] and [bool(v)] take it. *)
Definition truthy (v : value) : M bool :=
  match v with
  | VNone => ret false
  | VBool b => ret b
  | VNum (PyInt z) => ret (negb (z =? 0))
  | VNum (PyFloat f) => ret (negb (float_is_zero f))
  | VStr s => ret (negb (String.eqb s ""))
  | VList l => ret (match l with [] => false | _ => true end)
  | VDict l => d <- deref l ;; ret (match d with [] => false | _ => true end)
  | VObj _ _ => ret true
  end.

(** [p.name] on an instance. *)
Definition py_getattr (v : value) (name : string) : M value :=
  match v with
  | VObj _ fields =>
      match dict_get fields name with
      | Some x => ret x
      | None => raise AttributeError
      end
  | _ => raise AttributeError
  end.

Definition isinstance (v : value) (cls : string) : bool :=
  match v with
  | VObj c _ => String.eqb c cls
  | _ => false
  end.

(** [int(v)] *)
Definition int_of_value (v : value) : result Z :=
  match v with
  | VNum n => py_int n
  | VBool b => Ok (if b then 1 else 0)
  | VStr s => py_int_of_str s
  | _ => Raise TypeError
  end.

(** [sorted] on strings: ascending by code points. *)
Fixpoint insert_sorted (x : string) (l : list string) : list string :=
  match l with
  | [] => [x]
  | y :: l' => if String.leb x y then x :: l else y :: insert_sorted x l'
  end.

Fixpoint sorted (l : list string) : list string :=
  match l with
  | [] => []
  | x :: l' => insert_sorted x (sorted l')
  end.

(** ** compose.const

    Modelled from the spec: the module [compose.const], which defines the
    schema versions, is not among the sources.  A version is the
    sequence of its numeric components, ordered as such sequences are
    (a total order), and prints with dots between them; the constants are
    the ones [serialize.py] imports, in the order their names give. *)

Definition ComposeVersion : Type := list Z.

Fixpoint version_ltb (a b : ComposeVersion) : bool :=
  match a, b with
  | [], [] => false
  | [], _ :: _ => true
  | _ :: _, [] => false
  | x :: a', y :: b' =>
      if x <? y then true else if y <? x then false else version_ltb a' b'
  end.

Fixpoint version_eqb (a b : ComposeVersion) : bool :=
  match a, b with
  | [], [] => true
  | x :: a', y :: b' => (x =? y) && version_eqb a' b'
  | _, _ => false
  end.

Definition version_geb (a b : ComposeVersion) : bool := negb (version_ltb a b).
Definition version_gtb (a b : ComposeVersion) : bool := version_ltb b a.

Fixpoint version_str (v : ComposeVersion) : string :=
  match v with
  | [] => EmptyString
  | [x] => str_int x
  | x :: v' => str_int x ++ "." ++ version_str v'
  end.

Definition COMPOSEFILE_V1 : ComposeVersion := [1].
Definition COMPOSEFILE_V2_1 : ComposeVersion := [2; 1].
Definition COMPOSEFILE_V2_3 : ComposeVersion := [2; 3].
Definition COMPOSEFILE_V3_0 : ComposeVersion := [3; 0].
Definition COMPOSEFILE_V3_2 : ComposeVersion := [3; 2].
Definition COMPOSEFILE_V3_4 : ComposeVersion := [3; 4].
Definition COMPOSEFILE_V3_5 : ComposeVersion := [3; 5].

(** ** compose/config/serialize.py *)

Module Serialize.

Definition V1 := COMPOSEFILE_V1.
Definition V2_1 := COMPOSEFILE_V2_1.
Definition V2_3 := COMPOSEFILE_V2_3.
Definition V3_0 := COMPOSEFILE_V3_0.
Definition V3_2 := COMPOSEFILE_V3_2.
Definition V3_4 := COMPOSEFILE_V3_4.
Definition V3_5 := COMPOSEFILE_V3_5.

(** *** String scalars *)

(** What a representer is given: a [str], or [bytes] still to decode. *)
Inductive text : Type :=
| Str (s : string)
| Bytes (b : string).

(** [s.replace(old, new)].  [skip] counts the characters of an occurrence
    of [old] that are still to be passed over. *)
Fixpoint replace_from (old new : string) (skip : nat) (s : string) : string :=
  match s with
  | EmptyString => EmptyString
  | String c s' =>
      match skip with
      | S n => replace_from old new n s'
      | O =>
          if String.prefix old s
          then new ++ replace_from old new (Nat.pred (String.length old)) s'
          else String c (replace_from old new 0 s')
      end
  end.

Fixpoint intersperse (new s : string) : string :=
  match s with
  | EmptyString => new
  | String c s' => new ++ String c (intersperse new s')
  end.

Definition replace (old new s : string) : string :=
  match old with
  | EmptyString => intersperse new s
  | _ => replace_from old new 0 s
  end.

Definition boolean_like : list string :=
  [ "y"; "n"; "yes"; "no"; "on"; "off"; "true"; "false" ].

(** [x in (a, b, ...)] on strings. *)
Definition str_in (x : string) (l : list string) : bool :=
  existsb (String.eqb x) l.

Definition str_tag : string := "tag:yaml.org,2002:str".

(** The style of a double-quoted scalar. *)
Definition double_quote : ascii := chr 34.

Section Dumper.

(** The [yaml] dumper and [bytes.decode] belong to the libraries: the
    dumper is given by its two methods. *)
Variable node : Type.
Variable represent_str : string -> node.
Variable represent_scalar : string -> string -> option ascii -> node.
Variable decode_utf8 : string -> result string.

Definition serialize_string (data : text) : result node :=
  let representer := represent_str in
  rbind (match data with
         | Bytes b => decode_utf8 b
         | Str s => Ok s
         end) (fun data =>
  if str_in (lower data) boolean_like
  then Ok (represent_scalar str_tag data (Some double_quote))
  else Ok (representer data)).

Definition serialize_string_escape_dollar (data : text) : result node :=
  rbind (match data with
         | Str s => Ok (Str (replace "$" "$$" s))
         | Bytes _ => Raise TypeError
         end) (fun data => serialize_string data).

End Dumper.

(** *** Durations *)

Definition table : list (Z * string) :=
  [ (1000, "us"); (1000, "ms"); (1000, "s"); (60, "m"); (60, "h") ].

(** The [for] loop of [serialize_ns_time_value]: [value] and [result] are
    its two variables, and [break] leaves with the current [result]. *)
Fixpoint promote (tbl : list (Z * string)) (value : Z) (res : Z * string)
  : Z * string :=
  match tbl with
  | [] => res
  | (factor, unit) :: tbl' =>
      let tmp := value / factor in
      let reminder := value mod factor in
      if reminder =? 0 then promote tbl' tmp (tmp, unit) else res
  end.

(** The text that [format] makes of the pair: the integer, then the
    unit. *)
Definition format_pair (res : Z * string) : result string :=
  rbind (py_str_int (fst res)) (fun digits => Ok (digits ++ snd res)).

Definition serialize_ns_time_value (value : value) : result string :=
  rbind (int_of_value value) (fun value =>
    format_pair (promote table value (value, "ns"))).

(** *** Services *)

Section Types.

(** [compose.config.types] is not among the sources: its function and
    its [legacy_repr] methods are taken as given. *)
Variable serialize_restart_spec : heap -> value -> result value.
Variable legacy_repr : string -> list (string * value) -> result value.

Definition call_legacy_repr (p : value) : M value :=
  match p with
  | VObj cls fields => lift (legacy_repr cls fields)
  | _ => raise AttributeError
  end.

(** One of the three [healthcheck] durations, lines 185 to 197. *)
Definition serialize_duration (service_dict : value) (field : string) : M unit :=
  hc <- py_getitem service_dict "healthcheck" ;;
  b <- py_in field hc ;;
  when b (
    hc <- py_getitem service_dict "healthcheck" ;;
    x <- py_getitem hc field ;;
    s <- lift (serialize_ns_time_value x) ;;
    hc <- py_getitem service_dict "healthcheck" ;;
    py_setitem hc field (VStr s)).

Definition denormalize_port (version : ComposeVersion) (p : value) : M value :=
  ip <- py_getattr p "external_ip" ;;
  b <- truthy ip ;;
  if b || version_ltb version V3_2 then call_legacy_repr p else ret p.

Definition denormalize_volume (v : value) : M value :=
  if isinstance v "MountSpec" then call_legacy_repr v else ret v.

(** The statements of [denormalize_service_dict] after the copy, one
    definition for each [if] of the source. *)

(** Lines 168 and 169. *)
Definition set_image (service_dict image_digest : value) : M unit :=
  b <- truthy image_digest ;;
  when b (py_setitem service_dict "image" image_digest).

(** Lines 171 to 174. *)
Definition set_restart (service_dict : value) : M unit :=
  b <- py_in "restart" service_dict ;;
  when b (
    r <- py_getitem service_dict "restart" ;;
    r' <- (fun h => lift (serialize_restart_spec h r) h) ;;
    py_setitem service_dict "restart" r').

(** Lines 176 and 177. *)
Definition set_network_mode (service_dict : value) (version : ComposeVersion)
  : M unit :=
  b <- (if version_eqb version V1
        then (b <- py_in "network_mode" service_dict ;; ret (negb b))
        else ret false) ;;
  when b (py_setitem service_dict "network_mode" (VStr "bridge")).

(** Lines 179 to 182. *)
Definition set_depends_on (service_dict : value) (version : ComposeVersion)
  : M unit :=
  b <- py_in "depends_on" service_dict ;;
  when (b && (version_ltb version V2_1 || version_geb version V3_0)) (
    d <- py_getitem service_dict "depends_on" ;;
    ks <- py_keys d ;;
    py_setitem service_dict "depends_on" (VList (map VStr (sorted ks)))).

(** Lines 184 to 197. *)
Definition set_healthcheck (service_dict : value) : M unit :=
  b <- py_in "healthcheck" service_dict ;;
  when b (
    serialize_duration service_dict "interval" ;;;
    serialize_duration service_dict "timeout" ;;;
    serialize_duration service_dict "start_period").

(** Lines 199 to 203. *)
Definition set_ports (service_dict : value) (version : ComposeVersion)
  : M unit :=
  b <- py_in "ports" service_dict ;;
  when b (
    ports <- py_getitem service_dict "ports" ;;
    ps <- py_iter ports ;;
    ps' <- map_m (denormalize_port version) ps ;;
    py_setitem service_dict "ports" (VList ps')).

(** Lines 204 to 207. *)
Definition set_volumes (service_dict : value) (version : ComposeVersion)
  : M unit :=
  b <- py_in "volumes" service_dict ;;
  when (b && (version_ltb version V2_3
              || (version_gtb version V3_0 && version_ltb version V3_2))) (
    volumes <- py_getitem service_dict "volumes" ;;
    vs <- py_iter volumes ;;
    vs' <- map_m denormalize_volume vs ;;
    py_setitem service_dict "volumes" (VList vs')).

Definition denormalize_service_dict
           (service_dict : value) (version : ComposeVersion)
           (image_digest : value) : M value :=
  service_dict <- py_copy service_dict ;;
  set_image service_dict image_digest ;;;
  set_restart service_dict ;;;
  set_network_mode service_dict version ;;;
  set_depends_on service_dict version ;;;
  set_healthcheck service_dict ;;;
  set_ports service_dict version ;;;
  set_volumes service_dict version ;;;
  ret service_dict.

(** *** The whole configuration *)

(** [compose.config.config.Config], a named tuple. *)
Record Config : Type := {
  version : ComposeVersion;
  services : list value;
  volumes : value;
  networks : value;
  secrets : value;
  configs : value
}.

Definition getattr (config : Config) (key : string) : value :=
  if String.eqb key "networks" then networks config
  else if String.eqb key "volumes" then volumes config
  else if String.eqb key "secrets" then secrets config
  else configs config.

Definition v3_introduced_name_key (key : string) : ComposeVersion :=
  if String.eqb key "volumes" then V3_4 else V3_5.

(** The body of the loop over the entries of a group, lines 71 to 83. *)
Definition denormalize_entry (version : ComposeVersion) (key : string)
           (conf : value) : M unit :=
  (b <- py_in "external_name" conf ;;
   when b (py_delitem conf "external_name")) ;;;
  (b <- py_in "name" conf ;;
   when b (
     if version_ltb version V2_1
        || (version_geb version V3_0
            && version_ltb version (v3_introduced_name_key key))
     then py_delitem conf "name"
     else
       b <- py_in "external" conf ;;
       when b (
         x <- py_getitem conf "external" ;;
         t <- truthy x ;;
         py_setitem conf "external" (VBool t)))) ;;;
  (b <- py_in "attachable" conf ;;
   when (b && version_ltb version V3_2) (py_delitem conf "attachable")).

(** The body of the loop over the four groups, lines 66 to 83. *)
Definition denormalize_group (config : Config) (result : value)
           (key : string) : M unit :=
  let config_dict := getattr config key in
  b <- truthy config_dict ;;
  if negb b then ret tt
  else
    c <- py_copy config_dict ;;
    py_setitem result key c ;;;
    r <- py_getitem result key ;;
    items <- py_items r ;;
    for_each items (fun item => denormalize_entry (version config) key (snd item)).

(** The key a value makes in a dictionary of this model. *)
Definition as_key (v : value) : M string :=
  match v with
  | VStr s => ret s
  | VList _ | VDict _ => raise TypeError
  | _ => raise NotModelled
  end.

(** [d[k]] for a computed key: only a string can be there. *)
Definition py_getitem_value (d : value) (k : value) : M value :=
  match k with
  | VStr s => py_getitem d s
  | VList _ | VDict _ => raise TypeError
  | _ => match d with VDict _ => raise KeyError | _ => raise TypeError end
  end.

Definition denormalize_config (config : Config) (image_digests : value)
  : M value :=
  result <- alloc
    [("version",
      VStr (if version_eqb (version config) V1 then version_str V2_1
            else version_str (version config)))] ;;
  let result := VDict result in
  denormalized_services <- map_m (fun service_dict =>
      digest <- (b <- truthy image_digests ;;
                 if b then
                   n <- py_getitem service_dict "name" ;;
                   py_getitem_value image_digests n
                 else ret VNone) ;;
      denormalize_service_dict service_dict (version config) digest)
    (services config) ;;
  svcs <- alloc [] ;;
  for_each denormalized_services (fun service_dict =>
      n <- py_pop service_dict "name" ;;
      k <- as_key n ;;
      py_setitem (VDict svcs) k service_dict) ;;;
  py_setitem result "services" (VDict svcs) ;;;
  for_each ["networks"; "volumes"; "secrets"; "configs"]
    (denormalize_group config result) ;;;
  ret result.

End Types.

End Serialize.

(** ** The promotion chain, in the specification's words

    [ns -> us (x1000) -> ms (x1000) -> s (x1000) -> m (x60) -> h (x60)]:
    the unit at each position, the factor that leads from a position to
    the next, and the number of nanoseconds one unit stands for. *)

Definition chain_units : list string := ["ns"; "us"; "ms"; "s"; "m"; "h"].
Definition chain_factors : list Z := [1000; 1000; 1000; 60; 60].

Definition chain_unit (k : nat) : string := nth k chain_units "h".
Definition chain_factor (k : nat) : Z := nth k chain_factors 1.

Fixpoint chain_weight (k : nat) : Z :=
  match k with
  | O => 1
  | S k' => chain_weight k' * chain_factor k'
  end.

(** ** Dollar escaping, in the specification's words: every ["$"]
    becomes ["$$"], every other character stays. *)
Fixpoint double_dollars (s : string) : string :=
  match s with
  | EmptyString => EmptyString
  | String c s' =>
      if Ascii.eqb c "$"%char then String "$" (String "$" (double_dollars s'))
      else String c (double_dollars s')
  end.


(** ** The rule that strips [name] from an entry of a group, in the
    specification's words: before 2.1, or from 3.0 up to the version that
    introduced the key for that kind of group. *)
Definition name_is_stripped (version : ComposeVersion) (key : string) : bool :=
  version_ltb version COMPOSEFILE_V2_1
  || (version_geb version COMPOSEFILE_V3_0
      && version_ltb version
           (if String.eqb key "volumes" then COMPOSEFILE_V3_4
            else COMPOSEFILE_V3_5)).

(** ** Weakest preconditions for computations on the store

    [wp E m Q h]: from the store [h], [m] returns a value and a store
    that satisfy [Q]; when it raises, [E] is what holds ([False] for runs
    that must return, [True] when only the returning runs matter). *)
Definition wp {A : Type} (E : Prop) (m : M A) (Q : A -> heap -> Prop)
           (h : heap) : Prop :=
  match m h with
  | Ok (a, h') => Q a h'
  | Raise _ => E
  end.

(** Whether a text starts the way a number does: on a digit or a point. *)
Definition starts_number (s : string) : bool :=
  match s with
  | String c _ => is_decimal c || cmatch true (CLit ".") c
  | EmptyString => false
  end.

(** The group of the duration pattern that captures each unit of the
    chain. *)
Definition chain_group (k : nat) : string :=
  nth k ["nano"; "micro"; "milli"; "secs"; "mins"; "hours"] "hours".

(** The seconds one unit of the chain stands for, as [MULTIPLIERS] has
    it. *)
Definition chain_multiplier (k : nat) : spec_float :=
  match Timeparse.getitem Timeparse.MULTIPLIERS (chain_group k) with
  | Ok m => m
  | Raise _ => S754_nan
  end.

(** A float that is not negative: no sign bit on a zero, a finite value
    or an infinity. *)
Definition float_nonneg (f : spec_float) : Prop :=
  match f with
  | S754_zero true | S754_finite true _ _ | S754_infinity true => False
  | _ => True
  end.


(** ** What a match is

    [matches r s rest g g']: the expression [r] matches the text [s] when
    [rest] follows it, and the groups [g] known before become [g'].  This
    is the declarative reading of a pattern under [re.I]; the matcher
    searches for such a reading. *)
Inductive matches : regex -> string -> string -> groups -> groups -> Prop :=
| M_chr (cl : cclass) (a : ascii) (rest : string) (g : groups) :
    cmatch true cl a = true ->
    matches (Chr cl) (String a EmptyString) rest g g
| M_star (cl : cclass) (s rest : string) (g : groups) :
    str_all (cmatch true cl) s = true ->
    matches (StarC cl) s rest g g
| M_plus (cl : cclass) (s rest : string) (g : groups) :
    s <> EmptyString -> str_all (cmatch true cl) s = true ->
    matches (PlusC cl) s rest g g
| M_opt_some (r : regex) (s rest : string) (g g' : groups) :
    matches r s rest g g' -> matches (Opt r) s rest g g'
| M_opt_none (r : regex) (rest : string) (g : groups) :
    matches (Opt r) EmptyString rest g g
| M_seq (r1 r2 : regex) (s1 s2 rest : string) (g g1 g2 : groups) :
    matches r1 s1 (s2 ++ rest) g g1 -> matches r2 s2 rest g1 g2 ->
    matches (Seq r1 r2) (s1 ++ s2) rest g g2
| M_alt_l (r1 r2 : regex) (s rest : string) (g g' : groups) :
    matches r1 s rest g g' -> matches (Alt r1 r2) s rest g g'
| M_alt_r (r1 r2 : regex) (s rest : string) (g g' : groups) :
    matches r2 s rest g g' -> matches (Alt r1 r2) s rest g g'
| M_group (name : string) (r : regex) (s rest : string) (g g' : groups) :
    matches r s rest g g' -> matches (Group name r) s rest g ((name, s) :: g')
| M_eol (rest : string) (g : groups) :
    rest = EmptyString \/ rest = String (chr 10) EmptyString ->
    matches Eol EmptyString rest g g.

(** ** Duration texts, in the specification's words

    A duration text is a sequence of components, each a number (digits
    and points) immediately followed by a unit, with whitespace allowed
    around the whole.  The units, lower-cased, are ranked in the order in
    which they may appear: h, m, s, ms, us (or with the micro sign), ns. *)

Definition is_numchar (c : ascii) : bool := is_decimal c || Ascii.eqb c "."%char.

Definition is_letter (c : ascii) : bool := negb (is_numchar c || is_space c).

Definition unit_rank (u : string) : option nat :=
  if String.eqb u "h" then Some 0%nat
  else if String.eqb u "m" then Some 1%nat
  else if String.eqb u "s" then Some 2%nat
  else if String.eqb u "ms" then Some 3%nat
  else if String.eqb u "us" then Some 4%nat
  else if String.eqb u (String Timeparse.micro_sign "s") then Some 4%nat
  else if String.eqb u "ns" then Some 5%nat
  else None.

(** A component that may be absent: the text of its number and of its
    unit. *)
Definition part : Type := option (string * string).

Definition render_part (p : part) : string :=
  match p with
  | Some (f, u) => f ++ u
  | None => EmptyString
  end.

Fixpoint render_parts (ps : list part) : string :=
  match ps with
  | [] => EmptyString
  | p :: ps' => render_part p ++ render_parts ps'
  end.

(** The units of the components that are present, in order. *)
Fixpoint units (ps : list part) : list string :=
  match ps with
  | [] => []
  | Some (_, u) :: ps' => u :: units ps'
  | None :: ps' => units ps'
  end.

(** A well-formed component: a non-empty number and a known unit, in
    any letter case. *)
Definition component_ok (c : string * string) : Prop :=
  fst c <> EmptyString /\ str_all is_numchar (fst c) = true
  /\ unit_rank (lower (snd c)) <> None.

Definition rank_of (u : string) : nat :=
  match unit_rank (lower u) with
  | Some r => r
  | None => 0%nat
  end.

(** Ranks that grow strictly, starting at [lo] or above. *)
Fixpoint ascending_from (lo : nat) (l : list nat) : bool :=
  match l with
  | [] => true
  | x :: l' => (lo <=? x)%nat && ascending_from (S x) l'
  end.

(** The components are in the strict order h, m, s, ms, us, ns. *)
Definition in_order (cs : list (string * string)) : bool :=
  ascending_from 0 (map (fun c => rank_of (snd c)) cs).

(** The maximal runs of letters of a text. *)
Fixpoint letter_runs (s : string) : list string :=
  match s with
  | EmptyString => []
  | String c s' =>
      if is_letter c then
        match s' with
        | String c' _ =>
            if is_letter c' then
              match letter_runs s' with
              | r :: t => String c r :: t
              | [] => [String c EmptyString]
              end
            else String c EmptyString :: letter_runs s'
        | EmptyString => [String c EmptyString]
        end
      else letter_runs s'
  end.

(** The pattern of the components, as a sequence of optional components. *)
Definition component (c : string * regex) : regex :=
  Opt (Seq (Group (fst c) Timeparse.FLOAT_NUMBER) (snd c)).

Fixpoint components (c : string * regex) (cs : list (string * regex)) : regex :=
  match cs with
  | [] => component c
  | c' :: cs' => Seq (component c) (components c' cs')
  end.

Fixpoint has_group (r : regex) : bool :=
  match r with
  | Group _ _ => true
  | Opt r1 => has_group r1
  | Seq r1 r2 | Alt r1 r2 => has_group r1 || has_group r2
  | _ => false
  end.

(** The groups left by a sequence of components, the last one first. *)
Fixpoint captures (cs : list (string * regex)) (ps : list part) (g : groups)
  : groups :=
  match cs, ps with
  | c :: cs', Some (f, _) :: ps' => captures cs' ps' ((fst c, f) :: g)
  | _ :: cs', None :: ps' => captures cs' ps' g
  | _, _ => g
  end.

(** What the matcher leaves for a component of the pattern [c]. *)
Definition part_ok (c : string * regex) (p : part) : Prop :=
  match p with
  | None => True
  | Some (f, u) =>
      f <> EmptyString /\ str_all is_numchar f = true
      /\ exists rest g, matches (snd c) u rest g g
  end.

(** The six components of [TIMEFORMAT]: the group and the unit of each. *)
Definition unit_table : list (string * regex) :=
  [ ("hours", Timeparse.lit "h"); ("mins", Timeparse.lit "m");
    ("secs", Timeparse.lit "s"); ("milli", Timeparse.lit "ms");
    ("micro", Alt (Timeparse.lit "us")
                  (Timeparse.lit (String Timeparse.micro_sign "s")));
    ("nano", Timeparse.lit "ns") ].

(** Components that are present carry a number and letters for a unit. *)
Definition part_token (p : part) : Prop :=
  match p with
  | None => True
  | Some (f, u) =>
      f <> EmptyString /\ str_all is_numchar f = true
      /\ u <> EmptyString /\ str_all is_letter u = true
  end.

(** The component at each position, when present, has the unit of that
    rank. *)
Fixpoint ranked (i : nat) (ps : list part) : Prop :=
  match ps with
  | [] => True
  | p :: ps' =>
      match p with
      | None => True
      | Some (_, u) => unit_rank (lower u) = Some i
      end /\ ranked (S i) ps'
  end.

Definition starts_letter (s : string) : bool :=
  match s with
  | String c _ => is_letter c
  | EmptyString => false
  end.

(** The text of a sequence of components, all present. *)
Definition render_components (cs : list (string * string)) : string :=
  render_parts (map Some cs).

(** ** What a service record must be for the denormalizer to return

    The attributes that the denormalizer reads have the shape the
    normalizer gives them: [depends_on] and [healthcheck] are mappings of
    the store, the three durations of a health check are values that the
    formatter prints, [ports] and [volumes] are sequences, and the
    functions of [types] return on what they are given. *)

Definition duration_keys : list string := ["interval"; "timeout"; "start_period"].

Definition service_keys : list string :=
  ["image"; "restart"; "network_mode"; "depends_on"; "ports"; "volumes"].

Definition depends_on_collapses (version : ComposeVersion) : bool :=
  version_ltb version COMPOSEFILE_V2_1 || version_geb version COMPOSEFILE_V3_0.

Definition volumes_are_legacy (version : ComposeVersion) : bool :=
  version_ltb version COMPOSEFILE_V2_3
  || (version_gtb version COMPOSEFILE_V3_0
      && version_ltb version COMPOSEFILE_V3_2).

Definition port_ok (legacy_repr : string -> list (string * value) -> result value)
           (version : ComposeVersion) (p : value) : Prop :=
  exists cls fields ip b,
    p = VObj cls fields /\ dict_get fields "external_ip" = Some ip
    /\ (forall h : heap, truthy ip h = Ok (b, h))
    /\ (b || version_ltb version COMPOSEFILE_V3_2 = true ->
        exists r, legacy_repr cls fields = Ok r).

Definition volume_ok (legacy_repr : string -> list (string * value) -> result value)
           (v : value) : Prop :=
  match v with
  | VObj cls fields =>
      String.eqb cls "MountSpec" = true -> exists r, legacy_repr cls fields = Ok r
  | _ => True
  end.

Definition service_ok
           (serialize_restart_spec : heap -> value -> result value)
           (legacy_repr : string -> list (string * value) -> result value)
           (version : ComposeVersion) (h : heap) (d : dict) : Prop :=
  (forall r, dict_get d "restart" = Some r ->
             forall h' : heap, exists r', serialize_restart_spec h' r = Ok r')
  /\ (forall v, dict_get d "depends_on" = Some v ->
                depends_on_collapses version = true ->
                exists dep, v = VDict dep /\ is_Some (h !! dep))
  /\ (forall v, dict_get d "healthcheck" = Some v ->
                exists hc dhc, v = VDict hc /\ h !! hc = Some dhc
                  /\ forall f x, In f duration_keys -> dict_get dhc f = Some x ->
                                 exists s, Serialize.serialize_ns_time_value x = Ok s)
  /\ (forall v, dict_get d "ports" = Some v ->
                exists ps, v = VList ps /\ Forall (port_ok legacy_repr version) ps)
  /\ (forall v, dict_get d "volumes" = Some v ->
                volumes_are_legacy version = true ->
                exists vs, v = VList vs /\ Forall (volume_ok legacy_repr) vs).

(** Two dictionaries that agree outside the keys [K]. *)
Definition agree_except (K : list string) (d' d : dict) : Prop :=
  forall k, ~ In k K -> dict_get d' k = dict_get d k.

(** No reference appears: the items of [d'] that hold a reference are
    items of [d]. *)
Definition norefs (d' d : dict) : Prop :=
  forall k l', In (k, VDict l') d' -> In (k, VDict l') d.

(** The objects of [h] are still in [h'], with the same keys, and with
    the same values except under the three duration keys, where no
    reference has appeared. *)
Definition durations_only (h h' : heap) : Prop :=
  forall l0 d0, h !! l0 = Some d0 ->
    exists d0', h' !! l0 = Some d0' /\ dict_keys d0' = dict_keys d0
                /\ agree_except duration_keys d0' d0
                /\ norefs d0' d0.

(** What the three formattings keep true: the copy still names the same
    health check, the store has changed under duration keys only, and the
    durations still to be formatted are still values that the formatter
    prints. *)
Definition health_inv (E : Prop) (lo : loc) (v : value) (h : heap) (F : list string)
           (h' : heap) : Prop :=
  (exists dcur, h' !! lo = Some dcur /\ dict_get dcur "healthcheck" = Some v)
  /\ length h' = length h /\ durations_only h h'
  /\ (forall l0 : loc, v <> VDict l0 -> h' !! l0 = h !! l0)
  /\ (E \/ exists hc dhc, v = VDict hc /\ h' !! hc = Some dhc
             /\ forall f x, In f F -> dict_get dhc f = Some x ->
                            exists s, Serialize.serialize_ns_time_value x = Ok s).

(** What [denormalize_service_dict] returns from the store [h] on a
    record [d]: the location of a new object, the copy; the objects of [h]
    changed under duration keys at most; and in the copy the attributes
    the denormalizer does not handle are those of [d], [network_mode] is
    defaulted at the oldest version, and [depends_on] is collapsed to the
    sorted names where the version has no conditions. *)
Definition service_post (version : ComposeVersion) (h : heap) (d : dict)
           (out : value) (h' : heap) : Prop :=
  out = VDict (length h) /\ length h' = S (length h) /\ durations_only h h'
  /\ (forall (l0 : loc) (d0 : dict),
        h !! l0 = Some d0 -> dict_get d "healthcheck" <> Some (VDict l0) ->
        h' !! l0 = Some d0)
  /\ exists d',
      h' !! length h = Some d'
      /\ agree_except (service_keys ++ duration_keys) d' d
      /\ dict_get d' "network_mode"
         = (if version_eqb version COMPOSEFILE_V1
               && negb (dict_has d "network_mode")
            then Some (VStr "bridge") else dict_get d "network_mode")
      /\ match dict_get d "depends_on" with
         | None => dict_get d' "depends_on" = None
         | Some v =>
             if depends_on_collapses version
             then exists dep kd,
                 v = VDict dep /\ (dep <> length h -> h !! dep = Some kd)
                 /\ dict_get d' "depends_on"
                    = Some (VList (map VStr (sorted (dict_keys kd))))
             else dict_get d' "depends_on" = Some v
         end.

(** The order of [sorted] on strings. *)
Definition str_le (a b : string) : Prop := String.leb a b = true.

(** ** Stores without dangling references, and what the loops over the
    groups may change *)

(** Every reference held by an object of the store is to an object of the
    store. *)
Definition closed (h : heap) : Prop :=
  forall (l : loc) (d : dict) (k : string) (l' : loc),
    h !! l = Some d -> In (k, VDict l') d -> (l' < length h)%nat.

(** The effect of the loop body on the entry [conf]: no object but the
    entry changes, and no reference appears. *)
Definition entry_effect (conf : value) (h h' : heap) : Prop :=
  length h' = length h
  /\ forall l d, h !! l = Some d ->
       (conf <> VDict l -> h' !! l = Some d)
       /\ exists d', h' !! l = Some d' /\ norefs d' d.

Definition group_keys : list string := ["networks"; "volumes"; "secrets"; "configs"].

(** The effect of the loop over the groups on a store whose objects below
    [n] are the input and whose object [n] is the result: input objects
    get no new reference, and those in [P] stay as they are; the result
    changes under the group keys; the other objects stay as they are. *)
Definition groups_effect (P : loc -> Prop) (n : nat) (h h' : heap) : Prop :=
  (length h <= length h')%nat
  /\ (forall l d, (l < n)%nat -> h !! l = Some d ->
                  exists d', h' !! l = Some d' /\ norefs d' d)
  /\ (forall l d, (n < l)%nat -> h !! l = Some d -> h' !! l = Some d)
  /\ (forall dr, h !! n = Some dr ->
                 exists dr', h' !! n = Some dr' /\ agree_except group_keys dr' dr)
  /\ (forall l d, P l -> h !! l = Some d -> h' !! l = Some d).

(** The groups of a configuration are objects of the input. *)
Definition groups_closed (config : Serialize.Config) (n : nat) : Prop :=
  forall key g, Serialize.getattr config key = VDict g -> (g < n)%nat.

(** The object at [l] is one of the four groups. *)
Definition is_group (config : Serialize.Config) (l : loc) : Prop :=
  exists key, Serialize.getattr config key = VDict l.

(** The input objects refer to input objects only, and the groups to
    none of the objects in [P]. *)
Definition old_closed (config : Serialize.Config) (P : loc -> Prop) (n : nat)
           (h : heap) : Prop :=
  forall (l : loc) (d : dict) (k : string) (l' : loc),
    (l < n)%nat -> h !! l = Some d -> In (k, VDict l') d ->
    (l' < n)%nat /\ (is_group config l -> ~ P l').

(** What the copy [dc] of the service [d] holds under ["name"] and
    ["network_mode"]. *)
Definition copy_ok (version : ComposeVersion) (d dc : dict) : Prop :=
  dict_get dc "name" = dict_get d "name"
  /\ dict_get dc "network_mode"
     = (if version_eqb version COMPOSEFILE_V1 && negb (dict_has d "network_mode")
        then Some (VStr "bridge") else dict_get d "network_mode").

(** The dictionary that the comprehension over the services builds: each
    copy under its name, a later one replacing an earlier one of the same
    name. *)
Fixpoint name_map (entries : list (string * loc)) (ds : dict) : dict :=
  match entries with
  | [] => ds
  | (nm, c) :: rest => name_map rest (dict_set ds nm (VDict c))
  end.

(** ** The result of [denormalize_config], in the specification's words

    The services of a configuration are objects of the store. *)
Definition services_in (config : Serialize.Config) (h : heap) : Prop :=
  Forall (fun v => exists l, v = VDict l /\ is_Some (h !! l))
         (Serialize.services config).

(** The header a configuration of this version is written with: the
    string of the version itself, except for the oldest version, which is
    written as the next of the versions [serialize.py] knows. *)
Definition header (version : ComposeVersion) : string :=
  if version_eqb version COMPOSEFILE_V1 then version_str COMPOSEFILE_V2_1
  else version_str version.

(** The network mode a service [d] is written with. *)
Definition written_network_mode (version : ComposeVersion) (d : dict)
  : option value :=
  if version_eqb version COMPOSEFILE_V1 && negb (dict_has d "network_mode")
  then Some (VStr "bridge") else dict_get d "network_mode".

(** No service after the [i]-th has the name [nm]. *)
Definition last_named (config : Serialize.Config) (h : heap) (i : nat)
           (nm : string) : Prop :=
  forall (j : nat) (l' : loc) (d' : dict),
    (i < j)%nat -> Serialize.services config !! j = Some (VDict l') ->
    h !! l' = Some d' -> dict_get d' "name" <> Some (VStr nm).

(** The value [out] returned in the store [h'] for a configuration of the
    store [h]: a new object with the header under ["version"] and, under
    ["services"], an object that maps the name of each service to a copy
    of it with the network mode it is written with. *)
Definition denormalized (config : Serialize.Config) (h : heap) (out : value)
           (h' : heap) : Prop :=
  out = VDict (length h)
  /\ exists (dr : dict) (s : loc) (ds : dict),
       h' !! length h = Some dr
       /\ dict_get dr "version" = Some (VStr (header (Serialize.version config)))
       /\ dict_get dr "services" = Some (VDict s)
       /\ h' !! s = Some ds
       /\ forall (i : nat) (l : loc) (d : dict) (nm : string),
            Serialize.services config !! i = Some (VDict l) -> h !! l = Some d ->
            dict_get d "name" = Some (VStr nm) -> last_named config h i nm ->
            exists (c : loc) (dc : dict),
              dict_get ds nm = Some (VDict c) /\ h' !! c = Some dc
              /\ dict_get dc "network_mode"
                 = written_network_mode (Serialize.version config) d.

(** ** Configurations on which [denormalize_config] returns

    The services, in the order of the list: each is an object with a
    name, one that [denormalize_service_dict] handles, and its health
    check is neither one of the later services nor the health check of
    one of them. *)
Fixpoint services_ok
         (serialize_restart_spec : heap -> value -> result value)
         (legacy_repr : string -> list (string * value) -> result value)
         (version : ComposeVersion) (h : heap) (svs : list value) : Prop :=
  match svs with
  | [] => True
  | v :: rest =>
      (exists (l : loc) (d : dict) (nm : string),
         v = VDict l /\ h !! l = Some d
         /\ service_ok serialize_restart_spec legacy_repr version h d
         /\ dict_get d "name" = Some (VStr nm)
         /\ forall hc : loc, dict_get d "healthcheck" = Some (VDict hc) ->
              Forall (fun v' => forall (l' : loc) (d' : dict),
                        v' = VDict l' -> h !! l' = Some d' ->
                        l' <> hc /\ dict_get d' "healthcheck" <> Some (VDict hc))
                     rest)
      /\ services_ok serialize_restart_spec legacy_repr version h rest
  end.

(** The groups: each is an object whose items are objects, none of them
    a group, and no group is the health check of a service. *)
Definition groups_ok (config : Serialize.Config) (h : heap) : Prop :=
  forall key : string,
    exists (g : loc) (dg : dict),
      Serialize.getattr config key = VDict g /\ h !! g = Some dg
      /\ (forall (k : string) (x : value), In (k, x) dg ->
             exists l' : loc, x = VDict l' /\ ~ is_group config l')
      /\ (forall (i : nat) (l : loc) (d : dict),
             Serialize.services config !! i = Some (VDict l) -> h !! l = Some d ->
             dict_get d "healthcheck" <> Some (VDict g)).

Definition config_ok
           (serialize_restart_spec : heap -> value -> result value)
           (legacy_repr : string -> list (string * value) -> result value)
           (config : Serialize.Config) (h : heap) : Prop :=
  services_ok serialize_restart_spec legacy_repr (Serialize.version config) h
              (Serialize.services config)
  /\ groups_ok config h.

(** [image_digests] is [None], or false whatever the store. *)
Definition no_digests (image_digests : value) : Prop :=
  forall h : heap, truthy image_digests h = Ok (false, h).

(** ** An example: one service with a health check and one volume, at the
    oldest version *)

Definition example_store : heap :=
  [ [("name", VStr "web"); ("image", VStr "busybox"); ("healthcheck", VDict 4%nat)];
    [("data", VDict 2%nat)];
    [("name", VStr "data"); ("external", VBool false)];
    [];
    [("interval", VNum (PyInt 90000000000))] ].

Definition example_config : Serialize.Config :=
  {| Serialize.version := COMPOSEFILE_V1;
     Serialize.services := [VDict 0%nat];
     Serialize.volumes := VDict 1%nat;
     Serialize.networks := VDict 3%nat;
     Serialize.secrets := VDict 3%nat;
     Serialize.configs := VDict 3%nat |}.

(** ** Duration texts that [timeparse] reads, in words

    The text of a number of the pattern: digits, possibly followed by a
    point and more digits, or a point followed by digits. *)
Definition number_text (f : string) : bool :=
  match Timeparse.split_dot f with
  | None => str_all is_decimal f && negb (String.eqb f "")
  | Some (i, fr) =>
      str_all is_decimal i && str_all is_decimal fr
      && negb (String.eqb (i ++ fr) "")
  end.

(** The component at position [i], when present, is a number followed by
    the unit of rank [i], in any letter case. *)
Definition part_valid (i : nat) (p : part) : bool :=
  match p with
  | None => true
  | Some (f, u) =>
      number_text f
      && match unit_rank (lower u) with
         | Some r => Nat.eqb r i
         | None => false
         end
  end.

Fixpoint parts_valid (i : nat) (ps : list part) : bool :=
  match ps with
  | [] => true
  | p :: ps' => part_valid i p && parts_valid (S i) ps'
  end.

(** Six optional components, for h, m, s, ms, us and ns in this order,
    of which one at least is present. *)
Definition duration_parts (ps : list part) : bool :=
  Nat.eqb (length ps) 6 && parts_valid 0 ps
  && negb (String.eqb (render_parts ps) "").

(** What [groupdict] holds for such components: the number of each group,
    or [None]. *)
Definition captured (ps : list part) : list (string * option string) :=
  combine ["hours"; "mins"; "secs"; "milli"; "micro"; "nano"]
          (map (option_map fst) ps).

(** The components that are present, in order. *)
Fixpoint present (ps : list part) : list (string * string) :=
  match ps with
  | [] => []
  | Some c :: ps' => c :: present ps'
  | None :: ps' => present ps'
  end.

(** The bodies of the groups of a pattern. *)
Fixpoint group_bodies (r : regex) : list regex :=
  match r with
  | Group _ r1 => r1 :: group_bodies r1
  | Opt r1 => group_bodies r1
  | Seq r1 r2 | Alt r1 r2 => (group_bodies r1 ++ group_bodies r2)%list
  | _ => []
  end.

(** A number that [timeparse] may return or add up: the [int] zero the
    sum starts from, or a [float] that is neither negative nor a NaN. *)
Definition duration_value (x : pynum) : Prop :=
  match x with
  | PyInt z => z = 0
  | PyFloat f => float_nonneg f /\ f <> S754_nan
  end.

(** ** Strings: a character other than the dollar sign. *)
Definition no_dollar (c : ascii) : bool := negb (Ascii.eqb c "$").

(** ** Services: what each statement of [denormalize_service_dict] writes *)

(** A port [p] read in the store [hk] and the element [p'] written for
    it: the legacy form when [external_ip] is true or the version is below
    3.2, the port itself otherwise. *)
Definition port_rule
           (legacy_repr : string -> list (string * value) -> result value)
           (version : ComposeVersion) (hk : heap) (p p' : value) : Prop :=
  exists cls fields ip b,
    p = VObj cls fields /\ dict_get fields "external_ip" = Some ip
    /\ truthy ip hk = Ok (b, hk)
    /\ if b || version_ltb version COMPOSEFILE_V3_2
       then legacy_repr cls fields = Ok p' else p' = p.

(** A volume [v] and the element [v'] written for it where volumes are
    converted: the legacy form of a [MountSpec], anything else itself. *)
Definition volume_rule
           (legacy_repr : string -> list (string * value) -> result value)
           (v v' : value) : Prop :=
  match v with
  | VObj cls fields =>
      if String.eqb cls "MountSpec" then legacy_repr cls fields = Ok v'
      else v' = v
  | _ => v' = v
  end.

(** The health check [dhc'] is [dhc] with the durations [F] formatted:
    the same keys in the same order, the same values outside [F], and
    under each key of [F] that [dhc] has, the text of its value. *)
Definition durations_formatted (F : list string) (dhc dhc' : dict) : Prop :=
  dict_keys dhc' = dict_keys dhc
  /\ agree_except F dhc' dhc
  /\ forall f, In f F ->
       match dict_get dhc f with
       | None => dict_get dhc' f = None
       | Some x =>
           exists s, Serialize.serialize_ns_time_value x = Ok s
                     /\ dict_get dhc' f = Some (VStr s)
       end.

(** What [denormalize_service_dict] returns from the store [h] on a
    record [d] whose health check is an object of [h], attribute by
    attribute: the result [out] is a new object; the objects of [h] stay
    as they are, except the health check, whose durations are formatted;
    and the new object has the attributes of [d], except those the
    statements of the function write. *)
Definition service_written
           (serialize_restart_spec : heap -> value -> result value)
           (legacy_repr : string -> list (string * value) -> result value)
           (version : ComposeVersion) (img : value) (h : heap) (d : dict)
           (out : value) (h' : heap) : Prop :=
  out = VDict (length h) /\ length h' = S (length h)
  /\ (forall (l0 : loc) (d0 : dict),
        h !! l0 = Some d0 -> dict_get d "healthcheck" <> Some (VDict l0) ->
        h' !! l0 = Some d0)
  /\ (forall (hc : loc) (dhc : dict),
        dict_get d "healthcheck" = Some (VDict hc) -> h !! hc = Some dhc ->
        exists dhc', h' !! hc = Some dhc'
                     /\ durations_formatted duration_keys dhc dhc')
  /\ exists d',
      h' !! length h = Some d'
      /\ agree_except service_keys d' d
      /\ (exists b, truthy img (h ++ [d])%list = Ok (b, (h ++ [d])%list)
                    /\ dict_get d' "image"
                       = if b then Some img else dict_get d "image")
      /\ match dict_get d "restart" with
         | None => dict_get d' "restart" = None
         | Some r =>
             exists hr r', serialize_restart_spec hr r = Ok r'
                           /\ dict_get d' "restart" = Some r'
         end
      /\ match dict_get d "ports" with
         | None => dict_get d' "ports" = None
         | Some v =>
             exists hk ps ps',
               py_iter v hk = Ok (ps, hk)
               /\ Forall2 (port_rule legacy_repr version hk) ps ps'
               /\ dict_get d' "ports" = Some (VList ps')
         end
      /\ match dict_get d "volumes" with
         | None => dict_get d' "volumes" = None
         | Some v =>
             if volumes_are_legacy version
             then exists hk vs vs',
                 py_iter v hk = Ok (vs, hk)
                 /\ Forall2 (volume_rule legacy_repr) vs vs'
                 /\ dict_get d' "volumes" = Some (VList vs')
             else dict_get d' "volumes" = Some v
         end.

(** ** An example: a record with a health check, before and after the
    call at version 3.5 *)

Definition health_store : heap :=
  [ [("name", VStr "web"); ("healthcheck", VDict 1%nat)];
    [("interval", VNum (PyInt 90000000000)); ("retries", VNum (PyInt 3))] ].

Definition health_store_after : heap :=
  [ [("name", VStr "web"); ("healthcheck", VDict 1%nat)];
    [("interval", VStr "90s"); ("retries", VNum (PyInt 3))];
    [("name", VStr "web"); ("healthcheck", VDict 1%nat)] ].

(** * Properties *)

Import Serialize Timeparse.

(** ** Characters and decimal text *)

Lemma code_chr (n : Z) : 0 <= n < 256 -> code (chr n) = n.
Proof.
  intros Hn. unfold code, chr.
  rewrite N_ascii_embedding by lia. lia.
Qed.

Lemma code_range (c : ascii) : 0 <= code c < 256.
Proof.
  unfold code. pose proof (N_ascii_bounded c). lia.
Qed.

Lemma chr_code (c : ascii) : chr (code c) = c.
Proof.
  unfold code, chr. rewrite N2Z.id. apply ascii_N_embedding.
Qed.

Lemma digit_char_decimal (d : Z) : 0 <= d < 10 -> is_decimal (digit_char d) = true.
Proof.
  intros Hd. unfold is_decimal, digit_char.
  rewrite code_chr by lia. lia.
Qed.

Lemma digit_char_value (d : Z) : 0 <= d < 10 -> code (digit_char d) - 48 = d.
Proof.
  intros Hd. unfold digit_char. rewrite code_chr by lia. lia.
Qed.

Lemma str_all_app (p : ascii -> bool) (s t : string) :
  str_all p (s ++ t) = str_all p s && str_all p t.
Proof.
  induction s as [|c s IH]; simpl; [reflexivity|].
  rewrite IH. apply andb_assoc.
Qed.

Lemma str_app_assoc (s t u : string) : (s ++ t) ++ u = s ++ (t ++ u).
Proof.
  induction s as [|c s IH]; simpl; [reflexivity|]. now rewrite IH.
Qed.

Lemma str_app_nil_r (s : string) : s ++ "" = s.
Proof.
  induction s as [|c s IH]; simpl; [reflexivity|]. now rewrite IH.
Qed.

Lemma str_length_app (s t : string) :
  String.length (s ++ t) = (String.length s + String.length t)%nat.
Proof.
  induction s as [|c s IH]; simpl; [reflexivity|]. now rewrite IH.
Qed.

Lemma str_digits_acc (fuel : nat) (n : Z) (acc : string) :
  str_digits fuel n acc = str_digits fuel n "" ++ acc.
Proof.
  revert n acc. induction fuel as [|fuel IH]; intros n acc; simpl; [reflexivity|].
  destruct (n <? 10); [reflexivity|].
  rewrite (IH _ (String _ acc)), (IH _ (String _ "")).
  rewrite str_app_assoc. reflexivity.
Qed.

Lemma str_digits_decimal (fuel : nat) (n : Z) (acc : string) :
  0 <= n -> str_all is_decimal acc = true ->
  str_all is_decimal (str_digits fuel n acc) = true.
Proof.
  revert n acc. induction fuel as [|fuel IH]; intros n acc Hn Hacc; simpl; [exact Hacc|].
  assert (Hd : is_decimal (digit_char (n mod 10)) = true).
  { apply digit_char_decimal. apply Z.mod_pos_bound. lia. }
  destruct (n <? 10).
  - simpl. now rewrite Hd.
  - apply IH.
    + apply Z.div_pos; lia.
    + simpl. now rewrite Hd.
Qed.

Lemma str_digits_nonempty (fuel : nat) (n : Z) (acc : string) :
  str_digits (S fuel) n acc <> "".
Proof.
  simpl. destruct (n <? 10); [discriminate|].
  rewrite str_digits_acc. destruct (str_digits fuel (n / 10) ""); discriminate.
Qed.

Lemma digits_value_app (a : Z) (s t : string) :
  digits_value a (s ++ t) = digits_value (digits_value a s) t.
Proof.
  revert a. induction s as [|c s IH]; intros a; simpl; [reflexivity|]. apply IH.
Qed.

Lemma str_digits_S (fuel : nat) (n : Z) (acc : string) :
  str_digits (S fuel) n acc =
  if n <? 10 then String (digit_char (n mod 10)) acc
  else str_digits fuel (n / 10) (String (digit_char (n mod 10)) acc).
Proof. reflexivity. Qed.

Lemma str_digits_value (fuel : nat) (n : Z) :
  0 <= n < 2 ^ Z.of_nat (S fuel) ->
  digits_value 0 (str_digits (S fuel) n "") = n.
Proof.
  revert n. induction fuel as [|fuel IH]; intros n Hn.
  - rewrite str_digits_S.
    assert (Hlt : (n <? 10) = true) by (apply Z.ltb_lt; simpl in Hn; lia).
    rewrite Hlt. simpl. rewrite digit_char_value; [|apply Z.mod_pos_bound; lia].
    rewrite Z.mod_small; lia.
  - rewrite str_digits_S. destruct (n <? 10) eqn:Hlt.
    + apply Z.ltb_lt in Hlt. simpl.
      rewrite digit_char_value; [|apply Z.mod_pos_bound; lia].
      rewrite Z.mod_small; lia.
    + apply Z.ltb_ge in Hlt.
      rewrite str_digits_acc, digits_value_app, IH.
      * simpl. rewrite digit_char_value; [|apply Z.mod_pos_bound; lia].
        pose proof (Z.div_mod n 10). lia.
      * split; [apply Z.div_pos; lia|].
        apply Z.div_lt_upper_bound; [lia|].
        replace (Z.of_nat (S (S fuel))) with (Z.of_nat (S fuel) + 1) in Hn by lia.
        rewrite Z.pow_add_r in Hn by lia. lia.
Qed.

Lemma log2_fuel (n : Z) : 0 <= n -> n < 2 ^ Z.of_nat (S (Z.to_nat (Z.log2 n))).
Proof.
  intros Hn. destruct (Z.eq_dec n 0) as [->|Hne]; [reflexivity|].
  pose proof (Z.log2_spec n ltac:(lia)) as [_ Hs].
  pose proof (Z.log2_nonneg n).
  replace (Z.of_nat (S (Z.to_nat (Z.log2 n)))) with (Z.succ (Z.log2 n)) by lia.
  exact Hs.
Qed.

Lemma str_int_nonneg (n : Z) : 0 <= n -> str_int n = str_nat n.
Proof.
  intros Hn. unfold str_int.
  assert (H : (n <? 0) = false) by (apply Z.ltb_ge; lia). now rewrite H.
Qed.

Lemma str_int_decimal (n : Z) : 0 <= n -> str_all is_decimal (str_int n) = true.
Proof.
  intros Hn. rewrite str_int_nonneg by exact Hn.
  apply str_digits_decimal; [exact Hn|reflexivity].
Qed.

Lemma str_int_nonempty (n : Z) : str_int n <> "".
Proof.
  unfold str_int. destruct (n <? 0); [discriminate|].
  apply str_digits_nonempty.
Qed.

Lemma str_int_value (n : Z) : 0 <= n -> digits_value 0 (str_int n) = n.
Proof.
  intros Hn. rewrite str_int_nonneg by exact Hn.
  apply str_digits_value. split; [exact Hn|]. now apply log2_fuel.
Qed.

(** An integer from [10 ^ k] on has more than [k] digits. *)
Lemma str_digits_length_acc (fuel : nat) (n : Z) (acc : string) :
  (String.length acc <= String.length (str_digits fuel n acc))%nat.
Proof.
  revert n acc. induction fuel as [|fuel IH]; intros n acc; [apply Nat.le_refl|].
  rewrite str_digits_S. destruct (n <? 10).
  - cbn [String.length]. lia.
  - eapply Nat.le_trans; [|apply IH]. cbn [String.length]. lia.
Qed.

Lemma str_digits_long (k : nat) :
  forall (fuel : nat) (n : Z) (acc : string),
    10 ^ Z.of_nat k <= n -> n < 2 ^ Z.of_nat (S fuel) ->
    (String.length acc + k < String.length (str_digits (S fuel) n acc))%nat.
Proof.
  induction k as [|k IH]; intros fuel n acc Hlo Hhi.
  - pose proof (str_digits_length_acc fuel (n / 10)
                  (String (digit_char (n mod 10)) acc)) as Hacc.
    rewrite str_digits_S. destruct (n <? 10); cbn [String.length] in *; lia.
  - assert (Hpow : 10 ^ Z.of_nat (S k) = 10 * 10 ^ Z.of_nat k).
    { replace (Z.of_nat (S k)) with (Z.succ (Z.of_nat k)) by lia.
      apply Z.pow_succ_r. lia. }
    assert (Hpos : 0 < 10 ^ Z.of_nat k) by (apply Z.pow_pos_nonneg; lia).
    rewrite Hpow in Hlo.
    rewrite str_digits_S.
    assert (Hge : (n <? 10) = false) by (apply Z.ltb_ge; lia).
    rewrite Hge.
    destruct fuel as [|fuel].
    { change (2 ^ Z.of_nat 1) with 2 in Hhi. lia. }
    eapply Nat.lt_le_trans;
      [|apply Nat.eq_le_incl; reflexivity].
    pose proof (IH fuel (n / 10) (String (digit_char (n mod 10)) acc)) as H.
    cbn [String.length] in H.
    assert (H1 : 10 ^ Z.of_nat k <= n / 10)
      by (apply Z.div_le_lower_bound; lia).
    assert (H2 : n / 10 < 2 ^ Z.of_nat (S fuel)).
    { apply Z.div_lt_upper_bound; [lia|].
      replace (Z.of_nat (S (S fuel))) with (Z.succ (Z.of_nat (S fuel))) in Hhi
        by lia.
      rewrite Z.pow_succ_r in Hhi by lia. lia. }
    specialize (H H1 H2). lia.
Qed.

Lemma str_int_long (k : nat) (n : Z) :
  10 ^ Z.of_nat k <= n -> (k < String.length (str_int n))%nat.
Proof.
  intros Hlo.
  assert (Hn : 0 <= n).
  { pose proof (Z.pow_pos_nonneg 10 (Z.of_nat k) ltac:(lia) ltac:(lia)). lia. }
  rewrite (str_int_nonneg n Hn). unfold str_nat.
  apply (str_digits_long k _ n ""); [exact Hlo|now apply log2_fuel].
Qed.

(** ** The duration formatter *)

Lemma mod0_exact (n f : Z) : 0 < f -> n mod f = 0 -> n = (n / f) * f.
Proof.
  intros Hf Hm. pose proof (Z.div_mod n f ltac:(lia)). lia.
Qed.

Ltac chain_done E :=
  repeat split;
  cbn [chain_weight chain_factor chain_unit nth chain_factors chain_units];
  try lia; try (intros _; exact E); try (now apply str_int_decimal);
  try reflexivity.

(** The loop on a non-negative count: the unit it stops at and the
    integer it leaves. *)
Lemma promotion_chain (n : Z) :
  0 <= n ->
  exists (k : nat) (v : Z),
    (k <= 5)%nat /\ 0 <= v /\ n = v * chain_weight k
    /\ ((k < 5)%nat -> v mod chain_factor k <> 0)
    /\ serialize_ns_time_value (VNum (PyInt n)) = format_pair (v, chain_unit k)
    /\ str_all is_decimal (str_int v) = true.
Proof.
  intros Hn.
  unfold serialize_ns_time_value, int_of_value, py_int, table.
  cbn [rbind].
  cbn [promote].
  destruct (n mod 1000 =? 0) eqn:E1;
    [apply Z.eqb_eq in E1|apply Z.eqb_neq in E1].
  2:{ exists 0%nat, n. chain_done E1. }
  pose proof (mod0_exact n 1000 ltac:(lia) E1) as X1.
  assert (0 <= n / 1000) by (apply Z.div_pos; lia).
  destruct (n / 1000 mod 1000 =? 0) eqn:E2;
    [apply Z.eqb_eq in E2|apply Z.eqb_neq in E2].
  2:{ exists 1%nat, (n / 1000). chain_done E2. }
  pose proof (mod0_exact _ 1000 ltac:(lia) E2) as X2.
  assert (0 <= n / 1000 / 1000) by (apply Z.div_pos; lia).
  destruct (n / 1000 / 1000 mod 1000 =? 0) eqn:E3;
    [apply Z.eqb_eq in E3|apply Z.eqb_neq in E3].
  2:{ exists 2%nat, (n / 1000 / 1000). chain_done E3. }
  pose proof (mod0_exact _ 1000 ltac:(lia) E3) as X3.
  assert (0 <= n / 1000 / 1000 / 1000) by (apply Z.div_pos; lia).
  destruct (n / 1000 / 1000 / 1000 mod 60 =? 0) eqn:E4;
    [apply Z.eqb_eq in E4|apply Z.eqb_neq in E4].
  2:{ exists 3%nat, (n / 1000 / 1000 / 1000). chain_done E4. }
  pose proof (mod0_exact _ 60 ltac:(lia) E4) as X4.
  assert (0 <= n / 1000 / 1000 / 1000 / 60) by (apply Z.div_pos; lia).
  destruct (n / 1000 / 1000 / 1000 / 60 mod 60 =? 0) eqn:E5;
    [apply Z.eqb_eq in E5|apply Z.eqb_neq in E5].
  2:{ exists 4%nat, (n / 1000 / 1000 / 1000 / 60). chain_done E5. }
  pose proof (mod0_exact _ 60 ltac:(lia) E5) as X5.
  assert (0 <= n / 1000 / 1000 / 1000 / 60 / 60) by (apply Z.div_pos; lia).
  exists 5%nat, (n / 1000 / 1000 / 1000 / 60 / 60). chain_done E5.
Qed.


(** The digits of a non-negative integer within the limit, and beyond. *)
Lemma py_str_int_nonneg (v : Z) :
  0 <= v ->
  py_str_int v
  = if (String.length (str_int v) <=? int_max_str_digits)%nat
    then Ok (str_int v) else Raise ValueError.
Proof.
  intros Hv. unfold py_str_int. rewrite Z.abs_eq by exact Hv.
  now rewrite (str_int_nonneg v Hv).
Qed.

Lemma format_pair_nonneg (v : Z) (u : string) :
  0 <= v ->
  format_pair (v, u)
  = if (String.length (str_int v) <=? int_max_str_digits)%nat
    then Ok (str_int v ++ u) else Raise ValueError.
Proof.
  intros Hv. unfold format_pair. cbn [fst snd].
  rewrite (py_str_int_nonneg v Hv).
  now destruct (String.length (str_int v) <=? int_max_str_digits)%nat.
Qed.


(** C2, as the code has it.  For a non-negative count [n] of nanoseconds
    the formatter walks the chain ns, us, ms, s, m, h: it stops at the
    integer [v] and the unit at some position [k] of the chain, where
    every division up to [k] was exact ([n] is [v] times the weight of
    the unit) and either [k] is the last unit or the next factor does not
    divide [v].  The text is the decimal digits of [v] followed by the
    suffix, as long as [v] has no more digits than [str] writes for an
    integer; beyond that limit the formatter raises [ValueError].  And 24
    minutes, 24 hours and 1000 hours print as such. *)
Theorem serialize_ns_promotion_chain (n : Z) :
  0 <= n ->
  (exists (k : nat) (v : Z),
      (k <= 5)%nat /\ 0 <= v /\ n = v * chain_weight k
      /\ ((k < 5)%nat -> v mod chain_factor k <> 0)
      /\ serialize_ns_time_value (VNum (PyInt n))
         = (if (String.length (str_int v) <=? int_max_str_digits)%nat
            then Ok (str_int v ++ chain_unit k) else Raise ValueError)
      /\ str_all is_decimal (str_int v) = true)
  /\ serialize_ns_time_value (VNum (PyInt (24 * 60 * 10 ^ 9))) = Ok "24m"
  /\ serialize_ns_time_value (VNum (PyInt (24 * 60 * 60 * 10 ^ 9))) = Ok "24h"
  /\ serialize_ns_time_value (VNum (PyInt (1000 * 60 * 60 * 10 ^ 9))) = Ok "1000h".
Proof.
  intros Hn. split.
  - destruct (promotion_chain n Hn) as [k [v [Hk [Hv [Hw [Hstop [Hfmt Hd]]]]]]].
    exists k, v. rewrite Hfmt, (format_pair_nonneg v _ Hv).
    repeat split; assumption.
  - repeat split; vm_compute; reflexivity.
Qed.

Lemma serialize_ns_promotion_chain_witness :
  0 <= 90000000000 /\
  exists (k : nat) (v : Z),
    90000000000 = v * chain_weight k
    /\ serialize_ns_time_value (VNum (PyInt 90000000000))
       = (if (String.length (str_int v) <=? int_max_str_digits)%nat
          then Ok (str_int v ++ chain_unit k) else Raise ValueError).
Proof.
  split; [lia|].
  destruct (serialize_ns_promotion_chain 90000000000 ltac:(lia))
    as [[k [v [_ [_ [Hw [_ [Hs _]]]]]]] _].
  exists k, v. split; assumption.
Defined.

(** The formatter has a ceiling: from [10 ^ 4313] nanoseconds on, the
    integer it is left with has more digits than [str] writes, and it
    raises [ValueError]. *)
Lemma chain_weight_bound (k : nat) :
  (k <= 5)%nat -> 0 < chain_weight k <= 10 ^ 13.
Proof.
  intros Hk. destruct k as [|[|[|[|[|[|k]]]]]]; [| | | | | |lia];
    vm_compute; split; congruence.
Qed.

Lemma serialize_ns_beyond_bound (P n : Z) :
  0 < P ->
  (forall v, P <= v -> (int_max_str_digits < String.length (str_int v))%nat) ->
  P * 10 ^ 13 <= n ->
  serialize_ns_time_value (VNum (PyInt n)) = Raise ValueError.
Proof.
  intros HP Hlong Hbig.
  assert (H13 : 0 < 10 ^ 13) by (apply Z.pow_pos_nonneg; lia).
  assert (Hn : 0 <= n) by nia.
  destruct (promotion_chain n Hn) as [k [v [Hk [Hv [Hw [_ [Hfmt _]]]]]]].
  rewrite Hfmt, (format_pair_nonneg v _ Hv).
  pose proof (chain_weight_bound k Hk) as [Hw0 Hw1].
  revert Hbig Hw1 H13. generalize (10 ^ 13). intros T Hbig Hw1 H13.
  assert (HvP : P <= v).
  { destruct (Z.le_gt_cases P v) as [H|H]; [exact H|exfalso].
    assert (v * chain_weight k <= (P - 1) * chain_weight k) by nia.
    assert ((P - 1) * chain_weight k <= (P - 1) * T) by nia.
    nia. }
  specialize (Hlong v HvP). apply Nat.leb_gt in Hlong. now rewrite Hlong.
Qed.

Lemma serialize_ns_beyond (n : Z) :
  10 ^ 4313 <= n ->
  serialize_ns_time_value (VNum (PyInt n)) = Raise ValueError.
Proof.
  intros Hbig. apply (serialize_ns_beyond_bound (10 ^ 4300)).
  - apply Z.pow_pos_nonneg; easy.
  - intros v Hv. apply str_int_long. exact Hv.
  - rewrite <- Z.pow_add_r by easy. exact Hbig.
Qed.

Lemma serialize_ns_ceiling :
  serialize_ns_time_value (VNum (PyInt (10 ^ 5000))) = Raise ValueError.
Proof.
  apply serialize_ns_beyond. apply Z.pow_le_mono_r; easy.
Qed.

(** C3, as the code has it: zero is divisible by every factor, so it is
    promoted to the last unit of the chain. *)
Theorem serialize_ns_zero : serialize_ns_time_value (VNum (PyInt 0)) = Ok "0h".
Proof. vm_compute. reflexivity. Qed.

Lemma serialize_ns_zero_not_0ns :
  serialize_ns_time_value (VNum (PyInt 0)) <> Ok "0ns".
Proof. vm_compute. discriminate. Qed.

(** ** String scalars *)

Lemma str_in_dec (x : string) (l : list string) :
  str_in x l = if in_dec string_dec x l then true else false.
Proof.
  unfold str_in. destruct (in_dec string_dec x l) as [Hin|Hout].
  - apply existsb_exists. exists x. split; [exact Hin|apply String.eqb_refl].
  - destruct (existsb (String.eqb x) l) eqn:E; [|reflexivity].
    apply existsb_exists in E. destruct E as [y [Hy Hxy]].
    apply String.eqb_eq in Hxy. subst y. contradiction.
Qed.

Lemma prefix_empty (s : string) : String.prefix "" s = true.
Proof. destruct s; reflexivity. Qed.

Lemma replace_dollar (s : string) : replace "$" "$$" s = double_dollars s.
Proof.
  unfold replace. induction s as [|c s IH]; [reflexivity|].
  cbn [replace_from double_dollars String.prefix String.length Nat.pred].
  destruct (ascii_dec "$" c) as [<-|Hne].
  - cbn [Ascii.eqb Bool.eqb]. rewrite prefix_empty. cbn.
    now rewrite IH.
  - assert (Hc : Ascii.eqb c "$" = false).
    { apply Ascii.eqb_neq. congruence. }
    rewrite Hc. now rewrite IH.
Qed.

(** C7. A string whose lower-cased value is one of y, n, yes, no, on,
    off, true, false is emitted as a double-quoted scalar, any other as a
    plain string; the dollar-escaping presenter doubles every dollar sign
    and then takes the same decision on the rewritten string. *)
Theorem serialize_string_quotes_boolean_like
        (node : Type) (represent_str : string -> node)
        (represent_scalar : string -> string -> option ascii -> node)
        (decode_utf8 : string -> result string) (data : string) :
  let present := fun s : string =>
    Ok (if in_dec string_dec (lower s)
             ["y"; "n"; "yes"; "no"; "on"; "off"; "true"; "false"]
        then represent_scalar "tag:yaml.org,2002:str" s (Some (chr 34))
        else represent_str s) in
  serialize_string node represent_str represent_scalar decode_utf8 (Str data)
  = present data
  /\ serialize_string_escape_dollar node represent_str represent_scalar
       decode_utf8 (Str data)
     = present (double_dollars data).
Proof.
  assert (H : forall s,
    serialize_string node represent_str represent_scalar decode_utf8 (Str s)
    = Ok (if in_dec string_dec (lower s) boolean_like
          then represent_scalar str_tag s (Some double_quote)
          else represent_str s)).
  { intros s. unfold serialize_string, rbind.
    rewrite str_in_dec. now destruct (in_dec string_dec (lower s) boolean_like). }
  split.
  - apply H.
  - unfold serialize_string_escape_dollar, rbind.
    rewrite replace_dollar. apply H.
Qed.

(** ** Dictionaries *)

Lemma dict_get_set_eq (d : dict) (k : string) (v : value) :
  dict_get (dict_set d k v) k = Some v.
Proof.
  induction d as [|[k' v'] d IH]; simpl.
  - now rewrite String.eqb_refl.
  - destruct (String.eqb k' k) eqn:E; simpl.
    + now rewrite String.eqb_refl.
    + now rewrite E.
Qed.

Lemma dict_get_set_ne (d : dict) (k k' : string) (v : value) :
  k <> k' -> dict_get (dict_set d k v) k' = dict_get d k'.
Proof.
  intros Hne. induction d as [|[k0 v0] d IH]; simpl.
  - apply String.eqb_neq in Hne. now rewrite Hne.
  - destruct (String.eqb k0 k) eqn:E; simpl.
    + apply String.eqb_eq in E. subst k0.
      apply String.eqb_neq in Hne. now rewrite Hne.
    + now rewrite IH.
Qed.

Lemma dict_get_del_eq (d : dict) (k : string) : dict_get (dict_del d k) k = None.
Proof.
  induction d as [|[k' v'] d IH]; simpl; [reflexivity|].
  destruct (String.eqb k' k) eqn:E; simpl; [exact IH|]. now rewrite E.
Qed.

Lemma dict_get_del_ne (d : dict) (k k' : string) :
  k <> k' -> dict_get (dict_del d k) k' = dict_get d k'.
Proof.
  intros Hne. induction d as [|[k0 v0] d IH]; simpl; [reflexivity|].
  destruct (String.eqb k0 k) eqn:E; simpl.
  - apply String.eqb_eq in E. subst k0.
    apply String.eqb_neq in Hne. now rewrite Hne.
  - now rewrite IH.
Qed.

Lemma dict_del_absent (d : dict) (k : string) :
  dict_has d k = false -> dict_del d k = d.
Proof.
  unfold dict_has. induction d as [|[k' v'] d IH]; simpl; [reflexivity|].
  destruct (String.eqb k' k) eqn:E; [discriminate|].
  intros H. now rewrite IH.
Qed.

Lemma dict_has_get (d : dict) (k : string) :
  dict_has d k = match dict_get d k with Some _ => true | None => false end.
Proof. reflexivity. Qed.

Lemma dict_keys_set_present (d : dict) (k : string) (v : value) :
  dict_has d k = true -> dict_keys (dict_set d k v) = dict_keys d.
Proof.
  unfold dict_has, dict_keys. induction d as [|[k' v'] d IH]; simpl; [discriminate|].
  destruct (String.eqb k' k) eqn:E; simpl.
  - apply String.eqb_eq in E. now subst.
  - intros H. now rewrite IH.
Qed.

(** ** Rules of the weakest precondition *)

Section WP.

Context {A B : Type} (E : Prop).

Lemma wp_ret (a : A) (Q : A -> heap -> Prop) (h : heap) :
  Q a h -> wp E (ret a) Q h.
Proof. intros H. exact H. Qed.

Lemma wp_bind (m : M A) (f : A -> M B) (Q : B -> heap -> Prop) (h : heap) :
  wp E m (fun a h1 => wp E (f a) Q h1) h -> wp E (bind m f) Q h.
Proof.
  unfold wp, bind. destruct (m h) as [[a h1]|e]; auto.
Qed.

Lemma wp_mono (m : M A) (Q Q' : A -> heap -> Prop) (h : heap) :
  (forall a h', Q a h' -> Q' a h') -> wp E m Q h -> wp E m Q' h.
Proof.
  unfold wp. intros HQ. destruct (m h) as [[a h1]|e]; auto.
Qed.

Lemma wp_run (m : M A) (Q : A -> heap -> Prop) (h h' : heap) (a : A) :
  wp E m Q h -> m h = Ok (a, h') -> Q a h'.
Proof.
  unfold wp. intros H Hrun. now rewrite Hrun in H.
Qed.

End WP.

Lemma wp_returns {A : Type} (m : M A) (Q : A -> heap -> Prop) (h : heap) :
  wp False m Q h -> exists a h', m h = Ok (a, h') /\ Q a h'.
Proof.
  unfold wp. destruct (m h) as [[a h1]|e]; [eauto|contradiction].
Qed.

Lemma wp_when (E : Prop) (b : bool) (m : M unit) (Q : unit -> heap -> Prop)
      (h : heap) :
  (b = true -> wp E m Q h) -> (b = false -> Q tt h) -> wp E (when b m) Q h.
Proof.
  destruct b; intros H1 H2; [apply H1|apply H2]; reflexivity.
Qed.

Lemma wp_deref (E : Prop) (l : loc) (d : dict) (Q : dict -> heap -> Prop)
      (h : heap) :
  h !! l = Some d -> Q d h -> wp E (deref l) Q h.
Proof.
  intros Hl HQ. unfold wp, deref. now rewrite Hl.
Qed.

Lemma wp_py_in (E : Prop) (k : string) (l : loc) (d : dict)
      (Q : bool -> heap -> Prop) (h : heap) :
  h !! l = Some d -> Q (dict_has d k) h -> wp E (py_in k (VDict l)) Q h.
Proof.
  intros Hl HQ. unfold wp, py_in, bind, deref, ret. now rewrite Hl.
Qed.

Lemma wp_py_getitem (E : Prop) (k : string) (l : loc) (d : dict) (x : value)
      (Q : value -> heap -> Prop) (h : heap) :
  h !! l = Some d -> dict_get d k = Some x -> Q x h ->
  wp E (py_getitem (VDict l) k) Q h.
Proof.
  intros Hl Hk HQ. unfold wp, py_getitem, bind, deref, ret.
  now rewrite Hl, Hk.
Qed.

Lemma wp_py_setitem (E : Prop) (k : string) (l : loc) (d : dict) (x : value)
      (Q : unit -> heap -> Prop) (h : heap) :
  h !! l = Some d -> Q tt (<[l := dict_set d k x]> h) ->
  wp E (py_setitem (VDict l) k x) Q h.
Proof.
  intros Hl HQ. unfold wp, py_setitem, bind, deref, store. now rewrite Hl.
Qed.

Lemma wp_py_delitem (E : Prop) (k : string) (l : loc) (d : dict)
      (Q : unit -> heap -> Prop) (h : heap) :
  h !! l = Some d -> dict_has d k = true -> Q tt (<[l := dict_del d k]> h) ->
  wp E (py_delitem (VDict l) k) Q h.
Proof.
  intros Hl Hk HQ. unfold wp, py_delitem, bind, deref, store.
  now rewrite Hl, Hk.
Qed.

Lemma heap_insert_lookup (h : heap) (l : loc) (d d' : dict) :
  h !! l = Some d -> <[l := d']> h !! l = Some d'.
Proof.
  intros Hl. apply list_lookup_insert_eq. now apply lookup_lt_Some in Hl.
Qed.

Lemma heap_insert_insert (h : heap) (l : loc) (d d' : dict) :
  <[l := d']> (<[l := d]> h) = <[l := d']> h.
Proof. apply list_insert_insert_eq. Qed.

Lemma heap_insert_id (h : heap) (l : loc) (d : dict) :
  h !! l = Some d -> <[l := d]> h = h.
Proof. apply list_insert_id. Qed.

(** ** Entries of the resource groups *)

Lemma truthy_returns (x : value) (h : heap) :
  (forall l', x = VDict l' -> is_Some (h !! l')) ->
  exists b, truthy x h = Ok (b, h).
Proof.
  intros Hx. destruct x as [|b|[z|f]|s|l|l'|c fs]; try (eexists; reflexivity).
  destruct (Hx l' eq_refl) as [d Hd].
  unfold truthy, bind, deref, ret. rewrite Hd. eauto.
Qed.

Lemma wp_strip_key (E : Prop) (k : string) (c : bool) (l : loc) (d : dict)
      (h : heap) :
  h !! l = Some d ->
  wp E (bind (py_in k (VDict l))
             (fun b => when (b && c) (py_delitem (VDict l) k)))
     (fun _ h' => h' = <[l := if c then dict_del d k else d]> h) h.
Proof.
  intros Hl. apply wp_bind. eapply wp_py_in; [exact Hl|].
  apply wp_when.
  - intros Hb. apply andb_true_iff in Hb. destruct Hb as [Hb ->].
    eapply wp_py_delitem; [exact Hl|exact Hb|reflexivity].
  - intros Hb. destruct c.
    + rewrite andb_true_r in Hb. rewrite dict_del_absent by exact Hb.
      symmetry. now apply heap_insert_id.
    + symmetry. now apply heap_insert_id.
Qed.

Lemma wp_strip_key_always (E : Prop) (k : string) (l : loc) (d : dict)
      (h : heap) :
  h !! l = Some d ->
  wp E (bind (py_in k (VDict l))
             (fun b => when b (py_delitem (VDict l) k)))
     (fun _ h' => h' = <[l := dict_del d k]> h) h.
Proof.
  intros Hl. apply wp_bind. eapply wp_py_in; [exact Hl|].
  apply wp_when; intros Hb.
  - eapply wp_py_delitem; [exact Hl|exact Hb|reflexivity].
  - rewrite dict_del_absent by exact Hb. symmetry. now apply heap_insert_id.
Qed.

(** C10. In an entry of a resource group, whatever the group and the
    version, [external] becomes a plain boolean exactly when the entry has
    a [name] that the stripping rule leaves in place; with no [name], or
    with a [name] that is stripped, [external] is passed through as it
    is, in whatever form.  (The references in the entry are to objects of
    the store.) *)
Theorem denormalize_entry_external
        (version : ComposeVersion) (key : string) (l : loc) (d : dict)
        (h : heap) :
  h !! l = Some d ->
  (forall l', dict_get d "external" = Some (VDict l') -> is_Some (h !! l')) ->
  let h1 := <[l := dict_del d "external_name"]> h in
  exists d',
    denormalize_entry version key (VDict l) h = Ok (tt, <[l := d']> h)
    /\ match dict_get d "external" with
       | None => dict_get d' "external" = None
       | Some x =>
           if dict_has d "name" && negb (name_is_stripped version key)
           then exists b, truthy x h1 = Ok (b, h1)
                          /\ dict_get d' "external" = Some (VBool b)
           else dict_get d' "external" = Some x
       end.
Proof.
  intros Hl Hext h1.
  set (d1 := dict_del d "external_name").
  assert (Hl1 : h1 !! l = Some d1) by (eapply heap_insert_lookup; exact Hl).
  assert (Hg1 : dict_get d1 "external" = dict_get d "external")
    by (apply dict_get_del_ne; discriminate).
  assert (Hn1 : dict_has d1 "name" = dict_has d "name").
  { unfold dict_has, d1. rewrite dict_get_del_ne by discriminate. reflexivity. }
  set (P := fun d' : dict =>
    match dict_get d "external" with
    | None => dict_get d' "external" = None
    | Some x =>
        if dict_has d "name" && negb (name_is_stripped version key)
        then exists b, truthy x h1 = Ok (b, h1)
                       /\ dict_get d' "external" = Some (VBool b)
        else dict_get d' "external" = Some x
    end).
  cut (wp False (denormalize_entry version key (VDict l))
          (fun _ h' => exists d', h' = <[l := d']> h /\ P d') h).
  { intros Hwp. apply wp_returns in Hwp.
    destruct Hwp as [[] [h' [Hrun [d' [-> HP]]]]]. exists d'. split; assumption. }
  unfold denormalize_entry. apply wp_bind.
  eapply wp_mono; [|apply (wp_strip_key_always False "external_name" l d h Hl)].
  intros _ h' ->. fold d1. fold h1.
  (* the [name] block leaves [d2] at [l] *)
  assert (Hstep : exists d2,
    wp False
       (bind (py_in "name" (VDict l)) (fun b =>
          when b
            (if version_ltb version V2_1
                || version_geb version V3_0
                   && version_ltb version (v3_introduced_name_key key)
             then py_delitem (VDict l) "name"
             else bind (py_in "external" (VDict l)) (fun b0 =>
                    when b0
                      (bind (py_getitem (VDict l) "external") (fun x =>
                       bind (truthy x) (fun t =>
                         py_setitem (VDict l) "external" (VBool t))))))))
       (fun _ h' => h' = <[l := d2]> h) h1 /\ P d2).
  { change (version_ltb version V2_1
            || version_geb version V3_0
               && version_ltb version (v3_introduced_name_key key))
      with (name_is_stripped version key).
    unfold P. rewrite <- Hn1, <- Hg1.
    destruct (dict_has d1 "name") eqn:Hname.
    - destruct (name_is_stripped version key) eqn:Hstrip; simpl.
      + exists (dict_del d1 "name"). split.
        * apply wp_bind. eapply wp_py_in; [exact Hl1|]. rewrite Hname. simpl.
          eapply wp_py_delitem; [exact Hl1|exact Hname|].
          unfold h1. apply heap_insert_insert.
        * rewrite dict_get_del_ne by discriminate.
          destruct (dict_get d1 "external"); reflexivity.
      + destruct (dict_get d1 "external") as [x|] eqn:Hx.
        * destruct (truthy_returns x h1) as [b Hb].
          { intros l' ->. destruct (Hext l' ltac:(congruence)) as [d0 Hd0].
            unfold h1. destruct (decide (l = l')) as [<-|Hne].
            - rewrite (heap_insert_lookup _ _ _ _ Hl). eauto.
            - rewrite list_lookup_insert_ne by exact Hne. eauto. }
          exists (dict_set d1 "external" (VBool b)). split.
          -- apply wp_bind. eapply wp_py_in; [exact Hl1|]. rewrite Hname. simpl.
             apply wp_bind. eapply wp_py_in; [exact Hl1|].
             unfold dict_has. rewrite Hx. simpl.
             apply wp_bind. eapply wp_py_getitem; [exact Hl1|exact Hx|].
             apply wp_bind. unfold wp at 1. rewrite Hb.
             eapply wp_py_setitem; [exact Hl1|].
             unfold h1. apply heap_insert_insert.
          -- exists b. split; [exact Hb|apply dict_get_set_eq].
        * exists d1. split; [|exact Hx].
          apply wp_bind. eapply wp_py_in; [exact Hl1|]. rewrite Hname. simpl.
          apply wp_bind. eapply wp_py_in; [exact Hl1|].
          unfold dict_has. rewrite Hx. simpl. reflexivity.
    - simpl. exists d1. split.
      + apply wp_bind. eapply wp_py_in; [exact Hl1|]. rewrite Hname. simpl.
        reflexivity.
      + destruct (dict_get d1 "external"); reflexivity. }
  destruct Hstep as [d2 [Hwp2 HP2]].
  apply wp_bind. eapply wp_mono; [|exact Hwp2].
  intros _ h' ->.
  assert (Hl2 : <[l := d2]> h !! l = Some d2) by (eapply heap_insert_lookup; exact Hl).
  eapply wp_mono;
    [|apply (wp_strip_key False "attachable" (version_ltb version V3_2) l d2 _ Hl2)].
  intros _ h' ->. rewrite heap_insert_insert.
  eexists. split; [reflexivity|].
  unfold P in *. destruct (dict_get d "external") as [x|].
  - destruct (dict_has d "name" && negb (name_is_stripped version key)).
    + destruct HP2 as [b [Hb Hg]]. exists b. split; [exact Hb|].
      destruct (version_ltb version V3_2); [|exact Hg].
      now rewrite dict_get_del_ne by discriminate.
    + destruct (version_ltb version V3_2); [|exact HP2].
      now rewrite dict_get_del_ne by discriminate.
  - destruct (version_ltb version V3_2); [|exact HP2].
    now rewrite dict_get_del_ne by discriminate.
Qed.

Lemma denormalize_entry_external_witness :
  exists d',
    denormalize_entry [3; 5] "networks" (VDict 0%nat)
      [ [("name", VStr "front"); ("external", VDict 1%nat)];
        [("name", VStr "shared")] ]
    = Ok (tt, <[0%nat := d']>
                [ [("name", VStr "front"); ("external", VDict 1%nat)];
                  [("name", VStr "shared")] ])
    /\ exists b, dict_get d' "external" = Some (VBool b).
Proof.
  destruct (denormalize_entry_external [3; 5] "networks" 0%nat
              [("name", VStr "front"); ("external", VDict 1%nat)]
              [ [("name", VStr "front"); ("external", VDict 1%nat)];
                [("name", VStr "shared")] ])
    as [d' [Hrun Hext]].
  - reflexivity.
  - intros l' H. injection H as <-. eexists. reflexivity.
  - exists d'. split; [exact Hrun|].
    simpl in Hext. destruct Hext as [b [_ Hb]]. exists b. exact Hb.
Defined.

(** ** Sharing between the input and the output *)

(** C4, at a record with a health check: [copy] is shallow, so the
    [healthcheck] mapping of the output is the very object of the input,
    and formatting [interval] in place changes what the input reads.  A
    second call on the same record then fails, since the interval is no
    longer a number. *)
Theorem denormalize_service_dict_mutates_input
        (serialize_restart_spec : heap -> value -> result value)
        (legacy_repr : string -> list (string * value) -> result value) :
  let record := [("name", VStr "web"); ("healthcheck", VDict 1%nat)] in
  let check := [("interval", VNum (PyInt 1000000000))] in
  let h := [record; check] in
  let h' := [record; [("interval", VStr "1s")];
             [("name", VStr "web"); ("healthcheck", VDict 1%nat)]] in
  denormalize_service_dict serialize_restart_spec legacy_repr
    (VDict 0%nat) [3; 5] VNone h = Ok (VDict 2%nat, h')
  /\ h' !! 1%nat <> h !! 1%nat
  /\ denormalize_service_dict serialize_restart_spec legacy_repr
       (VDict 0%nat) [3; 5] VNone h' = Raise ValueError.
Proof.
  repeat split.
  - discriminate.
Qed.

(** The same sharing in the resource groups: the entries of the copied
    group are the entries of the input, and [external_name] is deleted
    from them. *)
Lemma denormalize_config_mutates_input
      (serialize_restart_spec : heap -> value -> result value)
      (legacy_repr : string -> list (string * value) -> result value) :
  let config := {| version := [3; 5]; services := [];
                   volumes := VNone; networks := VDict 0%nat;
                   secrets := VNone; configs := VNone |} in
  let h := [ [("front", VDict 1%nat)];
             [("external_name", VStr "front"); ("external", VBool true)] ] in
  exists out h',
    denormalize_config serialize_restart_spec legacy_repr config VNone h
    = Ok (out, h')
    /\ h !! 1%nat = Some [("external_name", VStr "front"); ("external", VBool true)]
    /\ h' !! 1%nat = Some [("external", VBool true)].
Proof.
  intros config h. vm_compute.
  eexists _, _. split; [reflexivity|]. split; reflexivity.
Qed.

(** ** Matching numbers and units *)

Lemma lower_char_decimal (c : ascii) : is_decimal c = true -> lower_char c = c.
Proof.
  unfold is_decimal, lower_char. intros H.
  apply andb_true_iff in H. destruct H as [H1 H2].
  apply Z.leb_le in H1. apply Z.leb_le in H2.
  assert (E1 : (65 <=? code c) = false) by (apply Z.leb_gt; lia).
  assert (E2 : (192 <=? code c) = false) by (apply Z.leb_gt; lia).
  rewrite E1, E2. reflexivity.
Qed.

Lemma decimal_not_space (c : ascii) : is_decimal c = true -> is_space c = false.
Proof.
  unfold is_decimal, is_space. intros H.
  apply andb_true_iff in H. destruct H as [H1 H2].
  apply Z.leb_le in H1. apply Z.leb_le in H2.
  assert (E1 : (code c <=? 13) = false) by (apply Z.leb_gt; lia).
  assert (E2 : (code c <=? 32) = false) by (apply Z.leb_gt; lia).
  assert (E3 : (code c =? 133) = false) by (apply Z.eqb_neq; lia).
  assert (E4 : (code c =? 160) = false) by (apply Z.eqb_neq; lia).
  rewrite E1, E2, E3, E4. rewrite !andb_false_r. reflexivity.
Qed.

(** Under [re.I], a literal that is not a digit does not match a digit. *)
Lemma cmatch_lit_decimal (a c : ascii) :
  is_decimal c = true -> is_decimal (lower_char a) = false ->
  cmatch true (CLit a) c = false.
Proof.
  intros Hc Ha. unfold cmatch. rewrite (lower_char_decimal c Hc).
  apply Ascii.eqb_neq. intros ->. congruence.
Qed.

Lemma consumed_app (s t : string) : consumed (s ++ t) t = s.
Proof.
  unfold consumed. rewrite str_length_app.
  replace (String.length s + String.length t - String.length t)%nat
    with (String.length s) by lia.
  induction s as [|c s IH]; simpl.
  - destruct t; reflexivity.
  - now rewrite IH.
Qed.

Lemma consumed_all (s : string) : consumed s "" = s.
Proof.
  rewrite <- (str_app_nil_r s) at 1. apply consumed_app.
Qed.

Section MatchLemmas.

Context {R : Type}.

Lemma orelse_none_r (x : option R) : orelse x (fun _ => None) = x.
Proof. now destruct x. Qed.

Lemma rmatch_seq (r1 r2 : regex) (s : string) (g : groups)
      (k : string -> groups -> option R) :
  rmatch true (Seq r1 r2) s g k
  = rmatch true r1 s g (fun s' g' => rmatch true r2 s' g' k).
Proof. reflexivity. Qed.

Lemma rmatch_opt (r : regex) (s : string) (g : groups)
      (k : string -> groups -> option R) :
  rmatch true (Opt r) s g k
  = orelse (rmatch true r s g k) (fun _ => k s g).
Proof. reflexivity. Qed.

(** A greedy repetition over a run [ds] of matching characters, when
    every way of stopping inside the run either fails or gives what
    stopping at its end gives. *)
Lemma star_run (cl : cclass) (ds rest : string) (k : string -> option R)
      (X : option R) :
  str_all (cmatch true cl) ds = true ->
  match rest with
  | String c _ => cmatch true cl c = false
  | EmptyString => True
  end ->
  k rest = X ->
  (forall pre post, ds = pre ++ post -> post <> "" ->
                    k (post ++ rest) = X \/ k (post ++ rest) = None) ->
  star true cl (ds ++ rest) k = X.
Proof.
  intros Hds Hrest HX. induction ds as [|c ds IH]; intros Hk.
  - simpl. destruct rest as [|c r]; [exact HX|].
    simpl. now rewrite Hrest.
  - simpl in Hds. apply andb_true_iff in Hds. destruct Hds as [Hc Hds].
    cbn [append star]. rewrite Hc.
    rewrite (IH Hds).
    + destruct X as [x|]; [reflexivity|]. simpl.
      destruct (Hk "" (String c ds) eq_refl ltac:(discriminate)) as [H|H];
        exact H.
    + intros pre post -> Hpost. apply (Hk (String c pre) post); auto.
Qed.

(** The number of a component on a run of digits: the group takes the
    whole run, provided what follows the number cannot start on a
    digit. *)
Lemma match_number (name : string) (ds rest : string) (g : groups)
      (k : string -> groups -> option R) :
  ds <> "" -> str_all is_decimal ds = true -> starts_number rest = false ->
  (forall post g', post <> "" -> str_all is_decimal post = true ->
                   k (post ++ rest) g' = None) ->
  rmatch true (Group name FLOAT_NUMBER) (ds ++ rest) g k
  = k rest ((name, ds) :: g).
Proof.
  intros Hne Hds Hrest Hk.
  set (X := k rest ((name, ds) :: g)).
  set (k2 := fun s3 : string => k s3 ((name, consumed (ds ++ rest) s3) :: g)).
  assert (Hrest1 : match rest with
                   | String c _ => cmatch true CDigit c = false
                   | EmptyString => True
                   end).
  { destruct rest as [|c r]; [exact I|]. unfold starts_number in Hrest.
    now apply orb_false_iff in Hrest. }
  assert (HA : forall post, str_all is_decimal post = true ->
                            star true CDigit (post ++ rest) k2 = X).
  { intros post Hpost. apply star_run.
    - exact Hpost.
    - exact Hrest1.
    - unfold k2. now rewrite consumed_app.
    - intros pre post' -> Hp'. right. unfold k2. apply Hk; [exact Hp'|].
      rewrite str_all_app in Hpost. now apply andb_true_iff in Hpost. }
  set (k1 := fun s2 : string =>
    orelse (match s2 with
            | String a s' =>
                if cmatch true (CLit ".") a then star true CDigit s' k2 else None
            | EmptyString => None
            end) (fun _ => star true CDigit s2 k2)).
  assert (HB : forall post, str_all is_decimal post = true ->
                            k1 (post ++ rest) = X).
  { intros post Hpost. unfold k1.
    assert (Hdot : match post ++ rest with
                   | String a s' =>
                       if cmatch true (CLit ".") a
                       then star true CDigit s' k2 else None
                   | EmptyString => None
                   end = None).
    { destruct post as [|c post]; cbn [append].
      - destruct rest as [|c r]; [reflexivity|]. unfold starts_number in Hrest.
        apply orb_false_iff in Hrest. destruct Hrest as [_ Hr].
        now rewrite Hr.
      - simpl in Hpost. apply andb_true_iff in Hpost. destruct Hpost as [Hc _].
        now rewrite (cmatch_lit_decimal "." c Hc eq_refl). }
    rewrite Hdot. simpl. now apply HA. }
  destruct ds as [|c ds]; [congruence|].
  simpl in Hds. apply andb_true_iff in Hds. destruct Hds as [Hc Hds].
  unfold FLOAT_NUMBER. cbn [rmatch append].
  change (cmatch true CDigit c) with (is_decimal c). rewrite Hc.
  rewrite (cmatch_lit_decimal "." c Hc eq_refl).
  rewrite orelse_none_r.
  change (star true CDigit (ds ++ rest) k1 = X).
  apply star_run.
  - exact Hds.
  - exact Hrest1.
  - apply (HB "" eq_refl).
  - intros pre post -> Hpost. left. apply HB.
    rewrite str_all_app in Hds. now apply andb_true_iff in Hds.
Qed.

(** An optional component on a run of digits: the unit is tried after
    the whole run and, failing that, the component is skipped. *)
Lemma opt_component (name : string) (U : regex) (ds rest : string)
      (g : groups) (k : string -> groups -> option R) :
  ds <> "" -> str_all is_decimal ds = true -> starts_number rest = false ->
  (forall c s g', is_decimal c = true ->
                  rmatch true U (String c s) g' k = None) ->
  rmatch true (Opt (Seq (Group name FLOAT_NUMBER) U)) (ds ++ rest) g k
  = orelse (rmatch true U rest ((name, ds) :: g) k)
           (fun _ => k (ds ++ rest) g).
Proof.
  intros Hne Hds Hrest HU.
  rewrite rmatch_opt, rmatch_seq. rewrite match_number; auto.
  intros [|c post] g' Hp Hall; [congruence|].
  simpl in Hall. apply andb_true_iff in Hall. destruct Hall as [Hc _].
  apply HU. exact Hc.
Qed.

End MatchLemmas.

Section UnitLemmas.

Context {R : Type}.

Lemma rmatch_starc (cl : cclass) (s : string) (g : groups)
      (k : string -> groups -> option R) :
  rmatch true (StarC cl) s g k = star true cl s (fun s' => k s' g).
Proof. reflexivity. Qed.

Lemma star_stop (cl : cclass) (c : ascii) (s : string)
      (k : string -> option R) :
  cmatch true cl c = false -> star true cl (String c s) k = k (String c s).
Proof. intros H. simpl. now rewrite H. Qed.

Lemma lit_rejects_decimal (a : ascii) (t : string) (c : ascii) (s : string)
      (g : groups) (k : string -> groups -> option R) :
  is_decimal (lower_char a) = false -> is_decimal c = true ->
  rmatch true (lit (String a t)) (String c s) g k = None.
Proof.
  intros Ha Hc. destruct t as [|b t]; cbn [lit rmatch];
    now rewrite (cmatch_lit_decimal a c Hc Ha).
Qed.

End UnitLemmas.

Ltac solve_rejects :=
  let c := fresh "c" in
  let s := fresh "s" in
  let g := fresh "g" in
  let H := fresh "H" in
  intros c s g H;
  first
    [ apply lit_rejects_decimal; [reflexivity|exact H]
    | cbn [rmatch];
      rewrite !lit_rejects_decimal by (reflexivity || exact H);
      reflexivity ].

Ltac try_component :=
  cbv beta; rewrite ?rmatch_seq;
  rewrite opt_component by (assumption || reflexivity || solve_rejects).

Ltac skip_component :=
  try_component;
  match goal with
  | |- orelse ?A _ = _ => replace A with (@None match_object) by reflexivity
  end;
  cbn [orelse].

Ltac take_component :=
  try_component;
  match goal with
  | |- orelse ?A _ = Some ?X => replace A with (Some X) by reflexivity
  end;
  reflexivity.

(** What the formatter prints is matched by the duration pattern as one
    component: the digits in the group of the unit. *)
Lemma re_match_chain_unit (ds : string) (k : nat) :
  ds <> "" -> str_all is_decimal ds = true -> (k <= 5)%nat ->
  re_match pattern (ds ++ chain_unit k) true
  = Some {| group0 := ds ++ chain_unit k; named := [(chain_group k, ds)] |}.
Proof.
  intros Hne Hds Hk.
  rewrite <- (consumed_all (ds ++ chain_unit k)) at 2.
  unfold re_match, pattern, TIMEFORMAT, opt, HOURS, MINS, SECS, MILLI, MICRO, NANO.
  rewrite rmatch_seq, rmatch_starc.
  assert (Hstop : forall u (kk : string -> option match_object),
             star true CSpace (ds ++ u) kk = kk (ds ++ u)).
  { intros u kk. destruct ds as [|c ds']; [congruence|].
    simpl in Hds. apply andb_true_iff in Hds. destruct Hds as [Hc _].
    apply star_stop. simpl. now apply decimal_not_space. }
  rewrite Hstop.
  destruct k as [|[|[|[|[|[|k]]]]]]; [| | | | | |lia];
    cbn [chain_unit chain_group nth chain_units].
  - do 5 skip_component. take_component.
  - do 4 skip_component. take_component.
  - do 3 skip_component. take_component.
  - do 2 skip_component. take_component.
  - do 1 skip_component. take_component.
  - take_component.
Qed.

(** ** Casting and summing a single component *)

Lemma rstrip_no_space (s : string) :
  str_all (fun c => negb (is_space c)) s = true -> rstrip s = s.
Proof.
  induction s as [|c s IH]; [reflexivity|].
  simpl. intros H. apply andb_true_iff in H. destruct H as [Hc Hs].
  rewrite (IH Hs). apply negb_true_iff in Hc. rewrite Hc.
  now destruct s.
Qed.

Lemma decimal_no_space (s : string) :
  str_all is_decimal s = true -> str_all (fun c => negb (is_space c)) s = true.
Proof.
  induction s as [|c s IH]; [reflexivity|].
  simpl. intros H. apply andb_true_iff in H. destruct H as [Hc Hs].
  rewrite (decimal_not_space c Hc). simpl. now apply IH.
Qed.

Lemma strip_decimal (s : string) : str_all is_decimal s = true -> strip s = s.
Proof.
  intros H. unfold strip.
  assert (Hl : lstrip s = s).
  { destruct s as [|c s]; [reflexivity|]. simpl in *.
    apply andb_true_iff in H. destruct H as [Hc _].
    now rewrite (decimal_not_space c Hc). }
  rewrite Hl. apply rstrip_no_space. now apply decimal_no_space.
Qed.

(** The whitespace of [int] is whitespace of [str.isspace]. *)
Lemma int_space_is_space (c : ascii) :
  is_int_space c = true -> is_space c = true.
Proof.
  destruct c as [[] [] [] [] [] [] [] []]; vm_compute; congruence.
Qed.

Lemma int_strip_no_space (s : string) :
  str_all (fun c => negb (is_space c)) s = true ->
  rskip is_int_space (lskip is_int_space s) = s.
Proof.
  intros H.
  assert (Hn : forall c, is_space c = false -> is_int_space c = false).
  { intros c Hc. destruct (is_int_space c) eqn:Hi; [|reflexivity].
    apply int_space_is_space in Hi. congruence. }
  assert (Hl : lskip is_int_space s = s).
  { destruct s as [|c s]; [reflexivity|]. cbn [str_all] in H.
    apply andb_true_iff in H. destruct H as [Hc _].
    apply negb_true_iff in Hc. cbn [lskip]. now rewrite (Hn c Hc). }
  rewrite Hl. clear Hl. induction s as [|c s IH]; [reflexivity|].
  cbn [str_all] in H. apply andb_true_iff in H. destruct H as [Hc Hs].
  apply negb_true_iff in Hc. cbn [rskip]. rewrite (IH Hs), (Hn c Hc).
  now destruct s.
Qed.

Lemma count_decimal_all (s : string) :
  str_all is_decimal s = true -> count_decimal s = String.length s.
Proof.
  induction s as [|c s IH]; [reflexivity|].
  cbn [str_all count_decimal String.length]. intros H.
  apply andb_true_iff in H. destruct H as [Hc Hs].
  rewrite Hc. now rewrite IH.
Qed.

Lemma strip_starts_nonspace (c : ascii) (s : string) :
  is_space c = false -> strip (String c s) <> "".
Proof.
  intros Hc. unfold strip. cbn [lstrip]. rewrite Hc.
  cbn [rstrip]. rewrite Hc. destruct (rstrip s); discriminate.
Qed.

Lemma digits_underscore_decimal (s : string) (b : bool) (acc : Z) :
  str_all is_decimal s = true -> s <> "" \/ b = true ->
  digits_underscore s b acc = Some (digits_value acc s).
Proof.
  revert b acc. induction s as [|c s IH]; intros b acc Hs Hb.
  - destruct Hb as [Hb | ->]; [congruence|reflexivity].
  - simpl in Hs. apply andb_true_iff in Hs. destruct Hs as [Hc Hs].
    cbn [digits_underscore digits_value]. rewrite Hc.
    apply IH; [exact Hs|now right].
Qed.

Lemma isdigit_decimal (s : string) :
  s <> "" -> str_all is_decimal s = true -> isdigit s = true.
Proof.
  intros Hne Hs. unfold isdigit. destruct s as [|c s]; [congruence|].
  clear Hne. revert Hs. generalize (String c s). intros t.
  induction t as [|a t IH]; [reflexivity|].
  simpl. intros H. apply andb_true_iff in H. destruct H as [Ha Ht].
  unfold is_digit_char at 1. rewrite Ha. simpl. now apply IH.
Qed.

Lemma py_int_of_str_decimal (s : string) :
  s <> "" -> str_all is_decimal s = true ->
  py_int_of_str s
  = if (String.length s <=? int_max_str_digits)%nat
    then Ok (digits_value 0 s) else Raise ValueError.
Proof.
  intros Hne Hs. unfold py_int_of_str.
  rewrite (int_strip_no_space s (decimal_no_space s Hs)).
  rewrite <- (count_decimal_all s Hs).
  destruct s as [|c s]; [congruence|].
  assert (Hc : is_decimal c = true).
  { simpl in Hs. now apply andb_true_iff in Hs. }
  assert (Hm : Ascii.eqb c "-" = false).
  { apply Ascii.eqb_neq. intros ->. discriminate. }
  assert (Hp : Ascii.eqb c "+" = false).
  { apply Ascii.eqb_neq. intros ->. discriminate. }
  rewrite Hm, Hp.
  rewrite digits_underscore_decimal; [reflexivity|exact Hs|now left].
Qed.

Lemma cast_decimal (s : string) :
  s <> "" -> str_all is_decimal s = true ->
  (String.length s <= int_max_str_digits)%nat ->
  cast s = Ok (PyInt (digits_value 0 s)).
Proof.
  intros Hne Hs Hlen. unfold cast. rewrite isdigit_decimal by assumption.
  rewrite py_int_of_str_decimal by assumption.
  apply Nat.leb_le in Hlen. now rewrite Hlen.
Qed.

(** An all-digit token longer than the limit is not read. *)
Lemma cast_decimal_long (s : string) :
  str_all is_decimal s = true ->
  (int_max_str_digits < String.length s)%nat ->
  cast s = Raise ValueError.
Proof.
  intros Hs Hlen.
  assert (Hne : s <> "") by (intros ->; cbn in Hlen; lia).
  unfold cast. rewrite isdigit_decimal by assumption.
  rewrite py_int_of_str_decimal by assumption.
  apply Nat.leb_gt in Hlen. now rewrite Hlen.
Qed.

Lemma getitem_chain (k : nat) :
  (k <= 5)%nat ->
  getitem MULTIPLIERS (chain_group k) = Ok (chain_multiplier k).
Proof.
  intros Hk. destruct k as [|[|[|[|[|[|k]]]]]]; [| | | | | |lia]; reflexivity.
Qed.

Lemma chain_multiplier_finite (k : nat) :
  (k <= 5)%nat -> exists m e, chain_multiplier k = S754_finite false m e.
Proof.
  intros Hk. destruct k as [|[|[|[|[|[|k]]]]]]; [| | | | | |lia];
    vm_compute; eexists _, _; reflexivity.
Qed.

(** ** Signs of the floats at hand *)

Lemma round_aux_nonneg (m e : Z) (l : location) :
  float_nonneg (binary_round_aux prec emax false m e l).
Proof.
  unfold binary_round_aux.
  destruct (shr_fexp prec emax m e l) as [mrs' e'].
  destruct (shr_fexp prec emax _ e' loc_Exact) as [mrs'' e''].
  destruct (shr_m mrs''); simpl; auto.
  destruct (e'' <=? emax - prec); exact I.
Qed.

Lemma float_of_Z_nonneg (v : Z) : 0 <= v -> float_nonneg (float_of_Z v).
Proof.
  intros Hv. unfold float_of_Z, binary_normalize.
  destruct v as [|p|p]; [exact I| |lia].
  unfold binary_round.
  destruct (shl_align p 0 _) as [mz ez]. apply round_aux_nonneg.
Qed.

Lemma mul_nonneg (m : positive) (e : Z) (y : spec_float) :
  float_nonneg y -> float_nonneg (SFmul prec emax (S754_finite false m e) y).
Proof.
  destruct y as [s|s| |s my ey]; try destruct s; simpl;
    try contradiction; try exact (fun _ => I).
  intros _. apply round_aux_nonneg.
Qed.

Lemma add_zero_nonneg (t : spec_float) :
  float_nonneg t -> SFadd prec emax (S754_zero false) t = t.
Proof.
  destruct t as [s|s| |s m e]; try destruct s; simpl;
    try contradiction; reflexivity.
Qed.

Lemma sum_items_chain (k : nat) (g0 ds : string) (acc : pynum) :
  (k <= 5)%nat ->
  sum_items (groupdict pattern {| group0 := g0; named := [(chain_group k, ds)] |}) acc
  = rbind (getitem MULTIPLIERS (chain_group k)) (fun mult =>
    rbind (cast ds) (fun c =>
    rbind (py_mul (PyFloat mult) c) (fun term => py_add acc term))).
Proof.
  intros Hk. destruct k as [|[|[|[|[|[|k]]]]]]; [| | | | | |lia];
    cbn [chain_group nth]; unfold groupdict;
    cbn [group_names pattern TIMEFORMAT opt HOURS MINS SECS MILLI MICRO NANO
         FLOAT_NUMBER lit app map named lookup_group String.eqb Ascii.eqb
         Bool.eqb sum_items];
    destruct (cast ds) as [c|e]; cbn [rbind];
    try (destruct (getitem MULTIPLIERS _); reflexivity);
    destruct (getitem MULTIPLIERS _) as [mult|e]; cbn [rbind]; try reflexivity;
    destruct (py_mul (PyFloat mult) c) as [t|e]; cbn [rbind]; try reflexivity;
    destruct (py_add acc t); reflexivity.
Qed.

(** What [timeparse] returns on a text of the formatter: the product, in
    binary64, of the unit's multiplier and the integer. *)
Lemma timeparse_chain_sum (v : Z) (k : nat) :
  0 <= v -> (k <= 5)%nat ->
  (String.length (str_int v) <= int_max_str_digits)%nat ->
  timeparse (str_int v ++ chain_unit k)
  = rbind (rbind (py_mul (PyFloat (chain_multiplier k)) (PyInt v))
                 (fun term => py_add (PyInt 0) term))
          (fun x => Ok (Some x)).
Proof.
  intros Hv Hk Hlen.
  pose proof (str_int_nonempty v) as Hne.
  pose proof (str_int_decimal v Hv) as Hds.
  unfold timeparse. rewrite re_match_chain_unit by assumption.
  cbn [group0].
  assert (Hstrip : String.eqb (strip (str_int v ++ chain_unit k)) "" = false).
  { apply String.eqb_neq. destruct (str_int v) as [|c ds]; [congruence|].
    cbn [append]. apply strip_starts_nonspace.
    simpl in Hds. apply andb_true_iff in Hds. destruct Hds as [Hc _].
    now apply decimal_not_space. }
  rewrite Hstrip. rewrite sum_items_chain by exact Hk.
  rewrite getitem_chain by exact Hk.
  rewrite cast_decimal by assumption. rewrite str_int_value by exact Hv.
  reflexivity.
Qed.

(** Beyond the digits that [int] reads, the text of the formatter's
    shape is not read. *)
Lemma timeparse_chain_long (v : Z) (k : nat) :
  0 <= v -> (k <= 5)%nat ->
  (int_max_str_digits < String.length (str_int v))%nat ->
  timeparse (str_int v ++ chain_unit k) = Raise ValueError.
Proof.
  intros Hv Hk Hlen.
  pose proof (str_int_nonempty v) as Hne.
  pose proof (str_int_decimal v Hv) as Hds.
  unfold timeparse. rewrite re_match_chain_unit by assumption.
  cbn [group0].
  assert (Hstrip : String.eqb (strip (str_int v ++ chain_unit k)) "" = false).
  { apply String.eqb_neq. destruct (str_int v) as [|c ds]; [congruence|].
    cbn [append]. apply strip_starts_nonspace.
    simpl in Hds. apply andb_true_iff in Hds. destruct Hds as [Hc _].
    now apply decimal_not_space. }
  rewrite Hstrip. rewrite sum_items_chain by exact Hk.
  rewrite getitem_chain by exact Hk.
  rewrite cast_decimal_long by assumption. reflexivity.
Qed.

Lemma timeparse_chain_unit (v : Z) (k : nat) :
  0 <= v -> (k <= 5)%nat ->
  (String.length (str_int v) <= int_max_str_digits)%nat ->
  timeparse (str_int v ++ chain_unit k)
  = match as_float (PyInt v) with
    | Ok f => Ok (Some (PyFloat (SFmul prec emax (chain_multiplier k) f)))
    | Raise e => Raise e
    end.
Proof.
  intros Hv Hk Hlen. rewrite (timeparse_chain_sum v k Hv Hk Hlen).
  unfold py_mul. cbn [as_float rbind].
  destruct (chain_multiplier_finite k Hk) as [m [e Hm]].
  pose proof (float_of_Z_nonneg v Hv) as Hf.
  destruct (float_of_Z v) as [s|s| |s mv ev] eqn:Ef; cbn [rbind];
    try reflexivity;
    unfold py_add; cbn [as_float rbind];
    change (float_of_Z 0) with (S754_zero false); cbn [rbind];
    rewrite add_zero_nonneg; try reflexivity;
    rewrite Hm; apply mul_nonneg; exact Hf.
Qed.

(** ** The round trip of the codec *)





(** ** Soundness of the matcher *)

Section Soundness.

Context {R : Type}.

Lemma star_sound (cl : cclass) (s0 : string) (k : string -> option R) (x : R) :
  star true cl s0 k = Some x ->
  exists s rest, s0 = s ++ rest /\ str_all (cmatch true cl) s = true
                 /\ k rest = Some x.
Proof.
  induction s0 as [|c s0 IH]; simpl; intros H.
  - exists "", "". auto.
  - destruct (cmatch true cl c) eqn:Hc.
    + destruct (star true cl s0 k) as [y|] eqn:Hs; simpl in H.
      * injection H as ->. destruct (IH eq_refl) as [s [rest [-> [Hall Hk]]]].
        exists (String c s), rest. simpl. rewrite Hc. auto.
      * exists "", (String c s0). auto.
    + exists "", (String c s0). auto.
Qed.

Lemma rmatch_sound (r : regex) :
  forall (s0 : string) (g : groups) (k : string -> groups -> option R) (x : R),
    rmatch true r s0 g k = Some x ->
    exists s rest g', s0 = s ++ rest /\ matches r s rest g g'
                      /\ k rest g' = Some x.
Proof.
  induction r as [cl|cl|cl|r IH|r1 IH1 r2 IH2|r1 IH1 r2 IH2|name r IH|];
    intros s0 g k x H.
  - (* Chr *)
    cbn [rmatch] in H. destruct s0 as [|a s0]; [discriminate|].
    destruct (cmatch true cl a) eqn:Hc; [|discriminate].
    exists (String a ""), s0, g. repeat split; auto. now constructor.
  - (* StarC *)
    cbn [rmatch] in H. apply star_sound in H.
    destruct H as [s [rest [-> [Hall Hk]]]].
    exists s, rest, g. repeat split; auto. now constructor.
  - (* PlusC *)
    cbn [rmatch] in H. destruct s0 as [|a s0]; [discriminate|].
    destruct (cmatch true cl a) eqn:Hc; [|discriminate].
    apply star_sound in H. destruct H as [s [rest [-> [Hall Hk]]]].
    exists (String a s), rest, g. repeat split; auto.
    constructor; [discriminate|]. simpl. now rewrite Hc.
  - (* Opt *)
    cbn [rmatch] in H.
    destruct (rmatch true r s0 g k) as [y|] eqn:Hr; simpl in H.
    + injection H as ->. destruct (IH _ _ _ _ Hr) as [s [rest [g' [-> [Hm Hk]]]]].
      exists s, rest, g'. repeat split; auto. now constructor.
    + exists "", s0, g. repeat split; auto. apply M_opt_none.
  - (* Seq *)
    cbn [rmatch] in H.
    destruct (IH1 _ _ _ _ H) as [s1 [rest1 [g1 [-> [Hm1 Hk1]]]]].
    destruct (IH2 _ _ _ _ Hk1) as [s2 [rest [g2 [-> [Hm2 Hk2]]]]].
    exists (s1 ++ s2), rest, g2. repeat split; auto.
    + now rewrite str_app_assoc.
    + econstructor; eassumption.
  - (* Alt *)
    cbn [rmatch] in H.
    destruct (rmatch true r1 s0 g k) as [y|] eqn:Hr; simpl in H.
    + injection H as ->. destruct (IH1 _ _ _ _ Hr) as [s [rest [g' [-> [Hm Hk]]]]].
      exists s, rest, g'. repeat split; auto. now apply M_alt_l.
    + destruct (IH2 _ _ _ _ H) as [s [rest [g' [-> [Hm Hk]]]]].
      exists s, rest, g'. repeat split; auto. now apply M_alt_r.
  - (* Group *)
    cbn [rmatch] in H.
    destruct (IH _ _ _ _ H) as [s [rest [g' [-> [Hm Hk]]]]].
    rewrite consumed_app in Hk.
    exists s, rest, ((name, s) :: g'). repeat split; auto. now constructor.
  - (* Eol *)
    cbn [rmatch] in H. destruct s0 as [|a [|b s0]].
    + exists "", "", g. repeat split; auto. constructor. now left.
    + destruct (Ascii.eqb a (chr 10)) eqn:Ha; [|discriminate].
      apply Ascii.eqb_eq in Ha. subst a.
      exists "", (String (chr 10) ""), g. repeat split; auto.
      constructor. now right.
    + discriminate.
Qed.

End Soundness.

(** A match of [re_match]: the whole match is a prefix of the text and
    the named groups are those of a reading of the pattern. *)
Lemma re_match_sound (r : regex) (s : string) (m : match_object) :
  re_match r s true = Some m ->
  exists rest, s = group0 m ++ rest /\ matches r (group0 m) rest [] (named m).
Proof.
  unfold re_match. intros H. apply rmatch_sound in H.
  destruct H as [s1 [rest [g' [-> [Hm Hk]]]]].
  injection Hk as <-. cbn [group0 named]. rewrite consumed_app.
  exists rest. auto.
Qed.

(** ** The shape of a matched duration *)

Lemma matches_groupless (r : regex) (s rest : string) (g g' : groups) :
  matches r s rest g g' -> has_group r = false -> g' = g.
Proof.
  induction 1; simpl; intros Hg; try reflexivity; try discriminate.
  - now apply IHmatches.
  - apply orb_false_iff in Hg. destruct Hg as [H1 H2].
    rewrite (IHmatches2 H2). now apply IHmatches1.
  - apply orb_false_iff in Hg. destruct Hg as [H1 H2]. now apply IHmatches.
  - apply orb_false_iff in Hg. destruct Hg as [H1 H2]. now apply IHmatches.
Qed.

Lemma decimal_numchar (s : string) :
  str_all (cmatch true CDigit) s = true -> str_all is_numchar s = true.
Proof.
  induction s as [|c s IH]; [reflexivity|]. simpl.
  intros H. apply andb_true_iff in H. destruct H as [Hc Hs].
  unfold is_numchar at 1. rewrite Hc. simpl. now apply IH.
Qed.

Lemma dot_numchar (c : ascii) :
  cmatch true (CLit ".") c = true -> is_numchar c = true.
Proof.
  unfold cmatch, is_numchar. intros H. apply Ascii.eqb_eq in H.
  destruct (ascii_dec c ".") as [->|Hne]; [reflexivity|].
  exfalso. revert H Hne.
  destruct c as [[] [] [] [] [] [] [] []]; vm_compute; congruence.
Qed.

Lemma matches_chr_inv (cl : cclass) (s rest : string) (g g' : groups) :
  matches (Chr cl) s rest g g' ->
  exists a, s = String a "" /\ cmatch true cl a = true /\ g' = g.
Proof. inversion 1; subst; eauto. Qed.

Lemma matches_star_inv (cl : cclass) (s rest : string) (g g' : groups) :
  matches (StarC cl) s rest g g' ->
  str_all (cmatch true cl) s = true /\ g' = g.
Proof. inversion 1; subst; eauto. Qed.

Lemma matches_plus_inv (cl : cclass) (s rest : string) (g g' : groups) :
  matches (PlusC cl) s rest g g' ->
  s <> "" /\ str_all (cmatch true cl) s = true /\ g' = g.
Proof. inversion 1; subst; eauto. Qed.

Lemma matches_opt_inv (r : regex) (s rest : string) (g g' : groups) :
  matches (Opt r) s rest g g' ->
  matches r s rest g g' \/ (s = "" /\ g' = g).
Proof. inversion 1; subst; eauto. Qed.

Lemma matches_seq_inv (r1 r2 : regex) (s rest : string) (g g' : groups) :
  matches (Seq r1 r2) s rest g g' ->
  exists s1 s2 g1, s = s1 ++ s2 /\ matches r1 s1 (s2 ++ rest) g g1
                   /\ matches r2 s2 rest g1 g'.
Proof. inversion 1; subst; eauto 7. Qed.

Lemma matches_alt_inv (r1 r2 : regex) (s rest : string) (g g' : groups) :
  matches (Alt r1 r2) s rest g g' ->
  matches r1 s rest g g' \/ matches r2 s rest g g'.
Proof. inversion 1; subst; eauto. Qed.

Lemma matches_group_inv (name : string) (r : regex) (s rest : string)
      (g g' : groups) :
  matches (Group name r) s rest g g' ->
  exists g1, g' = (name, s) :: g1 /\ matches r s rest g g1.
Proof. inversion 1; subst; eauto. Qed.

Lemma matches_eol_inv (s rest : string) (g g' : groups) :
  matches Eol s rest g g' ->
  s = "" /\ g' = g /\ (rest = "" \/ rest = String (chr 10) "").
Proof. inversion 1; subst; eauto. Qed.

Lemma matches_number (f rest : string) (g g' : groups) :
  matches FLOAT_NUMBER f rest g g' ->
  g' = g /\ f <> "" /\ str_all is_numchar f = true.
Proof.
  intros H. split; [now apply (matches_groupless _ _ _ _ _ H)|].
  unfold FLOAT_NUMBER in H.
  apply matches_alt_inv in H. destruct H as [H|H].
  - apply matches_seq_inv in H. destruct H as [s1 [s2 [g1 [-> [Ha Hb]]]]].
    apply matches_plus_inv in Ha. destruct Ha as [Hne [Hs1 _]].
    apply matches_seq_inv in Hb. destruct Hb as [s3 [s4 [g2 [-> [Hc Hd]]]]].
    apply matches_star_inv in Hd. destruct Hd as [Hs4 _].
    split.
    + destruct s1; [congruence|discriminate].
    + rewrite !str_all_app.
      rewrite (decimal_numchar s1) by assumption.
      rewrite (decimal_numchar s4) by assumption.
      rewrite andb_true_r. simpl.
      apply matches_opt_inv in Hc. destruct Hc as [Hc|[-> _]]; [|reflexivity].
      apply matches_chr_inv in Hc. destruct Hc as [a [-> [Ha _]]].
      simpl. rewrite dot_numchar by assumption. reflexivity.
  - apply matches_seq_inv in H. destruct H as [s1 [s2 [g1 [-> [Ha Hb]]]]].
    apply matches_chr_inv in Ha. destruct Ha as [a [-> [Ha _]]].
    apply matches_plus_inv in Hb. destruct Hb as [_ [Hs2 _]].
    split; [discriminate|].
    simpl. rewrite dot_numchar by assumption.
    now apply decimal_numchar.
Qed.

Lemma matches_component (c : string * regex) (s rest : string) (g g' : groups) :
  has_group (snd c) = false ->
  matches (component c) s rest g g' ->
  exists p, s = render_part p /\ part_ok c p
            /\ g' = match p with Some (f, _) => (fst c, f) :: g | None => g end.
Proof.
  intros Hg H. unfold component in H.
  apply matches_opt_inv in H. destruct H as [H|[-> ->]].
  - apply matches_seq_inv in H. destruct H as [s1 [s2 [g1 [-> [Ha Hb]]]]].
    apply matches_group_inv in Ha. destruct Ha as [g2 [-> Hn]].
    destruct (matches_number _ _ _ _ Hn) as [-> [Hne Hnum]].
    pose proof (matches_groupless _ _ _ _ _ Hb Hg) as ->.
    exists (Some (s1, s2)). simpl. repeat split; eauto.
  - exists None. simpl. auto.
Qed.

Lemma matches_components (cs : list (string * regex)) :
  forall (c : string * regex) (s rest : string) (g g' : groups),
    Forall (fun c => has_group (snd c) = false) (c :: cs) ->
    matches (components c cs) s rest g g' ->
    exists ps, s = render_parts ps /\ Forall2 part_ok (c :: cs) ps
               /\ g' = captures (c :: cs) ps g.
Proof.
  induction cs as [|c' cs IH]; intros c s rest g g' Hg H.
  - cbn [components] in H. inversion Hg as [|x l Hc _]; subst.
    destruct (matches_component c s rest g g' Hc H) as [p [-> [Hp ->]]].
    exists [p]. split; [|split].
    + simpl. now rewrite str_app_nil_r.
    + constructor; [exact Hp|constructor].
    + destruct p as [[f u]|]; reflexivity.
  - cbn [components] in H. inversion Hg as [|x l Hc Hcs]; subst.
    apply matches_seq_inv in H. destruct H as [s1 [s2 [g1 [-> [H1 H2]]]]].
    destruct (matches_component c s1 _ g g1 Hc H1) as [p [-> [Hp ->]]].
    destruct (IH c' s2 rest _ g' Hcs H2) as [ps [-> [Hps ->]]].
    exists (p :: ps). split; [|split].
    + reflexivity.
    + constructor; assumption.
    + destruct p as [[f u]|]; reflexivity.
Qed.

Lemma timeformat_components :
  TIMEFORMAT = components ("hours", lit "h") (tl unit_table).
Proof. reflexivity. Qed.

(** Every match of the duration pattern is whitespace, components in the
    order of the table, whitespace. *)
Lemma pattern_shape (s rest : string) (g : groups) :
  matches pattern s rest [] g ->
  exists ws1 ps ws2,
    s = ws1 ++ render_parts ps ++ ws2
    /\ str_all is_space ws1 = true /\ str_all is_space ws2 = true
    /\ Forall2 part_ok unit_table ps
    /\ g = captures unit_table ps []
    /\ (rest = "" \/ rest = String (chr 10) "").
Proof.
  unfold pattern. intros H.
  apply matches_seq_inv in H. destruct H as [ws1 [s2 [g1 [-> [Ha Hb]]]]].
  apply matches_star_inv in Ha. destruct Ha as [Hws1 ->].
  apply matches_seq_inv in Hb. destruct Hb as [body [s3 [g2 [-> [Hb Hc]]]]].
  apply matches_seq_inv in Hc. destruct Hc as [ws2 [s4 [g3 [-> [Hc Hd]]]]].
  apply matches_star_inv in Hc. destruct Hc as [Hws2 ->].
  apply matches_eol_inv in Hd. destruct Hd as [-> [-> Hrest]].
  rewrite timeformat_components in Hb.
  apply matches_components in Hb.
  - destruct Hb as [ps [-> [Hps ->]]].
    exists ws1, ps, ws2. rewrite str_app_nil_r. repeat split; auto.
  - repeat constructor.
Qed.

Lemma matches_lit (t : string) :
  forall (a : ascii) (u rest : string) (g g' : groups),
    matches (lit (String a t)) u rest g g' -> lower u = lower (String a t).
Proof.
  induction t as [|b t IH]; intros a u rest g g' H.
  - cbn [lit] in H. apply matches_chr_inv in H. destruct H as [c [-> [Hc _]]].
    simpl in Hc. apply Ascii.eqb_eq in Hc. simpl. now rewrite Hc.
  - change (lit (String a (String b t)))
      with (Seq (Chr (CLit a)) (lit (String b t))) in H.
    apply matches_seq_inv in H. destruct H as [s1 [s2 [g1 [-> [Ha Hb]]]]].
    apply matches_chr_inv in Ha. destruct Ha as [c [-> [Hc _]]].
    simpl in Hc. apply Ascii.eqb_eq in Hc.
    cbn [append lower]. rewrite Hc. f_equal. exact (IH _ _ _ _ _ Hb).
Qed.

Lemma unit_table_ranked (ps : list part) :
  Forall2 part_ok unit_table ps -> ranked 0 ps.
Proof.
  unfold unit_table. intros H.
  repeat match goal with
         | H : Forall2 _ (_ :: _) _ |- _ =>
             apply Forall2_cons_inv_l in H;
             let p := fresh "p" in
             let ps' := fresh "ps" in
             let Hp := fresh "Hp" in
             destruct H as [p [ps' [Hp [H ->]]]]
         | H : Forall2 _ [] _ |- _ => apply Forall2_nil_inv_l in H; subst
         end.
  cbn [ranked]. repeat split;
    match goal with
    | |- match ?p with _ => _ end =>
        destruct p as [[f u]|]; [|exact I];
        match goal with
        | Hp : part_ok _ (Some (f, u)) |- _ =>
            destruct Hp as [_ [_ [rest [g Hm]]]]; cbn [snd] in Hm
        end
    end;
    try (rewrite (matches_lit _ _ _ _ _ _ Hm); reflexivity).
  apply matches_alt_inv in Hm. destruct Hm as [Hm|Hm];
    rewrite (matches_lit _ _ _ _ _ _ Hm); reflexivity.
Qed.

(** ** Runs of letters *)

Lemma is_letter_lower (c : ascii) : is_letter (lower_char c) = is_letter c.
Proof.
  destruct c as [[] [] [] [] [] [] [] []]; vm_compute; reflexivity.
Qed.

Lemma str_all_letter_lower (u : string) :
  str_all is_letter (lower u) = str_all is_letter u.
Proof.
  induction u as [|c u IH]; [reflexivity|].
  simpl. now rewrite is_letter_lower, IH.
Qed.

Lemma lower_nonempty (u : string) : lower u <> "" -> u <> "".
Proof. destruct u; [easy|discriminate]. Qed.

Lemma unit_rank_letters (u : string) (r : nat) :
  unit_rank (lower u) = Some r -> u <> "" /\ str_all is_letter u = true.
Proof.
  unfold unit_rank. intros H.
  rewrite <- str_all_letter_lower.
  repeat match type of H with
         | (if String.eqb ?a ?b then _ else _) = _ =>
             destruct (String.eqb a b) eqn:E;
             [apply String.eqb_eq in E; rewrite E; split;
              [apply lower_nonempty; rewrite E; discriminate|reflexivity]
             |clear E]
         end.
  discriminate.
Qed.

Lemma numchar_not_letter (c : ascii) : is_numchar c = true -> is_letter c = false.
Proof. unfold is_letter. intros ->. reflexivity. Qed.

Lemma space_not_letter (c : ascii) : is_space c = true -> is_letter c = false.
Proof. unfold is_letter. intros ->. now rewrite orb_true_r. Qed.

Lemma letter_runs_skip (n s : string) :
  str_all (fun c => negb (is_letter c)) n = true ->
  letter_runs (n ++ s) = letter_runs s.
Proof.
  induction n as [|c n IH]; [reflexivity|].
  simpl. intros H. apply andb_true_iff in H. destruct H as [Hc Hn].
  apply negb_true_iff in Hc. rewrite Hc. now apply IH.
Qed.

Lemma letter_runs_cons (c : ascii) (s' : string) :
  letter_runs (String c s')
  = if is_letter c then
      match s' with
      | String c' _ =>
          if is_letter c' then
            match letter_runs s' with
            | r :: t => String c r :: t
            | [] => [String c EmptyString]
            end
          else String c EmptyString :: letter_runs s'
      | EmptyString => [String c EmptyString]
      end
    else letter_runs s'.
Proof. reflexivity. Qed.

Lemma letter_runs_take (u s : string) :
  u <> "" -> str_all is_letter u = true -> starts_letter s = false ->
  letter_runs (u ++ s) = u :: letter_runs s.
Proof.
  intros Hne Hu Hs. induction u as [|c u IH]; [congruence|].
  simpl in Hu. apply andb_true_iff in Hu. destruct Hu as [Hc Hu].
  destruct u as [|c2 u].
  - cbn [append]. rewrite letter_runs_cons, Hc.
    destruct s as [|c' s]; [reflexivity|].
    simpl in Hs. now rewrite Hs.
  - cbn [append]. rewrite letter_runs_cons, Hc.
    assert (Hc2 : is_letter c2 = true).
    { simpl in Hu. now apply andb_true_iff in Hu. }
    rewrite Hc2.
    change (String c2 (u ++ s)) with (String c2 u ++ s).
    rewrite IH; [reflexivity|discriminate|exact Hu].
Qed.

Lemma str_all_impl (p q : ascii -> bool) (s : string) :
  (forall c, p c = true -> q c = true) ->
  str_all p s = true -> str_all q s = true.
Proof.
  intros Hpq. induction s as [|c s IH]; [reflexivity|].
  simpl. intros H. apply andb_true_iff in H. destruct H as [Hc Hs].
  rewrite (Hpq c Hc). now apply IH.
Qed.

Lemma numchars_no_letter (f : string) :
  str_all is_numchar f = true ->
  str_all (fun c => negb (is_letter c)) f = true.
Proof.
  apply str_all_impl. intros c Hc. now rewrite numchar_not_letter.
Qed.

Lemma spaces_no_letter (w : string) :
  str_all is_space w = true ->
  str_all (fun c => negb (is_letter c)) w = true.
Proof.
  apply str_all_impl. intros c Hc. now rewrite space_not_letter.
Qed.

Lemma no_letter_start (w s : string) :
  str_all (fun c => negb (is_letter c)) w = true ->
  starts_letter s = false -> starts_letter (w ++ s) = false.
Proof.
  destruct w as [|c w]; [auto|]. simpl. intros H _.
  apply andb_true_iff in H. destruct H as [Hc _]. now apply negb_true_iff.
Qed.

Lemma parts_start (ps : list part) (tail : string) :
  Forall part_token ps -> starts_letter tail = false ->
  starts_letter (render_parts ps ++ tail) = false.
Proof.
  intros Hps Ht. induction Hps as [|p ps Hp Hps IH]; [exact Ht|].
  cbn [render_parts]. rewrite str_app_assoc.
  destruct p as [[f u]|]; [|exact IH].
  destruct Hp as [Hne [Hf _]]. cbn [render_part]. rewrite str_app_assoc.
  destruct f as [|c f]; [congruence|]. simpl in *.
  apply andb_true_iff in Hf. destruct Hf as [Hc _].
  now apply numchar_not_letter.
Qed.

(** The runs of letters of a sequence of components are its units. *)
Lemma letter_runs_parts (ps : list part) (tail : string) :
  Forall part_token ps ->
  str_all (fun c => negb (is_letter c)) tail = true ->
  letter_runs (render_parts ps ++ tail) = units ps.
Proof.
  intros Hps Ht.
  assert (Hst : starts_letter tail = false).
  { rewrite <- (str_app_nil_r tail). now apply no_letter_start. }
  induction Hps as [|p ps Hp Hps IH].
  - simpl. rewrite <- (str_app_nil_r tail). now rewrite letter_runs_skip.
  - cbn [render_parts units]. rewrite str_app_assoc.
    destruct p as [[f u]|]; [|exact IH].
    destruct Hp as [Hne [Hf [Hu Hl]]]. cbn [render_part].
    rewrite str_app_assoc.
    rewrite letter_runs_skip by now apply numchars_no_letter.
    rewrite letter_runs_take; [now rewrite IH|exact Hu|exact Hl|].
    now apply parts_start.
Qed.

Lemma ascending_weaken (i j : nat) (l : list nat) :
  (i <= j)%nat -> ascending_from j l = true -> ascending_from i l = true.
Proof.
  destruct l as [|x l]; [reflexivity|]. simpl. intros Hij H.
  apply andb_true_iff in H. destruct H as [H1 H2].
  apply Nat.leb_le in H1. rewrite H2.
  assert (E : (i <=? x)%nat = true) by (apply Nat.leb_le; lia). now rewrite E.
Qed.

Lemma ranked_ascending (ps : list part) :
  forall i, ranked i ps -> ascending_from i (map rank_of (units ps)) = true.
Proof.
  induction ps as [|p ps IH]; intros i H; [reflexivity|].
  destruct H as [Hp Hps]. destruct p as [[f u]|]; cbn [units map].
  - assert (Hr : rank_of u = i) by (unfold rank_of; now rewrite Hp).
    cbn [ascending_from]. rewrite Hr.
    rewrite Nat.leb_refl. cbn [andb]. apply IH. exact Hps.
  - apply (ascending_weaken i (S i)); [lia|]. apply IH. exact Hps.
Qed.

Lemma ranked_tokens (ps : list part) :
  forall i, Forall2 part_ok unit_table ps -> ranked i ps -> Forall part_token ps.
Proof.
  generalize unit_table. induction ps as [|p ps IH]; intros tbl i H Hr.
  - constructor.
  - apply Forall2_cons_inv_r in H. destruct H as [c [tbl' [Hp [Hps ->]]]].
    destruct Hr as [Hu Hr]. constructor; [|exact (IH tbl' (S i) Hps Hr)].
    destruct p as [[f u]|]; [|exact I].
    destruct Hp as [Hne [Hf _]].
    destruct (unit_rank_letters u i Hu) as [Hn Hl].
    repeat split; assumption.
Qed.

Lemma components_tokens (cs : list (string * string)) :
  Forall component_ok cs -> Forall part_token (map Some cs).
Proof.
  induction 1 as [|[f u] cs [Hne [Hf Hu]] Hcs IH]; [constructor|].
  simpl in *. constructor; [|exact IH].
  destruct (unit_rank (lower u)) as [r|] eqn:E; [|congruence].
  destruct (unit_rank_letters u r E) as [Hn Hl].
  repeat split; assumption.
Qed.

Lemma units_components (cs : list (string * string)) :
  units (map Some cs) = map snd cs.
Proof.
  induction cs as [|[f u] cs IH]; [reflexivity|]. simpl. now rewrite IH.
Qed.

(** ** When [timeparse] has no result *)

Lemma lstrip_all_space (t : string) : str_all is_space t = true -> lstrip t = "".
Proof.
  induction t as [|c t IH]; [reflexivity|]. simpl.
  intros H. apply andb_true_iff in H. destruct H as [Hc Ht].
  rewrite Hc. now apply IH.
Qed.

Lemma strip_all_space (t : string) : str_all is_space t = true -> strip t = "".
Proof.
  intros H. unfold strip. now rewrite lstrip_all_space.
Qed.

Lemma timeparse_whitespace (s : string) :
  str_all is_space s = true -> timeparse s = Ok None.
Proof.
  intros Hs. unfold timeparse.
  destruct (re_match pattern s true) as [m|] eqn:Hm; [|reflexivity].
  destruct (re_match_sound _ _ _ Hm) as [rest [Heq _]].
  rewrite Heq, str_all_app in Hs. apply andb_true_iff in Hs.
  destruct Hs as [Hg _]. now rewrite (strip_all_space _ Hg).
Qed.

Lemma lookup_group_in (n v : string) (g : groups) :
  In (n, v) g -> lookup_group n g <> None.
Proof.
  induction g as [|[n' v'] g IH]; [contradiction|].
  simpl. intros [H|H].
  - injection H as -> ->. now rewrite String.eqb_refl.
  - destruct (String.eqb n' n); [discriminate|now apply IH].
Qed.

Lemma captures_keep (cs : list (string * regex)) :
  forall (ps : list part) (g : groups) (x : string * string),
    In x g -> In x (captures cs ps g).
Proof.
  induction cs as [|c cs IH]; intros ps g x Hx; [exact Hx|].
  destruct ps as [|[[f u]|] ps]; cbn [captures]; [exact Hx| |].
  - apply IH. now right.
  - now apply IH.
Qed.

Lemma captures_present (cs : list (string * regex)) :
  forall (ps : list part) (g : groups) (c : string * regex) (f u : string),
    In (c, Some (f, u)) (combine cs ps) ->
    lookup_group (fst c) (captures cs ps g) <> None.
Proof.
  induction cs as [|c0 cs IH]; intros ps g c f u Hin; [contradiction|].
  destruct ps as [|p ps]; [contradiction|].
  destruct Hin as [Heq|Hin].
  - injection Heq as -> ->. cbn [captures].
    apply (lookup_group_in _ f). apply captures_keep. now left.
  - destruct p as [[f0 u0]|]; cbn [captures]; eapply IH; eassumption.
Qed.

Lemma forall2_combine {A B : Type} (P : A -> B -> Prop) (l : list A) (l' : list B) (y : B) :
  Forall2 P l l' -> In y l' -> exists x, In (x, y) (combine l l') /\ In x l.
Proof.
  induction 1 as [|x y0 l l' Hxy Hl IH]; [contradiction|].
  intros [->|Hin].
  - exists x. split; now left.
  - destruct (IH Hin) as [x' [H1 H2]]. exists x'. split; now right.
Qed.

Lemma render_parts_absent (ps : list part) :
  (forall p, In p ps -> p = None) -> render_parts ps = "".
Proof.
  induction ps as [|p ps IH]; intros H; [reflexivity|].
  cbn [render_parts]. rewrite (H p) by now left.
  apply IH. intros q Hq. apply H. now right.
Qed.

(** A match in which no group took part is a match of whitespace. *)
Lemma no_component_strip (s : string) (m : match_object) :
  re_match pattern s true = Some m ->
  Forall (fun kv => snd kv = None) (groupdict pattern m) ->
  strip (group0 m) = "".
Proof.
  intros Hm Hnone.
  destruct (re_match_sound _ _ _ Hm) as [rest [_ Hmatch]].
  destruct (pattern_shape _ _ _ Hmatch) as
    [ws1 [ps [ws2 [Hg [Hw1 [Hw2 [Hps [Hnamed _]]]]]]]].
  assert (Habs : forall p, In p ps -> p = None).
  { intros [[f u]|] Hp; [|reflexivity]. exfalso.
    destruct (forall2_combine _ _ _ _ Hps Hp) as [c [Hc Hin]].
    apply (captures_present unit_table ps [] c f u Hc).
    rewrite <- Hnamed.
    rewrite List.Forall_forall in Hnone.
    apply (Hnone (fst c, lookup_group (fst c) (named m))).
    unfold groupdict. apply in_map_iff. exists (fst c). split; [reflexivity|].
    change (group_names pattern) with (map fst unit_table).
    apply in_map_iff. exists c. auto. }
  rewrite Hg, (render_parts_absent ps Habs). cbn [append].
  apply strip_all_space. rewrite str_all_app, Hw1, Hw2. reflexivity.
Qed.

Lemma timeparse_no_component (s : string) :
  (forall m, re_match pattern s true = Some m ->
             Forall (fun kv => snd kv = None) (groupdict pattern m)) ->
  timeparse s = Ok None.
Proof.
  intros H. unfold timeparse.
  destruct (re_match pattern s true) as [m|] eqn:Hm; [|reflexivity].
  now rewrite (no_component_strip s m Hm (H m eq_refl)).
Qed.

(** A match reads its components in the order of the units. *)
Lemma match_in_order (ws1 ws2 : string) (cs : list (string * string))
      (m : match_object) :
  str_all is_space ws1 = true -> str_all is_space ws2 = true ->
  Forall component_ok cs ->
  re_match pattern (ws1 ++ render_components cs ++ ws2) true = Some m ->
  in_order cs = true.
Proof.
  intros Hw1 Hw2 Hcs Hm.
  destruct (re_match_sound _ _ _ Hm) as [rest [Heq Hmatch]].
  destruct (pattern_shape _ _ _ Hmatch) as
    [ws1' [ps [ws2' [Hg [Hw1' [Hw2' [Hps [_ Hrest]]]]]]]].
  pose proof (unit_table_ranked ps Hps) as Hr.
  pose proof (ranked_tokens ps 0%nat Hps Hr) as Htok.
  assert (Hruns : letter_runs (ws1 ++ render_components cs ++ ws2) = map snd cs).
  { rewrite letter_runs_skip by now apply spaces_no_letter.
    unfold render_components. rewrite letter_runs_parts.
    - apply units_components.
    - now apply components_tokens.
    - now apply spaces_no_letter. }
  assert (Hruns' : letter_runs (group0 m ++ rest) = units ps).
  { rewrite Hg. rewrite !str_app_assoc.
    rewrite letter_runs_skip by now apply spaces_no_letter.
    apply letter_runs_parts; [exact Htok|].
    apply spaces_no_letter. rewrite str_all_app, Hw2'.
    destruct Hrest as [->| ->]; reflexivity. }
  rewrite Heq, Hruns' in Hruns.
  unfold in_order. rewrite <- (map_map snd rank_of), <- Hruns.
  now apply ranked_ascending.
Qed.

Lemma timeparse_out_of_order (ws1 ws2 : string) (cs : list (string * string)) :
  str_all is_space ws1 = true -> str_all is_space ws2 = true ->
  Forall component_ok cs -> in_order cs = false ->
  timeparse (ws1 ++ render_components cs ++ ws2) = Ok None.
Proof.
  intros Hw1 Hw2 Hcs Hord. unfold timeparse.
  destruct (re_match pattern _ true) as [m|] eqn:Hm; [|reflexivity].
  rewrite (match_in_order ws1 ws2 cs m Hw1 Hw2 Hcs Hm) in Hord. discriminate.
Qed.

(** C6. [timeparse] returns [None], and raises nothing, on every text
    that is empty or only whitespace, on every text in which no component
    is matched, and on every text whose components (numbers followed by
    units, in any letter case, with whitespace around) are not in the
    strict order h, m, s, ms, us, ns; so on ["5s3h"] and on
    ["otherstring"]. *)
Theorem timeparse_absent :
  (forall s, str_all is_space s = true -> timeparse s = Ok None)
  /\ (forall s,
        (forall m, re_match pattern s true = Some m ->
                   Forall (fun kv => snd kv = None) (groupdict pattern m)) ->
        timeparse s = Ok None)
  /\ (forall ws1 cs ws2,
        str_all is_space ws1 = true -> str_all is_space ws2 = true ->
        Forall component_ok cs -> in_order cs = false ->
        timeparse (ws1 ++ render_components cs ++ ws2) = Ok None)
  /\ timeparse "5s3h" = Ok None
  /\ timeparse "otherstring" = Ok None.
Proof.
  split; [exact timeparse_whitespace|].
  split; [exact timeparse_no_component|].
  split; [intros ws1 cs ws2; apply timeparse_out_of_order|].
  split; vm_compute; reflexivity.
Qed.

Lemma timeparse_absent_witness :
  timeparse "  " = Ok None
  /\ timeparse ("" ++ render_components [("5", "s"); ("3", "h")] ++ " ") = Ok None.
Proof.
  destruct timeparse_absent as [Ha [_ [Hc _]]]. split.
  - apply Ha. reflexivity.
  - apply Hc; [reflexivity|reflexivity| |reflexivity].
    repeat constructor; try discriminate;
      intros H; vm_compute in H; discriminate.
Defined.

(** ** The type of what [timeparse] returns *)

Lemma py_mul_float_l (a : spec_float) (c t : pynum) :
  py_mul (PyFloat a) c = Ok t -> exists f, t = PyFloat f.
Proof.
  unfold py_mul. cbn [as_float rbind].
  destruct (as_float c) as [fy|e]; cbn [rbind]; [|discriminate].
  intros H. injection H as <-. eauto.
Qed.

Lemma py_add_float_r (acc : pynum) (f : spec_float) (t : pynum) :
  py_add acc (PyFloat f) = Ok t -> exists f', t = PyFloat f'.
Proof.
  unfold py_add. destruct acc as [z|a].
  - destruct (as_float (PyInt z)) as [fx|e]; cbn [rbind as_float]; [|discriminate].
    intros H. injection H as <-. eauto.
  - cbn [as_float rbind]. intros H. injection H as <-. eauto.
Qed.

Lemma sum_items_type (items : list (string * option string)) :
  forall (acc x : pynum),
    sum_items items acc = Ok x ->
    (exists f, x = PyFloat f)
    \/ (x = acc /\ Forall (fun kv => snd kv = None) items).
Proof.
  induction items as [|[k [v|]] items IH]; intros acc x H.
  - injection H as <-. right. split; [reflexivity|constructor].
  - cbn [sum_items] in H.
    destruct (getitem MULTIPLIERS k) as [mult|e]; cbn [rbind] in H; [|discriminate].
    destruct (cast v) as [c|e]; cbn [rbind] in H; [|discriminate].
    destruct (py_mul (PyFloat mult) c) as [term|e] eqn:Hmul; cbn [rbind] in H;
      [|discriminate].
    destruct (py_mul_float_l _ _ _ Hmul) as [ft ->].
    destruct (py_add acc (PyFloat ft)) as [acc'|e] eqn:Hadd; cbn [rbind] in H;
      [|discriminate].
    destruct (py_add_float_r _ _ _ Hadd) as [fa ->].
    left. destruct (IH _ _ H) as [Hf|[-> _]]; [exact Hf|eauto].
  - cbn [sum_items] in H. destruct (IH _ _ H) as [Hf|[-> Hall]]; [now left|].
    right. split; [reflexivity|]. constructor; [reflexivity|exact Hall].
Qed.

(** C5, as the code has it: every multiplier is a [float], so every
    product is one and so is the sum; whenever [timeparse] returns a
    number it is a [float], also when every number in the text is an
    all-digit literal. *)
Theorem timeparse_returns_float (s : string) (x : pynum) :
  timeparse s = Ok (Some x) -> exists f, x = PyFloat f.
Proof.
  unfold timeparse. intros H.
  destruct (re_match pattern s true) as [m|] eqn:Hm; [|discriminate].
  destruct (String.eqb (strip (group0 m)) "") eqn:Hs; [discriminate|].
  destruct (sum_items (groupdict pattern m) (PyInt 0)) as [y|e] eqn:Hsum;
    cbn [rbind] in H; [|discriminate].
  injection H as ->.
  destruct (sum_items_type _ _ _ Hsum) as [Hf|[_ Hnone]]; [exact Hf|].
  rewrite (no_component_strip s m Hm Hnone) in Hs. discriminate.
Qed.

Lemma timeparse_returns_float_witness :
  timeparse "1m24s" = Ok (Some (PyFloat (float_of_Z 84)))
  /\ exists f, PyFloat (float_of_Z 84) = PyFloat f.
Proof.
  assert (H : timeparse "1m24s" = Ok (Some (PyFloat (float_of_Z 84))))
    by (vm_compute; reflexivity).
  split; [exact H|].
  exact (timeparse_returns_float "1m24s" _ H).
Defined.

(** ** Rules for the operations that only read *)

Lemma wp_read {A : Type} (E : Prop) (m : M A) (Q : A -> heap -> Prop) (h : heap) :
  (forall a h', m h = Ok (a, h') -> h' = h) ->
  (E \/ exists a, m h = Ok (a, h)) ->
  (forall a, m h = Ok (a, h) -> Q a h) ->
  wp E m Q h.
Proof.
  intros Hpure Hok HQ. unfold wp.
  destruct (m h) as [[a h']|e] eqn:Hm.
  - pose proof (Hpure a h' eq_refl) as ->. now apply HQ.
  - destruct Hok as [HE|[a Ha]]; [exact HE|discriminate].
Qed.

Lemma deref_reads (l : loc) (h h' : heap) (d : dict) :
  deref l h = Ok (d, h') -> h' = h /\ h !! l = Some d.
Proof.
  unfold deref. destruct (h !! l) as [d0|]; [|discriminate].
  intros H. injection H as -> ->. auto.
Qed.

Lemma py_in_reads (k : string) (v : value) (h h' : heap) (b : bool) :
  py_in k v h = Ok (b, h') -> h' = h.
Proof.
  destruct v as [|b0|n|s|l|l|c fs]; cbn [py_in]; unfold raise, ret, bind;
    try discriminate; try (intros H; now injection H as _ <-).
  destruct (deref l h) as [[d h1]|e] eqn:Hd; [|discriminate].
  apply deref_reads in Hd. destruct Hd as [-> _].
  intros H. now injection H as _ <-.
Qed.

Lemma py_getitem_reads (k : string) (v : value) (h h' : heap) (x : value) :
  py_getitem v k h = Ok (x, h') ->
  h' = h /\ exists l d, v = VDict l /\ h !! l = Some d /\ dict_get d k = Some x.
Proof.
  destruct v as [|b0|n|s|l|l|c fs]; cbn [py_getitem]; unfold raise, ret, bind;
    try discriminate.
  destruct (deref l h) as [[d h1]|e] eqn:Hd; [|discriminate].
  apply deref_reads in Hd. destruct Hd as [-> Hl].
  destruct (dict_get d k) as [y|] eqn:Hk; [|discriminate].
  intros H. injection H as <- <-. eauto 7.
Qed.

Lemma truthy_reads (v : value) (h h' : heap) (b : bool) :
  truthy v h = Ok (b, h') -> h' = h.
Proof.
  destruct v as [|b0|[z|f]|s|l|l|c fs]; cbn [truthy]; unfold ret, bind;
    try (intros H; now injection H as _ <-).
  destruct (deref l h) as [[d h1]|e] eqn:Hd; [|discriminate].
  apply deref_reads in Hd. destruct Hd as [-> _].
  intros H. now injection H as _ <-.
Qed.

Lemma py_keys_reads (v : value) (h h' : heap) (ks : list string) :
  py_keys v h = Ok (ks, h') ->
  h' = h /\ exists l d, v = VDict l /\ h !! l = Some d /\ ks = dict_keys d.
Proof.
  destruct v as [|b0|n|s|l|l|c fs]; cbn [py_keys]; unfold raise, ret, bind;
    try discriminate.
  destruct (deref l h) as [[d h1]|e] eqn:Hd; [|discriminate].
  apply deref_reads in Hd. destruct Hd as [-> Hl].
  intros H. injection H as <- <-. eauto 7.
Qed.

Lemma py_iter_reads (v : value) (h h' : heap) (xs : list value) :
  py_iter v h = Ok (xs, h') -> h' = h.
Proof.
  destruct v as [|b0|n|s|l|l|c fs]; cbn [py_iter]; unfold raise, ret, bind;
    try discriminate; try (intros H; now injection H as _ <-).
  destruct (deref l h) as [[d h1]|e] eqn:Hd; [|discriminate].
  apply deref_reads in Hd. destruct Hd as [-> _].
  intros H. now injection H as _ <-.
Qed.

Lemma lift_reads {A : Type} (r : result A) (h h' : heap) (a : A) :
  lift r h = Ok (a, h') -> h' = h /\ r = Ok a.
Proof.
  unfold lift. destruct r as [a0|e]; [|discriminate].
  intros H. injection H as <- <-. auto.
Qed.

(** [v[k] = x] changes one object, when it returns. *)
Lemma py_setitem_writes (v : value) (k : string) (x : value) (h h' : heap) :
  py_setitem v k x h = Ok (tt, h') ->
  exists l d, v = VDict l /\ h !! l = Some d /\ h' = <[l := dict_set d k x]> h.
Proof.
  destruct v as [|b0|n|s|l|l|c fs]; cbn [py_setitem]; unfold raise, bind, store;
    try discriminate.
  destruct (deref l h) as [[d h1]|e] eqn:Hd; [|discriminate].
  apply deref_reads in Hd. destruct Hd as [-> Hl].
  intros H. injection H as <-. eauto 7.
Qed.

Lemma wp_py_setitem_any (E : Prop) (v : value) (k : string) (x : value)
      (Q : unit -> heap -> Prop) (h : heap) :
  (E \/ exists l d, v = VDict l /\ h !! l = Some d) ->
  (forall l d, v = VDict l -> h !! l = Some d ->
               Q tt (<[l := dict_set d k x]> h)) ->
  wp E (py_setitem v k x) Q h.
Proof.
  intros Hok HQ. unfold wp.
  destruct (py_setitem v k x h) as [[[] h']|e] eqn:Hs.
  - apply py_setitem_writes in Hs. destruct Hs as [l [d [-> [Hl ->]]]].
    now apply HQ.
  - destruct Hok as [HE|[l [d [-> Hl]]]]; [exact HE|].
    unfold py_setitem, bind, deref, store in Hs. rewrite Hl in Hs. discriminate.
Qed.

(** ** The statements of [denormalize_service_dict], one by one

    [lo] is the location of the copy; each statement is run from a store
    [h] that has the dictionary [dlo] there. *)

Section ServiceSteps.

Variable serialize_restart_spec : heap -> value -> result value.
Variable legacy_repr : string -> list (string * value) -> result value.
Variable E : Prop.

Lemma agree_except_refl (K : list string) (d : dict) : agree_except K d d.
Proof. intros k _. reflexivity. Qed.

Lemma agree_except_set (k : string) (x : value) (d : dict) :
  agree_except [k] (dict_set d k x) d.
Proof.
  intros k' Hk'. apply dict_get_set_ne. intros ->. apply Hk'. now left.
Qed.

Lemma wp_set_image (lo : loc) (dlo : dict) (img : value) (h : heap) :
  h !! lo = Some dlo ->
  (E \/ exists b, truthy img h = Ok (b, h)) ->
  wp E (set_image (VDict lo) img)
     (fun _ h' => exists d1, h' = <[lo := d1]> h /\ agree_except ["image"] d1 dlo) h.
Proof.
  intros Hlo Hok. unfold set_image. apply wp_bind.
  apply wp_read;
    [intros a h' H; exact (truthy_reads _ _ _ _ H)|exact Hok|].
  intros b _. apply wp_when; intros _.
  - eapply wp_py_setitem; [exact Hlo|].
    eexists. split; [reflexivity|apply agree_except_set].
  - exists dlo. split; [symmetry; now apply heap_insert_id|apply agree_except_refl].
Qed.

Lemma wp_set_restart (lo : loc) (dlo : dict) (h : heap) :
  h !! lo = Some dlo ->
  (E \/ forall r, dict_get dlo "restart" = Some r ->
                  exists r', serialize_restart_spec h r = Ok r') ->
  wp E (set_restart serialize_restart_spec (VDict lo))
     (fun _ h' => exists d1, h' = <[lo := d1]> h /\ agree_except ["restart"] d1 dlo) h.
Proof.
  intros Hlo Hok. unfold set_restart. apply wp_bind.
  eapply wp_py_in; [exact Hlo|]. apply wp_when; intros Hb.
  - unfold dict_has in Hb.
    destruct (dict_get dlo "restart") as [r|] eqn:Hr; [|discriminate].
    apply wp_bind. eapply wp_py_getitem; [exact Hlo|exact Hr|].
    apply wp_bind. apply wp_read.
    + intros a h' H. now apply lift_reads in H.
    + destruct Hok as [HE|Hrs]; [now left|right].
      destruct (Hrs r eq_refl) as [r' Hr']. exists r'. unfold lift. now rewrite Hr'.
    + intros r' _. eapply wp_py_setitem; [exact Hlo|].
      eexists. split; [reflexivity|apply agree_except_set].
  - exists dlo. split; [symmetry; now apply heap_insert_id|apply agree_except_refl].
Qed.

Lemma wp_set_network_mode (lo : loc) (dlo : dict) (version : ComposeVersion)
      (h : heap) :
  h !! lo = Some dlo ->
  wp E (set_network_mode (VDict lo) version)
     (fun _ h' =>
        h' = <[lo := if version_eqb version V1 && negb (dict_has dlo "network_mode")
                     then dict_set dlo "network_mode" (VStr "bridge")
                     else dlo]> h) h.
Proof.
  intros Hlo. unfold set_network_mode. apply wp_bind.
  destruct (version_eqb version V1); cbn [andb].
  - apply wp_bind. eapply wp_py_in; [exact Hlo|]. apply wp_ret.
    apply wp_when; intros Hb; rewrite Hb.
    + eapply wp_py_setitem; [exact Hlo|reflexivity].
    + symmetry. now apply heap_insert_id.
  - apply wp_ret. apply wp_when; intros Hb; [discriminate|].
    symmetry. now apply heap_insert_id.
Qed.

Lemma wp_set_depends_on (lo : loc) (dlo : dict) (version : ComposeVersion)
      (h : heap) :
  h !! lo = Some dlo ->
  (E \/ forall v, dict_get dlo "depends_on" = Some v ->
                  depends_on_collapses version = true ->
                  exists dep, v = VDict dep /\ is_Some (h !! dep)) ->
  wp E (set_depends_on (VDict lo) version)
     (fun _ h' =>
        exists d1, h' = <[lo := d1]> h /\ agree_except ["depends_on"] d1 dlo
          /\ match dict_get dlo "depends_on" with
             | None => dict_get d1 "depends_on" = None
             | Some v =>
                 if depends_on_collapses version
                 then exists dep kd,
                     v = VDict dep /\ h !! dep = Some kd
                     /\ dict_get d1 "depends_on"
                        = Some (VList (map VStr (sorted (dict_keys kd))))
                 else dict_get d1 "depends_on" = Some v
             end) h.
Proof.
  intros Hlo Hok. unfold set_depends_on.
  change (version_ltb version V2_1 || version_geb version V3_0)
    with (depends_on_collapses version).
  apply wp_bind. eapply wp_py_in; [exact Hlo|].
  unfold dict_has.
  destruct (dict_get dlo "depends_on") as [v|] eqn:Hv; cbn [andb].
  - destruct (depends_on_collapses version) eqn:Hgate; cbn [when].
    + apply wp_bind. eapply wp_py_getitem; [exact Hlo|exact Hv|].
      apply wp_bind. apply wp_read.
      * intros a h' H. now apply py_keys_reads in H.
      * destruct Hok as [HE|Hd]; [now left|right].
        destruct (Hd v eq_refl eq_refl) as [dep [-> [kd Hkd]]].
        exists (dict_keys kd). unfold py_keys, bind, deref, ret. now rewrite Hkd.
      * intros ks Hks. apply py_keys_reads in Hks.
        destruct Hks as [_ [dep [kd [-> [Hkd ->]]]]].
        eapply wp_py_setitem; [exact Hlo|].
        eexists. split; [reflexivity|]. split; [apply agree_except_set|].
        exists dep, kd. repeat split; auto. apply dict_get_set_eq.
    + exists dlo. split; [symmetry; now apply heap_insert_id|].
      split; [apply agree_except_refl|exact Hv].
  - cbn [when]. exists dlo. split; [symmetry; now apply heap_insert_id|].
    split; [apply agree_except_refl|exact Hv].
Qed.

End ServiceSteps.

(** ** The health check *)

Lemma norefs_refl (d : dict) : norefs d d.
Proof. intros k l' H. exact H. Qed.

Lemma norefs_trans (d1 d2 d3 : dict) : norefs d3 d2 -> norefs d2 d1 -> norefs d3 d1.
Proof. intros H32 H21 k l' H. apply H21. now apply H32. Qed.

Lemma norefs_del (d : dict) (k : string) : norefs (dict_del d k) d.
Proof.
  intros k' l'. induction d as [|[k0 v0] d IH]; cbn [dict_del]; [auto|].
  destruct (String.eqb k0 k).
  - intros H. right. now apply IH.
  - intros [H|H]; [now left|right; now apply IH].
Qed.

Lemma norefs_set (d : dict) (k : string) (x : value) :
  (forall l', x <> VDict l') -> norefs (dict_set d k x) d.
Proof.
  intros Hx k' l'. induction d as [|[k0 v0] d IH]; cbn [dict_set].
  - intros [H|[]]. injection H as _ H. now destruct (Hx l').
  - destruct (String.eqb k0 k).
    + intros [H|H]; [|now right]. injection H as _ H. now destruct (Hx l').
    + intros [H|H]; [now left|right; now apply IH].
Qed.

Lemma durations_only_refl (h : heap) : durations_only h h.
Proof.
  intros l0 d0 H. exists d0.
  split; [exact H|]. split; [reflexivity|].
  split; [apply agree_except_refl|apply norefs_refl].
Qed.

Lemma durations_only_trans (h1 h2 h3 : heap) :
  durations_only h1 h2 -> durations_only h2 h3 -> durations_only h1 h3.
Proof.
  intros H12 H23 l0 d0 H.
  destruct (H12 l0 d0 H) as [d1 [H1 [Hk1 [Ha1 Hr1]]]].
  destruct (H23 l0 d1 H1) as [d2 [H2 [Hk2 [Ha2 Hr2]]]].
  exists d2. split; [exact H2|]. split; [congruence|]. split.
  - intros k Hk. rewrite (Ha2 k Hk). now apply Ha1.
  - eapply norefs_trans; eassumption.
Qed.

Lemma durations_only_update (h : heap) (hc : loc) (dhc : dict) (field : string)
      (s : string) :
  h !! hc = Some dhc -> dict_has dhc field = true -> In field duration_keys ->
  durations_only h (<[hc := dict_set dhc field (VStr s)]> h).
Proof.
  intros Hhc Hhas Hf l0 d0 Hl0.
  destruct (decide (hc = l0)) as [<-|Hne].
  - rewrite Hhc in Hl0. injection Hl0 as <-.
    exists (dict_set dhc field (VStr s)).
    split; [eapply heap_insert_lookup; eassumption|].
    split; [now apply dict_keys_set_present|]. split.
    + intros k Hk. apply dict_get_set_ne. intros ->. now apply Hk.
    + apply norefs_set. discriminate.
  - exists d0. rewrite list_lookup_insert_ne by exact Hne.
    split; [exact Hl0|]. split; [reflexivity|].
    split; [apply agree_except_refl|apply norefs_refl].
Qed.

Section HealthCheck.

Variable E : Prop.

Lemma wp_serialize_duration (lo : loc) (dlo : dict) (v : value) (field : string)
      (h : heap) :
  h !! lo = Some dlo -> dict_get dlo "healthcheck" = Some v ->
  (E \/ exists hc dhc, v = VDict hc /\ h !! hc = Some dhc
          /\ forall x, dict_get dhc field = Some x ->
                       exists s, serialize_ns_time_value x = Ok s) ->
  wp E (serialize_duration (VDict lo) field)
     (fun _ h' =>
        h' = h
        \/ exists hc dhc s, v = VDict hc /\ h !! hc = Some dhc
             /\ dict_has dhc field = true
             /\ h' = <[hc := dict_set dhc field (VStr s)]> h) h.
Proof.
  intros Hlo Hv Hok. unfold serialize_duration.
  apply wp_bind. eapply wp_py_getitem; [exact Hlo|exact Hv|].
  apply wp_bind. apply wp_read.
  { intros a h' H. exact (py_in_reads _ _ _ _ _ H). }
  { destruct Hok as [HE|[hc [dhc [-> [Hhc _]]]]]; [now left|right].
    eexists. unfold py_in, bind, deref, ret. rewrite Hhc. reflexivity. }
  intros b Hb. apply wp_when; intros ->; [|now left].
  apply wp_bind. eapply wp_py_getitem; [exact Hlo|exact Hv|].
  apply wp_bind. apply wp_read.
  { intros a h' H. now apply py_getitem_reads in H. }
  { destruct Hok as [HE|[hc [dhc [-> [Hhc _]]]]]; [now left|right].
    unfold py_in, bind, deref, ret in Hb. rewrite Hhc in Hb.
    injection Hb as Hb. unfold dict_has in Hb.
    destruct (dict_get dhc field) as [x|] eqn:Hx; [|discriminate].
    exists x. unfold py_getitem, bind, deref, ret. now rewrite Hhc, Hx. }
  intros x Hx. apply py_getitem_reads in Hx.
  destruct Hx as [_ [hc [dhc [-> [Hhc Hx]]]]].
  apply wp_bind. apply wp_read.
  { intros a h' H. now apply lift_reads in H. }
  { destruct Hok as [HE|[hc' [dhc' [Heq [Hhc' Hint]]]]]; [now left|right].
    injection Heq as <-. rewrite Hhc in Hhc'. injection Hhc' as <-.
    destruct (Hint x Hx) as [s Hs].
    exists s. unfold lift. now rewrite Hs. }
  intros s _.
  apply wp_bind. eapply wp_py_getitem; [exact Hlo|exact Hv|].
  eapply wp_py_setitem; [exact Hhc|].
  right. exists hc, dhc, s. repeat split; auto.
  unfold dict_has. now rewrite Hx.
Qed.

Lemma wp_serialize_duration_inv (lo : loc) (v : value) (h : heap)
      (F F' : list string) (field : string) (h1 : heap) :
  In field duration_keys -> In field F ->
  (forall f, In f F' -> In f F /\ f <> field) ->
  health_inv E lo v h F h1 ->
  wp E (serialize_duration (VDict lo) field)
     (fun _ h' => health_inv E lo v h F' h') h1.
Proof.
  intros Hdur HinF HF' [[dcur [Hlo Hv]] [Hlen [Hdo [Hfr Hok]]]].
  eapply wp_mono; [|apply (wp_serialize_duration lo dcur v field h1 Hlo Hv)].
  - intros _ h' [->|[hc [dhc [s [-> [Hhc [Hhas ->]]]]]]].
    + split; [eauto|]. split; [exact Hlen|]. split; [exact Hdo|].
      split; [exact Hfr|].
      destruct Hok as [HE|[hc [dhc [-> [Hhc Hint]]]]]; [now left|right].
      exists hc, dhc. repeat split; auto.
      intros f x Hf. apply Hint. now apply HF'.
    + split.
      * destruct (decide (hc = lo)) as [->|Hne].
        -- rewrite Hlo in Hhc. injection Hhc as <-.
           eexists. split; [eapply heap_insert_lookup; eassumption|].
           rewrite dict_get_set_ne; [exact Hv|].
           intros ->. revert Hdur. unfold duration_keys. simpl.
           intuition discriminate.
        -- exists dcur. rewrite list_lookup_insert_ne by exact Hne. auto.
      * split; [now rewrite length_insert|].
        split.
        -- eapply durations_only_trans; [exact Hdo|].
           now apply durations_only_update.
        -- split.
           { intros l0 Hl0. rewrite list_lookup_insert_ne by congruence.
             now apply Hfr. }
           destruct Hok as [HE|[hc' [dhc' [Heq [Hhc' Hint]]]]]; [now left|right].
           injection Heq as <-. rewrite Hhc in Hhc'. injection Hhc' as <-.
           exists hc, (dict_set dhc field (VStr s)).
           split; [reflexivity|]. split; [eapply heap_insert_lookup; eassumption|].
           intros f x Hf Hx. destruct (HF' f Hf) as [HfF Hne].
           rewrite dict_get_set_ne in Hx by congruence.
           exact (Hint f x HfF Hx).
  - destruct Hok as [HE|[hc [dhc [-> [Hhc Hint]]]]]; [now left|right].
    exists hc, dhc. repeat split; auto. intros x. now apply Hint.
Qed.

Lemma wp_set_healthcheck (lo : loc) (dlo : dict) (h : heap) :
  h !! lo = Some dlo ->
  (E \/ forall v, dict_get dlo "healthcheck" = Some v ->
          exists hc dhc, v = VDict hc /\ h !! hc = Some dhc
            /\ forall f x, In f duration_keys -> dict_get dhc f = Some x ->
                           exists s, serialize_ns_time_value x = Ok s) ->
  wp E (set_healthcheck (VDict lo))
     (fun _ h' => length h' = length h /\ durations_only h h'
        /\ forall l0 : loc, dict_get dlo "healthcheck" <> Some (VDict l0) ->
                            h' !! l0 = h !! l0) h.
Proof.
  intros Hlo Hok. unfold set_healthcheck.
  apply wp_bind. eapply wp_py_in; [exact Hlo|].
  apply wp_when; intros Hb;
    [|split; [reflexivity|split; [apply durations_only_refl|auto]]].
  unfold dict_has in Hb.
  destruct (dict_get dlo "healthcheck") as [v|] eqn:Hv; [|discriminate].
  assert (H0 : health_inv E lo v h duration_keys h).
  { split; [eauto|]. split; [reflexivity|]. split; [apply durations_only_refl|].
    split; [auto|].
    destruct Hok as [HE|Hwf]; [now left|right]. exact (Hwf v eq_refl). }
  assert (HF1 : forall f, In f ["timeout"; "start_period"] ->
                          In f duration_keys /\ f <> "interval").
  { intros f Hf. simpl in Hf. destruct Hf as [<-|[<-|[]]];
      split; simpl; auto; discriminate. }
  assert (HF2 : forall f, In f ["start_period"] ->
                          In f ["timeout"; "start_period"] /\ f <> "timeout").
  { intros f Hf. simpl in Hf. destruct Hf as [<-|[]];
      split; simpl; auto; discriminate. }
  assert (HF3 : forall f, In f [] ->
                          In f ["start_period"] /\ f <> "start_period").
  { intros f []. }
  assert (Hi1 : In "interval" duration_keys) by (simpl; auto).
  assert (Hi2 : In "timeout" duration_keys) by (simpl; auto).
  assert (Hi3 : In "start_period" duration_keys) by (simpl; auto).
  assert (Hm2 : In "timeout" ["timeout"; "start_period"]) by (simpl; auto).
  assert (Hm3 : In "start_period" ["start_period"]) by (simpl; auto).
  apply wp_bind.
  eapply wp_mono;
    [|exact (wp_serialize_duration_inv lo v h duration_keys
               ["timeout"; "start_period"] "interval" h Hi1 Hi1 HF1 H0)].
  intros [] h1 H1. apply wp_bind.
  eapply wp_mono;
    [|exact (wp_serialize_duration_inv lo v h ["timeout"; "start_period"]
               ["start_period"] "timeout" h1 Hi2 Hm2 HF2 H1)].
  intros [] h2 H2.
  eapply wp_mono;
    [|exact (wp_serialize_duration_inv lo v h ["start_period"]
               [] "start_period" h2 Hi3 Hm3 HF3 H2)].
  intros [] h3 [_ [Hlen [Hdo [Hfr _]]]].
  split; [exact Hlen|]. split; [exact Hdo|].
  intros l0 Hne. apply Hfr. congruence.
Qed.

End HealthCheck.

(** ** Ports and volumes *)

Lemma map_m_reads {A B : Type} (f : A -> M B) (l : list A) :
  (forall x h y h', f x h = Ok (y, h') -> h' = h) ->
  forall h ys h', map_m f l h = Ok (ys, h') -> h' = h.
Proof.
  intros Hf. induction l as [|x l IH]; intros h ys h' H.
  - now injection H as _ <-.
  - cbn [map_m] in H. unfold bind in H.
    destruct (f x h) as [[y h1]|e] eqn:Hx; [|discriminate].
    apply Hf in Hx. subst h1.
    destruct (map_m f l h) as [[ys' h2]|e] eqn:Hl; [|discriminate].
    apply IH in Hl. subst h2. now injection H as _ <-.
Qed.

Lemma map_m_returns {A B : Type} (f : A -> M B) (l : list A) (h : heap) :
  Forall (fun x => exists y, f x h = Ok (y, h)) l ->
  exists ys, map_m f l h = Ok (ys, h).
Proof.
  induction 1 as [|x l [y Hy] Hl [ys IH]].
  - exists []. reflexivity.
  - exists (y :: ys). cbn [map_m]. unfold bind. rewrite Hy, IH. reflexivity.
Qed.

Section PortsVolumes.

Variable legacy_repr : string -> list (string * value) -> result value.
Variable E : Prop.

Lemma call_legacy_repr_reads (p : value) (h h' : heap) (y : value) :
  call_legacy_repr legacy_repr p h = Ok (y, h') -> h' = h.
Proof.
  destruct p as [|b0|n|s|l|l|c fs]; cbn [call_legacy_repr]; unfold raise;
    try discriminate.
  intros H. now apply lift_reads in H.
Qed.

Lemma denormalize_port_reads (version : ComposeVersion) (p : value)
      (h : heap) (y : value) (h' : heap) :
  denormalize_port legacy_repr version p h = Ok (y, h') -> h' = h.
Proof.
  unfold denormalize_port, bind. intros H.
  destruct (py_getattr p "external_ip" h) as [[ip h1]|e] eqn:Hip; [|discriminate].
  assert (h1 = h) as ->.
  { destruct p as [|b0|n|s|l|l|c fs]; cbn [py_getattr] in Hip;
      unfold raise in Hip; try discriminate.
    destruct (dict_get fs "external_ip"); [|discriminate].
    now injection Hip as _ <-. }
  destruct (truthy ip h) as [[b h2]|e] eqn:Hb; [|discriminate].
  apply truthy_reads in Hb. subst h2.
  destruct (b || version_ltb version V3_2).
  - now apply call_legacy_repr_reads in H.
  - now injection H as _ <-.
Qed.

Lemma denormalize_port_returns (version : ComposeVersion) (p : value) (h : heap) :
  port_ok legacy_repr version p ->
  exists y, denormalize_port legacy_repr version p h = Ok (y, h).
Proof.
  intros [cls [fields [ip [b [-> [Hip [Hb Hlr]]]]]]].
  unfold denormalize_port, bind. cbn [py_getattr]. rewrite Hip.
  unfold ret at 1. rewrite (Hb h).
  change (version_ltb version V3_2) with (version_ltb version COMPOSEFILE_V3_2).
  destruct (b || version_ltb version COMPOSEFILE_V3_2) eqn:Hc.
  - destruct (Hlr eq_refl) as [r Hr]. exists r.
    cbn [call_legacy_repr]. unfold lift. now rewrite Hr.
  - eexists. reflexivity.
Qed.

Lemma denormalize_volume_reads (v : value) (h : heap) (y : value) (h' : heap) :
  denormalize_volume legacy_repr v h = Ok (y, h') -> h' = h.
Proof.
  unfold denormalize_volume. destruct (isinstance v "MountSpec").
  - apply call_legacy_repr_reads.
  - intros H. now injection H as _ <-.
Qed.

Lemma denormalize_volume_returns (v : value) (h : heap) :
  volume_ok legacy_repr v ->
  exists y, denormalize_volume legacy_repr v h = Ok (y, h).
Proof.
  intros Hv. unfold denormalize_volume.
  destruct v as [|b0|n|s|l|l|c fs]; cbn [isinstance]; try (eexists; reflexivity).
  destruct (String.eqb c "MountSpec") eqn:Hc; [|eexists; reflexivity].
  destruct (Hv Hc) as [r Hr]. exists r.
  cbn [call_legacy_repr]. unfold lift. now rewrite Hr.
Qed.

(** A sequence attribute rebuilt element by element with a function that
    only reads. *)
Lemma wp_rebuild (f : value -> M value) (key : string) (lo : loc) (dlo : dict)
      (v : value) (h : heap) :
  h !! lo = Some dlo -> dict_get dlo key = Some v ->
  (forall x h y h', f x h = Ok (y, h') -> h' = h) ->
  (E \/ exists xs, v = VList xs
                   /\ Forall (fun x => exists y, f x h = Ok (y, h)) xs) ->
  wp E (bind (py_getitem (VDict lo) key) (fun seq =>
        bind (py_iter seq) (fun xs =>
        bind (map_m f xs) (fun xs' =>
          py_setitem (VDict lo) key (VList xs')))))
     (fun _ h' => exists d1, h' = <[lo := d1]> h /\ agree_except [key] d1 dlo) h.
Proof.
  intros Hlo Hv Hf Hok.
  apply wp_bind. eapply wp_py_getitem; [exact Hlo|exact Hv|].
  apply wp_bind. apply wp_read.
  { intros a h' H. exact (py_iter_reads _ _ _ _ H). }
  { destruct Hok as [HE|[xs [-> _]]]; [now left|right].
    exists xs. reflexivity. }
  intros xs Hxs.
  apply wp_bind. apply wp_read.
  { intros a h' H. exact (map_m_reads f xs Hf _ _ _ H). }
  { destruct Hok as [HE|[xs0 [-> Hall]]]; [now left|right].
    cbn [py_iter] in Hxs. injection Hxs as <-.
    now apply map_m_returns. }
  intros xs' _. eapply wp_py_setitem; [exact Hlo|].
  eexists. split; [reflexivity|apply agree_except_set].
Qed.

Lemma wp_set_ports (lo : loc) (dlo : dict) (version : ComposeVersion) (h : heap) :
  h !! lo = Some dlo ->
  (E \/ forall v, dict_get dlo "ports" = Some v ->
          exists ps, v = VList ps /\ Forall (port_ok legacy_repr version) ps) ->
  wp E (set_ports legacy_repr (VDict lo) version)
     (fun _ h' => exists d1, h' = <[lo := d1]> h /\ agree_except ["ports"] d1 dlo) h.
Proof.
  intros Hlo Hok. unfold set_ports.
  apply wp_bind. eapply wp_py_in; [exact Hlo|].
  apply wp_when; intros Hb.
  - unfold dict_has in Hb.
    destruct (dict_get dlo "ports") as [v|] eqn:Hv; [|discriminate].
    apply (wp_rebuild (denormalize_port legacy_repr version) "ports" lo dlo v h Hlo Hv).
    + apply denormalize_port_reads.
    + destruct Hok as [HE|Hwf]; [now left|right].
      destruct (Hwf v eq_refl) as [ps [-> Hps]]. exists ps. split; [reflexivity|].
      clear Hv Hb Hwf. induction Hps as [|p ps Hp Hps IH].
      * apply List.Forall_nil.
      * apply List.Forall_cons; [now apply denormalize_port_returns|exact IH].
  - exists dlo. split; [symmetry; now apply heap_insert_id|apply agree_except_refl].
Qed.

Lemma wp_set_volumes (lo : loc) (dlo : dict) (version : ComposeVersion) (h : heap) :
  h !! lo = Some dlo ->
  (E \/ forall v, dict_get dlo "volumes" = Some v ->
          volumes_are_legacy version = true ->
          exists vs, v = VList vs /\ Forall (volume_ok legacy_repr) vs) ->
  wp E (set_volumes legacy_repr (VDict lo) version)
     (fun _ h' => exists d1, h' = <[lo := d1]> h /\ agree_except ["volumes"] d1 dlo) h.
Proof.
  intros Hlo Hok. unfold set_volumes.
  change (version_ltb version V2_3
          || version_gtb version V3_0 && version_ltb version V3_2)
    with (volumes_are_legacy version).
  apply wp_bind. eapply wp_py_in; [exact Hlo|].
  apply wp_when; intros Hb.
  - apply andb_true_iff in Hb. destruct Hb as [Hb Hgate].
    unfold dict_has in Hb.
    destruct (dict_get dlo "volumes") as [v|] eqn:Hv; [|discriminate].
    apply (wp_rebuild (denormalize_volume legacy_repr) "volumes" lo dlo v h Hlo Hv).
    + apply denormalize_volume_reads.
    + destruct Hok as [HE|Hwf]; [now left|right].
      destruct (Hwf v eq_refl Hgate) as [vs [-> Hvs]]. exists vs. split; [reflexivity|].
      clear Hv Hwf. induction Hvs as [|x vs Hx Hvs IH].
      * apply List.Forall_nil.
      * apply List.Forall_cons; [now apply denormalize_volume_returns|exact IH].
  - exists dlo. split; [symmetry; now apply heap_insert_id|apply agree_except_refl].
Qed.

End PortsVolumes.

(** ** The whole of [denormalize_service_dict] *)

Ltac notin := simpl; intuition discriminate.

Lemma heap_copy_lookup (h : heap) (d : dict) :
  (h ++ [d])%list !! length h = Some d.
Proof. now apply list_lookup_middle. Qed.

Lemma heap_copy_old (h : heap) (d d0 : dict) (l0 : loc) :
  h !! l0 = Some d0 -> (h ++ [d])%list !! l0 = Some d0.
Proof. intros H. now apply lookup_app_l_Some. Qed.

Lemma heap_copy_old_inv (h : heap) (d d0 : dict) (l0 : loc) :
  (h ++ [d])%list !! l0 = Some d0 -> l0 <> length h -> h !! l0 = Some d0.
Proof.
  intros H Hne. pose proof (lookup_lt_Some _ _ _ H) as Hlt.
  rewrite length_app in Hlt. simpl in Hlt.
  rewrite lookup_app_l in H by lia. exact H.
Qed.

Lemma old_below (h : heap) (d0 : dict) (l0 : loc) :
  h !! l0 = Some d0 -> l0 <> length h.
Proof. intros H. apply lookup_lt_Some in H. lia. Qed.

Section ServiceSpec.

Variable serialize_restart_spec : heap -> value -> result value.
Variable legacy_repr : string -> list (string * value) -> result value.
Variable E : Prop.

Lemma denormalize_service_dict_spec
      (l : loc) (d : dict) (version : ComposeVersion) (img : value) (h : heap) :
  h !! l = Some d ->
  (E \/ (service_ok serialize_restart_spec legacy_repr version h d
         /\ forall l', img <> VDict l')) ->
  wp E (denormalize_service_dict serialize_restart_spec legacy_repr
          (VDict l) version img)
     (service_post version h d) h.
Proof.
  intros Hl Hok. unfold denormalize_service_dict.
  apply wp_bind. unfold wp at 1, py_copy, bind, deref, alloc, ret. rewrite Hl.
  set (lo := length h). set (h1 := (h ++ [d])%list).
  assert (Hlo1 : h1 !! lo = Some d) by apply heap_copy_lookup.
  (* image *)
  apply wp_bind. eapply wp_mono; [|apply (wp_set_image E lo d img h1 Hlo1)].
  2:{ destruct Hok as [HE|[_ Himg]]; [now left|right].
      destruct (truthy_returns img h1) as [b Hb]; [|eauto].
      intros l' ->. now destruct (Himg l'). }
  intros [] h2 [d1 [-> Ha1]].
  assert (Hlo2 : <[lo := d1]> h1 !! lo = Some d1)
    by (eapply heap_insert_lookup; eassumption).
  (* restart *)
  apply wp_bind.
  eapply wp_mono;
    [|apply (wp_set_restart serialize_restart_spec E lo d1 _ Hlo2)].
  2:{ destruct Hok as [HE|[[Hrs _] _]]; [now left|right].
      intros r Hr. apply (Hrs r). rewrite <- Hr. symmetry. apply Ha1. notin. }
  intros [] h3 [d2 [-> Ha2]]. rewrite heap_insert_insert.
  assert (Hlo3 : <[lo := d2]> h1 !! lo = Some d2)
    by (eapply heap_insert_lookup; eassumption).
  (* network_mode *)
  apply wp_bind.
  eapply wp_mono; [|apply (wp_set_network_mode E lo d2 version _ Hlo3)].
  intros [] h4 ->. rewrite heap_insert_insert.
  set (d3 := if version_eqb version V1 && negb (dict_has d2 "network_mode")
             then dict_set d2 "network_mode" (VStr "bridge") else d2).
  assert (Hlo4 : <[lo := d3]> h1 !! lo = Some d3)
    by (eapply heap_insert_lookup; eassumption).
  assert (Ha3 : agree_except ["network_mode"] d3 d2).
  { unfold d3. destruct (_ && _); [apply agree_except_set|apply agree_except_refl]. }
  assert (H2d : forall k, ~ In k ["image"; "restart"] -> dict_get d2 k = dict_get d k).
  { intros k Hk. rewrite Ha2 by (simpl in *; intuition). apply Ha1.
    simpl in *. intuition. }
  assert (Hnm : dict_get d3 "network_mode"
                = if version_eqb version COMPOSEFILE_V1
                     && negb (dict_has d "network_mode")
                  then Some (VStr "bridge") else dict_get d "network_mode").
  { unfold d3, dict_has. rewrite (H2d "network_mode") by notin.
    change V1 with COMPOSEFILE_V1.
    destruct (version_eqb version COMPOSEFILE_V1 && _).
    - apply dict_get_set_eq.
    - apply H2d. notin. }
  assert (H3d : forall k, ~ In k ["image"; "restart"; "network_mode"] ->
                          dict_get d3 k = dict_get d k).
  { intros k Hk. rewrite Ha3 by (simpl in *; intuition). apply H2d.
    simpl in *. intuition. }
  assert (Hold : forall (dx : dict) l0 d0, h !! l0 = Some d0 ->
                   <[lo := dx]> h1 !! l0 = Some d0).
  { intros dx l0 d0 H0.
    rewrite list_lookup_insert_ne by (apply not_eq_sym; eapply old_below; eassumption).
    now apply heap_copy_old. }
  (* depends_on *)
  apply wp_bind.
  eapply wp_mono; [|apply (wp_set_depends_on E lo d3 version _ Hlo4)].
  2:{ destruct Hok as [HE|[[_ [Hdep _]] _]]; [now left|right].
      intros v Hv Hgate. rewrite (H3d "depends_on") in Hv by notin.
      destruct (Hdep v Hv Hgate) as [dep [-> [kd Hkd]]].
      exists dep. split; [reflexivity|]. exists kd. now apply Hold. }
  intros [] h5 [d4 [-> [Ha4 Hdep4]]]. rewrite heap_insert_insert.
  assert (Hlo5 : <[lo := d4]> h1 !! lo = Some d4)
    by (eapply heap_insert_lookup; eassumption).
  assert (H4d : forall k, ~ In k ["image"; "restart"; "network_mode"; "depends_on"] ->
                          dict_get d4 k = dict_get d k).
  { intros k Hk. rewrite Ha4 by (simpl in *; intuition). apply H3d.
    simpl in *. intuition. }
  (* healthcheck *)
  apply wp_bind.
  eapply wp_mono; [|apply (wp_set_healthcheck E lo d4 _ Hlo5)].
  2:{ destruct Hok as [HE|[[_ [_ [Hhc _]]] _]]; [now left|right].
      intros v Hv. rewrite (H4d "healthcheck") in Hv by notin.
      destruct (Hhc v Hv) as [hc [dhc [-> [Hhc1 Hint]]]].
      exists hc, dhc. split; [reflexivity|]. split; [now apply Hold|exact Hint]. }
  intros [] h6 [Hlen6 [Hdo6 Hfr6]].
  destruct (Hdo6 lo d4 Hlo5) as [d5 [Hlo6 [_ [Ha5 _]]]].
  assert (H5d : forall k, ~ In k (["image"; "restart"; "network_mode"; "depends_on"]
                                    ++ duration_keys) ->
                          dict_get d5 k = dict_get d k).
  { intros k Hk. rewrite Ha5 by (simpl in *; intuition). apply H4d.
    simpl in *. intuition. }
  (* ports *)
  apply wp_bind.
  eapply wp_mono; [|apply (wp_set_ports legacy_repr E lo d5 version _ Hlo6)].
  2:{ destruct Hok as [HE|[[_ [_ [_ [Hports _]]]] _]]; [now left|right].
      intros v Hv. rewrite (H5d "ports") in Hv by notin. exact (Hports v Hv). }
  intros [] h7 [d6 [-> Ha6]].
  assert (Hlo7 : <[lo := d6]> h6 !! lo = Some d6)
    by (eapply heap_insert_lookup; eassumption).
  (* volumes *)
  apply wp_bind.
  eapply wp_mono; [|apply (wp_set_volumes legacy_repr E lo d6 version _ Hlo7)].
  2:{ destruct Hok as [HE|[[_ [_ [_ [_ Hvol]]]] _]]; [now left|right].
      intros v Hv. rewrite Ha6 in Hv by notin.
      rewrite (H5d "volumes") in Hv by notin. exact (Hvol v Hv). }
  intros [] h8 [d7 [-> Ha7]]. rewrite heap_insert_insert.
  apply wp_ret.
  assert (Hlen1 : length h1 = S (length h)).
  { unfold h1. rewrite length_app. simpl. lia. }
  assert (H7d5 : forall k, ~ In k ["ports"; "volumes"] -> dict_get d7 k = dict_get d5 k).
  { intros k Hk. rewrite Ha7 by (simpl in *; intuition). apply Ha6.
    simpl in *. intuition. }
  split; [reflexivity|].
  split; [rewrite length_insert, Hlen6, length_insert; exact Hlen1|].
  split.
  { intros l0 d0 H0.
    destruct (Hdo6 l0 d0 (Hold d4 l0 d0 H0)) as [d0' [H0' [Hk0 Ha0]]].
    exists d0'. split; [|split; [exact Hk0|exact Ha0]].
    rewrite list_lookup_insert_ne; [exact H0'|].
    apply not_eq_sym. eapply old_below; eassumption. }
  split.
  { intros l0 d0 H0 Hne.
    rewrite list_lookup_insert_ne by (apply not_eq_sym; eapply old_below; eassumption).
    rewrite Hfr6 by (rewrite (H4d "healthcheck") by notin; exact Hne).
    now apply Hold. }
  exists d7. split; [eapply heap_insert_lookup; eassumption|].
  split.
  { intros k Hk. rewrite H7d5.
    - apply H5d. unfold service_keys in Hk. simpl in *. intuition.
    - unfold service_keys in Hk. simpl in *. intuition. }
  split.
  { rewrite H7d5 by notin. rewrite Ha5 by notin. rewrite Ha4 by notin. exact Hnm. }
  rewrite H7d5 by notin. rewrite Ha5 by notin.
  rewrite <- (H3d "depends_on") by notin.
  destruct (dict_get d3 "depends_on") as [v|]; [|exact Hdep4].
  destruct (depends_on_collapses version); [|exact Hdep4].
  destruct Hdep4 as [dep [kd [-> [Hkd Hget]]]].
  exists dep, kd. split; [reflexivity|]. split; [|exact Hget].
  intros Hne. rewrite list_lookup_insert_ne in Hkd by (apply not_eq_sym; exact Hne).
  now apply (heap_copy_old_inv h d).
Qed.

End ServiceSpec.

(** ** Sorting *)

Lemma insert_sorted_perm (x : string) (l : list string) :
  Permutation (x :: l) (insert_sorted x l).
Proof.
  induction l as [|y l IH]; [reflexivity|].
  simpl. destruct (String.leb x y); [reflexivity|].
  rewrite perm_swap. now apply perm_skip.
Qed.

Lemma sorted_perm (l : list string) : Permutation l (sorted l).
Proof.
  induction l as [|x l IH]; [reflexivity|].
  simpl. rewrite <- insert_sorted_perm. now apply perm_skip.
Qed.

Lemma insert_sorted_hd (a x : string) (l : list string) :
  HdRel str_le a l -> str_le a x -> HdRel str_le a (insert_sorted x l).
Proof.
  intros Hl Hx. destruct l as [|y l]; simpl.
  - now constructor.
  - destruct (String.leb x y); constructor; [exact Hx|].
    now inversion Hl.
Qed.

Lemma insert_sorted_sorted (x : string) (l : list string) :
  Sorted str_le l -> Sorted str_le (insert_sorted x l).
Proof.
  induction 1 as [|y l Hs IH Hhd]; simpl.
  - repeat constructor.
  - destruct (String.leb x y) eqn:Hxy.
    + constructor; [now constructor|]. constructor. exact Hxy.
    + constructor; [exact IH|]. apply insert_sorted_hd; [exact Hhd|].
      destruct (String.leb_total x y) as [H|H]; [congruence|exact H].
Qed.

Lemma sorted_sorted (l : list string) : Sorted str_le (sorted l).
Proof.
  induction l as [|x l IH]; simpl; [constructor|].
  now apply insert_sorted_sorted.
Qed.

(** ** Dependencies *)

(** C9. For a service record with a [depends_on] mapping, the
    denormalizer returns a record in which [depends_on] is, below version
    2.1 and from version 3.0 on, the names of the mapping sorted in
    ascending order and nothing else (the conditions are gone), and, in
    the versions in between, the mapping itself, left as it was: the
    same object, holding the same items in the same order.  (Only when
    the record names that very object as its health check too are the
    durations in it formatted; its keys and its other values stay.) *)
Theorem denormalize_depends_on
        (serialize_restart_spec : heap -> value -> result value)
        (legacy_repr : string -> list (string * value) -> result value)
        (l deps : loc) (d kd : dict) (version : ComposeVersion)
        (image_digest : value) (h : heap) :
  h !! l = Some d ->
  dict_get d "depends_on" = Some (VDict deps) ->
  h !! deps = Some kd ->
  service_ok serialize_restart_spec legacy_repr version h d ->
  (forall l', image_digest <> VDict l') ->
  exists d' h',
    denormalize_service_dict serialize_restart_spec legacy_repr
      (VDict l) version image_digest h = Ok (VDict (length h), h')
    /\ h' !! length h = Some d'
    /\ (if version_ltb version V2_1 || version_geb version V3_0
        then dict_get d' "depends_on"
             = Some (VList (map VStr (sorted (dict_keys kd))))
        else dict_get d' "depends_on" = Some (VDict deps)
             /\ (dict_get d "healthcheck" <> Some (VDict deps) ->
                 h' !! deps = Some kd)
             /\ exists kd', h' !! deps = Some kd'
                            /\ dict_keys kd' = dict_keys kd
                            /\ forall k,
                                 ~ In k ["interval"; "timeout"; "start_period"] ->
                                 dict_get kd' k = dict_get kd k)
    /\ Sorted str_le (sorted (dict_keys kd))
    /\ Permutation (dict_keys kd) (sorted (dict_keys kd)).
Proof.
  intros Hl Hdep Hkd Hok Himg.
  pose proof (denormalize_service_dict_spec serialize_restart_spec legacy_repr
                False l d version image_digest h Hl
                (or_intror (conj Hok Himg))) as Hwp.
  apply wp_returns in Hwp.
  destruct Hwp as [out [h' [Hrun [-> [_ [Hdo [Hfr [d' [Hd' [_ [_ Hd]]]]]]]]]]].
  exists d', h'. split; [exact Hrun|]. split; [exact Hd'|].
  split; [|split; [apply sorted_sorted|apply sorted_perm]].
  rewrite Hdep in Hd.
  change (version_ltb version V2_1 || version_geb version V3_0)
    with (depends_on_collapses version).
  destruct (depends_on_collapses version).
  - destruct Hd as [dep [kd0 [Heq [Hk Hget]]]]. injection Heq as <-.
    rewrite Hkd in Hk.
    assert (Hne : deps <> length h) by (eapply old_below; eassumption).
    specialize (Hk Hne). injection Hk as <-. exact Hget.
  - split; [exact Hd|]. split; [exact (Hfr deps kd Hkd)|].
    destruct (Hdo deps kd Hkd) as [kd' [H1 [H2 [H3 _]]]].
    exists kd'. split; [exact H1|]. split; [exact H2|exact H3].
Qed.

Lemma denormalize_depends_on_witness :
  (exists d' h',
     denormalize_service_dict (fun _ _ => Ok (VStr "no")) (fun _ _ => Ok (VStr "80"))
       (VDict 0%nat) [3; 5] VNone
       [ [("name", VStr "web"); ("depends_on", VDict 1%nat)];
         [("db", VStr "service_healthy"); ("cache", VStr "service_started")] ]
     = Ok (VDict 2%nat, h')
     /\ h' !! 2%nat = Some d'
     /\ dict_get d' "depends_on" = Some (VList [VStr "cache"; VStr "db"]))
  /\ (exists d' h',
        denormalize_service_dict (fun _ _ => Ok (VStr "no")) (fun _ _ => Ok (VStr "80"))
          (VDict 0%nat) [2; 1] VNone
          [ [("name", VStr "web"); ("depends_on", VDict 1%nat)];
            [("db", VStr "service_healthy"); ("cache", VStr "service_started")] ]
        = Ok (VDict 2%nat, h')
        /\ h' !! 2%nat = Some d'
        /\ dict_get d' "depends_on" = Some (VDict 1%nat)
        /\ h' !! 1%nat
           = Some [("db", VStr "service_healthy"); ("cache", VStr "service_started")]).
Proof.
  split.
  - destruct (denormalize_depends_on
                (fun _ _ => Ok (VStr "no")) (fun _ _ => Ok (VStr "80"))
                0%nat 1%nat
                [("name", VStr "web"); ("depends_on", VDict 1%nat)]
                [("db", VStr "service_healthy"); ("cache", VStr "service_started")]
                [3; 5] VNone
                [ [("name", VStr "web"); ("depends_on", VDict 1%nat)];
                  [("db", VStr "service_healthy"); ("cache", VStr "service_started")] ])
      as [d' [h' [Hrun [Hd' [Hdep _]]]]].
    + reflexivity.
    + reflexivity.
    + reflexivity.
    + repeat split; try (intros ? H; discriminate H).
      intros v H _. injection H as <-. exists 1%nat. split; [reflexivity|].
      eexists. reflexivity.
    + intros l' H. discriminate H.
    + exists d', h'. repeat split; assumption.
  - destruct (denormalize_depends_on
                (fun _ _ => Ok (VStr "no")) (fun _ _ => Ok (VStr "80"))
                0%nat 1%nat
                [("name", VStr "web"); ("depends_on", VDict 1%nat)]
                [("db", VStr "service_healthy"); ("cache", VStr "service_started")]
                [2; 1] VNone
                [ [("name", VStr "web"); ("depends_on", VDict 1%nat)];
                  [("db", VStr "service_healthy"); ("cache", VStr "service_started")] ])
      as [d' [h' [Hrun [Hd' [Hdep _]]]]].
    + reflexivity.
    + reflexivity.
    + reflexivity.
    + repeat split; try (intros ? H; discriminate H).
      intros v H Hc. discriminate Hc.
    + intros l' H. discriminate H.
    + cbn in Hdep. destruct Hdep as [Hsame [Hkept _]].
      exists d', h'. split; [exact Hrun|]. split; [exact Hd'|].
      split; [exact Hsame|]. apply Hkept. discriminate.
Defined.

(** ** The loop over the entries of a group, whatever the entries are *)

Lemma py_delitem_writes (v : value) (k : string) (h h' : heap) :
  py_delitem v k h = Ok (tt, h') ->
  exists l d, v = VDict l /\ h !! l = Some d /\ h' = <[l := dict_del d k]> h.
Proof.
  destruct v as [|b0|n|s|l|l|c fs]; cbn [py_delitem]; unfold raise, bind, store;
    try discriminate.
  destruct (deref l h) as [[d h1]|e] eqn:Hd; [|discriminate].
  apply deref_reads in Hd. destruct Hd as [-> Hl].
  destruct (dict_has d k); [|discriminate].
  intros H. injection H as <-. eauto 7.
Qed.

Lemma entry_effect_refl (conf : value) (h : heap) : entry_effect conf h h.
Proof.
  split; [reflexivity|]. intros l d H. split; [auto|].
  exists d. split; [exact H|apply norefs_refl].
Qed.

Lemma entry_effect_trans (conf : value) (h1 h2 h3 : heap) :
  entry_effect conf h1 h2 -> entry_effect conf h2 h3 -> entry_effect conf h1 h3.
Proof.
  intros [L12 H12] [L23 H23]. split; [congruence|].
  intros l d H. destruct (H12 l d H) as [Hk1 [d2 [H2 Hn2]]].
  destruct (H23 l d2 H2) as [Hk2 [d3 [H3 Hn3]]].
  split.
  - intros Hne. destruct (H23 l d (Hk1 Hne)) as [Hk _]. now apply Hk.
  - exists d3. split; [exact H3|]. eapply norefs_trans; eassumption.
Qed.

Lemma entry_effect_update (l : loc) (d d1 : dict) (h : heap) :
  h !! l = Some d -> norefs d1 d -> entry_effect (VDict l) h (<[l := d1]> h).
Proof.
  intros Hl Hn. split; [apply length_insert|].
  intros l0 d0 H0. destruct (decide (l = l0)) as [<-|Hne].
  - rewrite Hl in H0. injection H0 as <-. split; [congruence|].
    exists d1. split; [eapply heap_insert_lookup; eassumption|exact Hn].
  - rewrite list_lookup_insert_ne by exact Hne. split; [auto|].
    exists d0. split; [exact H0|apply norefs_refl].
Qed.

Lemma wp_del_block (conf : value) (k : string) (c : bool -> bool) (h : heap) :
  wp True (bind (py_in k conf) (fun b => when (c b) (py_delitem conf k)))
     (fun _ h' => entry_effect conf h h') h.
Proof.
  apply wp_bind. apply wp_read.
  { intros a h' H. exact (py_in_reads _ _ _ _ _ H). }
  { now left. }
  intros b _. apply wp_when; intros _; [|apply entry_effect_refl].
  unfold wp. destruct (py_delitem conf k h) as [[[] h']|e] eqn:Hd; [|exact I].
  apply py_delitem_writes in Hd. destruct Hd as [l [d [-> [Hl ->]]]].
  apply (entry_effect_update l d); [exact Hl|apply norefs_del].
Qed.

Lemma denormalize_entry_effect (version : ComposeVersion) (key : string)
      (conf : value) (h : heap) :
  wp True (denormalize_entry version key conf)
     (fun _ h' => entry_effect conf h h') h.
Proof.
  unfold denormalize_entry.
  apply wp_bind.
  eapply wp_mono; [|apply (wp_del_block conf "external_name" (fun b => b) h)].
  intros [] h1 H1. apply wp_bind.
  eapply (wp_mono True _ (fun _ h' => entry_effect conf h1 h')).
  { intros [] h2 H2.
    eapply wp_mono;
      [|apply (wp_del_block conf "attachable"
                 (fun b => b && version_ltb version V3_2) h2)].
    intros [] h3 H3.
    eapply entry_effect_trans; [exact H1|].
    eapply entry_effect_trans; eassumption. }
  apply wp_bind. apply wp_read.
  { intros a h' H. exact (py_in_reads _ _ _ _ _ H). }
  { now left. }
  intros b _. apply wp_when; intros _; [|apply entry_effect_refl].
  destruct (version_ltb version V2_1
            || version_geb version V3_0
               && version_ltb version (v3_introduced_name_key key)).
  - unfold wp. destruct (py_delitem conf "name" h1) as [[[] h']|e] eqn:Hd; [|exact I].
    apply py_delitem_writes in Hd. destruct Hd as [l [d [-> [Hl ->]]]].
    apply (entry_effect_update l d); [exact Hl|apply norefs_del].
  - apply wp_bind. apply wp_read.
    { intros a h' H. exact (py_in_reads _ _ _ _ _ H). }
    { now left. }
    intros b' _. apply wp_when; intros _; [|apply entry_effect_refl].
    apply wp_bind. apply wp_read.
    { intros a h' H. now apply py_getitem_reads in H. }
    { now left. }
    intros x _. apply wp_bind. apply wp_read.
    { intros a h' H. exact (truthy_reads _ _ _ _ H). }
    { now left. }
    intros t _. apply wp_py_setitem_any; [now left|].
    intros l d -> Hl. apply (entry_effect_update l d); [exact Hl|].
    apply norefs_set. discriminate.
Qed.

(** ** The loop over the groups *)

Lemma agree_except_trans (K : list string) (d1 d2 d3 : dict) :
  agree_except K d3 d2 -> agree_except K d2 d1 -> agree_except K d3 d1.
Proof. intros H32 H21 k Hk. rewrite (H32 k Hk). now apply H21. Qed.

Section Groups.

Variable P : loc -> Prop.
Variable n : nat.

Lemma groups_effect_refl (h : heap) : groups_effect P n h h.
Proof.
  split; [lia|]. split; [|split; [|split]].
  - intros l d _ H. exists d. split; [exact H|apply norefs_refl].
  - auto.
  - intros dr H. exists dr. split; [exact H|apply agree_except_refl].
  - auto.
Qed.

Lemma groups_effect_trans (h1 h2 h3 : heap) :
  groups_effect P n h1 h2 -> groups_effect P n h2 h3 -> groups_effect P n h1 h3.
Proof.
  intros [L12 [O12 [F12 [R12 P12]]]] [L23 [O23 [F23 [R23 P23]]]].
  split; [lia|]. split; [|split; [|split]].
  - intros l d Hl H. destruct (O12 l d Hl H) as [d2 [H2 N2]].
    destruct (O23 l d2 Hl H2) as [d3 [H3 N3]].
    exists d3. split; [exact H3|]. eapply norefs_trans; eassumption.
  - intros l d Hl H. apply F23; [exact Hl|]. now apply F12.
  - intros dr H. destruct (R12 dr H) as [dr2 [H2 A2]].
    destruct (R23 dr2 H2) as [dr3 [H3 A3]].
    exists dr3. split; [exact H3|]. eapply agree_except_trans; eassumption.
  - intros l d Hl H. apply P23; [exact Hl|]. now apply P12.
Qed.

Lemma groups_effect_entry (conf : value) (h h' : heap) :
  (forall l', conf = VDict l' -> (l' < n)%nat /\ ~ P l') ->
  entry_effect conf h h' -> groups_effect P n h h'.
Proof.
  intros Hc [L H]. split; [lia|]. split; [|split; [|split]].
  - intros l d _ Hl. now destruct (H l d Hl).
  - intros l d Hn Hl. destruct (H l d Hl) as [Hk _]. apply Hk.
    intros ->. destruct (Hc l eq_refl). lia.
  - intros dr Hl. destruct (H n dr Hl) as [Hk _]. exists dr.
    split; [|apply agree_except_refl]. apply Hk.
    intros ->. destruct (Hc n eq_refl). lia.
  - intros l d HP Hl. destruct (H l d Hl) as [Hk _]. apply Hk.
    intros ->. now destruct (Hc l eq_refl).
Qed.

Lemma groups_effect_alloc (h : heap) (d : dict) :
  groups_effect P n h (h ++ [d])%list.
Proof.
  split; [rewrite length_app; lia|]. split; [|split; [|split]].
  - intros l d0 _ H. exists d0. split; [now apply heap_copy_old|apply norefs_refl].
  - intros l d0 _ H. now apply heap_copy_old.
  - intros dr H. exists dr. split; [now apply heap_copy_old|apply agree_except_refl].
  - intros l d0 _ H. now apply heap_copy_old.
Qed.

Lemma groups_effect_set (h : heap) (dr : dict) (key : string) (x : value) :
  h !! n = Some dr -> In key group_keys -> ~ P n ->
  groups_effect P n h (<[n := dict_set dr key x]> h).
Proof.
  intros Hn Hkey HP. split; [rewrite length_insert; lia|].
  split; [|split; [|split]].
  - intros l d Hl H. exists d. rewrite list_lookup_insert_ne by lia.
    split; [exact H|apply norefs_refl].
  - intros l d Hl H. rewrite list_lookup_insert_ne by lia. exact H.
  - intros dr0 H. rewrite Hn in H. injection H as <-.
    exists (dict_set dr key x). split; [eapply heap_insert_lookup; eassumption|].
    intros k Hk. apply dict_get_set_ne. intros ->. now apply Hk.
  - intros l d Hl H. rewrite list_lookup_insert_ne; [exact H|].
    intros <-. now apply HP.
Qed.

Lemma old_closed_groups (config : Config) (h h' : heap) :
  groups_effect P n h h' -> (n < length h)%nat -> old_closed config P n h ->
  old_closed config P n h' /\ (n < length h')%nat.
Proof.
  intros [L [O _]] Hn Hc. split; [|lia].
  intros l d' k l' Hl H' Hin.
  destruct (lookup_lt_is_Some_2 h l) as [d Hd]; [lia|].
  destruct (O l d Hl Hd) as [d2 [H2 N2]].
  assert (d2 = d') as -> by congruence.
  eapply Hc; [exact Hl|exact Hd|]. apply N2. exact Hin.
Qed.

Lemma wp_entries (version : ComposeVersion) (key : string)
      (items : list (string * value)) :
  (forall k l', In (k, VDict l') items -> (l' < n)%nat /\ ~ P l') ->
  forall h : heap,
  wp True (for_each items
             (fun item => denormalize_entry version key (snd item)))
     (fun _ h' => groups_effect P n h h') h.
Proof.
  induction items as [|[k conf] items IH]; intros Hc h.
  - apply wp_ret. apply groups_effect_refl.
  - cbn [for_each snd]. apply wp_bind.
    eapply wp_mono; [|apply (denormalize_entry_effect version key conf h)].
    intros [] h1 H1. eapply wp_mono; [|apply IH].
    + intros [] h2 H2. eapply groups_effect_trans; [|exact H2].
      eapply groups_effect_entry; [|exact H1].
      intros l' ->. apply (Hc k). now left.
    + intros k0 l' Hin. apply (Hc k0). now right.
Qed.

Lemma py_copy_writes (v c : value) (h h1 : heap) :
  py_copy v h = Ok (c, h1) ->
  (exists g dg, v = VDict g /\ h !! g = Some dg /\ c = VDict (length h)
                /\ h1 = (h ++ [dg])%list)
  \/ (exists l, v = VList l /\ c = VList l /\ h1 = h).
Proof.
  destruct v as [|b0|z|s|l|l|cl fs]; cbn [py_copy]; unfold raise, ret, bind, alloc;
    try discriminate.
  - intros H. injection H as <- <-. right. eauto.
  - destruct (deref l h) as [[d h0]|e] eqn:Hd; [|discriminate].
    apply deref_reads in Hd. destruct Hd as [-> Hl].
    intros H. injection H as <- <-. left. eauto 7.
Qed.

Lemma wp_group (config : Config) (key : string) (h : heap) :
  In key group_keys -> (n < length h)%nat -> old_closed config P n h ->
  groups_closed config n -> ~ P n ->
  wp True (denormalize_group config (VDict n) key)
     (fun _ h' => groups_effect P n h h') h.
Proof.
  intros Hkey Hn Hc Hg HP. unfold denormalize_group.
  apply wp_bind. apply wp_read.
  { intros a h' H. exact (truthy_reads _ _ _ _ H). }
  { now left. }
  intros b _. destruct b; cbn [negb]; [|apply wp_ret, groups_effect_refl].
  apply wp_bind. unfold wp at 1.
  destruct (py_copy (getattr config key) h) as [[c h1]|e] eqn:Hcopy; [|exact I].
  apply py_copy_writes in Hcopy.
  assert (G1 : groups_effect P n h h1).
  { destruct Hcopy as [[g [dg [_ [_ [_ ->]]]]]|[l [_ [_ ->]]]];
      [apply groups_effect_alloc|apply groups_effect_refl]. }
  assert (Hn1 : (length h <= length h1)%nat) by apply G1.
  apply wp_bind. apply wp_py_setitem_any; [now left|].
  intros l dr Hr0 Hr. injection Hr0 as <-.
  set (h2 := <[n := dict_set dr key c]> h1).
  assert (G2 : groups_effect P n h h2).
  { eapply groups_effect_trans; [exact G1|]. now apply groups_effect_set. }
  assert (Hr2 : h2 !! n = Some (dict_set dr key c))
    by (eapply heap_insert_lookup; eassumption).
  apply wp_bind. apply wp_read.
  { intros a h' H. now apply py_getitem_reads in H. }
  { now left. }
  intros x Hx. apply py_getitem_reads in Hx.
  destruct Hx as [_ [l [d [Hl0 [Hl Hx]]]]]. injection Hl0 as <-.
  assert (d = dict_set dr key c) as -> by congruence.
  rewrite dict_get_set_eq in Hx. injection Hx as <-.
  destruct Hcopy as [[g [dg [Hv [Hdg [-> Hh1]]]]]|[l [_ [-> _]]]].
  - apply wp_bind. unfold wp at 1, py_items, bind, deref, ret.
    assert (Hc2 : h2 !! length h = Some dg).
    { unfold h2. rewrite list_lookup_insert_ne by lia. rewrite Hh1.
      apply heap_copy_lookup. }
    rewrite Hc2. eapply wp_mono; [|apply wp_entries].
    + intros [] h3 H3. eapply groups_effect_trans; eassumption.
    + intros k l' Hin.
      destruct (Hc g dg k l' (Hg key g Hv) Hdg Hin) as [Hl' HP'].
      split; [exact Hl'|]. apply HP'. now exists key.
  - apply wp_bind. exact I.
Qed.

Lemma wp_groups (config : Config) (keys : list string) :
  (forall k, In k keys -> In k group_keys) -> groups_closed config n -> ~ P n ->
  forall h : heap, (n < length h)%nat -> old_closed config P n h ->
  wp True (for_each keys (denormalize_group config (VDict n)))
     (fun _ h' => groups_effect P n h h') h.
Proof.
  induction keys as [|key keys IH]; intros Hk Hg HP h Hn Hc.
  - apply wp_ret, groups_effect_refl.
  - cbn [for_each]. apply wp_bind.
    eapply wp_mono;
      [|apply (wp_group config key h); auto; apply Hk; now left].
    intros [] h1 G1. destruct (old_closed_groups config h h1 G1 Hn Hc) as [Hc1 Hn1].
    eapply wp_mono;
      [|apply IH;
        [intros k Hin; apply Hk; now right|exact Hg|exact HP|exact Hn1|exact Hc1]].
    intros [] h2 G2. eapply groups_effect_trans; eassumption.
Qed.

End Groups.

(** ** The comprehension over the services *)

Lemma copy_ok_src (version : ComposeVersion) (d d' dc : dict) :
  agree_except duration_keys d' d -> copy_ok version d' dc -> copy_ok version d dc.
Proof.
  intros Ha [Hn Hm].
  assert (Hname : dict_get d' "name" = dict_get d "name") by (apply Ha; notin).
  assert (Hmode : dict_get d' "network_mode" = dict_get d "network_mode")
    by (apply Ha; notin).
  split; [congruence|]. rewrite Hm. unfold dict_has. now rewrite Hmode.
Qed.

Lemma copy_ok_dst (version : ComposeVersion) (d dc dc' : dict) :
  agree_except duration_keys dc' dc -> copy_ok version d dc -> copy_ok version d dc'.
Proof.
  intros Ha [Hn Hm].
  split; [rewrite <- Hn|rewrite <- Hm]; apply Ha; notin.
Qed.

Lemma py_getitem_value_reads (d k : value) (h h' : heap) (x : value) :
  py_getitem_value d k h = Ok (x, h') -> h' = h.
Proof.
  destruct k as [|b0|z|s|l|l|cl fs]; cbn [py_getitem_value]; unfold raise;
    try discriminate; try (destruct d; discriminate).
  intros H. now apply py_getitem_reads in H.
Qed.

Lemma digest_reads (image_digests service_dict : value) (h h' : heap) (x : value) :
  (b <- truthy image_digests ;;
   if b then
     n <- py_getitem service_dict "name" ;;
     py_getitem_value image_digests n
   else ret VNone) h = Ok (x, h') -> h' = h.
Proof.
  unfold bind at 1. destruct (truthy image_digests h) as [[b h1]|e] eqn:Ht;
    [|discriminate].
  apply truthy_reads in Ht. subst h1. destruct b.
  - unfold bind. destruct (py_getitem service_dict "name" h) as [[n h1]|e] eqn:Hn;
      [|discriminate].
    apply py_getitem_reads in Hn. destruct Hn as [-> _].
    apply py_getitem_value_reads.
  - intros H. now injection H as _ <-.
Qed.

Lemma lookup_In {A : Type} (l : list A) :
  forall (i : nat) (x : A), l !! i = Some x -> In x l.
Proof.
  induction l as [|a l IH]; intros i x H; [discriminate|].
  destruct i as [|i]; [injection H as ->; now left|right; exact (IH i x H)].
Qed.

Section ServicesPhase.

Variable serialize_restart_spec : heap -> value -> result value.
Variable legacy_repr : string -> list (string * value) -> result value.
Variable version : ComposeVersion.
Variable image_digests : value.

Lemma services_phase (svs : list value) : forall hc : heap,
  Forall (fun v => exists l, v = VDict l /\ is_Some (hc !! l)) svs ->
  wp True
     (map_m (fun service_dict =>
         digest <- (b <- truthy image_digests ;;
                    if b then
                      n <- py_getitem service_dict "name" ;;
                      py_getitem_value image_digests n
                    else ret VNone) ;;
         denormalize_service_dict serialize_restart_spec legacy_repr
           service_dict version digest) svs)
     (fun outs h' =>
        outs = map VDict (seq (length hc) (length svs))
        /\ length h' = (length hc + length svs)%nat
        /\ durations_only hc h'
        /\ (forall i l d, svs !! i = Some (VDict l) -> hc !! l = Some d ->
              exists dc, h' !! (length hc + i)%nat = Some dc
                         /\ copy_ok version d dc)
        /\ forall l0 d0, hc !! l0 = Some d0 ->
              (forall i l d, svs !! i = Some (VDict l) -> hc !! l = Some d ->
                             dict_get d "healthcheck" <> Some (VDict l0)) ->
              h' !! l0 = Some d0)
     hc.
Proof.
  induction svs as [|v svs IH]; intros hc Hsv.
  - apply wp_ret. split; [reflexivity|]. split; [cbn; lia|].
    split; [apply durations_only_refl|].
    split; [intros i l d Hi; discriminate|auto].
  - apply List.Forall_cons_iff in Hsv. destruct Hsv as [[l [-> [d Hl]]] Hsv].
    cbn [map_m]. apply wp_bind. apply wp_bind. apply wp_read.
    { intros a h' H. exact (digest_reads _ _ _ _ _ H). }
    { now left. }
    intros img _.
    eapply wp_mono;
      [|apply (denormalize_service_dict_spec serialize_restart_spec legacy_repr
                 True l d version img hc Hl); now left].
    intros out h2 [-> [L2 [D2 [F2 [d' [Hd' [Ha [Hnm _]]]]]]]].
    apply wp_bind. eapply wp_mono; [|apply (IH h2)].
    + intros outs h3 [-> [L3 [D3 [Hcp Fr3]]]]. apply wp_ret.
      split; [rewrite L2; reflexivity|]. split; [cbn [length]; lia|].
      split; [eapply durations_only_trans; eassumption|].
      split.
      2:{ intros l0 d0 H0 Hnh. apply Fr3.
          - apply F2; [exact H0|]. exact (Hnh 0%nat l d eq_refl Hl).
          - intros i l1 d1 Hi H1.
            rewrite List.Forall_forall in Hsv.
            destruct (Hsv _ (lookup_In _ _ _ Hi)) as [l1' [Hl1 [d1o Hd1o]]].
            injection Hl1 as <-.
            destruct (D2 _ _ Hd1o) as [d1' [Hd1' [_ [Ha1 _]]]].
            assert (d1' = d1) as -> by congruence.
            rewrite Ha1 by notin. exact (Hnh (S i) l1 d1o Hi Hd1o). }
      intros i l0 d0 Hi Hl0. destruct i as [|i].
      * injection Hi as <-. assert (d0 = d) as -> by congruence.
        destruct (D3 _ _ Hd') as [d'' [Hd'' [_ [Ha' _]]]].
        exists d''. rewrite Nat.add_0_r. split; [exact Hd''|].
        apply (copy_ok_dst version d d'); [exact Ha'|].
        split; [apply Ha; notin|exact Hnm].
      * cbn in Hi. destruct (D2 _ _ Hl0) as [d0' [Hd0' [_ [Ha0 _]]]].
        destruct (Hcp i l0 d0' Hi Hd0') as [dc [Hdc Hok]].
        exists dc. split.
        { replace (length hc + S i)%nat with (length h2 + i)%nat by lia. exact Hdc. }
        { eapply copy_ok_src; eassumption. }
    + apply List.Forall_forall. intros v Hin.
      rewrite List.Forall_forall in Hsv. destruct (Hsv v Hin) as [l0 [-> [d0 Hl0]]].
      exists l0. split; [reflexivity|].
      destruct (D2 _ _ Hl0) as [d0' [Hd0' _]]. now exists d0'.
Qed.

End ServicesPhase.

Lemma py_pop_writes (v : value) (k : string) (h h' : heap) (x : value) :
  py_pop v k h = Ok (x, h') ->
  exists l d, v = VDict l /\ h !! l = Some d /\ dict_get d k = Some x
              /\ h' = <[l := dict_del d k]> h.
Proof.
  destruct v as [|b0|z|s|l|l|cl fs]; cbn [py_pop]; unfold raise, ret, bind, store;
    try discriminate.
  destruct (deref l h) as [[d h0]|e] eqn:Hd; [|discriminate].
  apply deref_reads in Hd. destruct Hd as [-> Hl].
  destruct (dict_get d k) as [x0|] eqn:Hk; [|discriminate].
  intros H. injection H as <- <-. eauto 8.
Qed.

Lemma pop_loop (s : loc) (m : nat) : forall (a : nat) (hc : heap) (ds : dict),
  (a + m <= s)%nat -> hc !! s = Some ds ->
  wp True
     (for_each (map VDict (seq a m)) (fun service_dict =>
        n <- py_pop service_dict "name" ;;
        k <- as_key n ;;
        py_setitem (VDict s) k service_dict))
     (fun _ h' =>
        length h' = length hc
        /\ (forall l, (l < a \/ a + m <= l)%nat -> l <> s -> h' !! l = hc !! l)
        /\ exists names, length names = m
             /\ (forall i nm, names !! i = Some nm ->
                   exists dc, hc !! (a + i)%nat = Some dc
                     /\ dict_get dc "name" = Some (VStr nm)
                     /\ h' !! (a + i)%nat = Some (dict_del dc "name"))
             /\ h' !! s = Some (name_map (combine names (seq a m)) ds))
     hc.
Proof.
  induction m as [|m IH]; intros a hc ds Ha Hs.
  - apply wp_ret. split; [reflexivity|]. split; [auto|].
    exists []. split; [reflexivity|]. split; [|exact Hs].
    intros i nm Hi. discriminate.
  - cbn [seq map for_each]. apply wp_bind. apply wp_bind. unfold wp at 1.
    destruct (py_pop (VDict a) "name" hc) as [[x h1]|e] eqn:Hpop; [|exact I].
    apply py_pop_writes in Hpop.
    destruct Hpop as [l [dc [Hl0 [Hdc [Hname ->]]]]]. injection Hl0 as <-.
    apply wp_bind. destruct x as [|b0|z|nm|xs|lx|cl fs]; try exact I.
    apply wp_ret. apply wp_py_setitem_any; [now left|].
    intros l d0 Hl0 Hl. injection Hl0 as <-.
    rewrite list_lookup_insert_ne in Hl by lia.
    assert (d0 = ds) as -> by congruence.
    set (h2 := <[s := dict_set ds nm (VDict a)]> (<[a := dict_del dc "name"]> hc)).
    assert (Hs2 : h2 !! s = Some (dict_set ds nm (VDict a))).
    { unfold h2. apply list_lookup_insert_eq. rewrite length_insert.
      now apply lookup_lt_Some in Hs. }
    eapply wp_mono;
      [|apply (IH (S a) h2 (dict_set ds nm (VDict a))); [lia|exact Hs2]].
    intros [] h3 [L3 [K3 [names [Ln [Hnames Hs3]]]]].
    assert (Hold : forall l, l <> a -> l <> s -> h2 !! l = hc !! l).
    { intros l Hla Hls. unfold h2.
      rewrite list_lookup_insert_ne by congruence.
      now rewrite list_lookup_insert_ne by congruence. }
    split; [unfold h2 in L3; now rewrite !length_insert in L3|].
    split.
    + intros l Hl' Hls. rewrite K3 by (try lia; exact Hls). apply Hold; [lia|exact Hls].
    + exists (nm :: names). split; [cbn [length]; lia|]. split; [|exact Hs3].
      intros i nm' Hi. destruct i as [|i].
      * injection Hi as <-. exists dc. rewrite Nat.add_0_r.
        split; [exact Hdc|]. split; [exact Hname|].
        rewrite K3 by lia. unfold h2. rewrite list_lookup_insert_ne by lia.
        eapply heap_insert_lookup; eassumption.
      * cbn in Hi. destruct (Hnames i nm' Hi) as [dc' [Hdc' [Hn' H3]]].
        replace (a + S i)%nat with (S a + i)%nat by lia.
        exists dc'. split; [|split; assumption].
        rewrite <- Hdc'. symmetry. apply Hold; [lia|].
        apply lookup_lt_Some in Hi. lia.
Qed.

Lemma name_map_other (entries : list (string * loc)) (nm : string) :
  forall ds : dict,
  (forall j nm' c', entries !! j = Some (nm', c') -> nm' <> nm) ->
  dict_get (name_map entries ds) nm = dict_get ds nm.
Proof.
  induction entries as [|[nm0 c0] entries IH]; intros ds Hne; [reflexivity|].
  cbn [name_map]. rewrite IH.
  - apply dict_get_set_ne. apply (Hne 0%nat nm0 c0). reflexivity.
  - intros j nm' c' Hj. apply (Hne (S j) nm' c'). exact Hj.
Qed.

Lemma name_map_get (entries : list (string * loc)) (nm : string) (c : loc) :
  forall (ds : dict) (i : nat),
  entries !! i = Some (nm, c) ->
  (forall j nm' c', (i < j)%nat -> entries !! j = Some (nm', c') -> nm' <> nm) ->
  dict_get (name_map entries ds) nm = Some (VDict c).
Proof.
  induction entries as [|[nm0 c0] entries IH]; intros ds i Hi Hlater; [discriminate|].
  cbn [name_map]. destruct i as [|i].
  - injection Hi as -> ->. rewrite name_map_other.
    + apply dict_get_set_eq.
    + intros j nm' c' Hj. apply (Hlater (S j) nm' c'); [lia|exact Hj].
  - apply (IH _ i); [exact Hi|].
    intros j nm' c' Hij Hj. apply (Hlater (S j) nm' c'); [lia|exact Hj].
Qed.

(** ** The whole configuration *)

Lemma combine_lookup {A B : Type} (l1 : list A) (l2 : list B) :
  forall (i : nat) (x : A) (y : B),
  combine l1 l2 !! i = Some (x, y) <-> l1 !! i = Some x /\ l2 !! i = Some y.
Proof.
  revert l2. induction l1 as [|a l1 IH]; intros l2 i x y.
  - cbn [combine]. split; [discriminate|]. intros [H _]. discriminate.
  - destruct l2 as [|b l2]; cbn [combine].
    + split; [discriminate|]. intros [_ H]. discriminate.
    + destruct i as [|i]; [|exact (IH l2 i x y)].
      split.
      * intros H. injection H as -> ->. auto.
      * intros [H1 H2]. injection H1 as ->. injection H2 as ->. reflexivity.
Qed.

Section ConfigSpec.

Variable serialize_restart_spec : heap -> value -> result value.
Variable legacy_repr : string -> list (string * value) -> result value.

Lemma denormalize_config_spec (config : Config) (image_digests : value) (h : heap) :
  services_in config h -> closed h -> groups_closed config (length h) ->
  wp True (denormalize_config serialize_restart_spec legacy_repr config image_digests)
     (denormalized config h) h.
Proof.
  intros Hsv Hcl Hg. unfold denormalize_config.
  apply wp_bind. unfold wp at 1, alloc.
  set (hdr := [("version", VStr _)]).
  set (n := length h) in *. set (h0 := (h ++ [hdr])%list).
  assert (L0 : length h0 = S n) by (unfold h0; rewrite length_app; cbn; lia).
  assert (Hn0 : h0 !! n = Some hdr) by apply heap_copy_lookup.
  apply wp_bind.
  eapply wp_mono;
    [|apply (services_phase serialize_restart_spec legacy_repr (version config)
               image_digests (services config) h0)].
  2:{ eapply List.Forall_impl; [|exact Hsv]. intros v [l [-> [d Hd]]].
      exists l. split; [reflexivity|]. exists d. now apply heap_copy_old. }
  intros outs h1 [-> [L1 [D1 [Hcp _]]]].
  set (m := length (services config)) in *.
  apply wp_bind. unfold wp at 1, alloc.
  set (s := length h1). set (h1' := (h1 ++ [[]])%list).
  assert (Hold1 : forall l, (l < s)%nat -> h1' !! l = h1 !! l).
  { intros l Hl. unfold h1'. now apply lookup_app_l. }
  apply wp_bind.
  eapply wp_mono; [|apply (pop_loop s m (length h0) h1' []);
                     [lia|apply heap_copy_lookup]].
  intros [] h2 [L2 [K2 [names [Ln [Hnames Hs2]]]]].
  assert (L1' : length h1' = S s) by (unfold h1'; rewrite length_app; cbn; lia).
  apply wp_bind. apply wp_py_setitem_any; [now left|].
  intros l dr2 Hl0 Hr2. injection Hl0 as <-. fold n in Hr2.
  set (h3 := <[n := dict_set dr2 "services" (VDict s)]> h2).
  assert (L3 : length h3 = S s) by (unfold h3; rewrite length_insert; lia).
  assert (Hold3 : forall l, l <> n -> h3 !! l = h2 !! l).
  { intros l Hl. unfold h3. now rewrite list_lookup_insert_ne by congruence. }
  assert (Hr3 : h3 !! n = Some (dict_set dr2 "services" (VDict s)))
    by (eapply heap_insert_lookup; eassumption).
  destruct (D1 n hdr Hn0) as [d1 [Hd1 [_ [Ahdr _]]]].
  assert (Hdr2 : dr2 = d1).
  { rewrite K2, Hold1 in Hr2 by lia. congruence. }
  subst dr2.
  assert (Hc3 : old_closed config (fun _ => False) n h3).
  { intros l d k l' Hl Hd Hin. split; [|auto].
    destruct (lookup_lt_is_Some_2 h l) as [d0 Hd0]; [exact Hl|].
    destruct (D1 l d0 (heap_copy_old h hdr d0 l Hd0)) as [d' [Hd' [_ [_ Hno]]]].
    rewrite Hold3, K2, Hold1 in Hd by lia.
    assert (d = d') as -> by congruence.
    eapply Hcl; [exact Hd0|]. apply Hno. exact Hin. }
  apply wp_bind.
  eapply wp_mono;
    [|apply (wp_groups (fun _ => False) n config group_keys);
      [auto|exact Hg|auto|lia|exact Hc3]].
  intros [] h4 [L4 [_ [F4 [R4 _]]]]. apply wp_ret.
  split; [reflexivity|].
  destruct (R4 _ Hr3) as [dr4 [Hr4 A4]].
  exists dr4, s, (name_map (combine names (seq (length h0) m)) []).
  split; [exact Hr4|]. split.
  { rewrite A4 by notin. rewrite dict_get_set_ne by discriminate.
    rewrite Ahdr by notin. reflexivity. }
  split.
  { rewrite A4 by notin. apply dict_get_set_eq. }
  split.
  { apply F4; [lia|]. rewrite Hold3 by lia. exact Hs2. }
  assert (Hcopy : forall i l d, services config !! i = Some (VDict l) ->
            h !! l = Some d ->
            exists nm dc, names !! i = Some nm
              /\ dict_get d "name" = Some (VStr nm)
              /\ h4 !! (length h0 + i)%nat = Some (dict_del dc "name")
              /\ copy_ok (version config) d dc).
  { intros i l d Hi Hl.
    pose proof (lookup_lt_Some _ _ _ Hi) as Him. fold m in Him.
    destruct (lookup_lt_is_Some_2 names i) as [nm Hnm]; [lia|].
    destruct (Hnames i nm Hnm) as [dc [Hdc [Hname H2]]].
    destruct (Hcp i l d Hi (heap_copy_old h hdr d l Hl)) as [dc1 [Hdc1 Hok]].
    rewrite Hold1 in Hdc by lia.
    assert (dc = dc1) as -> by congruence.
    exists nm, dc1. split; [exact Hnm|]. split.
    - destruct Hok as [Hn _]. congruence.
    - split; [|exact Hok]. apply F4; [lia|]. rewrite Hold3 by lia. exact H2. }
  intros i l d nm Hi Hl Hname Hlast.
  destruct (Hcopy i l d Hi Hl) as [nm0 [dc [Hnm [Hname0 [H4 Hok]]]]].
  assert (nm0 = nm) as -> by congruence.
  pose proof (lookup_lt_Some _ _ _ Hi) as Him. fold m in Him.
  exists (length h0 + i)%nat, (dict_del dc "name").
  split; [|split; [exact H4|]].
  - apply (name_map_get _ nm _ [] i).
    + apply combine_lookup. split; [exact Hnm|]. apply lookup_seq. auto.
    + intros j nm' c' Hij Hj. apply combine_lookup in Hj. destruct Hj as [Hj _].
      pose proof (lookup_lt_Some _ _ _ Hj) as Hjm. rewrite Ln in Hjm.
      destruct (lookup_lt_is_Some_2 (services config) j) as [v Hv]; [exact Hjm|].
      unfold services_in in Hsv. rewrite List.Forall_forall in Hsv.
      destruct (Hsv v) as [l' [-> [d' Hd']]].
      { eapply lookup_In. exact Hv. }
      destruct (Hcopy j l' d' Hv Hd') as [nm1 [dc' [Hnm1 [Hname1 _]]]].
      assert (nm1 = nm') as -> by congruence.
      intros ->. exact (Hlast j l' d' Hij Hv Hd' Hname1).
  - rewrite dict_get_del_ne by discriminate. apply Hok.
Qed.

End ConfigSpec.

(** ** Configurations on which the loops return *)

Lemma wp_by_run {A : Type} (E : Prop) (m : M A) (Q : A -> heap -> Prop)
      (h h' : heap) (a : A) :
  m h = Ok (a, h') -> Q a h' -> wp E m Q h.
Proof. intros Hrun HQ. unfold wp. now rewrite Hrun. Qed.

Lemma dict_get_In (d : dict) (k : string) (x : value) :
  dict_get d k = Some x -> In (k, x) d.
Proof.
  induction d as [|[k0 v0] d IH]; cbn [dict_get]; [discriminate|].
  destruct (String.eqb k0 k) eqn:Hk.
  - apply String.eqb_eq in Hk. subst k0. intros H. injection H as ->. now left.
  - intros H. right. now apply IH.
Qed.

Lemma denormalize_entry_returns (version : ComposeVersion) (key : string)
      (l : loc) (d : dict) (h : heap) :
  h !! l = Some d ->
  (forall l', dict_get d "external" = Some (VDict l') -> is_Some (h !! l')) ->
  exists h', denormalize_entry version key (VDict l) h = Ok (tt, h').
Proof.
  intros Hl Hext.
  cut (wp False (denormalize_entry version key (VDict l)) (fun _ _ => True) h).
  { intros Hwp. apply wp_returns in Hwp. destruct Hwp as [[] [h' [Hrun _]]]. eauto. }
  unfold denormalize_entry. apply wp_bind.
  eapply wp_mono; [|apply (wp_strip_key_always False "external_name" l d h Hl)].
  intros _ h1 ->.
  set (d1 := dict_del d "external_name").
  set (h1 := <[l := d1]> h).
  assert (Hl1 : h1 !! l = Some d1) by (eapply heap_insert_lookup; exact Hl).
  apply wp_bind.
  apply (wp_mono False _ (fun _ h' => exists d2, h' !! l = Some d2)).
  { intros _ h2 [d2 Hl2].
    eapply wp_mono;
      [|apply (wp_strip_key False "attachable" (version_ltb version V3_2) l d2 h2 Hl2)].
    auto. }
  apply wp_bind. eapply wp_py_in; [exact Hl1|].
  apply wp_when; intros Hname; [|eauto].
  destruct (version_ltb version V2_1
            || version_geb version V3_0
               && version_ltb version (v3_introduced_name_key key)).
  - eapply wp_py_delitem; [exact Hl1|exact Hname|].
    eexists. eapply heap_insert_lookup. exact Hl1.
  - apply wp_bind. eapply wp_py_in; [exact Hl1|].
    apply wp_when; intros Hex; [|eauto].
    unfold dict_has in Hex.
    destruct (dict_get d1 "external") as [x|] eqn:Hx; [|discriminate].
    destruct (truthy_returns x h1) as [b Hb].
    { intros l' ->. unfold d1 in Hx. rewrite dict_get_del_ne in Hx by discriminate.
      destruct (Hext l' Hx) as [d0 Hd0].
      unfold h1. destruct (decide (l = l')) as [<-|Hne].
      - rewrite (heap_insert_lookup _ _ _ _ Hl). eauto.
      - rewrite list_lookup_insert_ne by exact Hne. eauto. }
    apply wp_bind. eapply wp_py_getitem; [exact Hl1|exact Hx|].
    apply wp_bind. eapply wp_by_run; [exact Hb|].
    eapply wp_py_setitem; [exact Hl1|].
    eexists. eapply heap_insert_lookup. exact Hl1.
Qed.

Section GroupsReturn.

Variable config : Config.
Variable P : loc -> Prop.
Variable n : nat.

Lemma entries_returns (version : ComposeVersion) (key : string)
      (items : list (string * value)) :
  (forall k x, In (k, x) items -> exists l', x = VDict l' /\ (l' < n)%nat /\ ~ P l') ->
  forall h : heap, (n < length h)%nat -> old_closed config P n h ->
  exists h', for_each items
               (fun item => denormalize_entry version key (snd item)) h
             = Ok (tt, h').
Proof.
  induction items as [|[k conf] items IH]; intros Hit h Hn Hc.
  - exists h. reflexivity.
  - destruct (Hit k conf) as [l' [-> [Hl' HP']]]; [now left|].
    destruct (lookup_lt_is_Some_2 h l') as [d Hd]; [lia|].
    destruct (denormalize_entry_returns version key l' d h Hd) as [h1 Hrun1].
    { intros l2 Hx. apply dict_get_In in Hx.
      destruct (Hc l' d "external" l2 Hl' Hd Hx) as [Hl2 _].
      apply lookup_lt_is_Some_2. lia. }
    pose proof (wp_run True _ _ _ _ _
                  (denormalize_entry_effect version key (VDict l') h) Hrun1) as He.
    assert (G1 : groups_effect P n h h1).
    { eapply groups_effect_entry; [|exact He].
      intros l0 H0. injection H0 as <-. auto. }
    destruct (old_closed_groups P n config h h1 G1 Hn Hc) as [Hc1 Hn1].
    destruct (IH (fun k0 x Hin => Hit k0 x (or_intror Hin)) h1 Hn1 Hc1)
      as [h2 Hrun2].
    exists h2. cbn [for_each snd]. unfold bind. rewrite Hrun1. exact Hrun2.
Qed.

Lemma group_returns (key : string) (g : loc) (dg : dict) (h : heap) :
  (n < length h)%nat -> old_closed config P n h -> (g < n)%nat ->
  getattr config key = VDict g -> h !! g = Some dg ->
  (forall k x, In (k, x) dg -> exists l', x = VDict l' /\ ~ P l') ->
  exists h', denormalize_group config (VDict n) key h = Ok (tt, h').
Proof.
  intros Hn Hc Hg Hv Hdg Hit.
  cut (wp False (denormalize_group config (VDict n) key) (fun _ _ => True) h).
  { intros Hwp. apply wp_returns in Hwp. destruct Hwp as [[] [h' [Hrun _]]]. eauto. }
  unfold denormalize_group. rewrite Hv.
  destruct (truthy_returns (VDict g) h) as [b Hb].
  { intros l' H. injection H as <-. eauto. }
  apply wp_bind. eapply wp_by_run; [exact Hb|].
  destruct b; cbn [negb]; [|exact I].
  apply wp_bind. unfold wp at 1, py_copy, bind, deref, alloc, ret. rewrite Hdg.
  set (h1 := (h ++ [dg])%list).
  destruct (lookup_lt_is_Some_2 h n Hn) as [dr Hr].
  assert (Hr1 : h1 !! n = Some dr) by now apply heap_copy_old.
  apply wp_bind. eapply wp_py_setitem; [exact Hr1|].
  set (h2 := <[n := dict_set dr key (VDict (length h))]> h1).
  assert (Hr2 : h2 !! n = Some (dict_set dr key (VDict (length h))))
    by (eapply heap_insert_lookup; exact Hr1).
  apply wp_bind. eapply wp_py_getitem; [exact Hr2|apply dict_get_set_eq|].
  assert (Hc2 : h2 !! length h = Some dg).
  { unfold h2. rewrite list_lookup_insert_ne by lia. apply heap_copy_lookup. }
  apply wp_bind. unfold wp at 1, py_items, bind, deref, ret. rewrite Hc2.
  assert (Hlen2 : (n < length h2)%nat).
  { unfold h2, h1. rewrite length_insert, length_app. lia. }
  assert (Hcl2 : old_closed config P n h2).
  { intros l d k l' Hl Hd Hin. unfold h2 in Hd.
    rewrite list_lookup_insert_ne in Hd by lia.
    unfold h1 in Hd. rewrite lookup_app_l in Hd by lia.
    exact (Hc l d k l' Hl Hd Hin). }
  destruct (entries_returns (version config) key dg) with (h := h2)
    as [h3 Hrun]; [|exact Hlen2|exact Hcl2|].
  - intros k x Hin. destruct (Hit k x Hin) as [l' [-> HP']].
    exists l'. split; [reflexivity|]. split; [|exact HP'].
    now destruct (Hc g dg k l' Hg Hdg Hin).
  - eapply wp_by_run; [exact Hrun|exact I].
Qed.

Lemma groups_returns (keys : list string) :
  (forall k, In k keys -> In k group_keys) -> ~ P n ->
  forall h : heap, (n < length h)%nat -> old_closed config P n h ->
  (forall key, exists g dg,
      getattr config key = VDict g /\ (g < n)%nat /\ P g /\ h !! g = Some dg
      /\ forall k x, In (k, x) dg -> exists l', x = VDict l' /\ ~ P l') ->
  exists h', for_each keys (denormalize_group config (VDict n)) h = Ok (tt, h').
Proof.
  induction keys as [|key keys IH]; intros Hk HP h Hn Hc Hinv.
  - exists h. reflexivity.
  - destruct (Hinv key) as [g [dg [Hv [Hg [HPg [Hdg Hit]]]]]].
    destruct (group_returns key g dg h Hn Hc Hg Hv Hdg Hit) as [h1 Hrun1].
    assert (Hgc : groups_closed config n).
    { intros key0 g0 H0. destruct (Hinv key0) as [g1 [_ [Hv1 [Hg1 _]]]].
      rewrite Hv1 in H0. now injection H0 as <-. }
    assert (G1 : groups_effect P n h h1).
    { refine (wp_run True _ _ _ _ _ (wp_group P n config key h _ Hn Hc Hgc HP) Hrun1).
      apply Hk. now left. }
    destruct (old_closed_groups P n config h h1 G1 Hn Hc) as [Hc1 Hn1].
    destruct (IH (fun k0 Hin => Hk k0 (or_intror Hin)) HP h1 Hn1 Hc1) as [h2 Hrun2].
    { intros key0. destruct (Hinv key0) as [g0 [dg0 [Hv0 [Hg0 [HP0 [Hd0 Hit0]]]]]].
      exists g0, dg0. repeat (split; [assumption|]). split; [|exact Hit0].
      destruct G1 as [_ [_ [_ [_ Hkeep]]]]. now apply Hkeep. }
    exists h2. cbn [for_each]. unfold bind. rewrite Hrun1. exact Hrun2.
Qed.

End GroupsReturn.

Section ServicesReturn.

Variable serialize_restart_spec : heap -> value -> result value.
Variable legacy_repr : string -> list (string * value) -> result value.
Variable version : ComposeVersion.

Lemma service_ok_transfer (h h2 : heap) (d : dict) :
  (forall l, is_Some (h !! l) -> is_Some (h2 !! l)) ->
  (forall hc dhc, dict_get d "healthcheck" = Some (VDict hc) ->
                  h !! hc = Some dhc -> h2 !! hc = Some dhc) ->
  service_ok serialize_restart_spec legacy_repr version h d ->
  service_ok serialize_restart_spec legacy_repr version h2 d.
Proof.
  intros Hmono Hhc [Hrs [Hdep [Hh [Hports Hvol]]]].
  split; [exact Hrs|]. split; [|split; [|split; [exact Hports|exact Hvol]]].
  - intros v Hv Hgate. destruct (Hdep v Hv Hgate) as [dep [-> Hsome]].
    exists dep. split; [reflexivity|]. now apply Hmono.
  - intros v Hv. destruct (Hh v Hv) as [hc [dhc [-> [Hl Hint]]]].
    exists hc, dhc. split; [reflexivity|]. split; [|exact Hint].
    now apply Hhc.
Qed.

Lemma services_ok_in (h : heap) (svs : list value) :
  services_ok serialize_restart_spec legacy_repr version h svs ->
  Forall (fun v => exists l, v = VDict l /\ is_Some (h !! l)) svs.
Proof.
  induction svs as [|v svs IH]; intros H; [apply List.Forall_nil|].
  destruct H as [[l [d [nm [-> [Hl _]]]]] Hrest].
  apply List.Forall_cons; [|now apply IH].
  exists l. split; [reflexivity|]. now exists d.
Qed.

Lemma services_ok_transfer (h h2 : heap) (svs : list value) :
  (forall l, is_Some (h !! l) -> is_Some (h2 !! l)) ->
  (forall v l d, In v svs -> v = VDict l -> h !! l = Some d ->
     h2 !! l = Some d
     /\ forall hc dhc, dict_get d "healthcheck" = Some (VDict hc) ->
                       h !! hc = Some dhc -> h2 !! hc = Some dhc) ->
  services_ok serialize_restart_spec legacy_repr version h svs ->
  services_ok serialize_restart_spec legacy_repr version h2 svs.
Proof.
  intros Hmono. induction svs as [|v svs IH]; intros Hst Hok; [exact I|].
  destruct Hok as [[l [d [nm [-> [Hl [Hsok [Hname Hsep]]]]]]] Hrest].
  destruct (Hst (VDict l) l d (or_introl eq_refl) eq_refl Hl) as [Hl2 Hhc2].
  split.
  - exists l, d, nm. split; [reflexivity|]. split; [exact Hl2|].
    split; [now apply service_ok_transfer with (h := h)|].
    split; [exact Hname|].
    intros hc Hhc. specialize (Hsep hc Hhc).
    apply List.Forall_forall. intros v' Hin l' d' -> Hl'.
    rewrite List.Forall_forall in Hsep.
    pose proof (services_ok_in h svs Hrest) as Hvalid.
    rewrite List.Forall_forall in Hvalid.
    destruct (Hvalid _ Hin) as [l0 [H0 [d0 Hd0]]]. injection H0 as <-.
    destruct (Hst (VDict l') l' d0 (or_intror Hin) eq_refl Hd0) as [Hd2 _].
    assert (d' = d0) as -> by congruence.
    exact (Hsep _ Hin l' d0 eq_refl Hd0).
  - apply IH; [|exact Hrest].
    intros v' l' d' Hin. apply Hst. now right.
Qed.

Lemma services_returns (image_digests : value) (svs : list value) :
  (forall h, truthy image_digests h = Ok (false, h)) ->
  forall hc : heap,
  services_ok serialize_restart_spec legacy_repr version hc svs ->
  exists outs h',
    map_m (fun service_dict =>
        digest <- (b <- truthy image_digests ;;
                   if b then
                     n <- py_getitem service_dict "name" ;;
                     py_getitem_value image_digests n
                   else ret VNone) ;;
        denormalize_service_dict serialize_restart_spec legacy_repr
          service_dict version digest) svs hc
    = Ok (outs, h').
Proof.
  intros Hdig. induction svs as [|v svs IH]; intros hc Hok.
  - exists [], hc. reflexivity.
  - match goal with |- exists outs h', ?m hc = _ =>
      cut (wp False m (fun _ _ => True) hc) end.
    { intros Hwp. apply wp_returns in Hwp.
      destruct Hwp as [outs [h' [Hrun _]]]. eauto. }
    pose proof (services_ok_in hc svs (proj2 Hok)) as Hvalid.
    destruct Hok as [[l [d [nm [-> [Hl [Hsok [Hname Hsep]]]]]]] Hrest].
    cbn [map_m]. apply wp_bind. apply wp_bind. apply wp_bind.
    eapply wp_by_run; [apply Hdig|]. cbv beta iota. apply wp_ret.
    eapply wp_mono;
      [|apply (denormalize_service_dict_spec serialize_restart_spec legacy_repr
                 False l d version VNone hc Hl); right;
        split; [exact Hsok|intros l' H; discriminate]].
    intros out h2 [-> [L2 [D2 [F2 _]]]].
    destruct (IH h2) as [outs [h3 Hrun]].
    + apply (services_ok_transfer hc h2); [| |exact Hrest].
      * intros l0 [d0 Hd0]. destruct (D2 l0 d0 Hd0) as [d0' [Hd0' _]]. eauto.
      * intros v' l' d' Hin -> Hl'.
        assert (Hs : forall hc0, dict_get d "healthcheck" = Some (VDict hc0) ->
                       l' <> hc0 /\ dict_get d' "healthcheck" <> Some (VDict hc0)).
        { intros hc0 Hhc0. specialize (Hsep hc0 Hhc0).
          rewrite List.Forall_forall in Hsep.
          exact (Hsep _ Hin l' d' eq_refl Hl'). }
        split.
        -- apply F2; [exact Hl'|]. intros Heq. now destruct (Hs l' Heq).
        -- intros hc0 dhc0 Hhc0 Hd0. apply F2; [exact Hd0|].
           intros Heq. now destruct (Hs hc0 Heq).
    + apply wp_bind. eapply wp_by_run; [exact Hrun|]. exact I.
Qed.

End ServicesReturn.

Lemma pop_loop_returns (s : loc) (m : nat) : forall (a : nat) (hc : heap),
  (a + m <= s)%nat -> is_Some (hc !! s) ->
  (forall i, (i < m)%nat ->
     exists dc nm, hc !! (a + i)%nat = Some dc
                   /\ dict_get dc "name" = Some (VStr nm)) ->
  exists h',
    for_each (map VDict (seq a m)) (fun service_dict =>
        n <- py_pop service_dict "name" ;;
        k <- as_key n ;;
        py_setitem (VDict s) k service_dict) hc
    = Ok (tt, h').
Proof.
  induction m as [|m IH]; intros a hc Ha [ds Hs] Hnames.
  - exists hc. reflexivity.
  - destruct (Hnames 0%nat) as [dc [nm [Hdc Hname]]]; [lia|].
    rewrite Nat.add_0_r in Hdc.
    set (h2 := <[s := dict_set ds nm (VDict a)]> (<[a := dict_del dc "name"]> hc)).
    destruct (IH (S a) h2) as [h3 Hrun]; [lia| | |].
    + exists (dict_set ds nm (VDict a)). unfold h2.
      apply list_lookup_insert_eq. rewrite length_insert.
      now apply lookup_lt_Some in Hs.
    + intros i Hi. destruct (Hnames (S i)) as [dc' [nm' [Hdc' Hname']]]; [lia|].
      exists dc', nm'. split; [|exact Hname'].
      unfold h2. rewrite !list_lookup_insert_ne by lia.
      replace (S a + i)%nat with (a + S i)%nat by lia. exact Hdc'.
    + exists h3. cbn [seq map for_each].
      unfold bind at 1 2. unfold py_pop, bind, deref, store, ret.
      rewrite Hdc, Hname. cbn [as_key]. unfold ret, py_setitem, bind, deref, store.
      rewrite list_lookup_insert_ne by lia. rewrite Hs. exact Hrun.
Qed.

Section ConfigReturns.

Variable serialize_restart_spec : heap -> value -> result value.
Variable legacy_repr : string -> list (string * value) -> result value.

Lemma services_ok_lookup (version : ComposeVersion) (h : heap) (svs : list value) :
  services_ok serialize_restart_spec legacy_repr version h svs ->
  forall i v, svs !! i = Some v ->
  exists l d nm, v = VDict l /\ h !! l = Some d
                 /\ dict_get d "name" = Some (VStr nm).
Proof.
  induction svs as [|v0 svs IH]; intros Hok i v Hi; [discriminate|].
  destruct Hok as [[l [d [nm [-> [Hl [_ [Hname _]]]]]]] Hrest].
  destruct i as [|i].
  - injection Hi as <-. eauto 7.
  - exact (IH Hrest i v Hi).
Qed.

Lemma denormalize_config_returns (config : Config) (image_digests : value)
      (h : heap) :
  closed h -> (forall h', truthy image_digests h' = Ok (false, h')) ->
  config_ok serialize_restart_spec legacy_repr config h ->
  exists out h',
    denormalize_config serialize_restart_spec legacy_repr config image_digests h
    = Ok (out, h').
Proof.
  intros Hcl Hdig [Hsok Hgok].
  cut (wp False (denormalize_config serialize_restart_spec legacy_repr config
                   image_digests) (fun _ _ => True) h).
  { intros Hwp. apply wp_returns in Hwp.
    destruct Hwp as [out [h' [Hrun _]]]. eauto. }
  unfold denormalize_config.
  apply wp_bind. unfold wp at 1, alloc.
  set (hdr := [("version", VStr _)]).
  set (n := length h) in *. set (h0 := (h ++ [hdr])%list).
  assert (L0 : length h0 = S n) by (unfold h0; rewrite length_app; cbn; lia).
  assert (Hold0 : forall l d, h !! l = Some d -> h0 !! l = Some d).
  { intros l d Hd. now apply heap_copy_old. }
  (* the services *)
  assert (Hsok0 : services_ok serialize_restart_spec legacy_repr (version config)
                    h0 (services config)).
  { apply (services_ok_transfer _ _ _ h h0); [| |exact Hsok].
    - intros l [d Hd]. exists d. now apply Hold0.
    - intros v l d _ _ Hl. split; [now apply Hold0|].
      intros hc dhc _ Hd. now apply Hold0. }
  destruct (services_returns serialize_restart_spec legacy_repr (version config)
              image_digests (services config) Hdig h0 Hsok0) as [outs [h1 Hrun1]].
  pose proof (wp_run True _ _ _ _ _
                (services_phase serialize_restart_spec legacy_repr (version config)
                   image_digests (services config) h0
                   (services_ok_in _ _ _ _ _ Hsok0)) Hrun1) as Hpost1.
  destruct Hpost1 as [-> [L1 [D1 [Hcp Fr1]]]].
  apply wp_bind. eapply wp_by_run; [exact Hrun1|].
  set (m := length (services config)) in *.
  apply wp_bind. unfold wp at 1, alloc.
  set (s := length h1). set (h1' := (h1 ++ [[]])%list).
  assert (Hold1 : forall l, (l < s)%nat -> h1' !! l = h1 !! l).
  { intros l Hl. unfold h1'. now apply lookup_app_l. }
  assert (Hs1 : h1' !! s = Some []) by apply heap_copy_lookup.
  (* the names *)
  destruct (pop_loop_returns s m (length h0) h1') as [h2 Hrun2]; [lia| | |].
  { eauto. }
  { intros i Hi.
    destruct (lookup_lt_is_Some_2 (services config) i Hi) as [v Hv].
    destruct (services_ok_lookup _ _ _ Hsok0 i v Hv) as [l [d [nm [-> [Hd Hname]]]]].
    destruct (Hcp i l d Hv Hd) as [dc [Hdc [Hn _]]].
    exists dc, nm. rewrite Hold1 by lia. split; [exact Hdc|congruence]. }
  pose proof (wp_run True _ _ _ _ _
                (pop_loop s m (length h0) h1' [] ltac:(lia) Hs1) Hrun2) as Hpost2.
  destruct Hpost2 as [L2 [K2 _]].
  assert (L1' : length h1' = S s) by (unfold h1'; rewrite length_app; cbn; lia).
  apply wp_bind. eapply wp_by_run; [exact Hrun2|].
  (* the result *)
  destruct (lookup_lt_is_Some_2 h2 n) as [dr2 Hr2]; [lia|].
  apply wp_bind. eapply wp_py_setitem; [exact Hr2|].
  set (h3 := <[n := dict_set dr2 "services" (VDict s)]> h2).
  assert (Hold3 : forall l, (l < n)%nat -> h3 !! l = h1 !! l).
  { intros l Hl. unfold h3. rewrite list_lookup_insert_ne by lia.
    rewrite K2 by lia. apply Hold1. lia. }
  (* the groups *)
  destruct (groups_returns config (is_group config) n group_keys) with (h := h3)
    as [h4 Hrun4].
  - auto.
  - intros [key Hkey]. destruct (Hgok key) as [g [dg [Hv [Hdg _]]]].
    rewrite Hv in Hkey. injection Hkey as ->.
    apply lookup_lt_Some in Hdg. fold n in Hdg. lia.
  - unfold h3. rewrite length_insert. lia.
  - intros l d k l' Hl Hd Hin. rewrite Hold3 in Hd by exact Hl.
    destruct (lookup_lt_is_Some_2 h l Hl) as [d0 Hd0].
    destruct (D1 l d0 (Hold0 l d0 Hd0)) as [d1 [Hd1 [_ [_ Hno]]]].
    assert (d1 = d) as -> by congruence.
    apply Hno in Hin. split; [exact (Hcl l d0 k l' Hd0 Hin)|].
    intros [key Hkey]. destruct (Hgok key) as [g [dg [Hv [Hdg [Hit _]]]]].
    rewrite Hv in Hkey. injection Hkey as ->.
    assert (dg = d0) as -> by congruence.
    destruct (Hit k (VDict l') Hin) as [l2 [H2 Hng]]. now injection H2 as <-.
  - intros key. destruct (Hgok key) as [g [dg [Hv [Hdg [Hit Hnh]]]]].
    pose proof (lookup_lt_Some _ _ _ Hdg) as Hg. fold n in Hg.
    exists g, dg. split; [exact Hv|]. split; [exact Hg|].
    split; [now exists key|]. split; [|exact Hit].
    rewrite Hold3 by exact Hg. apply Fr1; [now apply Hold0|].
    intros i l d Hi Hd.
    destruct (services_ok_lookup _ _ _ Hsok i _ Hi) as [l0 [d0 [nm [H0 [Hd0 _]]]]].
    injection H0 as <-.
    assert (d = d0) as -> by (pose proof (Hold0 l d0 Hd0); congruence).
    exact (Hnh i l d0 Hi Hd0).
  - apply wp_bind. eapply wp_by_run; [exact Hrun4|]. exact I.
Qed.

End ConfigReturns.
Lemma version_eqb_eq (a b : ComposeVersion) : version_eqb a b = true -> a = b.
Proof.
  revert b. induction a as [|x a IH]; intros [|y b]; cbn [version_eqb];
    try discriminate; [reflexivity|].
  intros H. apply andb_true_iff in H. destruct H as [Hx Hab].
  apply Z.eqb_eq in Hx. subst y. now rewrite (IH b Hab).
Qed.

Section OldestVersion.

Variable serialize_restart_spec : heap -> value -> result value.
Variable legacy_repr : string -> list (string * value) -> result value.

(** C8. Oldest-version denormalization.  Let the services and the groups
    of a configuration be objects of a store whose references are all to
    objects of the store.

    Whenever [denormalize_config] returns, it returns a new object [dr]
    that has, under ["services"], an object [ds], and:
    - at the oldest version, the header [dr["version"]] is the string of
      [V2_1], which is not the string of the oldest version, and every
      service that lacks ["network_mode"] is found in [ds] under its name
      (unless a later service has the same name and replaces it) as a
      copy whose ["network_mode"] is ["bridge"];
    - at any other version, the header is the string of that version.

    And [denormalize_config] does return when no image digests are given
    and the configuration is one that [config_ok] describes: services
    that [denormalize_service_dict] handles, with names and with health
    checks of their own, and groups whose entries are objects. *)
Theorem denormalize_config_oldest_version
        (config : Config) (image_digests : value) (h : heap) :
  closed h -> services_in config h -> groups_closed config (length h) ->
  (forall (out : value) (h' : heap),
     denormalize_config serialize_restart_spec legacy_repr config image_digests h
       = Ok (out, h') ->
     exists (dr : dict) (s : loc) (ds : dict),
       out = VDict (length h) /\ h' !! length h = Some dr
       /\ dict_get dr "services" = Some (VDict s) /\ h' !! s = Some ds
       /\ if version_eqb (version config) V1
          then dict_get dr "version" = Some (VStr (version_str V2_1))
               /\ version_str V2_1 <> version_str (version config)
               /\ forall (i : nat) (l : loc) (d : dict) (nm : string),
                    services config !! i = Some (VDict l) -> h !! l = Some d ->
                    dict_get d "name" = Some (VStr nm) ->
                    last_named config h i nm ->
                    dict_has d "network_mode" = false ->
                    exists (c : loc) (dc : dict),
                      dict_get ds nm = Some (VDict c) /\ h' !! c = Some dc
                      /\ dict_get dc "network_mode" = Some (VStr "bridge")
          else dict_get dr "version" = Some (VStr (version_str (version config))))
  /\ (no_digests image_digests ->
      config_ok serialize_restart_spec legacy_repr config h ->
      exists (out : value) (h' : heap),
        denormalize_config serialize_restart_spec legacy_repr config
          image_digests h = Ok (out, h')).
Proof.
  intros Hcl Hsv Hg. split.
  - intros out h' Hrun.
    pose proof (wp_run True _ _ _ _ _
                  (denormalize_config_spec serialize_restart_spec legacy_repr
                     config image_digests h Hsv Hcl Hg) Hrun) as Hpost.
    destruct Hpost as [-> [dr [s [ds [Hdr [Hver [Hsvc [Hds Hmap]]]]]]]].
    exists dr, s, ds. split; [reflexivity|]. split; [exact Hdr|].
    split; [exact Hsvc|]. split; [exact Hds|].
    unfold header in Hver. unfold written_network_mode in Hmap.
    change V1 with COMPOSEFILE_V1.
    destruct (version_eqb (version config) COMPOSEFILE_V1) eqn:Hv; [|exact Hver].
    split; [exact Hver|]. split.
    + apply version_eqb_eq in Hv. rewrite Hv. discriminate.
    + intros i l d nm Hi Hl Hname Hlast Hnone.
      destruct (Hmap i l d nm Hi Hl Hname Hlast) as [c [dc [Hc [Hdc Hmode]]]].
      exists c, dc. split; [exact Hc|]. split; [exact Hdc|].
      rewrite Hmode, Hnone. reflexivity.
  - intros Hdig Hok.
    exact (denormalize_config_returns serialize_restart_spec legacy_repr
             config image_digests h Hcl Hdig Hok).
Qed.

End OldestVersion.

Lemma example_store_closed : closed example_store.
Proof.
  intros l d k l' Hl Hin.
  destruct l as [|[|[|[|[|l]]]]]; cbn in Hl; try discriminate; injection Hl as <-;
    cbn in Hin;
    repeat match goal with
           | H : _ \/ _ |- _ => destruct H
           | H : False |- _ => destruct H
           | H : (_, _) = (_, _) |- _ => injection H as ? ?; try discriminate; subst
           end;
    cbn; lia.
Qed.

Lemma example_config_groups : groups_closed example_config (length example_store).
Proof.
  intros key g. unfold getattr. cbn.
  destruct (String.eqb key "networks"); [intros H; injection H as <-; lia|].
  destruct (String.eqb key "volumes"); [intros H; injection H as <-; lia|].
  destruct (String.eqb key "secrets"); intros H; injection H as <-; lia.
Qed.

Lemma example_config_services : services_in example_config example_store.
Proof.
  repeat constructor. exists 0%nat. split; [reflexivity|]. eexists. reflexivity.
Qed.

Lemma example_not_group : ~ is_group example_config 2%nat.
Proof.
  intros [key H]. unfold getattr in H. cbn in H.
  destruct (String.eqb key "networks"); [discriminate|].
  destruct (String.eqb key "volumes"); [discriminate|].
  destruct (String.eqb key "secrets"); discriminate.
Qed.

Lemma example_config_ok :
  config_ok (fun _ _ => Ok (VStr "no")) (fun _ _ => Ok (VStr "80"))
            example_config example_store.
Proof.
  split.
  - split; [|exact I]. eexists 0%nat, _, "web".
    split; [reflexivity|]. split; [reflexivity|].
    split; [|split; [reflexivity|intros hc _; apply List.Forall_nil]].
    split; [intros r H; discriminate|].
    split; [intros v H; discriminate|].
    split; [|split; intros v H; discriminate].
    intros v H. injection H as <-. eexists 4%nat, _.
    split; [reflexivity|]. split; [reflexivity|].
    intros f x Hf Hx. cbn in Hf. destruct Hf as [<-|[<-|[<-|[]]]]; cbn in Hx;
      try discriminate.
    injection Hx as <-. eexists. reflexivity.
  - assert (Hempty : forall key, getattr example_config key = VDict 3%nat ->
        exists g dg, getattr example_config key = VDict g
          /\ example_store !! g = Some dg
          /\ (forall k x, In (k, x) dg ->
                exists l', x = VDict l' /\ ~ is_group example_config l')
          /\ (forall (i : nat) (l : loc) (d : dict),
                services example_config !! i = Some (VDict l) ->
                example_store !! l = Some d ->
                dict_get d "healthcheck" <> Some (VDict g))).
    { intros key Hkey. exists 3%nat, []. split; [exact Hkey|].
      split; [reflexivity|]. split; [intros k x []|].
      intros i l d Hi Hl. destruct i as [|i]; [|discriminate].
      injection Hi as <-. injection Hl as <-. discriminate. }
    intros key. destruct (String.eqb key "volumes") eqn:Hvol.
    + destruct (String.eqb key "networks") eqn:Hnet.
      { apply Hempty. unfold getattr. now rewrite Hnet. }
      eexists 1%nat, _. split; [unfold getattr; now rewrite Hnet, Hvol|].
      split; [reflexivity|]. split.
      * intros k x [H|[]]. injection H as _ <-. exists 2%nat.
        split; [reflexivity|exact example_not_group].
      * intros i l d Hi Hl. destruct i as [|i]; [|discriminate].
        injection Hi as <-. injection Hl as <-. discriminate.
    + apply Hempty. unfold getattr. rewrite Hvol.
      destruct (String.eqb key "networks"); [reflexivity|].
      destruct (String.eqb key "secrets"); reflexivity.
Qed.

Lemma denormalize_config_oldest_version_witness :
  exists (out : value) (h' : heap),
    denormalize_config (fun _ _ => Ok (VStr "no")) (fun _ _ => Ok (VStr "80"))
      example_config VNone example_store = Ok (out, h')
    /\ exists (dr : dict) (s : loc) (ds : dict),
         out = VDict (length example_store)
         /\ h' !! length example_store = Some dr
         /\ dict_get dr "services" = Some (VDict s) /\ h' !! s = Some ds
         /\ (dict_get dr "version" = Some (VStr "2.1")
             /\ "2.1" <> "1"
             /\ forall (i : nat) (l : loc) (d : dict) (nm : string),
                  services example_config !! i = Some (VDict l) ->
                  example_store !! l = Some d ->
                  dict_get d "name" = Some (VStr nm) ->
                  last_named example_config example_store i nm ->
                  dict_has d "network_mode" = false ->
                  exists (c : loc) (dc : dict),
                    dict_get ds nm = Some (VDict c) /\ h' !! c = Some dc
                    /\ dict_get dc "network_mode" = Some (VStr "bridge")).
Proof.
  destruct (denormalize_config_oldest_version
              (fun _ _ => Ok (VStr "no")) (fun _ _ => Ok (VStr "80"))
              example_config VNone example_store
              example_store_closed example_config_services example_config_groups)
    as [Hpost Hret].
  destruct (Hret (fun h => eq_refl) example_config_ok) as [out [h' Hrun]].
  exists out, h'. split; [exact Hrun|]. exact (Hpost out h' Hrun).
Defined.

(** * Further properties of the code *)

(** ** The duration formatter on every integer *)

Lemma promotion_chain_int (n : Z) :
  exists (k : nat) (v : Z),
    (k <= 5)%nat /\ n = v * chain_weight k
    /\ serialize_ns_time_value (VNum (PyInt n)) = format_pair (v, chain_unit k).
Proof.
  unfold serialize_ns_time_value, int_of_value, py_int, table.
  cbn [rbind promote].
  destruct (n mod 1000 =? 0) eqn:E1; [apply Z.eqb_eq in E1|].
  2:{ exists 0%nat, n. split; [lia|]. split; [cbn; lia|reflexivity]. }
  pose proof (mod0_exact n 1000 ltac:(lia) E1) as X1.
  destruct (n / 1000 mod 1000 =? 0) eqn:E2; [apply Z.eqb_eq in E2|].
  2:{ exists 1%nat, (n / 1000). split; [lia|]. split; [cbn; lia|reflexivity]. }
  pose proof (mod0_exact _ 1000 ltac:(lia) E2) as X2.
  destruct (n / 1000 / 1000 mod 1000 =? 0) eqn:E3; [apply Z.eqb_eq in E3|].
  2:{ exists 2%nat, (n / 1000 / 1000).
      split; [lia|]. split; [cbn; lia|reflexivity]. }
  pose proof (mod0_exact _ 1000 ltac:(lia) E3) as X3.
  destruct (n / 1000 / 1000 / 1000 mod 60 =? 0) eqn:E4; [apply Z.eqb_eq in E4|].
  2:{ exists 3%nat, (n / 1000 / 1000 / 1000).
      split; [lia|]. split; [cbn; lia|reflexivity]. }
  pose proof (mod0_exact _ 60 ltac:(lia) E4) as X4.
  destruct (n / 1000 / 1000 / 1000 / 60 mod 60 =? 0) eqn:E5;
    [apply Z.eqb_eq in E5|].
  2:{ exists 4%nat, (n / 1000 / 1000 / 1000 / 60).
      split; [lia|]. split; [cbn; lia|reflexivity]. }
  pose proof (mod0_exact _ 60 ltac:(lia) E5) as X5.
  exists 5%nat, (n / 1000 / 1000 / 1000 / 60 / 60).
  split; [lia|]. split; [cbn; lia|reflexivity].
Qed.

Lemma str_int_negative (v : Z) : v < 0 -> str_int v = String "-" (str_int (- v)).
Proof.
  intros Hv. unfold str_int.
  assert (H1 : (v <? 0) = true) by (apply Z.ltb_lt; lia).
  assert (H2 : (- v <? 0) = false) by (apply Z.ltb_ge; lia).
  now rewrite H1, H2.
Qed.

Lemma py_str_int_ok (v : Z) (s : string) :
  py_str_int v = Ok s ->
  s = str_int v
  /\ (String.length (str_nat (Z.abs v)) <= int_max_str_digits)%nat.
Proof.
  unfold py_str_int.
  destruct (String.length (str_nat (Z.abs v)) <=? int_max_str_digits)%nat
    eqn:Hfit; [|discriminate].
  intros H. injection H as <-. apply Nat.leb_le in Hfit. auto.
Qed.

Lemma format_pair_ok (v : Z) (u s : string) :
  format_pair (v, u) = Ok s ->
  s = str_int v ++ u
  /\ (String.length (str_nat (Z.abs v)) <= int_max_str_digits)%nat.
Proof.
  unfold format_pair. cbn [fst snd].
  destruct (py_str_int v) as [d|e] eqn:Hd; [|discriminate].
  apply py_str_int_ok in Hd. destruct Hd as [-> Hfit].
  intros H. injection H as <-. auto.
Qed.

(** [int(str(v)) == v], whenever [str(v)] is written. *)
Lemma py_int_of_str_str_int (v : Z) (s : string) :
  py_str_int v = Ok s -> py_int_of_str s = Ok v.
Proof.
  intros Hs. apply py_str_int_ok in Hs. destruct Hs as [-> Hfit].
  destruct (Z.lt_ge_cases v 0) as [Hneg|Hpos].
  - rewrite (str_int_negative v Hneg).
    pose proof (str_int_decimal (- v) ltac:(lia)) as Hdec.
    pose proof (str_int_nonempty (- v)) as Hne.
    pose proof (str_int_value (- v) ltac:(lia)) as Hval.
    rewrite Z.abs_neq in Hfit by lia.
    rewrite <- (str_int_nonneg (- v)) in Hfit by lia.
    unfold py_int_of_str. rewrite int_strip_no_space.
    2:{ cbn [str_all]. replace (is_space "-") with false by reflexivity.
        cbn. now apply decimal_no_space. }
    replace (Ascii.eqb "-" "-") with true by reflexivity.
    rewrite digits_underscore_decimal by auto.
    rewrite (count_decimal_all _ Hdec).
    apply Nat.leb_le in Hfit. rewrite Hfit.
    rewrite Hval. f_equal. lia.
  - rewrite Z.abs_eq in Hfit by lia.
    rewrite <- (str_int_nonneg v) in Hfit by lia.
    rewrite py_int_of_str_decimal;
      [|apply str_int_nonempty|now apply str_int_decimal].
    apply Nat.leb_le in Hfit. rewrite Hfit.
    now rewrite str_int_value.
Qed.

(** A text made of a run of characters of one kind and a tail that starts
    with a character of another kind is split in one way only. *)
Lemma span_unique (P : ascii -> bool) (a : string) :
  forall (a' u u' : string),
    str_all P a = true -> str_all P a' = true ->
    match u with String c _ => P c = false | EmptyString => True end ->
    match u' with String c _ => P c = false | EmptyString => True end ->
    a ++ u = a' ++ u' -> a = a' /\ u = u'.
Proof.
  induction a as [|c a IH]; intros a' u u' Ha Ha' Hu Hu' Heq.
  - destruct a' as [|c' a']; [auto|].
    cbn in Heq. subst u. cbn in Ha'. apply andb_true_iff in Ha'.
    destruct Ha' as [Hc' _]. congruence.
  - destruct a' as [|c' a'].
    + cbn in Heq. subst u'. cbn in Ha. apply andb_true_iff in Ha.
      destruct Ha as [Hc _]. congruence.
    + cbn in Heq. injection Heq as <- Heq.
      cbn in Ha, Ha'. apply andb_true_iff in Ha. apply andb_true_iff in Ha'.
      destruct (IH a' u u' (proj2 Ha) (proj2 Ha') Hu Hu' Heq) as [-> ->]. auto.
Qed.

Lemma str_int_signed (v : Z) :
  str_all (fun c => is_decimal c || Ascii.eqb c "-") (str_int v) = true.
Proof.
  assert (Hd : forall s, str_all is_decimal s = true ->
               str_all (fun c => is_decimal c || Ascii.eqb c "-") s = true).
  { induction s as [|c s IH]; [reflexivity|]. cbn. intros H.
    apply andb_true_iff in H. destruct H as [Hc Hs]. rewrite Hc. cbn. auto. }
  destruct (Z.lt_ge_cases v 0) as [Hneg|Hpos].
  - rewrite (str_int_negative v Hneg). cbn [str_all].
    replace (Ascii.eqb "-" "-") with true by reflexivity.
    rewrite orb_true_r. cbn. apply Hd. apply str_int_decimal. lia.
  - apply Hd. now apply str_int_decimal.
Qed.

Lemma chain_unit_letter (k : nat) :
  match chain_unit k with
  | String c _ => (is_decimal c || Ascii.eqb c "-") = false
  | EmptyString => True
  end.
Proof.
  destruct k as [|[|[|[|[|[|k]]]]]]; try reflexivity.
  unfold chain_unit, chain_units. cbn [nth]. destruct k; reflexivity.
Qed.

Lemma chain_unit_inj (k k' : nat) :
  (k <= 5)%nat -> (k' <= 5)%nat -> chain_unit k = chain_unit k' -> k = k'.
Proof.
  intros Hk Hk'.
  destruct k as [|[|[|[|[|[|k]]]]]]; try lia;
    destruct k' as [|[|[|[|[|[|k']]]]]]; try lia;
    cbn; intros H; try reflexivity; discriminate.
Qed.

(** X1. The formatter loses nothing: two integer counts of nanoseconds, of
    either sign, that are printed as the same text are the same count. *)
Theorem serialize_ns_lossless (n1 n2 : Z) (s : string) :
  serialize_ns_time_value (VNum (PyInt n1)) = Ok s ->
  serialize_ns_time_value (VNum (PyInt n2)) = Ok s ->
  n1 = n2.
Proof.
  destruct (promotion_chain_int n1) as [k1 [v1 [Hk1 [-> ->]]]].
  destruct (promotion_chain_int n2) as [k2 [v2 [Hk2 [-> ->]]]].
  intros H1 H2.
  unfold format_pair in H1, H2. cbn [fst snd] in H1, H2.
  destruct (py_str_int v1) as [d1|e1] eqn:Hd1; [|discriminate].
  destruct (py_str_int v2) as [d2|e2] eqn:Hd2; [|discriminate].
  cbn [rbind] in H1, H2. injection H1 as <-. injection H2 as H.
  pose proof (py_str_int_ok v1 d1 Hd1) as [E1 _].
  pose proof (py_str_int_ok v2 d2 Hd2) as [E2 _].
  apply (span_unique (fun c => is_decimal c || Ascii.eqb c "-")) in H;
    [|rewrite E2; apply str_int_signed|rewrite E1; apply str_int_signed
     |apply chain_unit_letter|apply chain_unit_letter].
  destruct H as [Hv Hu].
  apply chain_unit_inj in Hu; [|exact Hk2|exact Hk1]. subst k2.
  assert (Ok v1 = Ok v2) as Hv12
    by (rewrite <- (py_int_of_str_str_int v1 d1 Hd1),
                <- (py_int_of_str_str_int v2 d2 Hd2); now rewrite Hv).
  injection Hv12 as ->. reflexivity.
Qed.

Lemma serialize_ns_lossless_witness : 90 * 10 ^ 9 = 90000000000.
Proof.
  apply (serialize_ns_lossless (90 * 10 ^ 9) 90000000000 "90s"); reflexivity.
Defined.

Lemma digits_underscore_stop (ds : string) (c : ascii) (t : string) :
  forall (b : bool) (acc : Z),
    str_all is_decimal ds = true -> is_decimal c = false ->
    Ascii.eqb c "_" = false ->
    digits_underscore (ds ++ String c t) b acc = None.
Proof.
  induction ds as [|d ds IH]; intros b acc Hds Hc Hu.
  - cbn. now rewrite Hc, Hu.
  - cbn in Hds. apply andb_true_iff in Hds. destruct Hds as [Hd Hds].
    cbn. rewrite Hd. now apply IH.
Qed.

Lemma strip_no_space (s : string) :
  str_all (fun c => negb (is_space c)) s = true -> strip s = s.
Proof.
  intros H. unfold strip.
  assert (Hl : lstrip s = s).
  { destruct s as [|c s]; [reflexivity|]. cbn in H.
    apply andb_true_iff in H. destruct H as [Hc _].
    apply negb_true_iff in Hc. cbn. now rewrite Hc. }
  rewrite Hl. now apply rstrip_no_space.
Qed.

Lemma decimal_not_sign (c : ascii) :
  is_decimal c = true -> Ascii.eqb c "-" = false /\ Ascii.eqb c "+" = false.
Proof.
  intros H.
  split; apply Ascii.eqb_neq; intros ->; vm_compute in H; discriminate.
Qed.

Lemma chain_unit_stops (k : nat) :
  exists c t, chain_unit k = String c t /\ is_decimal c = false
              /\ Ascii.eqb c "_" = false
              /\ str_all (fun c => negb (is_space c)) (chain_unit k) = true.
Proof.
  destruct k as [|[|[|[|[|[|k]]]]]]; try (do 2 eexists; repeat split; reflexivity).
  unfold chain_unit, chain_units. cbn [nth].
  destruct k; do 2 eexists; repeat split; reflexivity.
Qed.

Lemma py_int_of_str_formatted (v : Z) (k : nat) :
  py_int_of_str (str_int v ++ chain_unit k) = Raise ValueError.
Proof.
  destruct (chain_unit_stops k) as [c [t [Hu [Hc [Hus Hsp]]]]].
  assert (Hnosp : forall ds, str_all is_decimal ds = true ->
            str_all (fun c => negb (is_space c)) (ds ++ chain_unit k) = true).
  { intros ds Hds. rewrite str_all_app, Hsp, (decimal_no_space ds Hds).
    reflexivity. }
  destruct (Z.lt_ge_cases v 0) as [Hneg|Hpos].
  - rewrite (str_int_negative v Hneg).
    pose proof (str_int_decimal (- v) ltac:(lia)) as Hdec.
    unfold py_int_of_str. rewrite int_strip_no_space.
    2:{ cbn [append str_all]. replace (is_space "-") with false by reflexivity.
        cbn [negb andb]. now apply Hnosp. }
    cbn [append]. replace (Ascii.eqb "-" "-") with true by reflexivity.
    rewrite Hu, digits_underscore_stop by assumption. reflexivity.
  - pose proof (str_int_decimal v Hpos) as Hdec.
    pose proof (str_int_nonempty v) as Hne.
    unfold py_int_of_str. rewrite int_strip_no_space by now apply Hnosp.
    destruct (str_int v) as [|d ds] eqn:Hs; [congruence|].
    cbn [append]. cbn in Hdec. apply andb_true_iff in Hdec.
    destruct (decimal_not_sign d (proj1 Hdec)) as [-> ->].
    change (String d (ds ++ chain_unit k)) with (String d ds ++ chain_unit k).
    rewrite Hu, digits_underscore_stop; [reflexivity| |assumption|assumption].
    cbn. now rewrite (proj1 Hdec), (proj2 Hdec).
Qed.

(** X2. The formatter does not accept what it prints: the text printed for
    an integer count, given back as the value to format, raises
    [ValueError], since [int] does not read a number with a unit. *)
Theorem serialize_ns_not_repeatable (n : Z) (s : string) :
  serialize_ns_time_value (VNum (PyInt n)) = Ok s ->
  serialize_ns_time_value (VStr s) = Raise ValueError.
Proof.
  destruct (promotion_chain_int n) as [k [v [Hk [_ ->]]]].
  intros H. apply format_pair_ok in H. destruct H as [-> _].
  unfold serialize_ns_time_value, int_of_value.
  now rewrite py_int_of_str_formatted.
Qed.

Lemma serialize_ns_not_repeatable_witness :
  serialize_ns_time_value (VStr "1s") = Raise ValueError.
Proof.
  apply (serialize_ns_not_repeatable (10 ^ 9) "1s"). reflexivity.
Defined.

(** ** The matcher finds a match when there is one *)

Section Completeness.

Context {R : Type}.

Lemma star_complete (cl : cclass) (s rest : string) (k : string -> option R) :
  str_all (cmatch true cl) s = true -> k rest <> None ->
  star true cl (s ++ rest) k <> None.
Proof.
  intros Hs Hk. induction s as [|c s IH].
  - cbn [append]. destruct rest as [|c r]; [exact Hk|].
    cbn [star]. destruct (cmatch true cl c); [|exact Hk].
    destruct (star true cl r k); [discriminate|exact Hk].
  - cbn in Hs. apply andb_true_iff in Hs. destruct Hs as [Hc Hs].
    cbn [append star]. rewrite Hc.
    specialize (IH Hs). destruct (star true cl (s ++ rest) k);
      [discriminate|congruence].
Qed.

Lemma rmatch_complete (r : regex) (s rest : string) (g g' : groups) :
  matches r s rest g g' ->
  forall k : string -> groups -> option R,
    k rest g' <> None -> rmatch true r (s ++ rest) g k <> None.
Proof.
  induction 1 as [cl a rest g Hc|cl s rest g Hs|cl s rest g Hne Hs
                 |r s rest g g' Hm IH|r rest g
                 |r1 r2 s1 s2 rest g g1 g2 Hm1 IH1 Hm2 IH2
                 |r1 r2 s rest g g' Hm IH|r1 r2 s rest g g' Hm IH
                 |name r s rest g g' Hm IH|rest g Hrest]; intros k Hk.
  - cbn [append rmatch]. now rewrite Hc.
  - cbn [rmatch]. now apply star_complete.
  - destruct s as [|a s]; [congruence|]. cbn in Hs.
    apply andb_true_iff in Hs. destruct Hs as [Ha Hs].
    cbn [append rmatch]. rewrite Ha. now apply star_complete.
  - cbn [rmatch]. specialize (IH k Hk).
    destruct (rmatch true r (s ++ rest) g k); [discriminate|congruence].
  - cbn [append rmatch].
    destruct (rmatch true r rest g k); [discriminate|exact Hk].
  - cbn [rmatch]. rewrite str_app_assoc. apply IH1. now apply IH2.
  - cbn [rmatch]. specialize (IH k Hk).
    destruct (rmatch true r1 (s ++ rest) g k); [discriminate|congruence].
  - cbn [rmatch]. specialize (IH k Hk).
    destruct (rmatch true r1 (s ++ rest) g k); [discriminate|exact IH].
  - cbn [rmatch]. apply IH. now rewrite consumed_app.
  - cbn [append rmatch]. destruct Hrest as [->| ->]; [exact Hk|].
    replace (Ascii.eqb (chr 10) (chr 10)) with true by reflexivity. exact Hk.
Qed.

End Completeness.

Lemma re_match_complete (r : regex) (s : string) (g : groups) :
  matches r s "" [] g -> exists m, re_match r s true = Some m.
Proof.
  intros Hm. pose proof (rmatch_complete r s "" [] g Hm
    (fun s' g' => Some {| group0 := consumed s s'; named := g' |})
    ltac:(discriminate)) as H.
  rewrite str_app_nil_r in H. fold (re_match r s true) in H.
  destruct (re_match r s true) as [m|]; [eauto|congruence].
Qed.

(** ** The numbers and the units of the duration pattern *)

Lemma cmatch_dot_eq (a : ascii) : cmatch true (CLit ".") a = true -> a = "."%char.
Proof.
  unfold cmatch. intros H. apply Ascii.eqb_eq in H.
  destruct (ascii_dec a ".") as [->|Hne]; [reflexivity|].
  exfalso. revert H Hne.
  destruct a as [[] [] [] [] [] [] [] []]; vm_compute; congruence.
Qed.

Lemma decimal_not_dot (c : ascii) : is_decimal c = true -> Ascii.eqb c "." = false.
Proof.
  intros H. apply Ascii.eqb_neq. intros ->. vm_compute in H. discriminate.
Qed.

Lemma split_dot_decimal (s : string) :
  str_all is_decimal s = true -> split_dot s = None.
Proof.
  induction s as [|c s IH]; [reflexivity|]. cbn. intros H.
  apply andb_true_iff in H. destruct H as [Hc Hs].
  now rewrite (decimal_not_dot c Hc), (IH Hs).
Qed.

Lemma split_dot_point (i fr : string) :
  str_all is_decimal i = true ->
  split_dot (i ++ String "." fr) = Some (i, fr).
Proof.
  induction i as [|c i IH]; [reflexivity|]. cbn. intros H.
  apply andb_true_iff in H. destruct H as [Hc Hs].
  now rewrite (decimal_not_dot c Hc), (IH Hs).
Qed.

Lemma split_dot_inv (s : string) :
  forall i fr, split_dot s = Some (i, fr) -> s = i ++ String "." fr.
Proof.
  induction s as [|c s IH]; intros i fr H; [discriminate|]. cbn in H.
  destruct (Ascii.eqb c ".") eqn:Hc.
  - apply Ascii.eqb_eq in Hc. subst c. now injection H as <- <-.
  - destruct (split_dot s) as [[i0 f0]|]; [|discriminate].
    injection H as <- <-. cbn. now rewrite (IH i0 f0 eq_refl).
Qed.

Lemma str_eqb_empty (s : string) : negb (String.eqb s "") = true <-> s <> "".
Proof.
  destruct s; cbn; split; intros H; congruence.
Qed.

Lemma app_nonempty_l (s t : string) : s <> "" -> s ++ t <> "".
Proof. destruct s; [congruence|discriminate]. Qed.

Lemma app_nonempty_r (s t : string) : t <> "" -> s ++ t <> "".
Proof. destruct s; [auto|discriminate]. Qed.

(** The numbers that [FLOAT_NUMBER] reads are the texts of numbers. *)
Lemma matches_number_text (f rest : string) (g g' : groups) :
  matches FLOAT_NUMBER f rest g g' -> number_text f = true.
Proof.
  intros H. unfold FLOAT_NUMBER in H.
  apply matches_alt_inv in H. destruct H as [H|H].
  - apply matches_seq_inv in H. destruct H as [s1 [s2 [g1 [-> [Ha Hb]]]]].
    apply matches_plus_inv in Ha. destruct Ha as [Hne [Hs1 _]].
    apply matches_seq_inv in Hb. destruct Hb as [s3 [s4 [g2 [-> [Hc Hd]]]]].
    apply matches_star_inv in Hd. destruct Hd as [Hs4 _].
    change (str_all is_decimal s1 = true) in Hs1.
    change (str_all is_decimal s4 = true) in Hs4.
    apply matches_opt_inv in Hc. destruct Hc as [Hc|[-> _]].
    + apply matches_chr_inv in Hc. destruct Hc as [a [-> [Ha _]]].
      apply cmatch_dot_eq in Ha. subst a. cbn [append].
      unfold number_text. rewrite split_dot_point by exact Hs1.
      rewrite Hs1, Hs4. cbn [andb]. apply str_eqb_empty.
      now apply app_nonempty_l.
    + cbn [append]. unfold number_text.
      assert (Hall : str_all is_decimal (s1 ++ s4) = true)
        by now rewrite str_all_app, Hs1, Hs4.
      rewrite split_dot_decimal, Hall by exact Hall. cbn [andb].
      apply str_eqb_empty. now apply app_nonempty_l.
  - apply matches_seq_inv in H. destruct H as [s1 [s2 [g1 [-> [Ha Hb]]]]].
    apply matches_chr_inv in Ha. destruct Ha as [a [-> [Ha _]]].
    apply cmatch_dot_eq in Ha. subst a.
    apply matches_plus_inv in Hb. destruct Hb as [Hne [Hs2 _]].
    change (str_all is_decimal s2 = true) in Hs2.
    unfold number_text. cbn [append split_dot].
    replace (Ascii.eqb "." ".") with true by reflexivity.
    cbn [str_all append andb]. rewrite Hs2. cbn [andb].
    now apply str_eqb_empty.
Qed.

Lemma number_text_matches (f rest : string) (g : groups) :
  number_text f = true -> matches FLOAT_NUMBER f rest g g.
Proof.
  unfold number_text, FLOAT_NUMBER. intros H.
  destruct (split_dot f) as [[i fr]|] eqn:Hsp.
  - apply split_dot_inv in Hsp. subst f.
    apply andb_true_iff in H. destruct H as [H Hne].
    apply andb_true_iff in H. destruct H as [Hi Hfr].
    apply str_eqb_empty in Hne.
    destruct i as [|c i].
    + apply M_alt_r. cbn [append].
      eapply (M_seq _ _ (String "." "") fr).
      * constructor. reflexivity.
      * constructor; [|exact Hfr]. intros ->. now apply Hne.
    + apply M_alt_l.
      eapply (M_seq _ _ (String c i) (String "." fr)).
      * constructor; [discriminate|exact Hi].
      * eapply (M_seq _ _ (String "." "") fr).
        -- apply M_opt_some. constructor. reflexivity.
        -- constructor. exact Hfr.
  - apply andb_true_iff in H. destruct H as [Hf Hne].
    apply str_eqb_empty in Hne.
    apply M_alt_l. rewrite <- (str_app_nil_r f).
    eapply (M_seq _ _ f "").
    + constructor; [exact Hne|exact Hf].
    + eapply (M_seq _ _ "" "").
      * apply M_opt_none.
      * constructor. reflexivity.
Qed.

Lemma number_text_numchars (f : string) :
  number_text f = true -> f <> "" /\ str_all is_numchar f = true.
Proof.
  intros H. eapply (matches_number f "" [] []).
  now apply number_text_matches.
Qed.

(** A literal of the pattern matches its spellings in either case. *)
Lemma lit_matches (t : string) :
  forall (a : ascii) (u rest : string) (g : groups),
    lower u = lower (String a t) -> matches (lit (String a t)) u rest g g.
Proof.
  induction t as [|b t IH]; intros a u rest g H.
  - destruct u as [|c [|c' u]]; try discriminate.
    cbn in H. injection H as H. cbn [lit]. constructor.
    unfold cmatch. now apply Ascii.eqb_eq.
  - destruct u as [|c u]; [discriminate|].
    cbn [lower] in H. injection H as Hc Hu.
    change (lit (String a (String b t)))
      with (Seq (Chr (CLit a)) (lit (String b t))).
    eapply (M_seq _ _ (String c "") u).
    + constructor. unfold cmatch. now apply Ascii.eqb_eq.
    + apply IH. exact Hu.
Qed.

Lemma unit_rank_matches (u : string) (i : nat) :
  unit_rank (lower u) = Some i ->
  exists c, nth_error unit_table i = Some c
            /\ forall rest g, matches (snd c) u rest g g.
Proof.
  unfold unit_rank.
  destruct (String.eqb (lower u) "h") eqn:E0.
  { intros H. injection H as <-. apply String.eqb_eq in E0.
    eexists. split; [reflexivity|]. intros rest g. now apply lit_matches. }
  destruct (String.eqb (lower u) "m") eqn:E1.
  { intros H. injection H as <-. apply String.eqb_eq in E1.
    eexists. split; [reflexivity|]. intros rest g. now apply lit_matches. }
  destruct (String.eqb (lower u) "s") eqn:E2.
  { intros H. injection H as <-. apply String.eqb_eq in E2.
    eexists. split; [reflexivity|]. intros rest g. now apply lit_matches. }
  destruct (String.eqb (lower u) "ms") eqn:E3.
  { intros H. injection H as <-. apply String.eqb_eq in E3.
    eexists. split; [reflexivity|]. intros rest g. now apply lit_matches. }
  destruct (String.eqb (lower u) "us") eqn:E4.
  { intros H. injection H as <-. apply String.eqb_eq in E4.
    eexists. split; [reflexivity|]. intros rest g.
    apply M_alt_l. now apply lit_matches. }
  destruct (String.eqb (lower u) (String micro_sign "s")) eqn:E5.
  { intros H. injection H as <-. apply String.eqb_eq in E5.
    eexists. split; [reflexivity|]. intros rest g.
    apply M_alt_r. now apply lit_matches. }
  destruct (String.eqb (lower u) "ns") eqn:E6; [|discriminate].
  intros H. injection H as <-. apply String.eqb_eq in E6.
  eexists. split; [reflexivity|]. intros rest g. now apply lit_matches.
Qed.

(** ** What the groups of a match hold *)

Lemma matches_groups (P : string -> Prop) (r : regex) (s rest : string)
      (g g' : groups) :
  matches r s rest g g' ->
  Forall (fun r1 => forall v rest1 g1 g2, matches r1 v rest1 g1 g2 -> P v)
         (group_bodies r) ->
  Forall (fun nv => P (snd nv)) g -> Forall (fun nv => P (snd nv)) g'.
Proof.
  induction 1 as [cl a rest g Hc|cl s rest g Hs|cl s rest g Hne Hs
                 |r s rest g g' Hm IH|r rest g
                 |r1 r2 s1 s2 rest g g1 g2 Hm1 IH1 Hm2 IH2
                 |r1 r2 s rest g g' Hm IH|r1 r2 s rest g g' Hm IH
                 |name r s rest g g' Hm IH|rest g Hrest];
    cbn [group_bodies]; intros Hb Hg; auto.
  - apply List.Forall_app in Hb. destruct Hb as [Hb1 Hb2]. auto.
  - apply List.Forall_app in Hb. destruct Hb as [Hb1 Hb2]. auto.
  - apply List.Forall_app in Hb. destruct Hb as [Hb1 Hb2]. auto.
  - apply List.Forall_cons_iff in Hb. destruct Hb as [Hr Hb].
    apply List.Forall_cons; [|now apply IH].
    cbn [snd]. eapply Hr. exact Hm.
Qed.

Lemma lookup_group_some (n v : string) (g : groups) :
  lookup_group n g = Some v -> In (n, v) g.
Proof.
  induction g as [|[n' v'] g IH]; [discriminate|]. cbn.
  destruct (String.eqb n' n) eqn:E.
  - apply String.eqb_eq in E. subst n'. intros H. injection H as ->. now left.
  - intros H. right. now apply IH.
Qed.

(** Every number that a match of the duration pattern captures is the
    text of a number. *)
Lemma pattern_numbers (s rest : string) (g : groups) :
  matches pattern s rest [] g ->
  Forall (fun nv => number_text (snd nv) = true) g.
Proof.
  intros Hm.
  apply (matches_groups (fun v => number_text v = true) _ _ _ _ _ Hm);
    [|constructor].
  cbn. repeat constructor;
    intros v rest1 g1 g2 H; exact (matches_number_text _ _ _ _ H).
Qed.

Lemma captures_in (cs : list (string * regex)) :
  forall (ps : list part) (g : groups) (c : string * regex) (f u : string),
    In (c, Some (f, u)) (combine cs ps) -> In (fst c, f) (captures cs ps g).
Proof.
  induction cs as [|c0 cs IH]; intros ps g c f u Hin; [contradiction|].
  destruct ps as [|p ps]; [contradiction|].
  destruct Hin as [Heq|Hin].
  - injection Heq as -> ->. cbn [captures]. apply captures_keep. now left.
  - destruct p as [[f0 u0]|]; cbn [captures]; eapply IH; eassumption.
Qed.

Lemma parts_valid_intro (ps : list part) :
  forall i, ranked i ps ->
            (forall f u, In (Some (f, u)) ps -> number_text f = true) ->
            parts_valid i ps = true.
Proof.
  induction ps as [|p ps IH]; intros i Hr Hn; [reflexivity|].
  destruct Hr as [Hu Hr]. cbn [parts_valid].
  rewrite (IH (S i) Hr) by (intros f u Hin; apply (Hn f u); now right).
  rewrite andb_true_r. destruct p as [[f u]|]; [|reflexivity].
  cbn [part_valid]. rewrite (Hn f u) by now left.
  rewrite Hu. cbn. apply Nat.eqb_refl.
Qed.

Lemma parts_valid_ranked (ps : list part) :
  forall i, parts_valid i ps = true ->
            ranked i ps
            /\ forall f u, In (Some (f, u)) ps -> number_text f = true.
Proof.
  induction ps as [|p ps IH]; intros i H; [split; [exact I|contradiction]|].
  cbn [parts_valid] in H. apply andb_true_iff in H. destruct H as [Hp Hps].
  destruct (IH (S i) Hps) as [Hr Hn]. split.
  - split; [|exact Hr]. destruct p as [[f u]|]; [|exact I].
    cbn [part_valid] in Hp. apply andb_true_iff in Hp. destruct Hp as [_ Hu].
    destruct (unit_rank (lower u)) as [r|]; [|discriminate].
    apply Nat.eqb_eq in Hu. now subst r.
  - intros f u [Heq|Hin]; [|now apply (Hn f u)].
    subst p. cbn [part_valid] in Hp. apply andb_true_iff in Hp. apply Hp.
Qed.

(** What a match of the duration pattern has read. *)
Lemma pattern_reads (s : string) (m : match_object) :
  re_match pattern s true = Some m ->
  exists ws1 ps ws2,
    s = ws1 ++ render_parts ps ++ ws2
    /\ str_all is_space ws1 = true /\ str_all is_space ws2 = true
    /\ Forall2 part_ok unit_table ps
    /\ parts_valid 0 ps = true
    /\ named m = captures unit_table ps []
    /\ (strip (group0 m) = "" <-> render_parts ps = "").
Proof.
  intros Hm. destruct (re_match_sound _ _ _ Hm) as [rest [Hs Hmatch]].
  pose proof (pattern_numbers _ _ _ Hmatch) as Hnum.
  destruct (pattern_shape _ _ _ Hmatch)
    as [ws1 [ps [ws2 [Hg0 [Hw1 [Hw2 [Hps [Hcap Hrest]]]]]]]].
  exists ws1, ps, (ws2 ++ rest). split.
  { rewrite Hs, Hg0. now rewrite !str_app_assoc. }
  split; [exact Hw1|]. split.
  { rewrite str_all_app, Hw2. destruct Hrest as [->| ->]; reflexivity. }
  split; [exact Hps|]. split.
  { apply parts_valid_intro; [now apply unit_table_ranked|].
    intros f u Hin.
    destruct (forall2_combine _ _ _ _ Hps Hin) as [c [Hc _]].
    rewrite Hcap in Hnum. rewrite List.Forall_forall in Hnum.
    exact (Hnum _ (captures_in _ _ [] _ _ _ Hc)). }
  split; [exact Hcap|].
  rewrite Hg0. split.
  - intros Hstrip. destruct (render_parts ps) as [|c t] eqn:Hr; [reflexivity|].
    exfalso.
    assert (Htok : Forall part_token ps)
      by (eapply ranked_tokens; [exact Hps|now apply unit_table_ranked]).
    assert (Hc : is_space c = false).
    { clear - Hr Htok. induction Htok as [|p ps Hp _ IH]; [discriminate|].
      destruct p as [[f u]|]; [|exact (IH Hr)].
      destruct Hp as [Hne [Hf _]]. destruct f as [|a f]; [congruence|].
      cbn in Hr. injection Hr as -> _. cbn in Hf.
      apply andb_true_iff in Hf. destruct Hf as [Ha _].
      unfold is_numchar in Ha. apply orb_true_iff in Ha.
      destruct Ha as [Ha|Ha]; [now apply decimal_not_space|].
      apply Ascii.eqb_eq in Ha. now rewrite Ha. }
    revert Hstrip. clear - Hw1 Hc. unfold strip.
    induction ws1 as [|a ws1 IH]; cbn [append].
    + intros H. revert H. apply strip_starts_nonspace. exact Hc.
    + cbn in Hw1. apply andb_true_iff in Hw1. destruct Hw1 as [Ha Hw1].
      cbn [lstrip]. rewrite Ha. now apply IH.
  - intros ->. cbn [append]. apply strip_all_space.
    now rewrite str_all_app, Hw1, Hw2.
Qed.

(** X3. Whatever [timeparse] does not answer with [None] is a duration:
    whitespace, then components for h, m, s, ms, us and ns in this
    order, one at least and each at most once, every one a number
    immediately followed by its unit, then whitespace, and nothing else;
    so no sign, no exponent, no separator and no space inside. *)
Theorem timeparse_reads_durations_only (s : string) :
  timeparse s <> Ok None ->
  exists (ws1 : string) (ps : list part) (ws2 : string),
    s = ws1 ++ render_parts ps ++ ws2
    /\ str_all is_space ws1 = true /\ str_all is_space ws2 = true
    /\ duration_parts ps = true.
Proof.
  unfold timeparse. intros H.
  destruct (re_match pattern s true) as [m|] eqn:Hm; [|congruence].
  destruct (pattern_reads s m Hm)
    as [ws1 [ps [ws2 [Hs [Hw1 [Hw2 [Hps [Hval [_ Hstrip]]]]]]]]].
  exists ws1, ps, ws2. split; [exact Hs|]. split; [exact Hw1|].
  split; [exact Hw2|]. unfold duration_parts.
  rewrite Hval, andb_true_r.
  apply andb_true_iff. split.
  - apply Forall2_length in Hps. rewrite <- Hps. reflexivity.
  - apply str_eqb_empty. intros Hr. apply Hstrip in Hr.
    rewrite Hr in H. cbn in H. congruence.
Qed.

Lemma timeparse_reads_durations_only_witness :
  exists (ws1 : string) (ps : list part) (ws2 : string),
    " 1h30m" = ws1 ++ render_parts ps ++ ws2
    /\ str_all is_space ws1 = true /\ str_all is_space ws2 = true
    /\ duration_parts ps = true.
Proof.
  apply (timeparse_reads_durations_only " 1h30m"). vm_compute. discriminate.
Defined.

(** ** The sum that [timeparse] returns *)

Lemma shr_1_nonneg (mrs : shr_record) :
  0 <= shr_m mrs -> 0 <= shr_m (shr_1 mrs).
Proof.
  destruct mrs as [m r s]. cbn [shr_m]. intros Hm.
  destruct m as [|[p|p|]|p]; cbn; lia.
Qed.

Lemma iter_shr_1_nonneg (p : positive) :
  forall mrs, 0 <= shr_m mrs -> 0 <= shr_m (@SpecFloat.iter_pos _ shr_1 p mrs).
Proof.
  induction p as [p IH|p IH|]; intros mrs Hm; cbn [SpecFloat.iter_pos].
  - apply IH, IH. now apply shr_1_nonneg.
  - now apply IH, IH.
  - now apply shr_1_nonneg.
Qed.

Lemma shr_fexp_nonneg (m e : Z) (l : location) :
  0 <= m -> 0 <= shr_m (fst (shr_fexp prec emax m e l)).
Proof.
  intros Hm. unfold shr_fexp, shr.
  assert (H0 : 0 <= shr_m (shr_record_of_loc m l))
    by (destruct l as [|[| |]]; exact Hm).
  destruct (fexp prec emax (Zdigits2 m + e) - e) as [|p|p]; cbn [fst];
    [exact H0| |exact H0].
  now apply iter_shr_1_nonneg.
Qed.

Lemma round_nearest_even_nonneg (m : Z) (l : location) :
  0 <= m -> 0 <= round_nearest_even m l.
Proof.
  intros Hm. unfold round_nearest_even.
  destruct l as [|[| |]]; try lia. destruct (Z.even m); lia.
Qed.

Lemma round_aux_value (m e : Z) (l : location) :
  0 <= m -> duration_value (PyFloat (binary_round_aux prec emax false m e l)).
Proof.
  intros Hm. split; [apply round_aux_nonneg|].
  unfold binary_round_aux.
  pose proof (shr_fexp_nonneg m e l Hm) as H1.
  destruct (shr_fexp prec emax m e l) as [mrs' e']. cbn [fst] in H1.
  pose proof (shr_fexp_nonneg _ e' loc_Exact
                (round_nearest_even_nonneg _ (loc_of_shr_record mrs') H1)) as H2.
  destruct (shr_fexp prec emax _ e' loc_Exact) as [mrs'' e'']. cbn [fst] in H2.
  destruct (shr_m mrs''); [discriminate| |lia].
  destruct (e'' <=? emax - prec); discriminate.
Qed.

Lemma normalize_value (p : positive) (e : Z) :
  duration_value (PyFloat (binary_normalize prec emax (Z.pos p) e false)).
Proof.
  unfold binary_normalize, binary_round.
  destruct (shl_align p e _) as [mz ez]. apply round_aux_value. lia.
Qed.

Lemma div_core_nonneg (m1 m2 : Z) :
  0 <= m1 -> 0 < m2 ->
  0 <= fst (fst (SFdiv_core_binary prec emax m1 0 m2 0)).
Proof.
  intros H1 H2. unfold SFdiv_core_binary.
  set (s := 0 - 0 - _).
  set (m' := match s with
             | 0 => m1
             | Z.pos _ => Z.shiftl m1 s
             | Z.neg _ => 0
             end).
  assert (Hm' : 0 <= m').
  { unfold m'. destruct s; [exact H1| |lia]. now apply Z.shiftl_nonneg. }
  pose proof (Z.div_pos m' m2 Hm' H2) as Hq. unfold Z.div in Hq.
  destruct (Z.div_eucl m' m2) as [q r]. exact Hq.
Qed.

Lemma float_of_Z_value (z : Z) : 0 <= z -> duration_value (PyFloat (float_of_Z z)).
Proof.
  intros Hz. unfold float_of_Z. destruct z as [|p|p]; [| |lia].
  - split; [exact I|discriminate].
  - apply normalize_value.
Qed.

Lemma mul_value (m : positive) (e : Z) (y : spec_float) :
  duration_value (PyFloat y) ->
  duration_value (PyFloat (SFmul prec emax (S754_finite false m e) y)).
Proof.
  intros [Hy Hn]. split; [now apply mul_nonneg|].
  destruct y as [s|s| |s my ey]; try destruct s; cbn in *;
    try contradiction; try congruence; try discriminate.
  apply round_aux_value. lia.
Qed.

Lemma add_value (x y : spec_float) :
  duration_value (PyFloat x) -> duration_value (PyFloat y) ->
  duration_value (PyFloat (SFadd prec emax x y)).
Proof.
  intros [Hx Hxn] [Hy Hyn].
  destruct x as [sx|sx| |sx mx ex]; try destruct sx; cbn in Hx;
    try contradiction; try congruence;
    destruct y as [sy|sy| |sy my ey]; try destruct sy; cbn in Hy;
    try contradiction; try congruence;
    try (split; [exact I|discriminate]).
  unfold SFadd. cbn [cond_Zopp Z.add]. apply normalize_value.
Qed.

Lemma digits_value_nonneg (s : string) :
  forall acc, str_all is_decimal s = true -> 0 <= acc -> 0 <= digits_value acc s.
Proof.
  induction s as [|c s IH]; intros acc Hs Hacc; [exact Hacc|].
  cbn in Hs. apply andb_true_iff in Hs. destruct Hs as [Hc Hs].
  cbn [digits_value]. apply IH; [exact Hs|].
  unfold is_decimal in Hc. apply andb_true_iff in Hc.
  destruct Hc as [H1 _]. apply Z.leb_le in H1. lia.
Qed.

Lemma isdigit_point (i fr : string) : isdigit (i ++ String "." fr) = false.
Proof.
  assert (H : str_all is_digit_char (i ++ String "." fr) = false).
  { induction i as [|c i IH]; [reflexivity|].
    cbn. rewrite IH. apply andb_false_r. }
  unfold isdigit. destruct (i ++ String "." fr); [reflexivity|exact H].
Qed.

(** [cast] on the text of a number: an [int] that is not negative when
    there is no point, unless the digits are more than [int] reads; a
    [float] that is not negative otherwise. *)
Lemma cast_number_text (v : string) :
  number_text v = true ->
  (exists z, 0 <= z /\ cast v = Ok (PyInt z))
  \/ (exists f, cast v = Ok (PyFloat f) /\ duration_value (PyFloat f))
  \/ (cast v = Raise ValueError
      /\ (int_max_str_digits < String.length v)%nat).
Proof.
  unfold number_text. intros H.
  destruct (split_dot v) as [[i fr]|] eqn:Hsp.
  - right. left. pose proof (split_dot_inv _ _ _ Hsp) as ->.
    unfold cast. rewrite isdigit_point. unfold py_float_of_str.
    rewrite Hsp, H. cbn [rbind]. eexists. split; [reflexivity|].
    unfold float_of_ratio10.
    destruct (digits_value 0 (i ++ fr) =? 0); [split; [exact I|discriminate]|].
    apply andb_true_iff in H. destruct H as [H _].
    apply andb_true_iff in H. destruct H as [Hi Hfr].
    pose proof (div_core_nonneg (digits_value 0 (i ++ fr))
                  (10 ^ Z.of_nat (String.length fr))
                  ltac:(apply digits_value_nonneg;
                        [now rewrite str_all_app, Hi, Hfr|lia])
                  ltac:(apply Z.pow_pos_nonneg; lia)) as Hq.
    destruct (SFdiv_core_binary _ _ _ _ _ _) as [[q e] l]. cbn [fst] in Hq.
    now apply round_aux_value.
  - apply andb_true_iff in H. destruct H as [Hd Hne].
    apply str_eqb_empty in Hne.
    destruct (le_lt_dec (String.length v) int_max_str_digits) as [Hfit|Hlong].
    + left. exists (digits_value 0 v).
      split; [now apply digits_value_nonneg|]. now apply cast_decimal.
    + right. right. split; [now apply cast_decimal_long|exact Hlong].
Qed.

Lemma sum_items_value (L : nat) (items : list (string * option string)) :
  Forall (fun kv => match snd kv with
                    | None => True
                    | Some v =>
                        number_text v = true
                        /\ (String.length v <= L)%nat
                        /\ exists m e, getitem MULTIPLIERS (fst kv)
                                       = Ok (S754_finite false m e)
                    end) items ->
  forall acc, duration_value acc ->
    match sum_items items acc with
    | Ok x => duration_value x
    | Raise e =>
        e = OverflowError
        \/ (e = ValueError /\ (int_max_str_digits < L)%nat)
    end.
Proof.
  induction 1 as [|[k [v|]] items Hkv Hitems IH]; intros acc Hacc.
  - exact Hacc.
  - cbn [snd fst] in Hkv. destruct Hkv as [Hv [Hlen [m [e Hmult]]]].
    cbn [sum_items]. rewrite Hmult. cbn [rbind].
    assert (Hterm : forall t, duration_value (PyFloat t) ->
              match rbind (py_add acc (PyFloat t))
                          (fun acc' => sum_items items acc') with
              | Ok x => duration_value x
              | Raise e =>
                  e = OverflowError
                  \/ (e = ValueError /\ (int_max_str_digits < L)%nat)
              end).
    { intros t Ht. destruct acc as [z|fa].
      - cbn in Hacc. subst z. unfold py_add. cbn [as_float rbind].
        change (float_of_Z 0) with (S754_zero false). cbn [rbind].
        rewrite add_zero_nonneg by apply Ht. now apply IH.
      - unfold py_add. cbn [as_float rbind]. apply IH. now apply add_value. }
    destruct (cast_number_text v Hv) as [[z [Hz ->]]|[[f [-> Hf]]|[-> Hlong]]];
      cbn [rbind].
    + unfold py_mul. cbn [as_float rbind].
      pose proof (float_of_Z_value z Hz) as Hfz.
      destruct (float_of_Z z) as [s|s| |s mz ez] eqn:Hfl; cbn [rbind];
        try (left; reflexivity); apply Hterm; now apply mul_value.
    + unfold py_mul. cbn [as_float rbind]. apply Hterm. now apply mul_value.
    + right. split; [reflexivity|lia].
  - cbn [sum_items]. now apply IH.
Qed.

(** A captured text is no longer than the text that is matched. *)
Lemma matches_lengths (L : nat) (r : regex) (s rest : string) (g g' : groups) :
  matches r s rest g g' -> (String.length s <= L)%nat ->
  Forall (fun nv => (String.length (snd nv) <= L)%nat) g ->
  Forall (fun nv => (String.length (snd nv) <= L)%nat) g'.
Proof.
  induction 1 as [cl a rest g Hc|cl s rest g Hs|cl s rest g Hne Hs
                 |r s rest g g' Hm IH|r rest g
                 |r1 r2 s1 s2 rest g g1 g2 Hm1 IH1 Hm2 IH2
                 |r1 r2 s rest g g' Hm IH|r1 r2 s rest g g' Hm IH
                 |name r s rest g g' Hm IH|rest g Hrest];
    intros HL Hg; auto.
  rewrite str_length_app in HL. apply IH2; [lia|]. apply IH1; [lia|exact Hg].
Qed.

Lemma multiplier_finite (n : string) :
  In n ["hours"; "mins"; "secs"; "milli"; "micro"; "nano"] ->
  exists m e, getitem MULTIPLIERS n = Ok (S754_finite false m e).
Proof.
  intros H. cbn in H.
  destruct H as [<-|[<-|[<-|[<-|[<-|[<-|[]]]]]]];
    vm_compute; do 2 eexists; reflexivity.
Qed.

Lemma groupdict_items (s : string) (m : match_object) :
  re_match pattern s true = Some m ->
  Forall (fun kv => match snd kv with
                    | None => True
                    | Some v =>
                        number_text v = true
                        /\ (String.length v <= String.length s)%nat
                        /\ exists m e, getitem MULTIPLIERS (fst kv)
                                       = Ok (S754_finite false m e)
                    end) (groupdict pattern m).
Proof.
  intros Hm. destruct (re_match_sound _ _ _ Hm) as [rest [Hs Hmatch]].
  pose proof (pattern_numbers _ _ _ Hmatch) as Hnum.
  assert (Hlen : Forall (fun nv => (String.length (snd nv) <= String.length s)%nat)
                        (named m)).
  { apply (matches_lengths _ _ _ _ _ _ Hmatch); [|constructor].
    rewrite Hs. rewrite str_length_app. lia. }
  rewrite List.Forall_forall in Hnum. rewrite List.Forall_forall in Hlen.
  unfold groupdict. apply List.Forall_forall. intros [n o] Hin.
  apply in_map_iff in Hin. destruct Hin as [n0 [Heq Hn0]].
  injection Heq as -> <-. cbn [snd fst].
  destruct (lookup_group n (named m)) as [v|] eqn:Hl; [|exact I].
  split; [|split].
  - exact (Hnum _ (lookup_group_some _ _ _ Hl)).
  - exact (Hlen _ (lookup_group_some _ _ _ Hl)).
  - apply multiplier_finite. exact Hn0.
Qed.

(** X4. [timeparse] raises nothing but [OverflowError] and [ValueError],
    and [ValueError] only on a text of more characters than the digits
    that [int] reads.  It does raise both: [OverflowError] on a number
    without a point that is too large for a [float], [ValueError] on one
    of more digits than the limit; and a number too large for a [float]
    that is written with a point is read as [inf]. *)
Theorem timeparse_raises_only :
  (forall (s : string) (e : exn),
     timeparse s = Raise e ->
     e = OverflowError
     \/ (e = ValueError /\ (int_max_str_digits < String.length s)%nat))
  /\ timeparse (str_int (10 ^ 309) ++ "s") = Raise OverflowError
  /\ timeparse (str_int (10 ^ 4300) ++ "s") = Raise ValueError
  /\ timeparse (str_int (10 ^ 309) ++ ".s")
     = Ok (Some (PyFloat (S754_infinity false))).
Proof.
  split; [|split; [vm_compute; reflexivity|split; [|vm_compute; reflexivity]]].
  2:{ apply (timeparse_chain_long (10 ^ 4300) 3).
      - apply Z.pow_nonneg. lia.
      - lia.
      - apply str_int_long. apply Z.le_refl. }
  intros s e. unfold timeparse.
  destruct (re_match pattern s true) as [m|] eqn:Hm; [|discriminate].
  destruct (String.eqb (strip (group0 m)) ""); [discriminate|].
  pose proof (sum_items_value _ _ (groupdict_items s m Hm) (PyInt 0) eq_refl)
    as H.
  destruct (sum_items (groupdict pattern m) (PyInt 0)) as [x|e0];
    cbn [rbind]; [discriminate|].
  intros Heq. injection Heq as <-. exact H.
Qed.

(** X5. A number that [timeparse] returns is a [float] that is neither
    negative nor a NaN. *)
Theorem timeparse_not_negative (s : string) (x : pynum) :
  timeparse s = Ok (Some x) ->
  exists f, x = PyFloat f /\ float_nonneg f /\ f <> S754_nan.
Proof.
  unfold timeparse. intros H.
  destruct (re_match pattern s true) as [m|] eqn:Hm; [|discriminate].
  destruct (String.eqb (strip (group0 m)) "") eqn:Hs; [discriminate|].
  pose proof (sum_items_value _ _ (groupdict_items s m Hm) (PyInt 0) eq_refl)
    as Hv.
  destruct (sum_items (groupdict pattern m) (PyInt 0)) as [y|e] eqn:Hsum;
    cbn [rbind] in H; [|discriminate].
  injection H as ->.
  destruct (sum_items_type _ _ _ Hsum) as [[f ->]|[_ Hnone]].
  - exists f. split; [reflexivity|exact Hv].
  - rewrite (no_component_strip s m Hm Hnone) in Hs. discriminate.
Qed.

Lemma timeparse_not_negative_witness :
  exists f, PyFloat (float_of_Z 5400) = PyFloat f
            /\ float_nonneg f /\ f <> S754_nan.
Proof.
  apply (timeparse_not_negative "1h30m"). vm_compute. reflexivity.
Defined.

(** ** Every duration is read, and in one way only *)

Lemma components_match (cs : list (string * regex)) :
  forall (c : string * regex) (ps : list part) (rest : string) (g : groups),
    Forall2 (fun c p => match p with
                        | None => True
                        | Some (f, u) =>
                            number_text f = true
                            /\ forall rest g, matches (snd c) u rest g g
                        end) (c :: cs) ps ->
    matches (components c cs) (render_parts ps) rest g (captures (c :: cs) ps g).
Proof.
  assert (Hone : forall (c : string * regex) (p : part) (rest : string) (g : groups),
            match p with
            | None => True
            | Some (f, u) =>
                number_text f = true /\ forall rest g, matches (snd c) u rest g g
            end ->
            matches (component c) (render_part p) rest g
                    (match p with Some (f, _) => (fst c, f) :: g | None => g end)).
  { intros c [[f u]|] rest g Hp; unfold component; cbn [render_part].
    - destruct Hp as [Hf Hu]. apply M_opt_some.
      eapply (M_seq _ _ f u).
      + apply M_group. now apply number_text_matches.
      + apply Hu.
    - apply M_opt_none. }
  induction cs as [|c' cs IH]; intros c ps rest g H.
  - apply Forall2_cons_inv_l in H. destruct H as [p [ps' [Hp [Hnil ->]]]].
    apply Forall2_nil_inv_l in Hnil. subst ps'.
    cbn [components render_parts]. rewrite str_app_nil_r.
    replace (captures [c] [p] g)
      with (match p with Some (f, _) => (fst c, f) :: g | None => g end)
      by (destruct p as [[f u]|]; reflexivity).
    now apply Hone.
  - apply Forall2_cons_inv_l in H. destruct H as [p [ps' [Hp [Hrest ->]]]].
    cbn [components render_parts].
    eapply (M_seq _ _ (render_part p) (render_parts ps')).
    + apply Hone. exact Hp.
    + replace (captures (c :: c' :: cs) (p :: ps') g)
        with (captures (c' :: cs) ps'
                (match p with Some (f, _) => (fst c, f) :: g | None => g end))
        by (destruct p as [[f u]|]; reflexivity).
      now apply IH.
Qed.

Lemma parts_valid_table (ps : list part) :
  length ps = 6%nat -> parts_valid 0 ps = true ->
  Forall2 (fun c p => match p with
                      | None => True
                      | Some (f, u) =>
                          number_text f = true
                          /\ forall rest g, matches (snd c) u rest g g
                      end) unit_table ps.
Proof.
  intros Hlen Hval.
  destruct ps as [|p0 [|p1 [|p2 [|p3 [|p4 [|p5 [|p6 ps]]]]]]]; try discriminate.
  cbn [parts_valid] in Hval.
  repeat match goal with
         | H : _ && _ = true |- _ =>
             apply andb_true_iff in H; destruct H as [? H]
         end.
  assert (Hpart : forall i p c, part_valid i p = true ->
            nth_error unit_table i = Some c ->
            match p with
            | None => True
            | Some (f, u) =>
                number_text f = true /\ forall rest g, matches (snd c) u rest g g
            end).
  { intros i [[f u]|] c Hp Hc; [|exact I]. cbn [part_valid] in Hp.
    apply andb_true_iff in Hp. destruct Hp as [Hf Hu]. split; [exact Hf|].
    destruct (unit_rank (lower u)) as [r|] eqn:Hr; [|discriminate].
    apply Nat.eqb_eq in Hu. subst r.
    destruct (unit_rank_matches u i Hr) as [c' [Hc' Hm]].
    rewrite Hc in Hc'. injection Hc' as <-. exact Hm. }
  unfold unit_table.
  repeat (apply List.Forall2_cons; [eapply Hpart; [eassumption|reflexivity]|]).
  apply List.Forall2_nil.
Qed.

(** A duration is matched by the pattern. *)
Lemma duration_matches (ws1 ws2 : string) (ps : list part) :
  str_all is_space ws1 = true -> str_all is_space ws2 = true ->
  length ps = 6%nat -> parts_valid 0 ps = true ->
  exists m, re_match pattern (ws1 ++ render_parts ps ++ ws2) true = Some m.
Proof.
  intros Hw1 Hw2 Hlen Hval.
  apply (re_match_complete pattern _ (captures unit_table ps [])).
  unfold pattern.
  eapply (M_seq _ _ ws1 (render_parts ps ++ ws2)).
  { constructor. exact Hw1. }
  eapply (M_seq _ _ (render_parts ps) ws2).
  { rewrite timeformat_components.
    apply (components_match (tl unit_table) ("hours", lit "h")).
    now apply parts_valid_table. }
  rewrite <- (str_app_nil_r ws2).
  eapply (M_seq _ _ ws2 "").
  { constructor. exact Hw2. }
  constructor. now left.
Qed.

Lemma render_present (ps : list part) :
  render_parts ps = render_components (present ps).
Proof.
  unfold render_components.
  induction ps as [|[[f u]|] ps IH]; cbn [present render_parts map render_part].
  - reflexivity.
  - now rewrite IH.
  - exact IH.
Qed.

Lemma present_tokens (ps : list part) :
  Forall part_token ps -> Forall part_token (map Some (present ps)).
Proof.
  induction 1 as [|[[f u]|] ps Hp Hps IH]; cbn [present map].
  - constructor.
  - constructor; assumption.
  - exact IH.
Qed.

Lemma numchar_not_space (c : ascii) : is_numchar c = true -> is_space c = false.
Proof.
  unfold is_numchar. intros H. apply orb_true_iff in H.
  destruct H as [H|H]; [now apply decimal_not_space|].
  apply Ascii.eqb_eq in H. now subst c.
Qed.

Lemma letter_not_numchar (c : ascii) : is_letter c = true -> is_numchar c = false.
Proof.
  unfold is_letter. intros H. apply negb_true_iff in H.
  now apply orb_false_iff in H.
Qed.

(** A text of components and whitespace is such a text in one way. *)
Lemma tokens_unique (cs : list (string * string)) :
  forall (cs' : list (string * string)) (tail tail' : string),
    Forall part_token (map Some cs) -> Forall part_token (map Some cs') ->
    str_all is_space tail = true -> str_all is_space tail' = true ->
    render_components cs ++ tail = render_components cs' ++ tail' ->
    cs = cs'.
Proof.
  assert (Hspace : forall (tail : string) (f u R : string),
            str_all is_space tail = true -> f <> "" ->
            str_all is_numchar f = true -> tail = f ++ u ++ R -> False).
  { intros tail [|a f] u R Ht Hne Hf Heq; [congruence|].
    subst tail. cbn in Ht, Hf.
    apply andb_true_iff in Ht. apply andb_true_iff in Hf.
    rewrite (numchar_not_space a (proj1 Hf)) in Ht. now destruct Ht. }
  assert (Hhead : forall (cs : list (string * string)) (tail : string),
            Forall part_token (map Some cs) -> str_all is_space tail = true ->
            match render_components cs ++ tail with
            | String c _ => is_letter c = false
            | EmptyString => True
            end).
  { intros cs0 tail Hcs Ht.
    pose proof (parts_start (map Some cs0) tail Hcs) as Hst.
    assert (Htl : starts_letter tail = false).
    { destruct tail as [|c t]; [reflexivity|]. cbn in Ht |- *.
      apply andb_true_iff in Ht. now apply space_not_letter. }
    specialize (Hst Htl). unfold render_components.
    destruct (render_parts (map Some cs0) ++ tail); [exact I|exact Hst]. }
  induction cs as [|[f u] cs IH]; intros cs' tail tail' Hcs Hcs' Ht Ht' Heq.
  - destruct cs' as [|[f' u'] cs']; [reflexivity|]. exfalso.
    cbn [map] in Hcs'. apply List.Forall_cons_iff in Hcs'.
    destruct Hcs' as [[Hne [Hf _]] _].
    unfold render_components in Heq. cbn [map render_parts render_part append] in Heq.
    rewrite !str_app_assoc in Heq.
    exact (Hspace tail f' u' _ Ht Hne Hf Heq).
  - destruct cs' as [|[f' u'] cs'].
    + exfalso. cbn [map] in Hcs. apply List.Forall_cons_iff in Hcs.
      destruct Hcs as [[Hne [Hf _]] _].
      unfold render_components in Heq.
      cbn [map render_parts render_part append] in Heq.
      rewrite !str_app_assoc in Heq. symmetry in Heq.
      exact (Hspace tail' f u _ Ht' Hne Hf Heq).
    + cbn [map] in Hcs, Hcs'.
      apply List.Forall_cons_iff in Hcs. apply List.Forall_cons_iff in Hcs'.
      destruct Hcs as [[Hne [Hf [Hune Hu]]] Hcs1].
      destruct Hcs' as [[Hne' [Hf' [Hune' Hu']]] Hcs1'].
      unfold render_components in Heq.
      cbn [map render_parts render_part] in Heq.
      rewrite !str_app_assoc in Heq.
      fold (render_components cs) in Heq. fold (render_components cs') in Heq.
      apply (span_unique is_numchar) in Heq; [|exact Hf|exact Hf'| |].
      * destruct Heq as [-> Heq].
        apply (span_unique is_letter) in Heq;
          [|exact Hu|exact Hu'|now apply Hhead|now apply Hhead].
        destruct Heq as [-> Heq]. f_equal.
        exact (IH cs' tail tail' Hcs1 Hcs1' Ht Ht' Heq).
      * destruct u as [|c u]; [congruence|]. cbn in Hu |- *.
        apply andb_true_iff in Hu. now apply letter_not_numchar.
      * destruct u' as [|c u']; [congruence|]. cbn in Hu' |- *.
        apply andb_true_iff in Hu'. now apply letter_not_numchar.
Qed.

Lemma ranked_present_rank (ps : list part) :
  forall (i : nat) (f u : string) (rest : list (string * string)),
    ranked i ps -> present ps = (f, u) :: rest ->
    exists j, (i <= j)%nat /\ unit_rank (lower u) = Some j.
Proof.
  induction ps as [|[[f0 u0]|] ps IH]; intros i f u rest Hr Hp.
  - discriminate.
  - cbn in Hp. injection Hp as -> -> _. destruct Hr as [Hu _]. eauto.
  - destruct Hr as [_ Hr]. cbn in Hp.
    destruct (IH (S i) f u rest Hr Hp) as [j [Hj Hu]]. exists j. split; [lia|auto].
Qed.

Lemma ranked_present_unique (ps : list part) :
  forall (i : nat) (ps' : list part),
    ranked i ps -> ranked i ps' -> length ps = length ps' ->
    present ps = present ps' -> ps = ps'.
Proof.
  induction ps as [|p ps IH]; intros i ps' Hr Hr' Hlen Hp.
  - destruct ps'; [reflexivity|discriminate].
  - destruct ps' as [|p' ps']; [discriminate|].
    destruct Hr as [Hu Hr]. destruct Hr' as [Hu' Hr'].
    injection Hlen as Hlen.
    destruct p as [[f u]|], p' as [[f' u']|]; cbn [present] in Hp.
    + injection Hp as -> -> Hp. f_equal. exact (IH (S i) ps' Hr Hr' Hlen Hp).
    + exfalso. symmetry in Hp.
      destruct (ranked_present_rank ps' (S i) f u _ Hr' Hp) as [j [Hj Hj']].
      rewrite Hu in Hj'. injection Hj' as <-. lia.
    + exfalso.
      destruct (ranked_present_rank ps (S i) f' u' _ Hr Hp) as [j [Hj Hj']].
      rewrite Hu' in Hj'. injection Hj' as <-. lia.
    + f_equal. exact (IH (S i) ps' Hr Hr' Hlen Hp).
Qed.

Lemma groupdict_captured (m : match_object) (ps : list part) :
  length ps = 6%nat -> named m = captures unit_table ps [] ->
  groupdict pattern m = captured ps.
Proof.
  intros Hlen Hn. unfold groupdict. rewrite Hn.
  destruct ps as [|p0 [|p1 [|p2 [|p3 [|p4 [|p5 [|p6 ps]]]]]]]; try discriminate.
  destruct p0 as [[f0 u0]|], p1 as [[f1 u1]|], p2 as [[f2 u2]|],
           p3 as [[f3 u3]|], p4 as [[f4 u4]|], p5 as [[f5 u5]|];
    reflexivity.
Qed.

Lemma parts_tokens (ps : list part) :
  forall i, parts_valid i ps = true -> Forall part_token ps.
Proof.
  induction ps as [|p ps IH]; intros i H; [constructor|].
  cbn [parts_valid] in H. apply andb_true_iff in H. destruct H as [Hp Hps].
  constructor; [|exact (IH (S i) Hps)].
  destruct p as [[f u]|]; [|exact I].
  cbn [part_valid] in Hp. apply andb_true_iff in Hp. destruct Hp as [Hf Hu].
  destruct (number_text_numchars f Hf) as [Hne Hnum].
  destruct (unit_rank (lower u)) as [r|] eqn:Hr; [|discriminate].
  destruct (unit_rank_letters u r Hr) as [Hune Hl].
  repeat split; assumption.
Qed.

Lemma present_head (ps : list part) (tail : string) :
  Forall part_token ps -> render_parts ps <> "" ->
  match render_parts ps ++ tail with
  | String c _ => is_space c = false
  | EmptyString => True
  end.
Proof.
  induction 1 as [|[[f u]|] ps Hp Hps IH]; intros Hne.
  - now destruct Hne.
  - destruct Hp as [Hf [Hnum _]]. destruct f as [|a f]; [congruence|].
    cbn in Hnum |- *. apply andb_true_iff in Hnum.
    now apply numchar_not_space.
  - cbn [render_parts render_part append] in Hne |- *. now apply IH.
Qed.

(** X6. Every duration is read: on whitespace, components in the order
    h, m, s, ms, us, ns (each a number immediately followed by its unit,
    in any letter case, one at least) and whitespace, [timeparse] finds
    exactly the numbers of the components, each in the group of its
    unit, and returns the sum of the code over them: each
    [MULTIPLIERS[k] * cast(v)], added from the left starting from zero.
    The whitespace and the letter case of the units do not matter. *)
Theorem timeparse_duration (ws1 ws2 : string) (ps : list part) :
  str_all is_space ws1 = true -> str_all is_space ws2 = true ->
  duration_parts ps = true ->
  timeparse (ws1 ++ render_parts ps ++ ws2)
  = rbind (sum_items (captured ps) (PyInt 0)) (fun x => Ok (Some x)).
Proof.
  intros Hw1 Hw2 Hd. unfold duration_parts in Hd.
  apply andb_true_iff in Hd. destruct Hd as [Hd Hne].
  apply andb_true_iff in Hd. destruct Hd as [Hlen Hval].
  apply Nat.eqb_eq in Hlen. apply str_eqb_empty in Hne.
  destruct (duration_matches ws1 ws2 ps Hw1 Hw2 Hlen Hval) as [m Hm].
  destruct (pattern_reads _ m Hm)
    as [ws1' [ps' [ws2' [Hs [Hw1' [Hw2' [Hps' [Hval' [Hnamed Hstrip]]]]]]]]].
  pose proof (parts_tokens ps 0 Hval) as Htok.
  pose proof (parts_tokens ps' 0 Hval') as Htok'.
  assert (Hlen' : length ps' = 6%nat).
  { apply Forall2_length in Hps'. rewrite <- Hps'. reflexivity. }
  assert (Hne' : render_parts ps' <> "").
  { intros Hr. rewrite Hr in Hs. cbn [append] in Hs.
    assert (Hall : str_all is_space (ws1 ++ render_parts ps ++ ws2) = true)
      by now rewrite Hs, str_all_app, Hw1', Hw2'.
    rewrite !str_all_app in Hall.
    apply andb_true_iff in Hall. destruct Hall as [_ Hall].
    apply andb_true_iff in Hall. destruct Hall as [Hall _].
    pose proof (present_head ps "" Htok Hne) as Hh.
    rewrite str_app_nil_r in Hh.
    destruct (render_parts ps) as [|c t]; [congruence|].
    cbn in Hall. rewrite Hh in Hall. discriminate. }
  assert (Heq : ps = ps').
  { apply (span_unique is_space) in Hs;
      [|exact Hw1|exact Hw1'|now apply present_head|now apply present_head].
    destruct Hs as [_ Hs].
    rewrite (render_present ps), (render_present ps') in Hs.
    apply tokens_unique in Hs;
      [|now apply present_tokens|now apply present_tokens|exact Hw2|exact Hw2'].
    destruct (parts_valid_ranked ps 0 Hval) as [Hr _].
    destruct (parts_valid_ranked ps' 0 Hval') as [Hr' _].
    apply (ranked_present_unique ps 0 ps' Hr Hr'); [congruence|exact Hs]. }
  subst ps'.
  unfold timeparse. rewrite Hm.
  destruct (String.eqb (strip (group0 m)) "") eqn:Hst.
  - apply String.eqb_eq in Hst. apply Hstrip in Hst. congruence.
  - now rewrite (groupdict_captured m ps Hlen Hnamed).
Qed.

Lemma timeparse_duration_witness :
  timeparse (" "
             ++ render_parts [Some ("1", "H"); Some ("30", "m");
                              None; None; None; None]
             ++ String (chr 10) "")
  = Ok (Some (PyFloat (float_of_Z 5400))).
Proof.
  etransitivity; [apply timeparse_duration; reflexivity|].
  vm_compute. reflexivity.
Defined.

(** ** The entries of the resource groups *)

Lemma denormalize_entry_name_block (version : ComposeVersion) (key : string)
      (l : loc) (d1 : dict) (h1 : heap) :
  h1 !! l = Some d1 ->
  (forall l', dict_get d1 "external" = Some (VDict l') -> is_Some (h1 !! l')) ->
  wp False
     (bind (py_in "name" (VDict l)) (fun b =>
        when b
          (if version_ltb version V2_1
              || version_geb version V3_0
                 && version_ltb version (v3_introduced_name_key key)
           then py_delitem (VDict l) "name"
           else bind (py_in "external" (VDict l)) (fun b0 =>
                  when b0
                    (bind (py_getitem (VDict l) "external") (fun x =>
                     bind (truthy x) (fun t =>
                       py_setitem (VDict l) "external" (VBool t))))))))
     (fun _ h' =>
        exists d2, h' = <[l := d2]> h1
          /\ dict_get d2 "name"
             = (if name_is_stripped version key then None else dict_get d1 "name")
          /\ forall k, k <> "name" -> k <> "external" ->
                       dict_get d2 k = dict_get d1 k) h1.
Proof.
  intros Hl1 Hext.
  change (version_ltb version V2_1
          || version_geb version V3_0
             && version_ltb version (v3_introduced_name_key key))
    with (name_is_stripped version key).
  assert (Hsame : exists d2, h1 = <[l := d2]> h1
            /\ dict_get d2 "name" = dict_get d1 "name"
            /\ forall k, k <> "name" -> k <> "external" ->
                         dict_get d2 k = dict_get d1 k).
  { exists d1. split; [symmetry; now apply heap_insert_id|auto]. }
  apply wp_bind. eapply wp_py_in; [exact Hl1|].
  apply wp_when; intros Hname.
  - destruct (name_is_stripped version key).
    + eapply wp_py_delitem; [exact Hl1|exact Hname|].
      exists (dict_del d1 "name"). split; [reflexivity|].
      split; [apply dict_get_del_eq|].
      intros k Hk _. apply dict_get_del_ne. congruence.
    + apply wp_bind. eapply wp_py_in; [exact Hl1|].
      apply wp_when; intros Hex; [|exact Hsame].
      unfold dict_has in Hex.
      destruct (dict_get d1 "external") as [x|] eqn:Hx; [|discriminate].
      destruct (truthy_returns x h1) as [b Hb].
      { intros l' ->. now apply Hext. }
      apply wp_bind. eapply wp_py_getitem; [exact Hl1|exact Hx|].
      apply wp_bind. eapply wp_by_run; [exact Hb|].
      eapply wp_py_setitem; [exact Hl1|].
      exists (dict_set d1 "external" (VBool b)). split; [reflexivity|].
      split; [apply dict_get_set_ne; discriminate|].
      intros k _ Hk. apply dict_get_set_ne. congruence.
  - destruct Hsame as [d2 [Hh [Hn Hk]]]. exists d2. split; [exact Hh|].
    split; [|exact Hk]. rewrite Hn. unfold dict_has in Hname.
    destruct (dict_get d1 "name"); [discriminate|].
    now destruct (name_is_stripped version key).
Qed.

(** X7. One entry of a resource group, whatever the group and the
    version: [external_name] never survives; [name] survives exactly
    when the version is from 2.1 and below 3.0, or is at least the
    version that introduced it (3.4 for volumes, 3.5 for the other
    groups); [attachable] survives exactly from version 3.2 on; every
    attribute other than these and [external] is left as it is, and no
    other object of the store changes. *)
Theorem denormalize_entry_keys
        (version : ComposeVersion) (key : string) (l : loc) (d : dict)
        (h : heap) :
  h !! l = Some d ->
  (forall l', dict_get d "external" = Some (VDict l') -> is_Some (h !! l')) ->
  exists d',
    denormalize_entry version key (VDict l) h = Ok (tt, <[l := d']> h)
    /\ dict_get d' "external_name" = None
    /\ dict_get d' "name"
       = (if name_is_stripped version key then None else dict_get d "name")
    /\ dict_get d' "attachable"
       = (if version_ltb version V3_2 then None else dict_get d "attachable")
    /\ forall k,
         ~ In k ["external_name"; "name"; "external"; "attachable"] ->
         dict_get d' k = dict_get d k.
Proof.
  intros Hl Hext.
  set (d1 := dict_del d "external_name").
  set (h1 := <[l := d1]> h).
  assert (Hl1 : h1 !! l = Some d1) by (eapply heap_insert_lookup; exact Hl).
  set (Q := fun d' : dict =>
    dict_get d' "external_name" = None
    /\ dict_get d' "name"
       = (if name_is_stripped version key then None else dict_get d "name")
    /\ dict_get d' "attachable"
       = (if version_ltb version V3_2 then None else dict_get d "attachable")
    /\ forall k,
         ~ In k ["external_name"; "name"; "external"; "attachable"] ->
         dict_get d' k = dict_get d k).
  cut (wp False (denormalize_entry version key (VDict l))
          (fun _ h' => exists d', h' = <[l := d']> h /\ Q d') h).
  { intros Hwp. apply wp_returns in Hwp.
    destruct Hwp as [[] [h' [Hrun [d' [-> HQ]]]]]. exists d'. split; assumption. }
  unfold denormalize_entry. apply wp_bind.
  eapply wp_mono; [|apply (wp_strip_key_always False "external_name" l d h Hl)].
  intros _ h' ->. fold d1. fold h1.
  apply wp_bind.
  eapply wp_mono;
    [|apply (denormalize_entry_name_block version key l d1 h1 Hl1)].
  2:{ intros l' Hx. unfold d1 in Hx. rewrite dict_get_del_ne in Hx by discriminate.
      destruct (Hext l' Hx) as [d0 Hd0]. unfold h1.
      destruct (decide (l = l')) as [<-|Hne].
      - rewrite (heap_insert_lookup _ _ _ _ Hl). eauto.
      - rewrite list_lookup_insert_ne by exact Hne. eauto. }
  intros _ h2 [d2 [-> [Hn2 Hk2]]]. unfold h1. rewrite heap_insert_insert.
  assert (Hl2 : <[l := d2]> h !! l = Some d2)
    by (eapply heap_insert_lookup; exact Hl).
  eapply wp_mono;
    [|apply (wp_strip_key False "attachable" (version_ltb version V3_2)
               l d2 _ Hl2)].
  intros _ h3 ->. rewrite heap_insert_insert.
  eexists. split; [reflexivity|].
  assert (H1 : forall k, k <> "external_name" -> dict_get d1 k = dict_get d k).
  { intros k Hk. unfold d1. apply dict_get_del_ne. congruence. }
  unfold Q. destruct (version_ltb version V3_2).
  - split; [rewrite dict_get_del_ne by discriminate;
            rewrite Hk2 by discriminate; apply dict_get_del_eq|].
    split; [rewrite dict_get_del_ne by discriminate;
            rewrite Hn2, H1 by discriminate; reflexivity|].
    split; [apply dict_get_del_eq|].
    intros k Hk. cbn in Hk.
    rewrite dict_get_del_ne by (intros <-; intuition).
    rewrite Hk2 by (intros ->; intuition). apply H1. intros ->. intuition.
  - split; [rewrite Hk2 by discriminate; apply dict_get_del_eq|].
    split; [rewrite Hn2, H1 by discriminate; reflexivity|].
    split; [rewrite Hk2 by discriminate; apply H1; discriminate|].
    intros k Hk. cbn in Hk.
    rewrite Hk2 by (intros ->; intuition). apply H1. intros ->. intuition.
Qed.

Lemma denormalize_entry_keys_witness :
  exists d',
    denormalize_entry [3; 1] "volumes" (VDict 0%nat)
      [ [("name", VStr "data"); ("external_name", VStr "data");
         ("attachable", VBool true); ("driver", VStr "local")] ]
    = Ok (tt, <[0%nat := d']>
                [ [("name", VStr "data"); ("external_name", VStr "data");
                   ("attachable", VBool true); ("driver", VStr "local")] ])
    /\ dict_get d' "external_name" = None
    /\ dict_get d' "name" = None
    /\ dict_get d' "attachable" = None
    /\ dict_get d' "driver" = Some (VStr "local").
Proof.
  destruct (denormalize_entry_keys [3; 1] "volumes" 0%nat
              [("name", VStr "data"); ("external_name", VStr "data");
               ("attachable", VBool true); ("driver", VStr "local")]
              [ [("name", VStr "data"); ("external_name", VStr "data");
                 ("attachable", VBool true); ("driver", VStr "local")] ])
    as [d' [Hrun [H1 [H2 [H3 H4]]]]].
  - reflexivity.
  - intros l' H. discriminate H.
  - exists d'. split; [exact Hrun|]. split; [exact H1|].
    split; [exact H2|]. split; [exact H3|].
    rewrite H4; [reflexivity|]. cbn. intuition discriminate.
Defined.

(** ** Strings *)

Lemma double_dollars_id (s : string) :
  str_all no_dollar s = true -> double_dollars s = s.
Proof.
  induction s as [|c s IH]; [reflexivity|].
  cbn [str_all double_dollars]. unfold no_dollar at 1.
  intros H. apply andb_prop in H. destruct H as [Hc Hs].
  apply negb_true_iff in Hc. rewrite Hc. now rewrite IH.
Qed.

Lemma double_dollars_some (s : string) :
  str_all no_dollar s = false -> str_all no_dollar (double_dollars s) = false.
Proof.
  induction s as [|c s IH]; [discriminate|].
  cbn [str_all double_dollars]. intros H.
  destruct (Ascii.eqb c "$") eqn:Hc; [reflexivity|].
  assert (Hn : no_dollar c = true) by (unfold no_dollar; now rewrite Hc).
  rewrite Hn in H. cbn [str_all]. rewrite Hn. exact (IH H).
Qed.

Lemma lower_char_dollar (c : ascii) :
  no_dollar (lower_char c) = no_dollar c.
Proof.
  destruct c as [[] [] [] [] [] [] [] []]; reflexivity.
Qed.

Lemma lower_dollar (s : string) :
  str_all no_dollar (lower s) = str_all no_dollar s.
Proof.
  induction s as [|c s IH]; [reflexivity|].
  cbn [lower str_all]. now rewrite lower_char_dollar, IH.
Qed.

Lemma boolean_like_no_dollar (t : string) :
  str_in t boolean_like = true -> str_all no_dollar t = true.
Proof.
  rewrite str_in_dec.
  destruct (in_dec string_dec t boolean_like) as [Hin|]; [|discriminate].
  intros _. cbn in Hin.
  repeat (destruct Hin as [<-|Hin]; [reflexivity|]). contradiction.
Qed.

Lemma escape_keeps_decision (s : string) :
  str_in (lower (double_dollars s)) boolean_like
  = str_in (lower s) boolean_like
  /\ (str_in (lower s) boolean_like = true -> double_dollars s = s).
Proof.
  destruct (str_all no_dollar s) eqn:Hs.
  - rewrite (double_dollars_id s Hs). auto.
  - assert (H1 : str_in (lower s) boolean_like = false).
    { destruct (str_in (lower s) boolean_like) eqn:H; [|reflexivity].
      apply boolean_like_no_dollar in H. rewrite lower_dollar in H. congruence. }
    assert (H2 : str_in (lower (double_dollars s)) boolean_like = false).
    { destruct (str_in (lower (double_dollars s)) boolean_like) eqn:H;
        [|reflexivity].
      apply boolean_like_no_dollar in H. rewrite lower_dollar in H.
      rewrite (double_dollars_some s Hs) in H. discriminate. }
    rewrite H1, H2. split; [reflexivity|discriminate].
Qed.

(** X8. Escaping the dollar signs never changes how a string is
    presented: [serialize_string_escape_dollar] quotes a string exactly
    when [serialize_string] quotes it, that is when the string itself,
    before escaping, is one of the boolean-like words in lower case; a
    quoted string is handed to the dumper unchanged, any other with its
    dollar signs doubled. *)
Theorem escape_dollar_same_quoting
        (node : Type) (represent_str : string -> node)
        (represent_scalar : string -> string -> option ascii -> node)
        (decode_utf8 : string -> result string) (data : string) :
  serialize_string_escape_dollar node represent_str represent_scalar
    decode_utf8 (Str data)
  = Ok (if str_in (lower data) boolean_like
        then represent_scalar "tag:yaml.org,2002:str" data (Some (chr 34))
        else represent_str (replace "$" "$$" data)).
Proof.
  unfold serialize_string_escape_dollar, serialize_string, rbind.
  rewrite replace_dollar.
  destruct (escape_keeps_decision data) as [-> Hid].
  destruct (str_in (lower data) boolean_like); [|reflexivity].
  now rewrite Hid.
Qed.

Lemma unescape_double_dollars (s : string) :
  replace "$$" "$" (double_dollars s) = s.
Proof.
  unfold replace. induction s as [|c s IH]; [reflexivity|].
  cbn [double_dollars]. destruct (Ascii.eqb c "$") eqn:Hc.
  - apply Ascii.eqb_eq in Hc. subst c.
    cbn [replace_from String.prefix Ascii.eqb Bool.eqb String.length Nat.pred].
    rewrite prefix_empty. cbn [andb]. cbn [append]. now rewrite IH.
  - cbn [replace_from String.prefix]. 
    destruct (ascii_dec "$" c) as [<-|_]; [discriminate Hc|].
    now rewrite IH.
Qed.

(** X9. Escaping loses nothing: the text that
    [serialize_string_escape_dollar] presents gives the original string
    back when every [$$] in it is replaced by [$]. *)
Theorem escape_dollar_round_trip
        (node : Type) (represent_str : string -> node)
        (represent_scalar : string -> string -> option ascii -> node)
        (decode_utf8 : string -> result string) (data : string) :
  exists escaped,
    serialize_string_escape_dollar node represent_str represent_scalar
      decode_utf8 (Str data)
    = serialize_string node represent_str represent_scalar decode_utf8
        (Str escaped)
    /\ replace "$$" "$" escaped = data.
Proof.
  exists (replace "$" "$$" data). split; [reflexivity|].
  rewrite replace_dollar. apply unescape_double_dollars.
Qed.

(** ** The statements of [denormalize_service_dict], exactly

    What each statement writes when it returns. *)

Lemma wp_conj {A : Type} (E : Prop) (m : M A) (Q1 Q2 : A -> heap -> Prop)
      (h : heap) :
  wp E m Q1 h -> wp E m Q2 h -> wp E m (fun a h' => Q1 a h' /\ Q2 a h') h.
Proof.
  unfold wp. destruct (m h) as [[a h']|e]; auto.
Qed.

Lemma map_m_rule {A B : Type} (f : A -> M B) (R : heap -> A -> B -> Prop)
      (l : list A) :
  (forall x h y h', f x h = Ok (y, h') -> h' = h /\ R h x y) ->
  forall h ys h', map_m f l h = Ok (ys, h') -> h' = h /\ Forall2 (R h) l ys.
Proof.
  intros Hf. induction l as [|x l IH]; intros h ys h' H.
  - injection H as <- <-. split; [reflexivity|apply List.Forall2_nil].
  - cbn [map_m] in H. unfold bind in H.
    destruct (f x h) as [[y h1]|e] eqn:Hx; [|discriminate].
    apply Hf in Hx. destruct Hx as [-> Hx].
    destruct (map_m f l h) as [[ys0 h2]|e] eqn:Hl; [|discriminate].
    apply IH in Hl. destruct Hl as [-> Hl].
    injection H as <- <-. split; [reflexivity|].
    now apply List.Forall2_cons.
Qed.

Section ServiceExact.

Variable serialize_restart_spec : heap -> value -> result value.
Variable legacy_repr : string -> list (string * value) -> result value.

Lemma exact_set_image (lo : loc) (dlo : dict) (img : value) (h : heap) :
  h !! lo = Some dlo ->
  wp True (set_image (VDict lo) img)
     (fun _ h' =>
        exists b, truthy img h = Ok (b, h)
          /\ h' = <[lo := if b then dict_set dlo "image" img else dlo]> h) h.
Proof.
  intros Hlo. unfold set_image. apply wp_bind.
  apply wp_read;
    [intros a h' H; exact (truthy_reads _ _ _ _ H)|now left|].
  intros b Hb. apply wp_when; intros ->.
  - eapply wp_py_setitem; [exact Hlo|]. exists true. auto.
  - exists false. split; [exact Hb|]. symmetry. now apply heap_insert_id.
Qed.

Lemma exact_set_restart (lo : loc) (dlo : dict) (h : heap) :
  h !! lo = Some dlo ->
  wp True (set_restart serialize_restart_spec (VDict lo))
     (fun _ h' =>
        exists d1, h' = <[lo := d1]> h
          /\ match dict_get dlo "restart" with
             | None => d1 = dlo
             | Some r =>
                 exists r', serialize_restart_spec h r = Ok r'
                            /\ d1 = dict_set dlo "restart" r'
             end) h.
Proof.
  intros Hlo. unfold set_restart. apply wp_bind.
  eapply wp_py_in; [exact Hlo|]. unfold dict_has.
  destruct (dict_get dlo "restart") as [r|] eqn:Hr; cbn [when].
  - apply wp_bind. eapply wp_py_getitem; [exact Hlo|exact Hr|].
    apply wp_bind. apply wp_read.
    + intros a h' H. now apply lift_reads in H.
    + now left.
    + intros r' Hr'. apply lift_reads in Hr'. destruct Hr' as [_ Hr'].
      eapply wp_py_setitem; [exact Hlo|].
      eexists. split; [reflexivity|]. exists r'. auto.
  - exists dlo. split; [symmetry; now apply heap_insert_id|reflexivity].
Qed.

Lemma denormalize_port_rule (version : ComposeVersion) (p : value)
      (h : heap) (y : value) (h' : heap) :
  denormalize_port legacy_repr version p h = Ok (y, h') ->
  h' = h /\ port_rule legacy_repr version h p y.
Proof.
  intros H. pose proof (denormalize_port_reads _ _ _ _ _ _ H) as ->.
  split; [reflexivity|].
  unfold denormalize_port, bind in H.
  destruct p as [|b0|n|s|l|l|cls fields]; cbn [py_getattr] in H;
    unfold raise in H; try discriminate.
  destruct (dict_get fields "external_ip") as [ip|] eqn:Hip;
    [|discriminate].
  unfold ret in H.
  destruct (truthy ip h) as [[b h1]|e] eqn:Hb; [|discriminate].
  pose proof (truthy_reads _ _ _ _ Hb) as ->.
  exists cls, fields, ip, b. split; [reflexivity|]. split; [exact Hip|].
  split; [exact Hb|].
  change COMPOSEFILE_V3_2 with V3_2.
  destruct (b || version_ltb version V3_2).
  - cbn [call_legacy_repr] in H. apply lift_reads in H. exact (proj2 H).
  - now injection H as <-.
Qed.

Lemma denormalize_volume_rule (v : value) (h : heap) (y : value) (h' : heap) :
  denormalize_volume legacy_repr v h = Ok (y, h') ->
  h' = h /\ volume_rule legacy_repr v y.
Proof.
  intros H. pose proof (denormalize_volume_reads _ _ _ _ _ H) as ->.
  split; [reflexivity|].
  unfold denormalize_volume in H.
  destruct v as [|b0|n|s|l|l|cls fields]; cbn [isinstance] in H;
    try (injection H as <-; reflexivity).
  cbn [volume_rule]. destruct (String.eqb cls "MountSpec").
  - cbn [call_legacy_repr] in H. apply lift_reads in H. exact (proj2 H).
  - now injection H as <-.
Qed.

Lemma exact_rebuild (f : value -> M value) (R : heap -> value -> value -> Prop)
      (key : string) (lo : loc) (dlo : dict) (v : value) (h : heap) :
  h !! lo = Some dlo -> dict_get dlo key = Some v ->
  (forall x h y h', f x h = Ok (y, h') -> h' = h /\ R h x y) ->
  wp True (bind (py_getitem (VDict lo) key) (fun seq =>
           bind (py_iter seq) (fun xs =>
           bind (map_m f xs) (fun xs' =>
             py_setitem (VDict lo) key (VList xs')))))
     (fun _ h' =>
        exists xs ys, py_iter v h = Ok (xs, h) /\ Forall2 (R h) xs ys
          /\ h' = <[lo := dict_set dlo key (VList ys)]> h) h.
Proof.
  intros Hlo Hv Hf.
  apply wp_bind. eapply wp_py_getitem; [exact Hlo|exact Hv|].
  apply wp_bind. apply wp_read.
  { intros a h' H. exact (py_iter_reads _ _ _ _ H). }
  { now left. }
  intros xs Hxs.
  apply wp_bind. apply wp_read.
  { intros a h' H. now apply (map_m_rule f R xs Hf) in H. }
  { now left. }
  intros ys Hys. apply (map_m_rule f R xs Hf) in Hys.
  eapply wp_py_setitem; [exact Hlo|].
  destruct Hys as [_ Hys].
  exists xs, ys. split; [exact Hxs|]. split; [exact Hys|reflexivity].
Qed.

Lemma exact_set_ports (lo : loc) (dlo : dict) (version : ComposeVersion)
      (h : heap) :
  h !! lo = Some dlo ->
  wp True (set_ports legacy_repr (VDict lo) version)
     (fun _ h' =>
        exists d1, h' = <[lo := d1]> h
          /\ match dict_get dlo "ports" with
             | None => d1 = dlo
             | Some v =>
                 exists ps ps', py_iter v h = Ok (ps, h)
                   /\ Forall2 (port_rule legacy_repr version h) ps ps'
                   /\ d1 = dict_set dlo "ports" (VList ps')
             end) h.
Proof.
  intros Hlo. unfold set_ports.
  apply wp_bind. eapply wp_py_in; [exact Hlo|]. unfold dict_has.
  destruct (dict_get dlo "ports") as [v|] eqn:Hv; cbn [when].
  - eapply wp_mono;
      [|apply (exact_rebuild (denormalize_port legacy_repr version)
                 (port_rule legacy_repr version) "ports" lo dlo v h Hlo Hv);
        apply denormalize_port_rule].
    intros _ h' [ps [ps' [Hit [Hps ->]]]].
    eexists. split; [reflexivity|]. exists ps, ps'. auto.
  - exists dlo. split; [symmetry; now apply heap_insert_id|reflexivity].
Qed.

Lemma exact_set_volumes (lo : loc) (dlo : dict) (version : ComposeVersion)
      (h : heap) :
  h !! lo = Some dlo ->
  wp True (set_volumes legacy_repr (VDict lo) version)
     (fun _ h' =>
        exists d1, h' = <[lo := d1]> h
          /\ match dict_get dlo "volumes" with
             | None => d1 = dlo
             | Some v =>
                 if volumes_are_legacy version
                 then exists vs vs', py_iter v h = Ok (vs, h)
                        /\ Forall2 (volume_rule legacy_repr) vs vs'
                        /\ d1 = dict_set dlo "volumes" (VList vs')
                 else d1 = dlo
             end) h.
Proof.
  intros Hlo. unfold set_volumes.
  change (version_ltb version V2_3
          || version_gtb version V3_0 && version_ltb version V3_2)
    with (volumes_are_legacy version).
  apply wp_bind. eapply wp_py_in; [exact Hlo|]. unfold dict_has.
  destruct (dict_get dlo "volumes") as [v|] eqn:Hv; cbn [andb].
  - destruct (volumes_are_legacy version); cbn [when].
    + eapply wp_mono;
        [|apply (exact_rebuild (denormalize_volume legacy_repr)
                   (fun _ => volume_rule legacy_repr) "volumes" lo dlo v h
                   Hlo Hv);
          apply denormalize_volume_rule].
      intros _ h' [vs [vs' [Hit [Hvs ->]]]].
      eexists. split; [reflexivity|]. exists vs, vs'. auto.
    + exists dlo. split; [symmetry; now apply heap_insert_id|reflexivity].
  - cbn [when]. exists dlo.
    split; [symmetry; now apply heap_insert_id|reflexivity].
Qed.

End ServiceExact.

(** ** The health check, exactly *)

Lemma durations_formatted_refl (f : string) (dhc : dict) :
  dict_get dhc f = None -> durations_formatted [f] dhc dhc.
Proof.
  intros Hf. split; [reflexivity|]. split; [apply agree_except_refl|].
  intros g [<-|[]]. now rewrite Hf.
Qed.

Lemma durations_formatted_set (f : string) (dhc : dict) (x : value)
      (s : string) :
  dict_get dhc f = Some x -> serialize_ns_time_value x = Ok s ->
  durations_formatted [f] dhc (dict_set dhc f (VStr s)).
Proof.
  intros Hf Hs. split.
  { apply dict_keys_set_present. unfold dict_has. now rewrite Hf. }
  split; [apply agree_except_set|].
  intros g [<-|[]]. rewrite Hf. exists s. split; [exact Hs|].
  apply dict_get_set_eq.
Qed.

Lemma durations_formatted_step (F : list string) (f : string)
      (dhc d1 d2 : dict) :
  ~ In f F ->
  durations_formatted F dhc d1 -> durations_formatted [f] d1 d2 ->
  durations_formatted (f :: F) dhc d2.
Proof.
  intros Hf [Hk1 [Ha1 Hv1]] [Hk2 [Ha2 Hv2]]. split; [congruence|]. split.
  - intros k Hk. rewrite Ha2 by (simpl in *; intuition).
    apply Ha1. simpl in *. intuition.
  - intros g [<-|Hg].
    + rewrite <- (Ha1 f Hf). apply Hv2. now left.
    + rewrite Ha2 by (intros [<-|[]]; contradiction). now apply Hv1.
Qed.

Lemma durations_formatted_perm (F F' : list string) (dhc dhc' : dict) :
  (forall f, In f F' <-> In f F) ->
  durations_formatted F dhc dhc' -> durations_formatted F' dhc dhc'.
Proof.
  intros HF [Hk [Ha Hv]]. split; [exact Hk|]. split.
  - intros k Hk'. apply Ha. intros Hin. apply Hk'. now apply HF.
  - intros f Hf. apply Hv. now apply HF.
Qed.

Lemma wp_post_true {A : Type} (m : M A) (Q : A -> heap -> Prop) (h : heap) :
  (forall a h', Q a h') -> wp True m Q h.
Proof.
  intros HQ. unfold wp. destruct (m h) as [[a h']|e]; [apply HQ|exact I].
Qed.

Lemma exact_serialize_duration (lo hc : loc) (dlo dhc : dict) (field : string)
      (h : heap) :
  h !! lo = Some dlo -> dict_get dlo "healthcheck" = Some (VDict hc) ->
  h !! hc = Some dhc ->
  wp True (serialize_duration (VDict lo) field)
     (fun _ h' => exists dhc1, h' = <[hc := dhc1]> h
                    /\ durations_formatted [field] dhc dhc1) h.
Proof.
  intros Hlo Hv Hhc. unfold serialize_duration.
  apply wp_bind. eapply wp_py_getitem; [exact Hlo|exact Hv|].
  apply wp_bind. eapply wp_py_in; [exact Hhc|]. unfold dict_has.
  destruct (dict_get dhc field) as [x|] eqn:Hx; cbn [when].
  - apply wp_bind. eapply wp_py_getitem; [exact Hlo|exact Hv|].
    apply wp_bind. eapply wp_py_getitem; [exact Hhc|exact Hx|].
    apply wp_bind. apply wp_read.
    { intros a h' H. now apply lift_reads in H. }
    { now left. }
    intros s Hs. apply lift_reads in Hs. destruct Hs as [_ Hs].
    apply wp_bind. eapply wp_py_getitem; [exact Hlo|exact Hv|].
    eapply wp_py_setitem; [exact Hhc|].
    eexists. split; [reflexivity|].
    now apply (durations_formatted_set field dhc x s).
  - exists dhc. split; [symmetry; now apply heap_insert_id|].
    now apply durations_formatted_refl.
Qed.

Lemma exact_set_healthcheck (lo : loc) (dlo : dict) (h : heap) :
  h !! lo = Some dlo ->
  wp True (set_healthcheck (VDict lo))
     (fun _ h' =>
        forall (hc : loc) (dhc : dict),
          dict_get dlo "healthcheck" = Some (VDict hc) ->
          h !! hc = Some dhc -> hc <> lo ->
          exists dhc', h' = <[hc := dhc']> h
                       /\ durations_formatted duration_keys dhc dhc') h.
Proof.
  intros Hlo.
  destruct (dict_get dlo "healthcheck") as [v|] eqn:Hv;
    [|apply wp_post_true; intros; discriminate].
  destruct v as [|b0|n|s|l0|hc|c fs];
    try (apply wp_post_true; intros; discriminate).
  destruct (h !! hc) as [dhc|] eqn:Hhc;
    [|apply wp_post_true; intros ? ? ? ? H; injection H as <-; congruence].
  destruct (decide (hc = lo)) as [Heq|Hne];
    [apply wp_post_true; intros ? ? ? ? H; injection H as <-; congruence|].
  unfold set_healthcheck.
  apply wp_bind. eapply wp_py_in; [exact Hlo|]. unfold dict_has.
  rewrite Hv. cbn [when].
  apply wp_bind.
  eapply wp_mono;
    [|apply (exact_serialize_duration lo hc dlo dhc "interval" h Hlo Hv Hhc)].
  intros _ h1 [d1 [-> H1]].
  assert (Hlo1 : <[hc := d1]> h !! lo = Some dlo)
    by (rewrite list_lookup_insert_ne by exact Hne; exact Hlo).
  assert (Hhc1 : <[hc := d1]> h !! hc = Some d1)
    by (eapply heap_insert_lookup; exact Hhc).
  apply wp_bind.
  eapply wp_mono;
    [|apply (exact_serialize_duration lo hc dlo d1 "timeout" _ Hlo1 Hv Hhc1)].
  intros _ h2 [d2 [-> H2]]. rewrite heap_insert_insert.
  assert (Hlo2 : <[hc := d2]> h !! lo = Some dlo)
    by (rewrite list_lookup_insert_ne by exact Hne; exact Hlo).
  assert (Hhc2 : <[hc := d2]> h !! hc = Some d2)
    by (eapply heap_insert_lookup; exact Hhc).
  eapply wp_mono;
    [|apply (exact_serialize_duration lo hc dlo d2 "start_period" _
               Hlo2 Hv Hhc2)].
  intros _ h3 [d3 [-> H3]]. rewrite heap_insert_insert.
  intros hc' dhc' Heq Hhc' _. injection Heq as <-.
  rewrite Hhc in Hhc'. injection Hhc' as <-.
  exists d3. split; [reflexivity|].
  apply (durations_formatted_perm ["start_period"; "timeout"; "interval"]).
  { intros f. unfold duration_keys. simpl. tauto. }
  apply (durations_formatted_step ["timeout"; "interval"] "start_period"
           dhc d2 d3); [simpl; intuition discriminate| |exact H3].
  apply (durations_formatted_step ["interval"] "timeout" dhc d1 d2);
    [simpl; intuition discriminate|exact H1|exact H2].
Qed.

(** ** The whole of [denormalize_service_dict], exactly *)

Section ServiceWritten.

Variable serialize_restart_spec : heap -> value -> result value.
Variable legacy_repr : string -> list (string * value) -> result value.

Lemma denormalize_service_dict_exact
      (l : loc) (d : dict) (version : ComposeVersion) (img : value) (h : heap) :
  h !! l = Some d ->
  (forall hc, dict_get d "healthcheck" = Some (VDict hc) -> is_Some (h !! hc)) ->
  wp True (denormalize_service_dict serialize_restart_spec legacy_repr
             (VDict l) version img)
     (service_written serialize_restart_spec legacy_repr version img h d) h.
Proof.
  intros Hl Hhcok. unfold denormalize_service_dict.
  apply wp_bind. unfold wp at 1, py_copy, bind, deref, alloc, ret. rewrite Hl.
  set (lo := length h). set (h1 := (h ++ [d])%list).
  assert (Hlo1 : h1 !! lo = Some d) by apply heap_copy_lookup.
  assert (Hold : forall (dx : dict) l0 d0, h !! l0 = Some d0 ->
                   <[lo := dx]> h1 !! l0 = Some d0).
  { intros dx l0 d0 H0.
    rewrite list_lookup_insert_ne
      by (apply not_eq_sym; eapply old_below; eassumption).
    now apply heap_copy_old. }
  (* image *)
  apply wp_bind. eapply wp_mono; [|apply (exact_set_image lo d img h1 Hlo1)].
  intros [] h2 [b [Hb ->]].
  set (d1 := if b then dict_set d "image" img else d).
  assert (Ha1 : agree_except ["image"] d1 d).
  { unfold d1. destruct b; [apply agree_except_set|apply agree_except_refl]. }
  assert (Hi1 : dict_get d1 "image" = if b then Some img else dict_get d "image").
  { unfold d1. destruct b; [apply dict_get_set_eq|reflexivity]. }
  assert (Hlo2 : <[lo := d1]> h1 !! lo = Some d1)
    by (eapply heap_insert_lookup; eassumption).
  (* restart *)
  apply wp_bind.
  eapply wp_mono;
    [|apply (exact_set_restart serialize_restart_spec lo d1 _ Hlo2)].
  intros [] h3 [d2 [-> Hr2]]. rewrite heap_insert_insert.
  assert (Ha2 : agree_except ["restart"] d2 d1).
  { destruct (dict_get d1 "restart"); [|subst d2; apply agree_except_refl].
    destruct Hr2 as [r' [_ ->]]. apply agree_except_set. }
  assert (Hr2' : match dict_get d "restart" with
                 | None => dict_get d2 "restart" = None
                 | Some r =>
                     exists hr r', serialize_restart_spec hr r = Ok r'
                                   /\ dict_get d2 "restart" = Some r'
                 end).
  { rewrite <- (Ha1 "restart") by notin.
    destruct (dict_get d1 "restart") as [r|] eqn:Hr.
    - destruct Hr2 as [r' [Hr' ->]]. eexists _, r'. split; [exact Hr'|].
      apply dict_get_set_eq.
    - now subst d2. }
  assert (Hlo3 : <[lo := d2]> h1 !! lo = Some d2)
    by (eapply heap_insert_lookup; eassumption).
  (* network_mode *)
  apply wp_bind.
  eapply wp_mono; [|apply (wp_set_network_mode True lo d2 version _ Hlo3)].
  intros [] h4 ->. rewrite heap_insert_insert.
  set (d3 := if version_eqb version V1 && negb (dict_has d2 "network_mode")
             then dict_set d2 "network_mode" (VStr "bridge") else d2).
  assert (Hlo4 : <[lo := d3]> h1 !! lo = Some d3)
    by (eapply heap_insert_lookup; eassumption).
  assert (Ha3 : agree_except ["network_mode"] d3 d2).
  { unfold d3. destruct (_ && _); [apply agree_except_set|apply agree_except_refl]. }
  (* depends_on *)
  apply wp_bind.
  eapply wp_mono; [|apply (wp_set_depends_on True lo d3 version _ Hlo4)].
  2:{ now left. }
  intros [] h5 [d4 [-> [Ha4 _]]]. rewrite heap_insert_insert.
  assert (Hlo5 : <[lo := d4]> h1 !! lo = Some d4)
    by (eapply heap_insert_lookup; eassumption).
  assert (H4d : forall k, ~ In k ["image"; "restart"; "network_mode"; "depends_on"] ->
                          dict_get d4 k = dict_get d k).
  { intros k Hk. rewrite Ha4 by (simpl in *; intuition).
    rewrite Ha3 by (simpl in *; intuition).
    rewrite Ha2 by (simpl in *; intuition).
    apply Ha1. simpl in *. intuition. }
  assert (Hhc4 : dict_get d4 "healthcheck" = dict_get d "healthcheck")
    by (apply H4d; notin).
  assert (Hnlo : dict_get d4 "healthcheck" <> Some (VDict lo)).
  { rewrite Hhc4. intros Heq. destruct (Hhcok lo Heq) as [dx Hdx].
    apply old_below in Hdx. now apply Hdx. }
  (* healthcheck *)
  apply wp_bind.
  eapply wp_mono;
    [|apply wp_conj;
      [apply (wp_set_healthcheck True lo d4 _ Hlo5); now left
      |apply (exact_set_healthcheck lo d4 _ Hlo5)]].
  intros [] h6 [[Hlen6 [_ Hfr6]] Hex6].
  assert (Hlo6 : h6 !! lo = Some d4) by (rewrite Hfr6 by exact Hnlo; exact Hlo5).
  (* ports *)
  apply wp_bind.
  eapply wp_mono; [|apply (exact_set_ports legacy_repr lo d4 version _ Hlo6)].
  intros [] h7 [d6 [-> Hp6]].
  assert (Ha6 : agree_except ["ports"] d6 d4).
  { destruct (dict_get d4 "ports"); [|subst d6; apply agree_except_refl].
    destruct Hp6 as [ps [ps' [_ [_ ->]]]]. apply agree_except_set. }
  assert (Hlo7 : <[lo := d6]> h6 !! lo = Some d6)
    by (eapply heap_insert_lookup; eassumption).
  (* volumes *)
  apply wp_bind.
  eapply wp_mono; [|apply (exact_set_volumes legacy_repr lo d6 version _ Hlo7)].
  intros [] h8 [d7 [-> Hv7]]. rewrite heap_insert_insert.
  assert (Ha7 : agree_except ["volumes"] d7 d6).
  { destruct (dict_get d6 "volumes"); [|subst d7; apply agree_except_refl].
    destruct (volumes_are_legacy version); [|subst d7; apply agree_except_refl].
    destruct Hv7 as [vs [vs' [_ [_ ->]]]]. apply agree_except_set. }
  apply wp_ret.
  assert (Hlen1 : length h1 = S (length h)).
  { unfold h1. rewrite length_app. simpl. lia. }
  assert (H7d4 : forall k, ~ In k ["ports"; "volumes"] ->
                           dict_get d7 k = dict_get d4 k).
  { intros k Hk. rewrite Ha7 by (simpl in *; intuition). apply Ha6.
    simpl in *. intuition. }
  split; [reflexivity|].
  split; [rewrite length_insert, Hlen6, length_insert; exact Hlen1|].
  split.
  { intros l0 d0 H0 Hne.
    rewrite list_lookup_insert_ne
      by (apply not_eq_sym; eapply old_below; eassumption).
    rewrite Hfr6 by (rewrite Hhc4; exact Hne). now apply Hold. }
  split.
  { intros hc dhc Hhc Hdhc.
    assert (Hne : hc <> lo) by (eapply old_below; eassumption).
    destruct (Hex6 hc dhc) as [dhc' [-> Hfmt]];
      [now rewrite Hhc4|now apply Hold|exact Hne|].
    exists dhc'. split; [|exact Hfmt].
    rewrite list_lookup_insert_ne by (apply not_eq_sym; exact Hne).
    eapply heap_insert_lookup. exact (Hold d4 hc dhc Hdhc). }
  exists d7. split; [eapply heap_insert_lookup; eassumption|].
  split.
  { intros k Hk. rewrite H7d4.
    - apply H4d. unfold service_keys in Hk. simpl in *. intuition.
    - unfold service_keys in Hk. simpl in *. intuition. }
  split.
  { exists b. split; [exact Hb|].
    rewrite H7d4 by notin. rewrite Ha4 by notin. rewrite Ha3 by notin.
    rewrite Ha2 by notin. exact Hi1. }
  split.
  { rewrite H7d4 by notin. rewrite Ha4 by notin. rewrite Ha3 by notin.
    exact Hr2'. }
  split.
  { rewrite (Ha7 "ports") by notin. rewrite <- (H4d "ports") by notin.
    destruct (dict_get d4 "ports") as [v|] eqn:Hv.
    - destruct Hp6 as [ps [ps' [Hit [Hps ->]]]].
      exists h6, ps, ps'. split; [exact Hit|]. split; [exact Hps|].
      apply dict_get_set_eq.
    - subst d6. exact Hv. }
  rewrite <- (H4d "volumes") by notin.
  rewrite <- (Ha6 "volumes") by notin.
  destruct (dict_get d6 "volumes") as [v|] eqn:Hv.
  - destruct (volumes_are_legacy version).
    + destruct Hv7 as [vs [vs' [Hit [Hvs ->]]]].
      exists (<[lo := d6]> h6), vs, vs'. split; [exact Hit|].
      split; [exact Hvs|]. apply dict_get_set_eq.
    + subst d7. exact Hv.
  - subst d7. exact Hv.
Qed.

End ServiceWritten.

(** ** A record is denormalized once *)

Lemma formatted_not_number (x : value) (s : string) :
  serialize_ns_time_value x = Ok s ->
  serialize_ns_time_value (VStr s) = Raise ValueError.
Proof.
  unfold serialize_ns_time_value at 1.
  destruct (int_of_value x) as [z|e] eqn:Hz; [|discriminate].
  cbn [rbind]. intros H.
  destruct (promotion_chain_int z) as [k [v [_ [_ Hfmt]]]].
  unfold serialize_ns_time_value in Hfmt. cbn [int_of_value py_int rbind] in Hfmt.
  rewrite Hfmt in H. apply format_pair_ok in H. destruct H as [-> _].
  unfold serialize_ns_time_value, int_of_value.
  now rewrite py_int_of_str_formatted.
Qed.

Lemma serialize_duration_formatted (lo hc : loc) (dlo dhc : dict)
      (field : string) (h : heap) :
  h !! lo = Some dlo -> dict_get dlo "healthcheck" = Some (VDict hc) ->
  h !! hc = Some dhc ->
  (forall x, dict_get dhc field = Some x ->
             exists e, serialize_ns_time_value x = Raise e) ->
  wp True (serialize_duration (VDict lo) field)
     (fun _ h' => h' = h /\ dict_get dhc field = None) h.
Proof.
  intros Hlo Hv Hhc Hbad. unfold serialize_duration.
  apply wp_bind. eapply wp_py_getitem; [exact Hlo|exact Hv|].
  apply wp_bind. eapply wp_py_in; [exact Hhc|]. unfold dict_has.
  destruct (dict_get dhc field) as [x|] eqn:Hx; cbn [when].
  - apply wp_bind. eapply wp_py_getitem; [exact Hlo|exact Hv|].
    apply wp_bind. eapply wp_py_getitem; [exact Hhc|exact Hx|].
    apply wp_bind. destruct (Hbad x eq_refl) as [e He].
    unfold wp at 1, lift. rewrite He. exact I.
  - split; reflexivity.
Qed.

Lemma set_healthcheck_formatted (lo hc : loc) (dlo dhc : dict) (h : heap) :
  h !! lo = Some dlo -> dict_get dlo "healthcheck" = Some (VDict hc) ->
  h !! hc = Some dhc ->
  (forall f x, In f duration_keys -> dict_get dhc f = Some x ->
               exists e, serialize_ns_time_value x = Raise e) ->
  (exists f, In f duration_keys /\ dict_has dhc f = true) ->
  wp True (set_healthcheck (VDict lo)) (fun _ _ => False) h.
Proof.
  intros Hlo Hv Hhc Hbad [f [Hf Hhas]]. unfold set_healthcheck.
  apply wp_bind. eapply wp_py_in; [exact Hlo|]. unfold dict_has.
  rewrite Hv. cbn [when].
  apply wp_bind.
  eapply wp_mono;
    [|apply (serialize_duration_formatted lo hc dlo dhc "interval" h
               Hlo Hv Hhc);
      intros x; apply Hbad; simpl; auto].
  intros _ h1 [-> H1]. apply wp_bind.
  eapply wp_mono;
    [|apply (serialize_duration_formatted lo hc dlo dhc "timeout" h
               Hlo Hv Hhc);
      intros x; apply Hbad; simpl; auto].
  intros _ h2 [-> H2].
  eapply wp_mono;
    [|apply (serialize_duration_formatted lo hc dlo dhc "start_period" h
               Hlo Hv Hhc);
      intros x; apply Hbad; simpl; auto].
  intros _ h3 [-> H3].
  unfold dict_has in Hhas. simpl in Hf.
  destruct Hf as [<-|[<-|[<-|[]]]].
  - now rewrite H1 in Hhas.
  - now rewrite H2 in Hhas.
  - now rewrite H3 in Hhas.
Qed.

Lemma wp_never {A B : Type} (m : M A) (f : A -> M B) (Q : B -> heap -> Prop)
      (h : heap) :
  wp True m (fun _ _ => False) h -> wp True (bind m f) Q h.
Proof.
  intros H. apply wp_bind. eapply wp_mono; [|exact H]. intros a h' [].
Qed.

Section Once.

Variable serialize_restart_spec : heap -> value -> result value.
Variable legacy_repr : string -> list (string * value) -> result value.

Lemma denormalize_service_dict_formatted
      (l hc : loc) (d dhc : dict) (version : ComposeVersion) (img : value)
      (h : heap) :
  h !! l = Some d -> dict_get d "healthcheck" = Some (VDict hc) ->
  h !! hc = Some dhc ->
  (forall f x, In f duration_keys -> dict_get dhc f = Some x ->
               exists e, serialize_ns_time_value x = Raise e) ->
  (exists f, In f duration_keys /\ dict_has dhc f = true) ->
  wp True (denormalize_service_dict serialize_restart_spec legacy_repr
             (VDict l) version img)
     (fun _ _ => False) h.
Proof.
  intros Hl Hv Hhc Hbad Hsome. unfold denormalize_service_dict.
  apply wp_bind. unfold wp at 1, py_copy, bind, deref, alloc, ret. rewrite Hl.
  set (lo := length h). set (h1 := (h ++ [d])%list).
  assert (Hlo1 : h1 !! lo = Some d) by apply heap_copy_lookup.
  assert (Hold : forall dx : dict, <[lo := dx]> h1 !! hc = Some dhc).
  { intros dx.
    rewrite list_lookup_insert_ne
      by (apply not_eq_sym; eapply old_below; eassumption).
    now apply heap_copy_old. }
  apply wp_bind.
  eapply wp_mono; [|apply (wp_set_image True lo d img h1 Hlo1); now left].
  intros [] h2 [d1 [-> Ha1]].
  assert (Hlo2 : <[lo := d1]> h1 !! lo = Some d1)
    by (eapply heap_insert_lookup; eassumption).
  apply wp_bind.
  eapply wp_mono;
    [|apply (wp_set_restart serialize_restart_spec True lo d1 _ Hlo2);
      now left].
  intros [] h3 [d2 [-> Ha2]]. rewrite heap_insert_insert.
  assert (Hlo3 : <[lo := d2]> h1 !! lo = Some d2)
    by (eapply heap_insert_lookup; eassumption).
  apply wp_bind.
  eapply wp_mono; [|apply (wp_set_network_mode True lo d2 version _ Hlo3)].
  intros [] h4 ->. rewrite heap_insert_insert.
  set (d3 := if version_eqb version V1 && negb (dict_has d2 "network_mode")
             then dict_set d2 "network_mode" (VStr "bridge") else d2).
  assert (Hlo4 : <[lo := d3]> h1 !! lo = Some d3)
    by (eapply heap_insert_lookup; eassumption).
  assert (Ha3 : agree_except ["network_mode"] d3 d2).
  { unfold d3. destruct (_ && _); [apply agree_except_set|apply agree_except_refl]. }
  apply wp_bind.
  eapply wp_mono;
    [|apply (wp_set_depends_on True lo d3 version _ Hlo4); now left].
  intros [] h5 [d4 [-> [Ha4 _]]]. rewrite heap_insert_insert.
  assert (Hlo5 : <[lo := d4]> h1 !! lo = Some d4)
    by (eapply heap_insert_lookup; eassumption).
  assert (Hv4 : dict_get d4 "healthcheck" = Some (VDict hc)).
  { rewrite Ha4 by notin. rewrite Ha3 by notin. rewrite Ha2 by notin.
    rewrite Ha1 by notin. exact Hv. }
  apply wp_never.
  exact (set_healthcheck_formatted lo hc d4 dhc _ Hlo5 Hv4 (Hold d4) Hbad Hsome).
Qed.

End Once.

Lemma formatted_bad (dhc dhc' : dict) :
  durations_formatted duration_keys dhc dhc' ->
  forall f x, In f duration_keys -> dict_get dhc' f = Some x ->
              exists e, serialize_ns_time_value x = Raise e.
Proof.
  intros [_ [_ Hfmt]] f x Hf Hx. specialize (Hfmt f Hf).
  destruct (dict_get dhc f) as [x0|]; [|congruence].
  destruct Hfmt as [s [Hs Hget]]. rewrite Hget in Hx. injection Hx as <-.
  exists ValueError. exact (formatted_not_number x0 s Hs).
Qed.

Lemma formatted_present (dhc dhc' : dict) (f : string) :
  durations_formatted duration_keys dhc dhc' ->
  In f duration_keys -> dict_has dhc f = true -> dict_has dhc' f = true.
Proof.
  intros [_ [_ Hfmt]] Hf Hhas. specialize (Hfmt f Hf). unfold dict_has in *.
  destruct (dict_get dhc f) as [x0|]; [|discriminate].
  destruct Hfmt as [s [_ ->]]. reflexivity.
Qed.

(** X10. The health check is formatted in place.  When the health check
    of a record is an object of the store and the call returns, the new
    record refers to that same object, and the object now holds, under
    each of the keys [interval], [timeout] and [start_period] that it
    had, the text that [serialize_ns_time_value] gives for the old
    value; its other items and the order of its keys are unchanged. *)
Theorem denormalize_service_dict_formats_in_place
        (serialize_restart_spec : heap -> value -> result value)
        (legacy_repr : string -> list (string * value) -> result value)
        (l hc : loc) (d dhc : dict) (version : ComposeVersion) (img : value)
        (h : heap) (out : value) (h' : heap) :
  h !! l = Some d -> dict_get d "healthcheck" = Some (VDict hc) ->
  h !! hc = Some dhc ->
  denormalize_service_dict serialize_restart_spec legacy_repr
    (VDict l) version img h = Ok (out, h') ->
  exists d' dhc',
    out = VDict (length h) /\ h' !! length h = Some d'
    /\ dict_get d' "healthcheck" = Some (VDict hc)
    /\ h' !! hc = Some dhc'
    /\ dict_keys dhc' = dict_keys dhc
    /\ (forall k, ~ In k ["interval"; "timeout"; "start_period"] ->
                  dict_get dhc' k = dict_get dhc k)
    /\ forall f, In f ["interval"; "timeout"; "start_period"] ->
         match dict_get dhc f with
         | None => dict_get dhc' f = None
         | Some x =>
             exists s, serialize_ns_time_value x = Ok s
                       /\ dict_get dhc' f = Some (VStr s)
         end.
Proof.
  intros Hl Hv Hhc Hrun.
  assert (Hok : forall hc0, dict_get d "healthcheck" = Some (VDict hc0) ->
                            is_Some (h !! hc0)).
  { intros hc0 H0. rewrite Hv in H0. injection H0 as <-. eauto. }
  pose proof (wp_run True _ _ _ _ _
                (denormalize_service_dict_exact serialize_restart_spec
                   legacy_repr l d version img h Hl Hok) Hrun) as Hpost.
  destruct Hpost as [-> [_ [_ [Hfmt [d' [Hd' [Hagree _]]]]]]].
  destruct (Hfmt hc dhc Hv Hhc) as [dhc' [Hdhc' [Hk [Ha Hf]]]].
  exists d', dhc'. split; [reflexivity|]. split; [exact Hd'|].
  split; [rewrite Hagree by (unfold service_keys; notin); exact Hv|].
  split; [exact Hdhc'|]. split; [exact Hk|]. split; [exact Ha|exact Hf].
Qed.

Lemma denormalize_service_dict_formats_in_place_witness :
  exists d' dhc',
    VDict 2%nat = VDict (length health_store)
    /\ health_store_after !! 2%nat = Some d'
    /\ dict_get d' "healthcheck" = Some (VDict 1%nat)
    /\ health_store_after !! 1%nat = Some dhc'
    /\ dict_get dhc' "interval" = Some (VStr "90s")
    /\ dict_get dhc' "retries" = Some (VNum (PyInt 3)).
Proof.
  destruct (denormalize_service_dict_formats_in_place
              (fun _ _ => Ok (VStr "no")) (fun _ _ => Ok (VStr "80"))
              0%nat 1%nat
              [("name", VStr "web"); ("healthcheck", VDict 1%nat)]
              [("interval", VNum (PyInt 90000000000));
               ("retries", VNum (PyInt 3))]
              [3; 5] VNone health_store (VDict 2%nat) health_store_after)
    as [d' [dhc' [Hout [Hd' [Hhc [Hdhc' [_ [Hsame Hfmt]]]]]]]];
    try reflexivity.
  exists d', dhc'. split; [exact Hout|]. split; [exact Hd'|].
  split; [exact Hhc|]. split; [exact Hdhc'|]. split.
  - specialize (Hfmt "interval"). cbn in Hfmt.
    destruct Hfmt as [s [Hs Hget]]; [auto|].
    vm_compute in Hs. injection Hs as <-. exact Hget.
  - rewrite Hsame; [reflexivity|]. cbn. intuition discriminate.
Defined.

(** X11. A record with a health check is denormalized once.  When the
    health check of a record is an object of the store that has at least
    one of the three durations, and a call on the record has returned,
    no later call returns, whatever the version and the digest: neither
    on the same record nor on the record that the call returned, since
    the durations of the shared health check are texts by then. *)
Theorem denormalize_service_dict_once
        (serialize_restart_spec : heap -> value -> result value)
        (legacy_repr : string -> list (string * value) -> result value)
        (l hc : loc) (d dhc : dict) (f : string)
        (version : ComposeVersion) (img : value)
        (h : heap) (out : value) (h' : heap) :
  h !! l = Some d -> dict_get d "healthcheck" = Some (VDict hc) ->
  h !! hc = Some dhc ->
  In f ["interval"; "timeout"; "start_period"] -> dict_has dhc f = true ->
  denormalize_service_dict serialize_restart_spec legacy_repr
    (VDict l) version img h = Ok (out, h') ->
  forall (record : value) (version2 : ComposeVersion) (img2 : value)
         (r : value * heap),
    record = VDict l \/ record = out ->
    denormalize_service_dict serialize_restart_spec legacy_repr
      record version2 img2 h' <> Ok r.
Proof.
  intros Hl Hv Hhc Hf Hhas Hrun record version2 img2 r Hrec.
  assert (Hok : forall hc0, dict_get d "healthcheck" = Some (VDict hc0) ->
                            is_Some (h !! hc0)).
  { intros hc0 H0. rewrite Hv in H0. injection H0 as <-. eauto. }
  pose proof (wp_run True _ _ _ _ _
                (denormalize_service_dict_exact serialize_restart_spec
                   legacy_repr l d version img h Hl Hok) Hrun) as Hpost.
  destruct Hpost as [-> [_ [Hframe [Hfmt [d' [Hd' [Hagree _]]]]]]].
  destruct (Hfmt hc dhc Hv Hhc) as [dhc' [Hdhc' Hform]].
  assert (Hrecord : exists l2 d2, record = VDict l2 /\ h' !! l2 = Some d2
                      /\ dict_get d2 "healthcheck" = Some (VDict hc)).
  { destruct Hrec as [->| ->].
    - destruct (decide (l = hc)) as [->|Hne].
      + exists hc, dhc'. split; [reflexivity|]. split; [exact Hdhc'|].
        rewrite Hhc in Hl. injection Hl as ->.
        destruct Hform as [_ [Ha _]]. rewrite Ha; [exact Hv|].
        unfold duration_keys. simpl. intuition discriminate.
      + exists l, d. split; [reflexivity|]. split; [|exact Hv].
        apply Hframe; [exact Hl|]. rewrite Hv. congruence.
    - exists (length h), d'. split; [reflexivity|]. split; [exact Hd'|].
      rewrite Hagree; [exact Hv|]. unfold service_keys. simpl.
      intuition discriminate. }
  destruct Hrecord as [l2 [d2 [-> [Hl2 Hv2]]]].
  intros Hrun2. destruct r as [out2 h2].
  exact (wp_run True _ _ _ _ _
           (denormalize_service_dict_formatted serialize_restart_spec
              legacy_repr l2 hc d2 dhc' version2 img2 h' Hl2 Hv2 Hdhc'
              (formatted_bad dhc dhc' Hform)
              (ex_intro _ f (conj Hf (formatted_present dhc dhc' f Hform Hf Hhas))))
           Hrun2).
Qed.

Lemma denormalize_service_dict_once_witness :
  denormalize_service_dict
    (fun _ _ => Ok (VStr "no")) (fun _ _ => Ok (VStr "80"))
    (VDict 0%nat) [2; 1] VNone health_store_after
  <> Ok (VDict 3%nat, health_store_after).
Proof.
  apply (denormalize_service_dict_once
           (fun _ _ => Ok (VStr "no")) (fun _ _ => Ok (VStr "80"))
           0%nat 1%nat
           [("name", VStr "web"); ("healthcheck", VDict 1%nat)]
           [("interval", VNum (PyInt 90000000000));
            ("retries", VNum (PyInt 3))]
           "interval" [3; 5] VNone health_store (VDict 2%nat)
           health_store_after);
    try reflexivity.
  - simpl. auto.
  - left. reflexivity.
Defined.
